(* ===== verification/_CoqProject ===== *)
-Q . S2P
Prelude.v
RustStd.v
Crypto.v
Protocol.v
Canonical.v
Samples.v
ProtocolProps.v
Sys.v
Ownership.v
Io.v
Transport.v
Sim.v
TransportProps.v
Frame.v
FrameDecode.v
Trust.v
Common.v
Keys.v
Config.v
Replay.v
Request.v
Verdict.v
RequestProps.v
RequestTypes.v
Termination.v
FakeAgent.v
Main.v
Fuel.v
CacheSpec.v
Automaton.v
AgentServer.v
ReplayClient.v
ReplaySystem.v
Live.v
LiveRequest.v
EndToEnd.v
ProtocolTests.v
FrameTests.v
TransportTests.v
Disk.v
TrustTests.v
Pam.v
PamProps.v
Cli.v
Subcommands.v
Authentication.v
PamSim.v
MacProtocol.v
RateLimiter.v
MacAgent.v
MacAgentProps.v
MacReturns.v
Agreement.v
MacFiles.v
MacFilesProps.v
MacKeys.v
MacConfig.v
MacKeysProps.v
MacConfigProps.v
MacListener.v
MacListenerProps.v
MacThreads.v
MacServer.v
MacServerProps.v
MacCli.v
MacSim.v
MacHost.v
