(* ===== verification/Prelude.v ===== *)
(** * macos-auth: verification from [sudo] to the user of the Mac

    macos-auth lets [sudo] on a Linux host be approved on a Mac.  The PAM
    module runs the helper, [macos-auth-helper request]; the helper signs a
    request, sends it over a Unix socket that [ssh] forwards to the agent on
    the Mac, and checks the signed response.  Its exit status is the verdict:
    the PAM module takes 0 for success and nothing else.  The agent verifies
    the request, asks the user, and signs the answer.  This library models
    the Rust part (the protocol crate and the whole helper), the PAM module in
    C, and the agent in Swift; it proves what each promises, and, put together,
    what a success of [sudo] means.

    ** Parts, and the code they model

    Under [src/crates/protocol/src/lib.rs]:
    - [Protocol]: the bodies and signed bodies of requests and responses,
      [validate], [canonical_bytes], [sha256], [verify_freshness], [sign],
      [verify], [verify_binding], [verify_for_request] and the [encode_*]
      functions.  A Rust module with its type [T] is a Coq module with its
      type [t]; methods keep their names.
    - [Canonical]: the canonical encoding as a composition of codecs, which
      gives injectivity, decoding and the separation of the two domains.
    - [ProtocolProps]: the theorems about the crate.
    Under [src/crates/helper/src/transport.rs]:
    - [Transport]: [check_deadline], [wait], [DeadlineStream::connect],
      [transfer] and the [Read] and [Write] implementations.  Each loop is a
      [loop] over a [_round] that models one turn of its body.
    - [TransportProps]: the discipline of the deadline and termination.
    Under [src/crates/helper/src/trust.rs]:
    - [Trust]: [validate], [open] (the loop over the components is [walk]),
      [create_marker] and [cleanup_markers] (one entry is [cleanup_entry]),
      with [parse_expires_at_ms] of [main.rs], which the cleaning is given.
    Under [src/crates/helper/src/main.rs]:
    - [Frame]: [write_json_frame] and [read_json_frame], over any stream;
      [FrameDecode]: the decoder that the reader is compared with.
    - [Common]: exit codes, [unix_time_ms], [operation_budget].
    - [Keys]: [read_trusted_file], [read_key_material], the loaders of private
      and public keys, key generation and the writers of key files.
    - [Config]: [load_helper_config], [prepare_config],
      [validate_config_fields].
    - [Replay]: [record_replay_marker].
    - [Request]: [run_request], in the order of the source; its tail is cut
      into [send_request] (from the clock to the signature), [exchange] (from
      the connection to the response) and [conclude] (the verdict).  [Verdict]
      has the theorems about [conclude], [RequestProps] those about the run,
      [RequestTypes] the widths of what is sent, and [Termination] that a run
      ends.
    - [FakeAgent]: [run_fake_agent] and [remove_stale_socket]; one turn of its
      accept loop is [fake_round].  [AgentServer]: the agent as a server, an
      automaton over its calls that answers one client after the other.
    - [Main]: [run], [main] and the key, sample and test-vector commands;
      [Fuel]: that the fuel decides nothing.

    Under [src/pam/pam_macos_auth.c]:
    - [Pam]: the module, its functions under their names; a loop is a [loop]
      over its turn ([wait_round], [close_listed]) or a fixpoint over what it
      counts or walks ([grace], [walk_helper]).  The child of [fork] is the
      program [child_program], an argument of the call; [fexecve] makes it the
      program that the descriptor holds.
    - [PamProps]: the options, the path of the helper, the life of the child,
      and that the module answers.
    - [Cli]: how the arguments of [request] become [RequestArgs], and the
      process [helper_main] around [main] (of [main.rs]); [Subcommands]: the
      options of all its subcommands, and the command of a line of them.
    Under [src/agent/Sources/MacosAuthAgent]:
    - [MacProtocol]: the bodies and encoders of [main.swift], and that they
      agree with [Protocol].
    - [RateLimiter]: [RateLimiter] of [main.swift], against a limiter that
      forgets nothing.
    - [MacAgent]: [handleServeRequest] and what it calls in [main.swift],
      [Transport.swift] and [Authentication.swift]; its tail is cut into
      [judge] (the limiter and the user) and [respond].  The block that asks
      the user on the main thread is [session_block], an argument of the call
      that schedules it.
    - [MacAgentProps]: the abstract server [served] and that the handler
      refines it; [MacReturns]: that every connection ends.
    - [MacFiles]: what the agent reads and writes, of [SecureFiles.swift] and
      [main.swift]; [MacKeys]: hexadecimal text, key files, the keychain and
      the commands on keys; [MacConfig]: the configuration, its hosts and the
      runtime made of it.  Their theorems are in [MacFilesProps],
      [MacKeysProps] and [MacConfigProps].
    - [MacListener]: [UnixSocketListener] of [Transport.swift];
      [MacServer]: [runSocketServer] and [ConnectionPool], a step relation
      of the threads, and [runServe].  Their theorems are in
      [MacListenerProps] and [MacServerProps]; [MacThreads] has the turn that
      the connections share.
    - [MacCli]: the command line of the agent, a table of options for each
      command, and the process around it.

    The parts together:
    - [Authentication]: the module with the helper as its child.  [Agreement]:
      both with the agent.
    - [CacheSpec]: what the replay cache promises, without files: a set of
      markers that expire.  [Automaton]: computations that keep to an
      automaton over system calls.  [ReplayClient]: what one helper does in the cache
      directory, as an automaton over its calls.  [ReplaySystem]: any number of
      helpers on one directory, their calls merged in any order, implement
      [CacheSpec].
    - [Live]: what a prompt kernel and peer are (the class [Prompt]) and what
      the transport and the frames achieve with them; [LiveRequest]: the
      connection, the replay marker, the exchange and the agent's answer;
      [EndToEnd]: the helper is answered, and the helper and the fake agent
      agree.

    Tests, as functions that pass or panic:
    - [ProtocolTests]: [mod tests] of the protocol crate, and the targets under
      [src/fuzz/fuzz_targets].
    - [FrameTests]: the frame tests of [main.rs] over socket pairs, and the test
      of error kinds of [transport.rs]; [TransportTests]: the tests of
      [transport.rs] that measure how long a call blocks.
    - [Disk]: a kernel with a file system in memory.  [TrustTests]: the tests of
      [trust.rs], and those of [main.rs] that use the replay cache, run on it.

    What these stand on:
    - [Prelude]: bytes, results, the notations and lemmas all parts share.
    - [RustStd]: the methods of the standard library on integers, byte
      strings, [str] and [Path] that the source uses, as functions.
    - [Sys]: system calls and the effect monad; [Ownership]: the accounting of
      open descriptors; [Io]: the [Read] and [Write] traits as classes with
      laws, and their provided methods ([read_exact], [write_all],
      [read_to_string]).
    - [Crypto]: the interface to [ed25519_dalek] and [sha2].
    - [Samples], [Sim], [PamSim], [MacSim], [MacHost]: concrete values, a
      computing kernel, one with processes and PAM, a Mac whose user approves,
      and one with files, a keychain and sockets; used by the witnesses only.

    ** How state and effects are modelled

    The program's state is the operating system's.  [Kernel W] has one
    operation per system call over an arbitrary world [W], and nothing is
    assumed about its answers: a theorem about a run holds for every kernel,
    file system, clock and peer, and for whatever they do between two calls.
    A computation takes the world and the log of the calls made so far; it
    ends in [Ok], in [Err], in a panic or out of fuel.  Properties speak of
    the log (what was opened, read, sent, removed, and after which clock
    reading), which no definition reads.

    [?] is [let!] with [into] for the conversion of errors; a [match] that
    turns an error into an exit code is [try! .. else .. in ..].  A value that
    owns a descriptor is closed where the source drops it: at the end of a
    block ([scoped]), on an early return ([owned]), or by an assignment (an
    explicit [close]).  Integers are [N] with the bounds of their Rust type
    written out; [+] in [build_request], the one unchecked addition of [u64],
    panics or wraps as the parameter [overflow_checks] says.  Strings are
    their UTF-8 bytes, and paths are bytes.

    Parameters stand for code that is not the program's, with laws as
    hypotheses of the theorems that need them:
    - [Crypto], [CryptoLaws]: keys, signatures and SHA-256.  A signature made
      with a key verifies under its public half; no theorem assumes that
      signatures are unforgeable or that the hash has no collisions.
    - [Hex], [Toml], [SerdeJson], [SerdePretty]: the text formats.  Their laws
      are round trips of values through text.
    - [shared] (of [ReplaySystem]): the directory of the replay cache is one
      store for all helpers: exclusive creation, a name leads to one file,
      reads are at the offset of the descriptor, and a write to a marker takes
      all of a piece or fails.  [Prompt]: for a number of calls the clocks are
      in time, the socket moves at least a byte at a time and the directory
      takes the marker, with a bounded number of interruptions.
      [SocketPairLaws]: one end gives what was written to the other.
    - [PamKernel]: what the module asks of PAM and of processes.
      [ProcessLaws]: a status of [waitpid] that says that the child exited is
      the one that a run of the child's program ended with.  [PamProgress]: the
      monotonic clock passes any time after finitely many readings.
      [installed]: the file at the helper's path holds the helper.
    - [Clap], [ClapLaws], [SubcommandLaws]: the parser of command lines, and
      what it documents of a line of options that each occur at most once, for
      [request] as the module calls it and for every subcommand.
    - [Bench]: the machine that measures: its clock moves little during a call
      and not much more than asked for while it waits; a socket whose peer does
      not read, and a queue of connections that nobody takes, fill up.
    - [MacKernel]: the clocks of the Mac, the flag, the turn, the session and
      the history that its threads share, and the screen.  [SessionLaws]: a
      session has no result but what a run of its block completed with.
      [UptimeProgress]: as [PamProgress], for the uptime.  [CryptoKit],
      [JSONCoder], [SwiftText]: signatures, JSON, and Unicode as Swift has
      them; [CryptoKitLaws]: a signature made verifies under Ed25519;
      [DecodersTyped]: a number that does not fit its field is refused.
    - [MacFiles], [MacSockets], [Keychain]: the calls of the agent's commands
      on files, sockets and the keychain.  [FileURL], [SwiftString],
      [KitKeys], [ConfigCoder]: the paths and the text of Foundation, the raw
      forms of keys and the JSON of the configuration; their laws
      ([SwiftStringLaws], [KitKeysLaws], [ConfigLaws]) are round trips, and what
      is trimmed.  What the calls do to a directory is [folder_run], what they
      do to the turn [slot_run]: a theorem that needs it is about the calls
      that these account for.
    - [Kernel]: [k_open] with its flags stands for [File::open],
      [OpenOptions::open] and [libc::open]; [k_socket], [k_connect] and the
      others for what [std] and [libc] call.  [std] retries [open] and
      [accept] after [EINTR] on its own; that is inside the kernel operation.

    ** Fuel

    One [fuel] bounds every loop of a run; a run out of fuel is an outcome of
    its own, never a result.  [request_returns] shows that a run of the
    request command with enough fuel never runs out of it, under [Progress]:
    the clock advances, listings are finite and calls are not interrupted for
    ever.  Enough is the readings of the clock and the interruptions still to
    come, plus the length of a listing and the limit of a trusted text.
    [transport_terminates] bounds the transport by its own deadline,
    [pam_answers] the module by its timeout, and [mac_handler_returns] the
    agent's handler by the deadline of the connection.  The
    accept loop of the fake agent serves until it is stopped.
    [fuel_irrelevant] shows that more fuel changes no result and no call of a
    run that did not run out of it.

    ** What the theorems show

    - From end to end: [sudo_means_recognised] (a success of [sudo], with a
      response that an agent signed, means that its user was recognised for
      this very request, or a collision of SHA-256 is known).
    - The PAM module: [pam_success_is_approval] and [pam_fallback_is_safe]
      (what its answers rest on), [pam_child_lifecycle] (the child is waited
      for exactly once, and signalled only before), [pam_answers],
      [pam_keeps_no_descriptor].
    - The agent on the Mac: [mac_agent_serves] (no signing oracle, and no
      approval but the user's), [mac_answer_accepted] (the helper takes its
      answers), [mac_encodes_as_the_crate] and [mac_freshness] (the two
      implementations of the protocol), [rate_limit_exact],
      [mac_handler_returns].
    - The agent as a server: [one_session_at_a_time] (for all its connections),
      [server_pool_accounts] (at most eight, each closed once, and the server
      comes to rest), [once_serves_one_connection],
      [listener_touches_only_its_socket].
    - The agent's files and commands: [config_replaced_whole],
      [hosts_edits_the_file], [runtime_from_trusted_files],
      [init_key_read_by_both] (by the agent and by the helper),
      [command_lines_exact], [commands_never_trap].
    - The helper's command line: [command_line_round_trip].
    - The verdict: [request_status_zero_is_approval] (status 0 means an
      authentic approval of a request of this run),
      [decision_is_authenticated], [response_verdict] (each branch),
      [request_exit_codes], [honest_response_never_tampered].
    - Liveness: [prompt_agent_is_heard] (an authentic answer in time ends in
      the exit code of its decision), [helper_hears_fake_agent] (the two
      programs of the repository understand each other).
    - The fake agent: [fake_agent_is_server] (any run, cut short anywhere),
      [fake_agent_answers].
    - Replay: [helper_keeps_protocol] and [replay_cache_refines] (the helpers
      that share a directory implement the abstract cache),
      [replay_accepted_once] (whatever the interleaving),
      [replay_rejected_until_expiry] (one helper, on any kernel),
      [replay_marker_recorded], [cleanup_removes_only_expired],
      [marker_round_trip].
    - Time: [request_within_budget], [deadline_discipline],
      [transport_terminates], [request_returns], [request_freshness_exact],
      [fuel_irrelevant].
    - The protocol: decodable, hence injective canonical bytes
      ([request_canonical_roundtrip], [response_canonical_roundtrip],
      [request_canonical_injective], [response_canonical_injective],
      [request_response_domains_disjoint], [request_canonical_errors]); what
      acceptance means ([verify_for_request_exact],
      [doubly_bound_is_collision]); what is sent ([sent_request_well_typed]);
      honest parties are accepted ([signed_request_verifies],
      [honest_response_accepted], [test_vector_verifies]).
    - The wire: [frame_reader_decodes] (the reader is a pure decoder),
      [frames_on_the_wire], [frame_round_trip], [oversized_frames_refused].
    - Files: [validate_exact], [open_walks_trusted], [open_refuses_lexically],
      [trusted_file_bounded], [production_keys_from_trusted_files],
      [key_file_round_trip], [generated_keys_load], [validate_config_exact],
      [prepare_config_relocates].
    - Resources: [request_keeps_no_descriptor], [trust_keeps_no_descriptor].
    - Tests: [protocol_tests_pass], [frame_tests_pass], [trust_tests_pass],
      [transport_tests_pass],
      [generated_vector_passes] (the vector of [test-vector] passes the tests
      of the crate), [enum_matrix_complete] (what a table that passes is).

    A theorem with hypotheses is followed by its [_witness], the theorem at a
    concrete run.

    ** Not modelled

    Messages on standard error and in the system's log; the texts of JSON, TOML
    and hexadecimal digits of the helper themselves; drops while a panic
    unwinds; how [read_to_string] sizes its buffer (one size stands for it, and
    the theorems hold for every split of the transfers).  The tests that run
    the built programs: the models of those programs are what the other
    theorems are about.  Of the PAM module, the branch that is built on macOS
    for development.  Of the agent, the lock around [umask] and [bind], which
    only orders threads of one process, and the tests in Swift.  Packaging and
    scripts.

    The two programs of [helper_hears_fake_agent] run on a kernel each, joined
    by the bytes on the wire; the laws of [shared] are
    shown of the calls of four helpers, merged (the witness of
    [replay_cache_refines]), not of the disk of [Disk]. *)

From Stdlib Require Import NArith ZArith Lia List Bool.
From Stdlib Require Import Strings.Byte Strings.String.
From stdpp Require Import base decidable list option.

#[export] Set Default Goal Selector "!".

(** ** Bytes and byte strings *)

Abbreviation byte := Byte.byte.
Abbreviation bytes := (list Byte.byte).

#[export] Instance byte_eq_decision : EqDecision byte := Byte.byte_eq_dec.

(** Literals: [b"sudo"] of the source is [B "sudo"]. *)
Definition B (s : String.string) : bytes := list_byte_of_string s.
Arguments B s%_string_scope.

(** The value of a byte, and the byte of a value modulo 256 ([as u8]). *)
Definition byte_val (b : byte) : N := Byte.to_N b.
Definition byte_of (n : N) : byte :=
  match Byte.of_N (n mod 256) with Some b => b | None => x00 end.

Lemma byte_val_bound b : (byte_val b < 256)%N.
Proof. pose proof (Byte.to_N_bounded b). unfold byte_val. lia. Qed.

Lemma byte_val_of n : byte_val (byte_of n) = (n mod 256)%N.
Proof.
  unfold byte_of, byte_val.
  destruct (Byte.of_N (n mod 256)) as [b|] eqn:E.
  - by apply Byte.to_of_N.
  - apply Byte.of_N_None_iff in E.
    pose proof (N.mod_upper_bound n 256 ltac:(lia)). lia.
Qed.

Lemma byte_of_val b : byte_of (byte_val b) = b.
Proof.
  unfold byte_of. rewrite N.mod_small by apply byte_val_bound.
  unfold byte_val. by rewrite Byte.of_to_N.
Qed.

Lemma byte_val_inj b1 b2 : byte_val b1 = byte_val b2 -> b1 = b2.
Proof. intros H. rewrite <- (byte_of_val b1), <- (byte_of_val b2). by f_equal. Qed.

(** ** Results

    [Result<T, E>] of the source, its [?] operator and [map_err]. *)

Inductive result (A E : Type) : Type :=
| Ok (a : A)
| Err (e : E).
Arguments Ok {A E} a.
Arguments Err {A E} e.

Definition result_bind {A B E} (r : result A E) (k : A -> result B E) : result B E :=
  match r with Ok a => k a | Err e => Err e end.
Definition map_err {A E F} (f : E -> F) (r : result A E) : result A F :=
  match r with Ok a => Ok a | Err e => Err (f e) end.
Definition ok_or {A E} (o : option A) (e : E) : result A E :=
  match o with Some a => Ok a | None => Err e end.
Definition is_ok {A E} (r : result A E) : bool :=
  match r with Ok _ => true | Err _ => false end.
Definition is_err {A E} (r : result A E) : bool := negb (is_ok r).

Declare Scope rust_scope.
Delimit Scope rust_scope with rust.
Notation "'let?' x := r 'in' k" := (result_bind r (fun x => k))
  (at level 10, x pattern, r at level 100, k at level 200) : rust_scope.
Notation "'guard!' b 'else' e ';;' k" := (if b then k else Err e)
  (at level 10, b at level 99, e at level 99, k at level 200) : rust_scope.
Open Scope rust_scope.

#[export] Instance result_eq_decision `{EqDecision A, EqDecision E} : EqDecision (result A E).
Proof. solve_decision. Defined.

Lemma result_bind_ok {A B E} (r : result A E) (k : A -> result B E) b :
  result_bind r k = Ok b <-> exists a, r = Ok a /\ k a = Ok b.
Proof. destruct r; simpl; naive_solver. Qed.

Lemma result_bind_err {A B E} (r : result A E) (k : A -> result B E) e :
  result_bind r k = Err e <-> r = Err e \/ exists a, r = Ok a /\ k a = Err e.
Proof. destruct r; simpl; naive_solver. Qed.

Lemma map_err_ok {A E F} (f : E -> F) (r : result A E) a :
  map_err f r = Ok a <-> r = Ok a.
Proof. destruct r; simpl; naive_solver. Qed.

Lemma ok_or_ok {A E} (o : option A) (e : E) a : ok_or o e = Ok a <-> o = Some a.
Proof. destruct o; simpl; naive_solver. Qed.

Lemma ok_or_err {A E} (o : option A) (e e' : E) : ok_or o e = Err e' <-> o = None /\ e' = e.
Proof. destruct o; simpl; naive_solver. Qed.

(** [res_inv H] splits a hypothesis [_ = Ok _] about a chain of [let?]
    into one equation per step. *)
Ltac res_inv H :=
  lazymatch type of H with
  | result_bind _ _ = Ok _ =>
      let a := fresh "a" in let Ha := fresh "Ha" in
      apply result_bind_ok in H as [a [Ha H]]; res_inv Ha; res_inv H
  | map_err _ _ = Ok _ => apply map_err_ok in H; res_inv H
  | ok_or _ _ = Ok _ => apply ok_or_ok in H
  | Ok _ = Ok _ => injection H as H
  | Err _ = Ok _ => discriminate H
  | _ => idtac
  end.

(** ** Lists *)

Lemma app_inj_length {A} (l1 l2 k1 k2 : list A) :
  length l1 = length l2 -> l1 ++ k1 = l2 ++ k2 -> l1 = l2 /\ k1 = k2.
Proof. intros Hl He. by apply app_inj_1. Qed.

Lemma take_app_all {A} (l k : list A) n : length l = n -> take n (l ++ k) = l.
Proof. intros <-. by rewrite take_app_length. Qed.

Lemma drop_app_all {A} (l k : list A) n : length l = n -> drop n (l ++ k) = k.
Proof. intros <-. by rewrite drop_app_length. Qed.

Lemma find_app {A} (f : A -> bool) (l1 l2 : list A) :
  List.find f (l1 ++ l2) =
  match List.find f l1 with Some x => Some x | None => List.find f l2 end.
Proof. induction l1 as [|x l1 IH]; [done|]. cbn. by destruct (f x). Qed.

(** Appends to the right. *)
Ltac app_norm := repeat (progress (rewrite <- ?app_assoc; cbn [app])).

(** ** Hint databases shared by the components *)

Create Rewrite HintDb bytes.
#[export] Hint Rewrite @length_app @length_replicate : bytes.
