(* ===== verification/RustStd.v ===== *)
(** * The parts of Rust's standard library that the program uses

    Integers at their width ([u16], [u32], [u64], [i32]) as [N] with the
    bound written out; [to_be_bytes]/[from_be_bytes]; [checked_add] and
    [saturating_add]; the methods of [str] on UTF-8 byte strings ([trim],
    [lines], [split_once], [strip_prefix], [parse::<u64>], the decimal
    [Display] of integers) and the component iterator of Unix paths. *)

From Stdlib Require Import NArith ZArith Lia List Bool.
From Stdlib Require Import Strings.Byte Strings.String.
From stdpp Require Import base decidable list option.
From S2P Require Import Prelude.

Open Scope N_scope.

(** ** Fixed-width integers *)

Definition u16_max : N := 65535.
Definition u32_max : N := 4294967295.
Definition u64_max : N := 18446744073709551615.
Definition i32_max : N := 2147483647.

Definition checked_add_u64 (a b : N) : option N :=
  if a + b <=? u64_max then Some (a + b) else None.
Definition saturating_add_u64 (a b : N) : N := N.min (a + b) u64_max.
Definition wrapping_add_u64 (a b : N) : N := (a + b) mod 18446744073709551616.

Lemma checked_add_u64_some a b c :
  checked_add_u64 a b = Some c <-> c = a + b /\ a + b <= u64_max.
Proof. unfold checked_add_u64. destruct (N.leb_spec (a + b) u64_max); naive_solver lia. Qed.

Lemma checked_add_u64_none a b : checked_add_u64 a b = None <-> u64_max < a + b.
Proof. unfold checked_add_u64. destruct (N.leb_spec (a + b) u64_max); naive_solver lia. Qed.

(** ** Big-endian bytes: [to_be_bytes] and [from_be_bytes] *)

Fixpoint to_be_bytes (len : nat) (v : N) : bytes :=
  match len with
  | O => []
  | S len' => byte_of (v / 256 ^ N.of_nat len') :: to_be_bytes len' v
  end.

Definition from_be_bytes (bs : bytes) : N :=
  fold_left (fun acc b => acc * 256 + byte_val b) bs 0.

Lemma to_be_bytes_length len v : length (to_be_bytes len v) = len.
Proof. induction len; simpl; congruence. Qed.

Lemma from_be_bytes_acc bs acc :
  fold_left (fun acc b => acc * 256 + byte_val b) bs acc
  = acc * 256 ^ N.of_nat (length bs) + from_be_bytes bs.
Proof.
  unfold from_be_bytes. revert acc. induction bs as [|b bs IH]; intros acc; simpl length; simpl fold_left.
  - rewrite N.pow_0_r. lia.
  - rewrite IH, (IH (0 * 256 + byte_val b)).
    rewrite Nat2N.inj_succ, N.pow_succ_r'. lia.
Qed.

Lemma from_be_bytes_cons b bs :
  from_be_bytes (b :: bs) = byte_val b * 256 ^ N.of_nat (length bs) + from_be_bytes bs.
Proof. unfold from_be_bytes at 1. simpl fold_left. rewrite from_be_bytes_acc. lia. Qed.

Lemma from_be_bytes_bound bs : from_be_bytes bs < 256 ^ N.of_nat (length bs).
Proof.
  induction bs as [|b bs IH]; [cbn; lia|].
  rewrite from_be_bytes_cons. pose proof (byte_val_bound b).
  change (length (b :: bs)) with (S (length bs)).
  rewrite Nat2N.inj_succ, N.pow_succ_r'. nia.
Qed.

Lemma from_to_be_bytes len v :
  from_be_bytes (to_be_bytes len v) = v mod 256 ^ N.of_nat len.
Proof.
  induction len as [|len IH]; [by rewrite N.mod_1_r|].
  cbn [to_be_bytes]. rewrite from_be_bytes_cons, to_be_bytes_length, IH, byte_val_of.
  rewrite Nat2N.inj_succ, N.pow_succ_r', (N.mul_comm 256).
  rewrite N.Div0.mod_mul_r. lia.
Qed.

Lemma from_to_be_bytes_small len v :
  v < 256 ^ N.of_nat len -> from_be_bytes (to_be_bytes len v) = v.
Proof. intros H. rewrite from_to_be_bytes. by apply N.mod_small. Qed.

Lemma to_be_bytes_inj len v1 v2 :
  v1 < 256 ^ N.of_nat len -> v2 < 256 ^ N.of_nat len ->
  to_be_bytes len v1 = to_be_bytes len v2 -> v1 = v2.
Proof.
  intros H1 H2 He. rewrite <- (from_to_be_bytes_small len v1 H1), He.
  by apply from_to_be_bytes_small.
Qed.

Lemma from_be_bytes_inj bs1 bs2 :
  length bs1 = length bs2 -> from_be_bytes bs1 = from_be_bytes bs2 -> bs1 = bs2.
Proof.
  revert bs2. induction bs1 as [|b1 bs1 IH]; intros [|b2 bs2]; try done.
  intros [= Hl]. rewrite !from_be_bytes_cons, <- Hl. intros He.
  pose proof (from_be_bytes_bound bs1) as B1. pose proof (from_be_bytes_bound bs2) as B2.
  rewrite <- Hl in B2. remember (256 ^ N.of_nat (length bs1)) as P eqn:HP. clear HP.
  assert (byte_val b1 = byte_val b2) as Hb by nia.
  rewrite Hb in He. f_equal; [by apply byte_val_inj|]. apply IH; [done|lia].
Qed.

Lemma to_from_be_bytes bs : to_be_bytes (length bs) (from_be_bytes bs) = bs.
Proof.
  apply from_be_bytes_inj; [by rewrite to_be_bytes_length|].
  apply from_to_be_bytes_small, from_be_bytes_bound.
Qed.

#[export] Hint Rewrite to_be_bytes_length : bytes.

(** ** UTF-8

    A [String] is its UTF-8 bytes.  [utf8_valid] is the test that
    [String::from_utf8] and [read_to_string] make. *)

Definition in_range (lo hi : N) (b : byte) : bool :=
  (lo <=? byte_val b) && (byte_val b <=? hi).
Definition cont (b : byte) : bool := in_range 128 191 b.

Fixpoint utf8_valid (s : bytes) : bool :=
  match s with
  | [] => true
  | b0 :: r0 =>
      if byte_val b0 <? 128 then utf8_valid r0 else
      match r0 with
      | [] => false
      | b1 :: r1 =>
          if in_range 194 223 b0 then cont b1 && utf8_valid r1 else
          match r1 with
          | [] => false
          | b2 :: r2 =>
              if in_range 224 239 b0 then
                (if byte_val b0 =? 224 then in_range 160 191 b1
                 else if byte_val b0 =? 237 then in_range 128 159 b1
                 else cont b1) && cont b2 && utf8_valid r2
              else
              match r2 with
              | [] => false
              | b3 :: r3 =>
                  if in_range 240 244 b0 then
                    (if byte_val b0 =? 240 then in_range 144 191 b1
                     else if byte_val b0 =? 244 then in_range 128 143 b1
                     else cont b1) && cont b2 && cont b3 && utf8_valid r3
                  else false
              end
          end
      end
  end.

Definition is_ascii (b : byte) : bool := byte_val b <? 128.

Lemma utf8_valid_ascii s : forallb is_ascii s = true -> utf8_valid s = true.
Proof.
  induction s as [|b s IH]; [done|]. cbn. unfold is_ascii at 1.
  intros [Hb Hs]%andb_prop. rewrite Hb. auto.
Qed.

(** ** [str::trim]: the code points with the [White_Space] property *)

Definition ws1 (b0 : byte) : bool := in_range 9 13 b0 || (byte_val b0 =? 32).
Definition ws2 (b0 b1 : byte) : bool :=
  (byte_val b0 =? 194) && ((byte_val b1 =? 133) || (byte_val b1 =? 160)).
Definition ws3 (b0 b1 b2 : byte) : bool :=
  let v0 := byte_val b0 in let v1 := byte_val b1 in let v2 := byte_val b2 in
  ((v0 =? 225) && (v1 =? 154) && (v2 =? 128))
  || ((v0 =? 226) && (v1 =? 128) &&
      (in_range 128 138 b2 || (v2 =? 168) || (v2 =? 169) || (v2 =? 175)))
  || ((v0 =? 226) && (v1 =? 129) && (v2 =? 159))
  || ((v0 =? 227) && (v1 =? 128) && (v2 =? 128)).

Fixpoint trim_start (s : bytes) : bytes :=
  match s with
  | [] => []
  | b0 :: r0 =>
      if ws1 b0 then trim_start r0 else
      match r0 with
      | [] => s
      | b1 :: r1 =>
          if ws2 b0 b1 then trim_start r1 else
          match r1 with
          | [] => s
          | b2 :: r2 => if ws3 b0 b1 b2 then trim_start r2 else s
          end
      end
  end.

(** The same scan over the reversed bytes: the last byte comes first. *)
Fixpoint trim_start_rev (s : bytes) : bytes :=
  match s with
  | [] => []
  | b0 :: r0 =>
      if ws1 b0 then trim_start_rev r0 else
      match r0 with
      | [] => s
      | b1 :: r1 =>
          if ws2 b1 b0 then trim_start_rev r1 else
          match r1 with
          | [] => s
          | b2 :: r2 => if ws3 b2 b1 b0 then trim_start_rev r2 else s
          end
      end
  end.

Definition trim_end (s : bytes) : bytes := rev (trim_start_rev (rev s)).
Definition trim (s : bytes) : bytes := trim_end (trim_start s).

(** Visible ASCII: neither white space nor part of a longer code point. *)
Definition is_graphic (b : byte) : bool := in_range 33 126 b.

Ltac byte_bool :=
  unfold is_graphic, is_ascii, ws1, ws2, ws3, cont, in_range in *;
  repeat match goal with
  | H : _ && _ = true |- _ => apply andb_prop in H as [? ?]
  | H : (_ <=? _) = true |- _ => apply N.leb_le in H
  | H : (_ <? _) = true |- _ => apply N.ltb_lt in H
  | H : (_ =? _) = true |- _ => apply N.eqb_eq in H
  end.

Lemma graphic_no_ws1 b : is_graphic b = true -> ws1 b = false.
Proof.
  intros; byte_bool. apply orb_false_intro; [|apply N.eqb_neq; lia].
  apply andb_false_intro2, N.leb_gt. lia.
Qed.

Lemma graphic_no_ws2 b b' : is_graphic b = true -> ws2 b b' = false /\ ws2 b' b = false.
Proof.
  intros; byte_bool. split.
  - apply andb_false_intro1, N.eqb_neq. lia.
  - apply andb_false_intro2, orb_false_intro; apply N.eqb_neq; lia.
Qed.

Lemma graphic_no_ws3 b b1 b2 :
  is_graphic b = true -> ws3 b b1 b2 = false /\ ws3 b1 b2 b = false.
Proof.
  intros; byte_bool.
  assert (forall k, 127 <= k -> (byte_val b =? k) = false) as E
    by (intros; apply N.eqb_neq; lia).
  assert ((128 <=? byte_val b) = false) as E' by (apply N.leb_gt; lia).
  split; cbv zeta; rewrite ?E, ?E' by lia; cbn [andb orb]; [done|].
  by rewrite !andb_false_r.
Qed.

Lemma trim_start_graphic b s : is_graphic b = true -> trim_start (b :: s) = b :: s.
Proof.
  intros Hb. cbn. rewrite graphic_no_ws1 by done.
  destruct s as [|b1 [|b2 s]]; [done|..]; rewrite (proj1 (graphic_no_ws2 b b1 Hb)); [done|].
  by rewrite (proj1 (graphic_no_ws3 b b1 b2 Hb)).
Qed.

Lemma trim_start_rev_graphic b s : is_graphic b = true -> trim_start_rev (b :: s) = b :: s.
Proof.
  intros Hb. cbn. rewrite graphic_no_ws1 by done.
  destruct s as [|b1 [|b2 s]]; [done|..]; rewrite (proj2 (graphic_no_ws2 b b1 Hb)); [done|].
  by rewrite (proj2 (graphic_no_ws3 b b2 b1 Hb)).
Qed.

Lemma trim_end_graphic s b : is_graphic b = true -> trim_end (s ++ [b]) = s ++ [b].
Proof.
  intros Hb. unfold trim_end. rewrite rev_app_distr. simpl rev at 2. simpl app at 1.
  rewrite trim_start_rev_graphic by done. simpl. by rewrite rev_involutive.
Qed.

Lemma forallb_snoc_inv {A} (f : A -> bool) (l : list A) :
  forallb f l = true -> l <> [] -> exists l' a, l = l' ++ [a] /\ f a = true.
Proof.
  intros Hf Hne. destruct (exists_last Hne) as [l' [a ->]].
  rewrite forallb_app in Hf. apply andb_prop in Hf as [_ Hf]. cbn in Hf.
  exists l', a. by rewrite andb_true_r in Hf.
Qed.

Lemma trim_graphic s : forallb is_graphic s = true -> trim s = s.
Proof.
  intros Hs. destruct s as [|b s]; [done|]. unfold trim.
  cbn in Hs. rewrite trim_start_graphic by (by apply andb_prop in Hs as [? ?]).
  destruct (forallb_snoc_inv is_graphic (b :: s)) as (l' & a & -> & Ha); try done.
  by apply trim_end_graphic.
Qed.

(** ** Searching and splitting *)

Definition nl : byte := x0a.
Definition cr : byte := x0d.

Fixpoint strip_prefix (p s : bytes) : option bytes :=
  match p, s with
  | [], _ => Some s
  | a :: p', b :: s' => if decide (a = b) then strip_prefix p' s' else None
  | _ :: _, [] => None
  end.

Definition starts_with (s p : bytes) : bool :=
  match strip_prefix p s with Some _ => true | None => false end.

Fixpoint contains (s p : bytes) : bool :=
  starts_with s p || match s with [] => false | _ :: s' => contains s' p end.

Fixpoint split_once (c : byte) (s : bytes) : option (bytes * bytes) :=
  match s with
  | [] => None
  | b :: r =>
      if decide (b = c) then Some ([], r) else
      match split_once c r with
      | Some (p, q) => Some (b :: p, q)
      | None => None
      end
  end.

(** [str::lines]: pieces ending in a newline, without it and without the
    carriage return before it; the last piece may have neither. *)
Fixpoint split_inclusive (c : byte) (s : bytes) : list bytes :=
  match s with
  | [] => []
  | b :: r =>
      if decide (b = c) then [b] :: split_inclusive c r else
      match split_inclusive c r with
      | [] => [[b]]
      | p :: ps => (b :: p) :: ps
      end
  end.

Definition strip_suffix1 (c : byte) (s : bytes) : option bytes :=
  match rev s with
  | b :: r => if decide (b = c) then Some (rev r) else None
  | [] => None
  end.

Definition strip_line_end (line : bytes) : bytes :=
  match strip_suffix1 nl line with
  | None => line
  | Some line =>
      match strip_suffix1 cr line with
      | None => line
      | Some line => line
      end
  end.

Definition lines (s : bytes) : list bytes := map strip_line_end (split_inclusive nl s).

Lemma strip_prefix_app p s : strip_prefix p (p ++ s) = Some s.
Proof. induction p as [|a p IH]; [done|]. cbn. by rewrite decide_True. Qed.

Lemma strip_prefix_some p s r : strip_prefix p s = Some r -> s = p ++ r.
Proof.
  revert s. induction p as [|a p IH]; intros [|b s]; cbn; try congruence.
  case_decide as E; [|done]. intros Hr%IH. by subst.
Qed.

Lemma split_once_notin c s r :
  c ∉ s -> split_once c (s ++ c :: r) = Some (s, r).
Proof.
  induction s as [|b s IH]; cbn; intros Hc.
  - by rewrite decide_True.
  - apply not_elem_of_cons in Hc as [Hb Hs]. rewrite decide_False by congruence.
    by rewrite IH.
Qed.

Lemma split_inclusive_line c s r :
  c ∉ s -> split_inclusive c (s ++ c :: r) = (s ++ [c]) :: split_inclusive c r.
Proof.
  induction s as [|b s IH]; cbn; intros Hc.
  - by rewrite decide_True.
  - apply not_elem_of_cons in Hc as [Hb Hs]. rewrite decide_False by congruence.
    by rewrite IH.
Qed.

Lemma strip_suffix1_snoc c s : strip_suffix1 c (s ++ [c]) = Some s.
Proof.
  unfold strip_suffix1. rewrite rev_app_distr. cbn. rewrite decide_True by done.
  by rewrite rev_involutive.
Qed.

Lemma strip_suffix1_notin c s : c ∉ s -> strip_suffix1 c s = None.
Proof.
  unfold strip_suffix1. intros Hc. destruct (rev s) as [|b r] eqn:E; [done|].
  rewrite decide_False; [done|]. intros ->. apply Hc.
  apply list_elem_of_In, in_rev. rewrite E. by left.
Qed.

(** The first line of a text that starts with a newline-terminated line. *)
Lemma lines_cons s r :
  nl ∉ s -> cr ∉ s -> lines (s ++ nl :: r) = s :: lines r.
Proof.
  intros Hn Hc. unfold lines. rewrite split_inclusive_line by done. cbn.
  unfold strip_line_end at 1. rewrite strip_suffix1_snoc.
  by rewrite strip_suffix1_notin by done.
Qed.

Lemma graphic_notin (f : byte) s :
  forallb is_graphic s = true -> is_graphic f = false -> f ∉ s.
Proof.
  intros Hs Hf Hin. rewrite forallb_forall in Hs.
  rewrite (Hs f) in Hf; [done|]. by apply list_elem_of_In.
Qed.

Lemma split_inclusive_notin c s : s <> [] -> c ∉ s -> split_inclusive c s = [s].
Proof.
  induction s as [|b s IH]; [done|]. intros _ [Hb Hs]%not_elem_of_cons. cbn.
  rewrite decide_False by congruence. destruct s as [|b' s]; [done|]. by rewrite IH.
Qed.

(** A text without a line end is one line. *)
Lemma lines_graphic s : s <> [] -> forallb is_graphic s = true -> lines s = [s].
Proof.
  intros Hs Hg. unfold lines. rewrite split_inclusive_notin; [|done|by apply (graphic_notin _ _ Hg)].
  cbn. unfold strip_line_end. by rewrite strip_suffix1_notin by (by apply (graphic_notin _ _ Hg)).
Qed.

(** ** Decimal integers: [Display] and [parse::<u64>] *)

Definition digit (d : N) : byte := byte_of (48 + d).
Definition digit_val (b : byte) : option N :=
  if in_range 48 57 b then Some (byte_val b - 48) else None.

(** Digits of [n] prepended to [acc]; [fuel] bounds the number of digits. *)
Fixpoint show_digits (fuel : nat) (n : N) (acc : bytes) : bytes :=
  match fuel with
  | O => acc
  | S fuel' =>
      let acc' := digit (n mod 10) :: acc in
      if n / 10 =? 0 then acc' else show_digits fuel' (n / 10) acc'
  end.

(** An integer of [k] bits has at most [k] decimal digits. *)
Definition show_N (n : N) : bytes := show_digits (S (N.to_nat (N.size n))) n [].

Fixpoint parse_digits (s : bytes) (acc : N) : option N :=
  match s with
  | [] => Some acc
  | b :: r =>
      match digit_val b with
      | None => None
      | Some d =>
          if acc * 10 + d <=? u64_max then parse_digits r (acc * 10 + d) else None
      end
  end.

(** A leading [+] is accepted when a digit follows. *)
Definition parse_u64 (s : bytes) : option N :=
  match s with
  | [] => None
  | b :: r =>
      if decide (b = x2b) then match r with [] => None | _ => parse_digits r 0 end
      else parse_digits s 0
  end.

Lemma digit_val_digit d : d < 10 -> digit_val (digit d) = Some d.
Proof.
  intros Hd. unfold digit_val, digit, in_range. rewrite byte_val_of, N.mod_small by lia.
  replace (48 <=? 48 + d) with true by (symmetry; apply N.leb_le; lia).
  replace (48 + d <=? 57) with true by (symmetry; apply N.leb_le; lia).
  cbn. f_equal. lia.
Qed.

Lemma digit_graphic d : d < 10 -> is_graphic (digit d) = true.
Proof.
  intros Hd. unfold is_graphic, digit, in_range. rewrite byte_val_of, N.mod_small by lia.
  apply andb_true_intro; split; apply N.leb_le; lia.
Qed.

Lemma digit_not_plus d : d < 10 -> digit d <> x2b.
Proof.
  intros Hd E. apply (f_equal byte_val) in E. unfold digit in E.
  rewrite byte_val_of, N.mod_small in E by lia. change (byte_val x2b) with 43 in E. lia.
Qed.

Lemma show_digits_app fuel n acc :
  show_digits fuel n acc = show_digits fuel n [] ++ acc.
Proof.
  revert n acc. induction fuel as [|fuel IH]; intros n acc; [done|]. cbn.
  destruct (n / 10 =? 0); [done|].
  rewrite IH, (IH (n / 10) [_]). by rewrite <- app_assoc.
Qed.

Lemma show_digits_graphic fuel n : forallb is_graphic (show_digits fuel n []) = true.
Proof.
  revert n. induction fuel as [|fuel IH]; intros n; [done|]. cbn -[is_graphic].
  pose proof (N.mod_upper_bound n 10 ltac:(lia)).
  destruct (n / 10 =? 0).
  - cbn -[is_graphic]. by rewrite digit_graphic.
  - rewrite show_digits_app, forallb_app, IH. cbn -[is_graphic]. by rewrite digit_graphic.
Qed.

Lemma parse_show_digits fuel n :
  (0 < fuel)%nat -> n < 2 ^ N.of_nat (Nat.pred fuel) ->
  exists k, forall acc a, a * 10 ^ k + n <= u64_max ->
    parse_digits (show_digits fuel n acc) a = parse_digits acc (a * 10 ^ k + n).
Proof.
  revert n. induction fuel as [|fuel IH]; intros n Hf Hn; [lia|]. cbn [show_digits].
  pose proof (N.mod_upper_bound n 10 ltac:(lia)) as Hm.
  pose proof (N.div_mod n 10 ltac:(lia)) as Hdm.
  pose proof (N.le_0_l (n / 10)) as Hd0. pose proof (N.le_0_l (n mod 10)) as Hm0.
  destruct (N.eqb_spec (n / 10) 0) as [Hz|Hz].
  - exists 1. intros acc a Hb. rewrite N.pow_1_r in *. cbn [parse_digits].
    rewrite digit_val_digit by done.
    replace (n mod 10) with n by lia. by rewrite (proj2 (N.leb_le _ _)).
  - destruct fuel as [|fuel].
    { exfalso. apply Hz. cbn in Hn. apply N.div_small. lia. }
    destruct (IH (n / 10)) as [k Hk]; [lia| |].
    { cbn [Nat.pred] in *. rewrite Nat2N.inj_succ, N.pow_succ_r' in Hn.
      apply N.Div0.div_lt_upper_bound. lia. }
    exists (N.succ k). intros acc a Hb. rewrite N.pow_succ_r' in *.
    assert (a * (10 * 10 ^ k) = 10 * (a * 10 ^ k)) as Ea
      by by rewrite !N.mul_assoc, (N.mul_comm a 10).
    rewrite Ea in *. specialize (Hk (digit (n mod 10) :: acc) a).
    clear Ea. set (q := a * 10 ^ k) in *. clearbody q.
    rewrite Hk by lia. cbn [parse_digits]. rewrite digit_val_digit by done.
    replace ((q + n / 10) * 10 + n mod 10) with (10 * q + n) by lia.
    by rewrite (proj2 (N.leb_le _ _)).
Qed.

Lemma show_digits_head fuel n acc :
  (0 < fuel)%nat -> exists d r, show_digits fuel n acc = digit d :: r /\ d < 10.
Proof.
  revert n acc. induction fuel as [|fuel IH]; intros n acc Hf; [lia|]. cbn.
  pose proof (N.mod_upper_bound n 10 ltac:(lia)).
  destruct (n / 10 =? 0); [eauto|].
  destruct fuel; [eauto|]. apply IH. lia.
Qed.

Lemma show_N_graphic n : forallb is_graphic (show_N n) = true.
Proof. apply show_digits_graphic. Qed.

Lemma parse_show_u64 n : n <= u64_max -> parse_u64 (show_N n) = Some n.
Proof.
  intros Hn. unfold show_N.
  destruct (parse_show_digits (S (N.to_nat (N.size n))) n) as [k Hk]; [lia| |].
  { cbn. rewrite N2Nat.id. apply N.size_gt. }
  specialize (Hk [] 0). rewrite N.mul_0_l, N.add_0_l in Hk. specialize (Hk Hn).
  destruct (show_digits_head (S (N.to_nat (N.size n))) n []) as (d & r & E & Hd); [lia|].
  rewrite E in *. unfold parse_u64. rewrite decide_False by by apply digit_not_plus.
  exact Hk.
Qed.

(** ** ASCII hexadecimal digits: [u8::is_ascii_hexdigit] *)

Definition is_ascii_hexdigit (b : byte) : bool :=
  in_range 48 57 b || in_range 65 70 b || in_range 97 102 b.

Lemma hexdigit_graphic b : is_ascii_hexdigit b = true -> is_graphic b = true.
Proof.
  unfold is_ascii_hexdigit, is_graphic, in_range. rewrite !orb_true_iff, !andb_true_iff, !N.leb_le.
  lia.
Qed.

Lemma hexdigits_graphic s : forallb is_ascii_hexdigit s = true -> forallb is_graphic s = true.
Proof. rewrite !forallb_forall. auto using hexdigit_graphic. Qed.

(** ** Unix paths

    A [PathBuf] is its bytes; [Path::components] drops empty components and
    [.] except at the start of a relative path. *)

Definition slash : byte := x2f.

Definition is_absolute (p : bytes) : bool :=
  match p with b :: _ => bool_decide (b = slash) | [] => false end.

Inductive Component : Type :=
| RootDir
| CurDir
| ParentDir
| Normal (name : bytes).

#[export] Instance Component_eq_decision : EqDecision Component.
Proof. solve_decision. Defined.

Fixpoint split (c : byte) (s : bytes) : list bytes :=
  match s with
  | [] => [[]]
  | b :: r =>
      if decide (b = c) then [] :: split c r else
      match split c r with
      | [] => [[b]]
      | p :: ps => (b :: p) :: ps
      end
  end.

Definition body_component (s : bytes) : list Component :=
  if decide (s = []) then []
  else if decide (s = B ".") then []
  else if decide (s = B "..") then [ParentDir]
  else [Normal s].

Definition components (p : bytes) : list Component :=
  let parts := split slash p in
  let front :=
    if is_absolute p then [RootDir]
    else match parts with
         | first :: _ => if decide (first = B ".") then [CurDir] else []
         | [] => []
         end in
  front ++ flat_map body_component parts.

(** [base.join(path)] for a relative [path]. *)
Definition path_join (base path : bytes) : bytes :=
  if is_absolute path then path
  else
    match rev base with
    | [] => path
    | b :: _ => if decide (b = slash) then base ++ path else base ++ slash :: path
    end.

Example components_abs :
  components (B "/etc//macos-auth/./key") =
  [RootDir; Normal (B "etc"); Normal (B "macos-auth"); Normal (B "key")].
Proof. reflexivity. Qed.

Example components_rel :
  components (B "./a/../b") = [CurDir; Normal (B "a"); ParentDir; Normal (B "b")].
Proof. reflexivity. Qed.
