(* ===== verification/Crypto.v ===== *)
(** * Interface to the cryptographic crates

    [ed25519_dalek] and [sha2] are third-party crates: their operations are
    the fields of the class [Crypto], an argument of every definition that
    calls them.  [CryptoLaws] states the documented behaviour the program
    relies on: encodings are inverse to their parsers, their sizes, and that
    a signature made with a key verifies under its public key.  Nothing is
    assumed about forging signatures or about collisions. *)

From Stdlib Require Import NArith.
From stdpp Require Import base list.
From S2P Require Import Prelude.

Class Crypto := {
  SigningKey : Type;
  VerifyingKey : Type;
  Signature : Type;
  SigningKey_from_bytes : bytes -> SigningKey;
  SigningKey_to_bytes : SigningKey -> bytes;
  SigningKey_generate_len : nat;
  SigningKey_generate : bytes -> SigningKey;
  SigningKey_verifying_key : SigningKey -> VerifyingKey;
  VerifyingKey_from_bytes : bytes -> option VerifyingKey;
  VerifyingKey_to_bytes : VerifyingKey -> bytes;
  Signature_from_slice : bytes -> option Signature;
  Signature_to_bytes : Signature -> bytes;
  SigningKey_sign : SigningKey -> bytes -> Signature;
  VerifyingKey_verify : VerifyingKey -> bytes -> Signature -> bool;
  Sha256_digest : bytes -> bytes;
}.

Class CryptoLaws `{Crypto} : Prop := {
  SigningKey_bytes_id b :
    length b = 32 -> SigningKey_to_bytes (SigningKey_from_bytes b) = b;
  SigningKey_to_bytes_length sk : length (SigningKey_to_bytes sk) = 32;
  VerifyingKey_to_bytes_length vk : length (VerifyingKey_to_bytes vk) = 32;
  VerifyingKey_bytes_id sk :
    VerifyingKey_from_bytes (VerifyingKey_to_bytes (SigningKey_verifying_key sk))
    = Some (SigningKey_verifying_key sk);
  Signature_to_bytes_length s : length (Signature_to_bytes s) = 64;
  Signature_bytes_id s : Signature_from_slice (Signature_to_bytes s) = Some s;
  Signature_from_slice_length b s : Signature_from_slice b = Some s -> length b = 64;
  Sha256_digest_length m : length (Sha256_digest m) = 32;
  verify_sign sk m :
    VerifyingKey_verify (SigningKey_verifying_key sk) m (SigningKey_sign sk m) = true;
}.
