(* ===== verification/Protocol.v ===== *)
(** * The protocol crate ([src/crates/protocol/src/lib.rs])

    The typed request and response, their validation, the canonical bytes
    that are signed, freshness, signing, verification and the binding of a
    response to its request.  Strings are their UTF-8 bytes; integer fields
    are [N], bounded by the [wf] predicates at their width. *)

From Stdlib Require Import NArith Lia List Bool.
From Stdlib Require Import Strings.Byte Strings.String.
From stdpp Require Import base decidable list option strings.
From S2P Require Import Prelude RustStd Crypto.

Open Scope N_scope.

Definition PROTOCOL_VERSION : N := 1.
Definition NONCE_LEN : nat := 32.
Definition ED25519_PUBLIC_KEY_LEN : nat := 32.
Definition ED25519_SIGNATURE_LEN : nat := 64.

Definition REQUEST_DOMAIN : bytes := B "macos-auth/auth-request/v1".
Definition RESPONSE_DOMAIN : bytes := B "macos-auth/auth-response/v1".

(** ** Enumerations *)

Inductive SignatureAlgorithm : Type := Ed25519.

#[export] Instance SignatureAlgorithm_eq_decision : EqDecision SignatureAlgorithm.
Proof. solve_decision. Defined.

Inductive ProtocolError : Type :=
| UnsupportedVersion (v : N)
| UnsupportedAlgorithm (a : SignatureAlgorithm)
| InvalidNonceLength (expected actual : nat)
| InvalidValidityWindow
| Expired
| CreatedInFuture
| InvalidPublicKey
| InvalidSignatureLength
| SignatureVerificationFailed
| ResponseBindingMismatch
| FieldTooLarge (field : string).

#[export] Instance ProtocolError_eq_decision : EqDecision ProtocolError.
Proof. solve_decision. Defined.

Module SignatureAlgorithm.
Definition canonical_name (self : SignatureAlgorithm) : bytes :=
  match self with Ed25519 => B "Ed25519" end.
End SignatureAlgorithm.

Module Decision.
Inductive t : Type := Approved | Denied | Unavailable | Cancelled | Failed.

#[global] Instance t_eq_decision : EqDecision t.
Proof. solve_decision. Defined.

Definition canonical_name (self : t) : bytes :=
  match self with
  | Approved => B "approved"
  | Denied => B "denied"
  | Unavailable => B "unavailable"
  | Cancelled => B "cancelled"
  | Failed => B "failed"
  end.
End Decision.

Module AuthMethod.
Inductive t : Type := Watch | TouchId | BiometricOrWatch | Unknown | None_.

#[global] Instance t_eq_decision : EqDecision t.
Proof. solve_decision. Defined.

Definition canonical_name (self : t) : bytes :=
  match self with
  | Watch => B "watch"
  | TouchId => B "touchid"
  | BiometricOrWatch => B "biometric-or-watch"
  | Unknown => B "unknown"
  | None_ => B "none"
  end.
End AuthMethod.

(** ** Canonical encoders

    [out: &mut Vec<u8>] is passed in and returned. *)

Definition encode_u16 (out : bytes) (value : N) : bytes := out ++ to_be_bytes 2 value.
Definition encode_u32 (out : bytes) (value : N) : bytes := out ++ to_be_bytes 4 value.
Definition encode_u64 (out : bytes) (value : N) : bytes := out ++ to_be_bytes 8 value.

Definition encode_bytes (out value : bytes) (field_name : string)
  : result bytes ProtocolError :=
  let len := N.of_nat (length value) in
  if len <=? u32_max then Ok (encode_u32 out len ++ value)
  else Err (FieldTooLarge field_name).

Definition encode_str (out value : bytes) (field_name : string)
  : result bytes ProtocolError :=
  encode_bytes out value field_name.

Definition encode_optional_str (out : bytes) (value : option bytes) (field_name : string)
  : result bytes ProtocolError :=
  match value with
  | Some value => encode_str (out ++ [x01]) value field_name
  | None => Ok (out ++ [x00])
  end.

Definition encode_optional_u32 (out : bytes) (value : option N) : bytes :=
  match value with
  | Some value => encode_u32 (out ++ [x01]) value
  | None => out ++ [x00]
  end.

(** ** Signature verification *)

Section VerifyEd25519.
Context `{Crypto}.

Definition verify_ed25519 (public_key message signature : bytes)
  : result unit ProtocolError :=
  guard! bool_decide (length public_key = ED25519_PUBLIC_KEY_LEN) else InvalidPublicKey ;;
  let? verifying_key := ok_or (VerifyingKey_from_bytes public_key) InvalidPublicKey in
  let? signature := ok_or (Signature_from_slice signature) InvalidSignatureLength in
  if VerifyingKey_verify verifying_key message signature then Ok tt
  else Err SignatureVerificationFailed.
End VerifyEd25519.

(** ** Requests *)

Module AuthRequestBody.
Record t : Type := mk {
  protocol_version : N;
  request_id : bytes;
  nonce : bytes;
  created_at_ms : N;
  expires_at_ms : N;
  linux_host_id : bytes;
  linux_hostname : bytes;
  pam_service : bytes;
  pam_user : bytes;
  pam_ruser : option bytes;
  pam_rhost : option bytes;
  pam_tty : option bytes;
  sudo_command : option bytes;
  client_pid : option N;
  key_id : bytes;
  alg : SignatureAlgorithm
}.

#[global] Instance t_eq_decision : EqDecision t.
Proof. solve_decision. Defined.

(** The bounds of the integer fields' types. *)
Definition wf (self : t) : Prop :=
  protocol_version self <= u16_max /\ created_at_ms self <= u64_max /\
  expires_at_ms self <= u64_max /\
  match client_pid self with Some p => p <= u32_max | None => True end.

Definition validate (self : t) : result unit ProtocolError :=
  guard! protocol_version self =? PROTOCOL_VERSION
    else UnsupportedVersion (protocol_version self) ;;
  guard! bool_decide (alg self = Ed25519) else UnsupportedAlgorithm (alg self) ;;
  guard! bool_decide (length (nonce self) = NONCE_LEN)
    else InvalidNonceLength NONCE_LEN (length (nonce self)) ;;
  guard! negb (expires_at_ms self <=? created_at_ms self) else InvalidValidityWindow ;;
  Ok tt.

Definition canonical_bytes (self : t) : result bytes ProtocolError :=
  let? _ := validate self in
  let? out := encode_bytes [] REQUEST_DOMAIN "request_domain" in
  let out := encode_u16 out (protocol_version self) in
  let? out := encode_str out (request_id self) "request_id" in
  let? out := encode_bytes out (nonce self) "nonce" in
  let out := encode_u64 out (created_at_ms self) in
  let out := encode_u64 out (expires_at_ms self) in
  let? out := encode_str out (linux_host_id self) "linux_host_id" in
  let? out := encode_str out (linux_hostname self) "linux_hostname" in
  let? out := encode_str out (pam_service self) "pam_service" in
  let? out := encode_str out (pam_user self) "pam_user" in
  let? out := encode_optional_str out (pam_ruser self) "pam_ruser" in
  let? out := encode_optional_str out (pam_rhost self) "pam_rhost" in
  let? out := encode_optional_str out (pam_tty self) "pam_tty" in
  let? out := encode_optional_str out (sudo_command self) "sudo_command" in
  let out := encode_optional_u32 out (client_pid self) in
  let? out := encode_str out (key_id self) "key_id" in
  let? out := encode_str out (SignatureAlgorithm.canonical_name (alg self)) "alg" in
  Ok out.

Definition verify_freshness (self : t) (now_ms allowed_future_skew_ms : N)
  : result unit ProtocolError :=
  guard! negb (expires_at_ms self <? now_ms) else Expired ;;
  guard! negb (saturating_add_u64 now_ms allowed_future_skew_ms <? created_at_ms self)
    else CreatedInFuture ;;
  Ok tt.

Section Crypto.
Context `{Crypto}.

Definition sha256 (self : t) : result bytes ProtocolError :=
  let? bytes := canonical_bytes self in
  Ok (Sha256_digest bytes).
End Crypto.
End AuthRequestBody.

Module SignedAuthRequest.
Record t : Type := mk { body : AuthRequestBody.t; signature : bytes }.

#[global] Instance t_eq_decision : EqDecision t.
Proof. solve_decision. Defined.

Section Crypto.
Context `{Crypto}.

(** [AuthRequestBody::sign] *)
Definition sign (body : AuthRequestBody.t) (signing_key : SigningKey)
  : result t ProtocolError :=
  let? bytes := AuthRequestBody.canonical_bytes body in
  Ok (mk body (Signature_to_bytes (SigningKey_sign signing_key bytes))).

Definition verify (self : t) (public_key : bytes) : result unit ProtocolError :=
  let? bytes := AuthRequestBody.canonical_bytes (body self) in
  verify_ed25519 public_key bytes (signature self).
End Crypto.
End SignedAuthRequest.

(** ** Responses *)

Module AuthResponseBody.
Record t : Type := mk {
  protocol_version : N;
  request_id : bytes;
  nonce : bytes;
  request_hash : bytes;
  linux_host_id : bytes;
  pam_service : bytes;
  pam_user : bytes;
  decision : Decision.t;
  auth_method : AuthMethod.t;
  created_at_ms : N;
  expires_at_ms : N;
  agent_key_id : bytes;
  alg : SignatureAlgorithm;
  error_code : option bytes;
  error_message : option bytes
}.

#[global] Instance t_eq_decision : EqDecision t.
Proof. solve_decision. Defined.

Definition wf (self : t) : Prop :=
  protocol_version self <= u16_max /\ created_at_ms self <= u64_max /\
  expires_at_ms self <= u64_max.

Definition validate (self : t) : result unit ProtocolError :=
  guard! protocol_version self =? PROTOCOL_VERSION
    else UnsupportedVersion (protocol_version self) ;;
  guard! bool_decide (alg self = Ed25519) else UnsupportedAlgorithm (alg self) ;;
  guard! bool_decide (length (nonce self) = NONCE_LEN)
    else InvalidNonceLength NONCE_LEN (length (nonce self)) ;;
  guard! negb (expires_at_ms self <=? created_at_ms self) else InvalidValidityWindow ;;
  Ok tt.

Definition canonical_bytes (self : t) : result bytes ProtocolError :=
  let? _ := validate self in
  let? out := encode_bytes [] RESPONSE_DOMAIN "response_domain" in
  let out := encode_u16 out (protocol_version self) in
  let? out := encode_str out (request_id self) "request_id" in
  let? out := encode_bytes out (nonce self) "nonce" in
  let? out := encode_bytes out (request_hash self) "request_hash" in
  let? out := encode_str out (linux_host_id self) "linux_host_id" in
  let? out := encode_str out (pam_service self) "pam_service" in
  let? out := encode_str out (pam_user self) "pam_user" in
  let? out := encode_str out (Decision.canonical_name (decision self)) "decision" in
  let? out := encode_str out (AuthMethod.canonical_name (auth_method self)) "auth_method" in
  let out := encode_u64 out (created_at_ms self) in
  let out := encode_u64 out (expires_at_ms self) in
  let? out := encode_str out (agent_key_id self) "agent_key_id" in
  let? out := encode_str out (SignatureAlgorithm.canonical_name (alg self)) "alg" in
  let? out := encode_optional_str out (error_code self) "error_code" in
  let? out := encode_optional_str out (error_message self) "error_message" in
  Ok out.

Definition verify_freshness (self : t) (now_ms allowed_future_skew_ms : N)
  : result unit ProtocolError :=
  guard! negb (expires_at_ms self <? now_ms) else Expired ;;
  guard! negb (saturating_add_u64 now_ms allowed_future_skew_ms <? created_at_ms self)
    else CreatedInFuture ;;
  Ok tt.

Section Crypto.
Context `{Crypto}.

Definition for_request (request : AuthRequestBody.t) (decision : Decision.t)
  (auth_method : AuthMethod.t) (created_at_ms expires_at_ms : N) (agent_key_id : bytes)
  : result t ProtocolError :=
  let? hash := AuthRequestBody.sha256 request in
  Ok {| protocol_version := AuthRequestBody.protocol_version request;
        request_id := AuthRequestBody.request_id request;
        nonce := AuthRequestBody.nonce request;
        request_hash := hash;
        linux_host_id := AuthRequestBody.linux_host_id request;
        pam_service := AuthRequestBody.pam_service request;
        pam_user := AuthRequestBody.pam_user request;
        decision := decision;
        auth_method := auth_method;
        created_at_ms := created_at_ms;
        expires_at_ms := expires_at_ms;
        agent_key_id := agent_key_id;
        alg := Ed25519;
        error_code := None;
        error_message := None |}.

Definition verify_binding (self : t) (request : AuthRequestBody.t)
  : result unit ProtocolError :=
  let? expected_hash := AuthRequestBody.sha256 request in
  let matches :=
    bool_decide (request_id self = AuthRequestBody.request_id request)
    && bool_decide (nonce self = AuthRequestBody.nonce request)
    && bool_decide (request_hash self = expected_hash)
    && bool_decide (linux_host_id self = AuthRequestBody.linux_host_id request)
    && bool_decide (pam_service self = AuthRequestBody.pam_service request)
    && bool_decide (pam_user self = AuthRequestBody.pam_user request) in
  if matches then Ok tt else Err ResponseBindingMismatch.
End Crypto.
End AuthResponseBody.

Module SignedAuthResponse.
Record t : Type := mk { body : AuthResponseBody.t; signature : bytes }.

#[global] Instance t_eq_decision : EqDecision t.
Proof. solve_decision. Defined.

Section Crypto.
Context `{Crypto}.

(** [AuthResponseBody::sign] *)
Definition sign (body : AuthResponseBody.t) (signing_key : SigningKey)
  : result t ProtocolError :=
  let? bytes := AuthResponseBody.canonical_bytes body in
  Ok (mk body (Signature_to_bytes (SigningKey_sign signing_key bytes))).

Definition verify (self : t) (public_key : bytes) : result unit ProtocolError :=
  let? bytes := AuthResponseBody.canonical_bytes (body self) in
  verify_ed25519 public_key bytes (signature self).

Definition verify_for_request (self : t) (request : AuthRequestBody.t) (public_key : bytes)
  : result unit ProtocolError :=
  let? _ := verify self public_key in
  AuthResponseBody.verify_binding (body self) request.
End Crypto.
End SignedAuthResponse.
