(* ===== verification/Canonical.v ===== *)
(** * The canonical encoding is a code

    A [codec] is an encoder with a decoder that reads one value from the
    front of a byte string, and the law that decoding an encoding gives the
    value back and leaves the rest.  The field encoders of [Protocol] are
    codecs, the bodies are sequences of them, and so [canonical_bytes] is
    injective, decodable and separated between requests and responses. *)

From Stdlib Require Import NArith Lia List Bool.
From Stdlib Require Import Strings.Byte Strings.String.
From stdpp Require Import base decidable list option strings.
From S2P Require Import Prelude RustStd Crypto Protocol.

Open Scope N_scope.

(** ** Codecs *)

Record codec (A : Type) : Type := {
  enc : A -> bytes;
  dec : bytes -> option (A * bytes);
  valid : A -> Prop;
  dec_enc : forall a rest, valid a -> dec (enc a ++ rest) = Some (a, rest);
}.
Arguments enc {A} c a.
Arguments dec {A} c s.
Arguments valid {A} c a.
Arguments dec_enc {A} c a rest H.

Lemma enc_inj {A} (c : codec A) a1 a2 :
  valid c a1 -> valid c a2 -> enc c a1 = enc c a2 -> a1 = a2.
Proof.
  intros H1 H2 He. pose proof (dec_enc c a1 [] H1) as D1.
  rewrite He, (dec_enc c a2 [] H2) in D1. congruence.
Qed.

(** Two encodings with any continuation: neither is a proper prefix of the other. *)
Lemma enc_inj_app {A} (c : codec A) a1 a2 k1 k2 :
  valid c a1 -> valid c a2 -> enc c a1 ++ k1 = enc c a2 ++ k2 -> a1 = a2 /\ k1 = k2.
Proof.
  intros H1 H2 He. pose proof (dec_enc c a1 k1 H1) as D1.
  rewrite He, (dec_enc c a2 k2 H2) in D1. naive_solver.
Qed.

Definition take_n (n : nat) (s : bytes) : option (bytes * bytes) :=
  if bool_decide (n <= length s)%nat then Some (take n s, drop n s) else None.

Lemma take_n_app s rest : take_n (length s) (s ++ rest) = Some (s, rest).
Proof.
  unfold take_n. rewrite bool_decide_true by (autorewrite with bytes; lia).
  by rewrite take_app_length, drop_app_length.
Qed.

Definition uint_codec (len : nat) : codec N.
Proof.
  refine {|
  enc v := to_be_bytes len v;
  dec s := match take_n len s with
           | Some (h, r) => Some (from_be_bytes h, r)
           | None => None
           end;
  valid v := v < 256 ^ N.of_nat len;
  dec_enc := _
|}.
  intros v rest Hv. cbn in Hv |- *.
  pose proof (take_n_app (to_be_bytes len v) rest) as T. rewrite to_be_bytes_length in T.
  by rewrite T, from_to_be_bytes_small.
Defined.

Definition u16_codec := uint_codec 2.
Definition u32_codec := uint_codec 4.
Definition u64_codec := uint_codec 8.

Definition bytes_codec : codec bytes.
Proof.
  refine {|
  enc v := to_be_bytes 4 (N.of_nat (length v)) ++ v;
  dec s := match dec u32_codec s with
           | Some (n, r) => take_n (N.to_nat n) r
           | None => None
           end;
  valid v := N.of_nat (length v) <= u32_max;
  dec_enc := _
|}.
  intros v rest Hv. cbn in Hv. cbv beta. rewrite <- app_assoc.
  change (to_be_bytes 4 ?n) with (enc u32_codec n).
  rewrite dec_enc by (cbn; unfold u32_max in Hv; lia).
  cbv iota beta. rewrite Nat2N.id. apply take_n_app.
Defined.

Definition seq_codec {A B} (ca : codec A) (cb : codec B) : codec (A * B).
Proof.
  refine {|
  enc p := enc ca p.1 ++ enc cb p.2;
  dec s := match dec ca s with
           | Some (a, r) =>
               match dec cb r with
               | Some (b, r') => Some ((a, b), r')
               | None => None
               end
           | None => None
           end;
  valid p := valid ca p.1 /\ valid cb p.2;
  dec_enc := _
|}.
  intros [a b] rest [Ha Hb]. cbn in *. rewrite <- app_assoc.
  rewrite dec_enc by done. by rewrite dec_enc.
Defined.

Definition option_codec {A} (c : codec A) : codec (option A).
Proof.
  refine {|
  enc o := match o with Some a => x01 :: enc c a | None => [x00] end;
  dec s := match s with
           | b :: r =>
               if decide (b = x01) then
                 match dec c r with Some (a, r') => Some (Some a, r') | None => None end
               else if decide (b = x00) then Some (None, r) else None
           | [] => None
           end;
  valid o := match o with Some a => valid c a | None => True end;
  dec_enc := _
|}.
  intros [a|] rest Hv; cbn; [|done]. by rewrite dec_enc.
Defined.

(** A value written as the length-prefixed name of an enumeration. *)
Definition name_codec {A} (name : A -> bytes) (all : list A)
  (Hname : forall a, List.find (fun x => bool_decide (name x = name a)) all = Some a)
  (Hlen : forall a, N.of_nat (length (name a)) <= u32_max) : codec A.
Proof.
  refine {|
  enc a := enc bytes_codec (name a);
  dec s := match dec bytes_codec s with
           | Some (n, r) =>
               match List.find (fun x => bool_decide (name x = n)) all with
               | Some a => Some (a, r)
               | None => None
               end
           | None => None
           end;
  valid a := True;
  dec_enc := _
|}.
  intros a rest _. cbv beta.
  rewrite dec_enc by apply Hlen. by rewrite Hname.
Defined.

(** A fixed byte string, such as the domain separator. *)
Definition const_codec (d : bytes) (Hd : N.of_nat (length d) <= u32_max) : codec unit :=
  name_codec (fun _ : unit => d) [tt]
    ltac:(intros []; cbn; by rewrite bool_decide_true) (fun _ => Hd).

Lemma bytes_codec_of_const v : valid bytes_codec v <-> N.of_nat (length v) <= u32_max.
Proof. done. Qed.

Definition decision_codec : codec Decision.t.
Proof.
  refine (name_codec Decision.canonical_name
    [Decision.Approved; Decision.Denied; Decision.Unavailable; Decision.Cancelled;
     Decision.Failed] _ _);
    intros []; vm_compute; congruence.
Defined.

Definition method_codec : codec AuthMethod.t.
Proof.
  refine (name_codec AuthMethod.canonical_name
    [AuthMethod.Watch; AuthMethod.TouchId; AuthMethod.BiometricOrWatch; AuthMethod.Unknown;
     AuthMethod.None_] _ _);
    intros []; vm_compute; congruence.
Defined.

Definition alg_codec : codec SignatureAlgorithm.
Proof.
  refine (name_codec SignatureAlgorithm.canonical_name [Ed25519] _ _);
    intros []; vm_compute; congruence.
Defined.

(** ** The field encoders are these codecs *)

Definition fits (v : bytes) : bool := N.of_nat (length v) <=? u32_max.

Lemma encode_bytes_spec out v f :
  encode_bytes out v f =
  if fits v then Ok (out ++ enc bytes_codec v) else Err (FieldTooLarge f).
Proof.
  unfold encode_bytes, fits, encode_u32. cbv zeta.
  case_match; [|done]. by rewrite <- app_assoc.
Qed.

Definition opt_fits (o : option bytes) : bool :=
  match o with Some v => fits v | None => true end.

Lemma encode_optional_str_spec out o f :
  encode_optional_str out o f =
  if opt_fits o then Ok (out ++ enc (option_codec bytes_codec) o) else Err (FieldTooLarge f).
Proof.
  destruct o as [v|]; [|done]. unfold encode_optional_str, encode_str.
  rewrite encode_bytes_spec. cbn [opt_fits]. case_match; [|done].
  by rewrite <- app_assoc.
Qed.

Lemma encode_optional_u32_spec out o :
  encode_optional_u32 out o = out ++ enc (option_codec u32_codec) o.
Proof.
  destruct o as [v|]; [|done]. unfold encode_optional_u32, encode_u32.
  by rewrite <- app_assoc.
Qed.

Lemma fits_valid v : fits v = true <-> valid bytes_codec v.
Proof. apply N.leb_le. Qed.

Lemma opt_fits_valid o : opt_fits o = true <-> valid (option_codec bytes_codec) o.
Proof. destruct o; cbn [opt_fits]; [apply fits_valid|done]. Qed.

(** ** Requests *)

Notation "c1 '⊗' c2" := (seq_codec c1 c2) (at level 60, right associativity) : rust_scope.

Definition request_codec :=
  const_codec REQUEST_DOMAIN ltac:(done) ⊗ u16_codec ⊗ bytes_codec ⊗ bytes_codec
  ⊗ u64_codec ⊗ u64_codec ⊗ bytes_codec ⊗ bytes_codec ⊗ bytes_codec ⊗ bytes_codec
  ⊗ option_codec bytes_codec ⊗ option_codec bytes_codec ⊗ option_codec bytes_codec
  ⊗ option_codec bytes_codec ⊗ option_codec u32_codec ⊗ bytes_codec ⊗ alg_codec.

Section RequestTuple.
Import AuthRequestBody.

Definition request_tuple (r : t) :=
  (tt, (protocol_version r, (request_id r, (nonce r, (created_at_ms r, (expires_at_ms r,
  (linux_host_id r, (linux_hostname r, (pam_service r, (pam_user r, (pam_ruser r,
  (pam_rhost r, (pam_tty r, (sudo_command r, (client_pid r, (key_id r, alg r
  )))))))))))))))).

Definition request_of_tuple
  (p : unit * (N * (bytes * (bytes * (N * (N * (bytes * (bytes * (bytes * (bytes *
       (option bytes * (option bytes * (option bytes * (option bytes * (option N *
       (bytes * SignatureAlgorithm)))))))))))))))) : t :=
  let '(_, (v, (i, (n, (c, (e, (h, (hn, (s, (u, (ru, (rh, (ty, (sc, (p, (k, a
       )))))))))))))))) := p in
  mk v i n c e h hn s u ru rh ty sc p k a.

Lemma request_of_to_tuple r : request_of_tuple (request_tuple r) = r.
Proof. by destruct r. Qed.

(** The variable-length fields in the order they are written. *)
Definition request_texts (r : t) : list (string * option bytes) :=
  [("request_id", Some (request_id r)); ("nonce", Some (nonce r));
   ("linux_host_id", Some (linux_host_id r)); ("linux_hostname", Some (linux_hostname r));
   ("pam_service", Some (pam_service r)); ("pam_user", Some (pam_user r));
   ("pam_ruser", pam_ruser r); ("pam_rhost", pam_rhost r); ("pam_tty", pam_tty r);
   ("sudo_command", sudo_command r); ("key_id", Some (key_id r))]%string.
End RequestTuple.

(** The first field that cannot be encoded because its length is above [u32::MAX]. *)
Definition oversized (fs : list (string * option bytes)) : option string :=
  fst <$> List.find (fun p => negb (opt_fits p.2)) fs.

Lemma oversized_none fs :
  oversized fs = None <-> Forall (fun p => opt_fits p.2 = true) fs.
Proof.
  unfold oversized. induction fs as [|[f o] fs IH]; [by split|].
  cbn [List.find snd]. rewrite Forall_cons. cbn [snd].
  destruct (opt_fits o); cbn; naive_solver.
Qed.

Lemma enc_seq {A B} (ca : codec A) (cb : codec B) p :
  enc (ca ⊗ cb) p = enc ca p.1 ++ enc cb p.2.
Proof. done. Qed.

Lemma fits_alg a : fits (SignatureAlgorithm.canonical_name a) = true.
Proof. by destruct a. Qed.
Lemma fits_decision d : fits (Decision.canonical_name d) = true.
Proof. by destruct d. Qed.
Lemma fits_method m : fits (AuthMethod.canonical_name m) = true.
Proof. by destruct m. Qed.

(** One [encode_*(..)?] of the source: its value, or the end of both sides
    when the field does not fit. *)
Ltac encode_step :=
  unfold encode_str; cbn [result_bind];
  first
  [ rewrite encode_bytes_spec, ?fits_alg, ?fits_decision, ?fits_method
  | rewrite encode_optional_str_spec ];
  cbn [List.find snd opt_fits];
  lazymatch goal with
  | |- context [if ?b then Ok _ else Err _] => destruct b; cbn [negb]; [|done]
  | _ => idtac
  end;
  cbn [result_bind].

Lemma request_canonical_spec r :
  AuthRequestBody.canonical_bytes r =
  (let? _ := AuthRequestBody.validate r in
   match oversized (request_texts r) with
   | Some f => Err (FieldTooLarge f)
   | None => Ok (enc request_codec (request_tuple r))
   end).
Proof.
  unfold AuthRequestBody.canonical_bytes.
  destruct (AuthRequestBody.validate r); [|done].
  unfold oversized, request_texts, encode_u16, encode_u64. cbn [result_bind].
  rewrite encode_bytes_spec. change (fits REQUEST_DOMAIN) with true.
  repeat encode_step. rewrite encode_optional_u32_spec.
  unfold request_codec, request_tuple. rewrite !enc_seq. cbn [fst snd fmap option_fmap option_map].
  by rewrite <- !app_assoc.
Qed.

(** ** Responses *)

Definition response_codec :=
  const_codec RESPONSE_DOMAIN ltac:(done) ⊗ u16_codec ⊗ bytes_codec ⊗ bytes_codec
  ⊗ bytes_codec ⊗ bytes_codec ⊗ bytes_codec ⊗ bytes_codec ⊗ decision_codec ⊗ method_codec
  ⊗ u64_codec ⊗ u64_codec ⊗ bytes_codec ⊗ alg_codec ⊗ option_codec bytes_codec
  ⊗ option_codec bytes_codec.

Section ResponseTuple.
Import AuthResponseBody.

Definition response_tuple (r : t) :=
  (tt, (protocol_version r, (request_id r, (nonce r, (request_hash r, (linux_host_id r,
  (pam_service r, (pam_user r, (decision r, (auth_method r, (created_at_ms r,
  (expires_at_ms r, (agent_key_id r, (alg r, (error_code r, error_message r
  ))))))))))))))).

Definition response_of_tuple
  (p : unit * (N * (bytes * (bytes * (bytes * (bytes * (bytes * (bytes * (Decision.t *
       (AuthMethod.t * (N * (N * (bytes * (SignatureAlgorithm * (option bytes *
       option bytes))))))))))))))) : t :=
  let '(_, (v, (i, (n, (rh, (h, (s, (u, (d, (m, (c, (e, (k, (a, (ec, em
       ))))))))))))))) := p in
  mk v i n rh h s u d m c e k a ec em.

Lemma response_of_to_tuple r : response_of_tuple (response_tuple r) = r.
Proof. by destruct r. Qed.

Definition response_texts (r : t) : list (string * option bytes) :=
  [("request_id", Some (request_id r)); ("nonce", Some (nonce r));
   ("request_hash", Some (request_hash r)); ("linux_host_id", Some (linux_host_id r));
   ("pam_service", Some (pam_service r)); ("pam_user", Some (pam_user r));
   ("agent_key_id", Some (agent_key_id r)); ("error_code", error_code r);
   ("error_message", error_message r)]%string.
End ResponseTuple.

Lemma response_canonical_spec r :
  AuthResponseBody.canonical_bytes r =
  (let? _ := AuthResponseBody.validate r in
   match oversized (response_texts r) with
   | Some f => Err (FieldTooLarge f)
   | None => Ok (enc response_codec (response_tuple r))
   end).
Proof.
  unfold AuthResponseBody.canonical_bytes.
  destruct (AuthResponseBody.validate r); [|done].
  unfold oversized, response_texts, encode_u16, encode_u64. cbn [result_bind].
  rewrite encode_bytes_spec. change (fits RESPONSE_DOMAIN) with true.
  repeat encode_step.
  unfold response_codec, response_tuple. rewrite !enc_seq. cbn [fst snd fmap option_fmap option_map].
  by rewrite <- !app_assoc.
Qed.

(** ** Validation *)

Lemma request_validate_ok r :
  AuthRequestBody.validate r = Ok tt <->
  AuthRequestBody.protocol_version r = PROTOCOL_VERSION /\
  length (AuthRequestBody.nonce r) = NONCE_LEN /\
  AuthRequestBody.created_at_ms r < AuthRequestBody.expires_at_ms r.
Proof.
  unfold AuthRequestBody.validate. destruct (AuthRequestBody.alg r); cbn.
  destruct (N.eqb_spec (AuthRequestBody.protocol_version r) PROTOCOL_VERSION);
    [|naive_solver].
  rewrite bool_decide_true by done. case_bool_decide; [|naive_solver].
  destruct (N.leb_spec (AuthRequestBody.expires_at_ms r) (AuthRequestBody.created_at_ms r)); cbn.
  - split; [done|]. intros (_ & _ & ?). lia.
  - split; [intros _; by split_and!|done].
Qed.

Lemma response_validate_ok r :
  AuthResponseBody.validate r = Ok tt <->
  AuthResponseBody.protocol_version r = PROTOCOL_VERSION /\
  length (AuthResponseBody.nonce r) = NONCE_LEN /\
  AuthResponseBody.created_at_ms r < AuthResponseBody.expires_at_ms r.
Proof.
  unfold AuthResponseBody.validate. destruct (AuthResponseBody.alg r); cbn.
  destruct (N.eqb_spec (AuthResponseBody.protocol_version r) PROTOCOL_VERSION);
    [|naive_solver].
  rewrite bool_decide_true by done. case_bool_decide; [|naive_solver].
  destruct (N.leb_spec (AuthResponseBody.expires_at_ms r) (AuthResponseBody.created_at_ms r)); cbn.
  - split; [done|]. intros (_ & _ & ?). lia.
  - split; [intros _; by split_and!|done].
Qed.

(** ** Successful encodings *)

Lemma request_tuple_valid r :
  AuthRequestBody.wf r -> oversized (request_texts r) = None ->
  valid request_codec (request_tuple r).
Proof.
  intros (Hv & Hc & He & Hp) Hs%oversized_none. unfold request_texts in Hs.
  repeat apply Forall_cons in Hs as [? Hs]. cbn [snd opt_fits] in *.
  unfold u16_max, u64_max, u32_max in *.
  repeat match goal with
  | H : fits _ = true |- _ => apply fits_valid in H
  | H : opt_fits _ = true |- _ => apply opt_fits_valid in H
  end.
  unfold request_codec, request_tuple. cbn [seq_codec valid fst snd].
  split_and!; try done; try (cbn; lia).
  destruct (AuthRequestBody.client_pid r); cbn; [lia|done].
Qed.

Lemma response_tuple_valid r :
  AuthResponseBody.wf r -> oversized (response_texts r) = None ->
  valid response_codec (response_tuple r).
Proof.
  intros (Hv & Hc & He) Hs%oversized_none. unfold response_texts in Hs.
  repeat apply Forall_cons in Hs as [? Hs]. cbn [snd opt_fits] in *.
  unfold u16_max, u64_max in *.
  repeat match goal with
  | H : fits _ = true |- _ => apply fits_valid in H
  | H : opt_fits _ = true |- _ => apply opt_fits_valid in H
  end.
  unfold response_codec, response_tuple. cbn [seq_codec valid fst snd].
  split_and!; try done; cbn; lia.
Qed.

Lemma request_canonical_ok r m :
  AuthRequestBody.canonical_bytes r = Ok m <->
  AuthRequestBody.validate r = Ok tt /\ oversized (request_texts r) = None /\
  m = enc request_codec (request_tuple r).
Proof.
  rewrite request_canonical_spec. destruct (AuthRequestBody.validate r) as [[]|]; cbn [result_bind]; [|naive_solver].
  destruct (oversized (request_texts r)); naive_solver.
Qed.

Lemma response_canonical_ok r m :
  AuthResponseBody.canonical_bytes r = Ok m <->
  AuthResponseBody.validate r = Ok tt /\ oversized (response_texts r) = None /\
  m = enc response_codec (response_tuple r).
Proof.
  rewrite response_canonical_spec. destruct (AuthResponseBody.validate r) as [[]|]; cbn [result_bind]; [|naive_solver].
  destruct (oversized (response_texts r)); naive_solver.
Qed.

(** ** The decoders: the specification of the format *)

Definition decode_request (s : bytes) : option (AuthRequestBody.t * bytes) :=
  match dec request_codec s with
  | Some (p, rest) => Some (request_of_tuple p, rest)
  | None => None
  end.

Definition decode_response (s : bytes) : option (AuthResponseBody.t * bytes) :=
  match dec response_codec s with
  | Some (p, rest) => Some (response_of_tuple p, rest)
  | None => None
  end.

Lemma decode_request_enc r rest :
  valid request_codec (request_tuple r) ->
  decode_request (enc request_codec (request_tuple r) ++ rest) = Some (r, rest).
Proof. intros Hv. unfold decode_request. by rewrite dec_enc, request_of_to_tuple. Qed.

Lemma decode_response_enc r rest :
  valid response_codec (response_tuple r) ->
  decode_response (enc response_codec (response_tuple r) ++ rest) = Some (r, rest).
Proof. intros Hv. unfold decode_response. by rewrite dec_enc, response_of_to_tuple. Qed.

Lemma request_canonical_inj r1 r2 m :
  AuthRequestBody.wf r1 -> AuthRequestBody.wf r2 ->
  AuthRequestBody.canonical_bytes r1 = Ok m ->
  AuthRequestBody.canonical_bytes r2 = Ok m -> r1 = r2.
Proof.
  intros W1 W2 (_ & S1 & ->)%request_canonical_ok (_ & S2 & E)%request_canonical_ok.
  apply enc_inj in E; [|by apply request_tuple_valid..].
  apply (f_equal request_of_tuple) in E. by rewrite !request_of_to_tuple in E.
Qed.

Lemma response_canonical_inj r1 r2 m :
  AuthResponseBody.wf r1 -> AuthResponseBody.wf r2 ->
  AuthResponseBody.canonical_bytes r1 = Ok m ->
  AuthResponseBody.canonical_bytes r2 = Ok m -> r1 = r2.
Proof.
  intros W1 W2 (_ & S1 & ->)%response_canonical_ok (_ & S2 & E)%response_canonical_ok.
  apply enc_inj in E; [|by apply response_tuple_valid..].
  apply (f_equal response_of_tuple) in E. by rewrite !response_of_to_tuple in E.
Qed.
