(* ===== verification/Samples.v ===== *)
(** * Concrete values for the examples and the witnesses

    The bodies of the deterministic test vector that
    [build_test_vector] of [src/crates/helper/src/main.rs] emits, and an
    instance of the cryptographic interface that computes: SHA-256 itself
    (FIPS 180-4) and a keyed-digest signature scheme.  The instance only
    shows that the laws of the interface can hold; no theorem uses it. *)

From Stdlib Require Import NArith Lia List Bool.
From Stdlib Require Import Strings.Byte Strings.String.
From stdpp Require Import base decidable list option.
From S2P Require Import Prelude RustStd Crypto Protocol.

Open Scope N_scope.

(** ** The test vector's bodies *)

Definition vector_request : AuthRequestBody.t := {|
  AuthRequestBody.protocol_version := PROTOCOL_VERSION;
  AuthRequestBody.request_id := B "req-test-vector-v1";
  AuthRequestBody.nonce := replicate NONCE_LEN x42;
  AuthRequestBody.created_at_ms := 1700000000000;
  AuthRequestBody.expires_at_ms := 1700000030000;
  AuthRequestBody.linux_host_id := B "host-abc";
  AuthRequestBody.linux_hostname := B "linux.example.com";
  AuthRequestBody.pam_service := B "sudo";
  AuthRequestBody.pam_user := B "alice";
  AuthRequestBody.pam_ruser := Some (B "alice");
  AuthRequestBody.pam_rhost := None;
  AuthRequestBody.pam_tty := Some (B "pts/3");
  AuthRequestBody.sudo_command := Some (B "/usr/bin/id");
  AuthRequestBody.client_pid := Some 12345;
  AuthRequestBody.key_id := B "host-key-1";
  AuthRequestBody.alg := Ed25519
|}.

Definition vector_response : AuthResponseBody.t := {|
  AuthResponseBody.protocol_version := PROTOCOL_VERSION;
  AuthResponseBody.request_id := B "req-test-vector-v1";
  AuthResponseBody.nonce := replicate NONCE_LEN x42;
  AuthResponseBody.request_hash := to_be_bytes 32
    0x2e70bc51e67de54f69cba7b4b2319486be71d2979ea8b3e014a73f286c7f4367;
  AuthResponseBody.linux_host_id := B "host-abc";
  AuthResponseBody.pam_service := B "sudo";
  AuthResponseBody.pam_user := B "alice";
  AuthResponseBody.decision := Decision.Approved;
  AuthResponseBody.auth_method := AuthMethod.BiometricOrWatch;
  AuthResponseBody.created_at_ms := 1700000001000;
  AuthResponseBody.expires_at_ms := 1700000011000;
  AuthResponseBody.agent_key_id := B "agent-key-1";
  AuthResponseBody.alg := Ed25519;
  AuthResponseBody.error_code := None;
  AuthResponseBody.error_message := None
|}.

Definition ok_bytes (r : result bytes ProtocolError) : bytes :=
  match r with Ok m => m | Err _ => [] end.

Definition vector_request_bytes : bytes :=
  Eval vm_compute in ok_bytes (AuthRequestBody.canonical_bytes vector_request).
Definition vector_response_bytes : bytes :=
  Eval vm_compute in ok_bytes (AuthResponseBody.canonical_bytes vector_response).

Lemma vector_request_canonical :
  AuthRequestBody.canonical_bytes vector_request = Ok vector_request_bytes.
Proof. vm_compute. reflexivity. Qed.

Lemma vector_response_canonical :
  AuthResponseBody.canonical_bytes vector_response = Ok vector_response_bytes.
Proof. vm_compute. reflexivity. Qed.

Lemma vector_request_wf : AuthRequestBody.wf vector_request.
Proof. by repeat split. Qed.

Lemma vector_response_wf : AuthResponseBody.wf vector_response.
Proof. by repeat split. Qed.

(** ** SHA-256 *)

Module Sha256.
Definition m32 (x : N) : N := N.land x 4294967295.
Definition rotr (n x : N) : N := N.lor (N.shiftr x n) (m32 (N.shiftl x (32 - n))).
Definition xor3 (a b c : N) : N := N.lxor a (N.lxor b c).
Definition ch (x y z : N) : N := N.lxor (N.land x y) (N.land (N.lxor x 4294967295) z).
Definition maj (x y z : N) : N := xor3 (N.land x y) (N.land x z) (N.land y z).
Definition S0 x := xor3 (rotr 2 x) (rotr 13 x) (rotr 22 x).
Definition S1 x := xor3 (rotr 6 x) (rotr 11 x) (rotr 25 x).
Definition s0 x := xor3 (rotr 7 x) (rotr 18 x) (N.shiftr x 3).
Definition s1 x := xor3 (rotr 17 x) (rotr 19 x) (N.shiftr x 10).

(** The constants: the first 32 bits of the fractional parts of the cube and
    square roots of the first primes. *)
Definition primes : list N :=
  List.filter (fun n => forallb (fun d => negb (N.of_nat n mod N.of_nat d =? 0)) (List.seq 2 (n - 2)))
    (List.seq 2 310) ≫= fun n => [N.of_nat n].

Fixpoint cbrt_from (bit : nat) (r n : N) : N :=
  match bit with
  | O => r
  | S bit' =>
      let r' := r + 2 ^ N.of_nat bit' in
      cbrt_from bit' (if r' * r' * r' <=? n then r' else r) n
  end.

Definition K : list N :=
  Eval vm_compute in map (fun p => m32 (cbrt_from 36 0 (p * 2 ^ 96))) primes.
Definition H0 : list N :=
  Eval vm_compute in map (fun p => m32 (N.sqrt (p * 2 ^ 64))) (take 8 primes).

Definition pad (m : bytes) : bytes :=
  let l := length m in
  let z := ((119 - (l mod 64)) mod 64)%nat in
  m ++ x80 :: replicate z x00 ++ to_be_bytes 8 (8 * N.of_nat l).

Fixpoint words (n : nat) (s : bytes) : list N :=
  match n with
  | O => []
  | S n' => from_be_bytes (take 4 s) :: words n' (drop 4 s)
  end.

(** The schedule, most recent word first. *)
Fixpoint schedule (n : nat) (w : list N) : list N :=
  match n with
  | O => w
  | S n' =>
      let at_ i := nth i w 0 in
      schedule n' (m32 (s1 (at_ 1%nat) + at_ 6%nat + s0 (at_ 14%nat) + at_ 15%nat) :: w)
  end.

Definition round (v : list N) (kw : N * N) : list N :=
  match v with
  | [a; b; c; d; e; f; g; h] =>
      let t1 := h + S1 e + ch e f g + kw.1 + kw.2 in
      let t2 := S0 a + maj a b c in
      [m32 (t1 + t2); a; b; c; m32 (d + t1); e; f; g]
  | _ => v
  end.

Definition block (h : list N) (s : bytes) : list N :=
  let w := rev (schedule 48 (rev (words 16 s))) in
  zip_with (fun a b => m32 (a + b)) h (fold_left round (zip K w) h).

Fixpoint blocks (n : nat) (h : list N) (s : bytes) : list N :=
  match n with
  | O => h
  | S n' => blocks n' (block h (take 64 s)) (drop 64 s)
  end.

Definition digest (m : bytes) : bytes :=
  let p := pad m in
  let h := blocks (length p / 64) H0 p in
  flat_map (to_be_bytes 4) (take 8 (h ++ replicate 8 0)).

Lemma digest_length m : length (digest m) = 32%nat.
Proof.
  unfold digest. generalize (blocks (length (pad m) / 64) H0 (pad m)). intros h.
  assert (length (take 8 (h ++ replicate 8 0)) = 8%nat) as Hl.
  { rewrite length_take, length_app, length_replicate. lia. }
  revert Hl. generalize (take 8 (h ++ replicate 8 0)). intros l Hl.
  assert (length (flat_map (to_be_bytes 4) l) = 4 * length l)%nat as ->; [|lia].
  clear Hl. induction l as [|x l IH]; [done|].
  cbn [flat_map]. rewrite length_app, to_be_bytes_length, IH. cbn. lia.
Qed.
End Sha256.

(** The model's canonical bytes hash to the digest recorded in
    [src/test-vectors/v1/approval.json]. *)
Lemma vector_request_hash :
  Sha256.digest vector_request_bytes = AuthResponseBody.request_hash vector_response.
Proof. vm_compute. reflexivity. Qed.

(** ** A computing instance of the interface *)

Definition pad_to (n : nat) (b : bytes) : bytes := take n (b ++ replicate n x00).

Lemma pad_to_length n b : length (pad_to n b) = n.
Proof. unfold pad_to. rewrite length_take, length_app, length_replicate. lia. Qed.

Definition sized (n : nat) : Type := dsig (fun b : bytes => length b = n).
Definition to_sized (n : nat) (b : bytes) : sized n := dexist (pad_to n b) (pad_to_length n b).
Definition of_sized {n} (s : sized n) : bytes := proj1_sig s.

Lemma of_sized_length {n} (s : sized n) : length (of_sized s) = n.
Proof. apply (proj2_dsig s). Qed.

Lemma of_to_sized n b : length b = n -> of_sized (to_sized n b) = b.
Proof. intros <-. cbn. unfold pad_to. by rewrite take_app_length. Qed.

Lemma to_of_sized n (s : sized n) : to_sized n (of_sized s) = s.
Proof. apply dsig_eq. apply of_to_sized, of_sized_length. Qed.

(** A signature scheme from any digest of 32 bytes. *)
Section OfDigest.
Context (digest : bytes -> bytes) (digest_size : forall m, length (digest m) = 32%nat).

Definition sign_of (sk : sized 32) (m : bytes) : sized 64 :=
  to_sized 64 (digest (of_sized sk ++ m) ++ digest (of_sized sk)).

Definition crypto_of : Crypto := {|
  SigningKey := sized 32;
  VerifyingKey := sized 32;
  Signature := sized 64;
  SigningKey_from_bytes := to_sized 32;
  SigningKey_to_bytes := of_sized;
  SigningKey_generate_len := 32;
  SigningKey_generate := to_sized 32;
  SigningKey_verifying_key := fun sk => sk;
  VerifyingKey_from_bytes := fun b => if bool_decide (length b = 32%nat) then Some (to_sized 32 b) else None;
  VerifyingKey_to_bytes := of_sized;
  Signature_from_slice := fun b => if bool_decide (length b = 64%nat) then Some (to_sized 64 b) else None;
  Signature_to_bytes := of_sized;
  SigningKey_sign := sign_of;
  VerifyingKey_verify := fun vk m s => bool_decide (of_sized s = of_sized (sign_of vk m));
  Sha256_digest := digest;
|}.

Lemma crypto_of_laws : CryptoLaws (H := crypto_of).
Proof.
  split.
  - intros b Hb. exact (of_to_sized 32 b Hb).
  - intros sk. exact (of_sized_length sk).
  - intros vk. exact (of_sized_length vk).
  - intros sk. change (sized 32) in sk. cbn -[to_sized].
    rewrite bool_decide_true by exact (of_sized_length sk). f_equal. exact (to_of_sized 32 sk).
  - intros s. exact (of_sized_length s).
  - intros s. change (sized 64) in s. cbn -[to_sized].
    rewrite bool_decide_true by exact (of_sized_length s). f_equal. exact (to_of_sized 64 s).
  - intros b s. cbn -[to_sized]. case_bool_decide; [done|discriminate].
  - intros m. exact (digest_size m).
  - intros sk m. exact (bool_decide_true _ eq_refl).
Qed.
End OfDigest.

Definition sample_sign : sized 32 -> bytes -> sized 64 := sign_of Sha256.digest.
Definition sample_crypto : Crypto := crypto_of Sha256.digest.

Lemma sample_crypto_laws : CryptoLaws (H := sample_crypto).
Proof. exact (crypto_of_laws Sha256.digest Sha256.digest_length). Qed.

(** The same without hashing, for witnesses that sign many messages. *)
Definition plain_crypto : Crypto := crypto_of (pad_to 32).

Lemma plain_crypto_laws : CryptoLaws (H := plain_crypto).
Proof. exact (crypto_of_laws (pad_to 32) (pad_to_length 32)). Qed.

Lemma vector_response_for_request :
  AuthResponseBody.for_request (H := sample_crypto) vector_request Decision.Approved
    AuthMethod.BiometricOrWatch 1700000001000 1700000011000 (B "agent-key-1")
  = Ok vector_response.
Proof. vm_compute. reflexivity. Qed.

(** Keys made of one repeated byte, as in the test vector. *)
Definition sample_key (b : byte) : bytes := replicate 32 b.
Definition sample_sk (b : byte) : sized 32 := to_sized 32 (sample_key b).

Definition vector_signed_response : SignedAuthResponse.t :=
  SignedAuthResponse.mk vector_response
    (of_sized (sample_sign (sample_sk x09) vector_response_bytes)).
