(* ===== verification/ProtocolProps.v ===== *)
(** * Properties of the protocol crate

    Canonical encodings: injective, decodable, separated by domain, and
    their failures.  Freshness at the width of [u64].  Signatures and the
    binding of a response to its request: completeness for honest parties,
    soundness for the verifier, and the reduction of a doubly bound response
    to a SHA-256 collision. *)

From Stdlib Require Import NArith Lia List Bool.
From Stdlib Require Import Strings.Byte Strings.String.
From stdpp Require Import base decidable list option strings.
From S2P Require Import Prelude RustStd Crypto Protocol Canonical Samples.

Open Scope N_scope.

(** ** Canonical encodings *)

(** What is signed for a request determines the request.  Two requests
    whose canonical bytes are equal agree on every field. *)
Theorem request_canonical_injective (r1 r2 : AuthRequestBody.t) (m : bytes) :
  AuthRequestBody.wf r1 -> AuthRequestBody.wf r2 ->
  AuthRequestBody.canonical_bytes r1 = Ok m ->
  AuthRequestBody.canonical_bytes r2 = Ok m ->
  r1 = r2.
Proof. apply request_canonical_inj. Qed.

Lemma request_canonical_injective_witness :
  vector_request = vector_request.
Proof. exact (request_canonical_injective vector_request vector_request vector_request_bytes
  vector_request_wf vector_request_wf vector_request_canonical vector_request_canonical). Defined.

(** The canonical bytes of a response determine the response, its
    decision, method and error fields included. *)
Theorem response_canonical_injective (r1 r2 : AuthResponseBody.t) (m : bytes) :
  AuthResponseBody.wf r1 -> AuthResponseBody.wf r2 ->
  AuthResponseBody.canonical_bytes r1 = Ok m ->
  AuthResponseBody.canonical_bytes r2 = Ok m ->
  r1 = r2.
Proof. apply response_canonical_inj. Qed.

Lemma response_canonical_injective_witness :
  vector_response = vector_response.
Proof. exact (response_canonical_injective vector_response vector_response vector_response_bytes
  vector_response_wf vector_response_wf vector_response_canonical vector_response_canonical). Defined.

(** No byte string is the canonical encoding both of a request and of a
    response: a signature on one can never be used as a signature on the
    other. *)
Theorem request_response_domains_disjoint (q : AuthRequestBody.t) (p : AuthResponseBody.t)
  (m : bytes) :
  AuthRequestBody.canonical_bytes q = Ok m -> AuthResponseBody.canonical_bytes p <> Ok m.
Proof.
  intros (_ & _ & ->)%request_canonical_ok (_ & _ & E)%response_canonical_ok.
  unfold request_codec, response_codec in E. rewrite (enc_seq (const_codec REQUEST_DOMAIN _)) in E.
  rewrite (enc_seq (const_codec RESPONSE_DOMAIN _)) in E.
  apply (enc_inj_app bytes_codec REQUEST_DOMAIN RESPONSE_DOMAIN) in E as [E _];
    [discriminate E|done|done].
Qed.

Lemma request_response_domains_disjoint_witness :
  AuthResponseBody.canonical_bytes vector_response <> Ok vector_request_bytes.
Proof. exact (request_response_domains_disjoint vector_request vector_response vector_request_bytes
  vector_request_canonical). Defined.

(** C33: the canonical bytes decode to the request they were made from, and
    the decoder finds their end whatever follows them. *)
Theorem request_canonical_roundtrip (r : AuthRequestBody.t) (m rest : bytes) :
  AuthRequestBody.wf r -> AuthRequestBody.canonical_bytes r = Ok m ->
  decode_request (m ++ rest) = Some (r, rest).
Proof.
  intros W (_ & S & ->)%request_canonical_ok.
  by apply decode_request_enc, request_tuple_valid.
Qed.

Lemma request_canonical_roundtrip_witness :
  decode_request (vector_request_bytes ++ B "tail") = Some (vector_request, B "tail").
Proof. exact (request_canonical_roundtrip vector_request vector_request_bytes (B "tail")
  vector_request_wf vector_request_canonical). Defined.

(** The canonical bytes of a response decode to the response. *)
Theorem response_canonical_roundtrip (r : AuthResponseBody.t) (m rest : bytes) :
  AuthResponseBody.wf r -> AuthResponseBody.canonical_bytes r = Ok m ->
  decode_response (m ++ rest) = Some (r, rest).
Proof.
  intros W (_ & S & ->)%response_canonical_ok.
  by apply decode_response_enc, response_tuple_valid.
Qed.

Lemma response_canonical_roundtrip_witness :
  decode_response (vector_response_bytes ++ B "tail") = Some (vector_response, B "tail").
Proof. exact (response_canonical_roundtrip vector_response vector_response_bytes (B "tail")
  vector_response_wf vector_response_canonical). Defined.

Lemma request_canonical_err (r : AuthRequestBody.t) (e : ProtocolError) :
  AuthRequestBody.canonical_bytes r = Err e <->
  AuthRequestBody.validate r = Err e \/
  AuthRequestBody.validate r = Ok tt /\
    exists f, oversized (request_texts r) = Some f /\ e = FieldTooLarge f.
Proof.
  rewrite request_canonical_spec.
  destruct (AuthRequestBody.validate r) as [[]|e']; cbn [result_bind]; [|naive_solver].
  destruct (oversized (request_texts r)) as [f|]; naive_solver.
Qed.

(** C40: encoding a request fails in exactly two ways: with the error of
    [validate], or, for a valid request, with [FieldTooLarge] for the first
    field in writing order whose length does not fit in 32 bits. *)
Theorem request_canonical_errors (r : AuthRequestBody.t) (e : ProtocolError) :
  AuthRequestBody.canonical_bytes r = Err e <->
  AuthRequestBody.validate r = Err e \/
  AuthRequestBody.validate r = Ok tt /\
    exists f, oversized (request_texts r) = Some f /\ e = FieldTooLarge f.
Proof. apply request_canonical_err. Qed.

Lemma request_canonical_errors_vector :
  AuthRequestBody.canonical_bytes
    (AuthRequestBody.mk 2 [] [] 0 0 [] [] [] [] None None None None None [] Ed25519)
  = Err (UnsupportedVersion 2).
Proof. reflexivity. Qed.

(** ** Freshness *)

(** A request is expired exactly after its expiry (the expiry instant
    itself is accepted), otherwise created in the future exactly when its
    creation is more than the allowed skew ahead, otherwise fresh.  The
    saturation of the 64-bit addition never changes the verdict. *)
Theorem request_freshness_exact (r : AuthRequestBody.t) (now skew : N) :
  AuthRequestBody.wf r ->
  AuthRequestBody.verify_freshness r now skew =
  if AuthRequestBody.expires_at_ms r <? now then Err Expired
  else if now + skew <? AuthRequestBody.created_at_ms r then Err CreatedInFuture
  else Ok tt.
Proof.
  intros (_ & Hc & _). unfold AuthRequestBody.verify_freshness, saturating_add_u64.
  destruct (AuthRequestBody.expires_at_ms r <? now); [done|]. cbn [negb].
  destruct (N.ltb_spec (now + skew) (AuthRequestBody.created_at_ms r)) as [L|L];
    destruct (N.ltb_spec (N.min (now + skew) u64_max) (AuthRequestBody.created_at_ms r)) as [L'|L'];
    (done || lia).
Qed.

Lemma request_freshness_exact_witness :
  AuthRequestBody.verify_freshness vector_request 1700000030000 30000 = Ok tt /\
  AuthRequestBody.verify_freshness vector_request 1700000030001 30000 = Err Expired /\
  AuthRequestBody.verify_freshness vector_request 1699999969999 30000 = Err CreatedInFuture.
Proof.
  split; [|split].
  - exact (request_freshness_exact vector_request 1700000030000 30000 vector_request_wf).
  - exact (request_freshness_exact vector_request 1700000030001 30000 vector_request_wf).
  - exact (request_freshness_exact vector_request 1699999969999 30000 vector_request_wf).
Defined.

(** ** Signatures and binding *)

Section Signatures.
Context `{C : Crypto}.

(** What a verified signature is, and what a bound response is. *)
Definition signature_holds (public_key m signature : bytes) : Prop :=
  length public_key = ED25519_PUBLIC_KEY_LEN /\
  exists vk s, VerifyingKey_from_bytes public_key = Some vk /\
    Signature_from_slice signature = Some s /\ VerifyingKey_verify vk m s = true.

Definition bound_to (p : AuthResponseBody.t) (q : AuthRequestBody.t) : Prop :=
  AuthResponseBody.request_id p = AuthRequestBody.request_id q /\
  AuthResponseBody.nonce p = AuthRequestBody.nonce q /\
  (exists m, AuthRequestBody.canonical_bytes q = Ok m /\
     AuthResponseBody.request_hash p = Sha256_digest m) /\
  AuthResponseBody.linux_host_id p = AuthRequestBody.linux_host_id q /\
  AuthResponseBody.pam_service p = AuthRequestBody.pam_service q /\
  AuthResponseBody.pam_user p = AuthRequestBody.pam_user q.

Lemma verify_ed25519_ok pk m s :
  verify_ed25519 pk m s = Ok tt <-> signature_holds pk m s.
Proof.
  unfold verify_ed25519, signature_holds. case_bool_decide; [|naive_solver].
  destruct (VerifyingKey_from_bytes pk) as [vk|]; cbn; [|naive_solver].
  destruct (Signature_from_slice s) as [sg|]; cbn; [|naive_solver].
  destruct (VerifyingKey_verify vk m sg) eqn:E.
  - split; [|done]. intros _. split; [done|]. by exists vk, sg.
  - split; [done|]. intros (_ & ? & ? & [= <-] & [= <-] & ?). congruence.
Qed.

Lemma verify_binding_ok p q :
  AuthResponseBody.verify_binding p q = Ok tt <-> bound_to p q.
Proof.
  unfold AuthResponseBody.verify_binding, AuthRequestBody.sha256, bound_to.
  destruct (AuthRequestBody.canonical_bytes q) as [m|e]; cbn [result_bind]; [|naive_solver].
  repeat case_bool_decide; cbn [andb]; naive_solver.
Qed.

Lemma response_verify_ok s pk :
  SignedAuthResponse.verify s pk = Ok tt <->
  exists m, AuthResponseBody.canonical_bytes (SignedAuthResponse.body s) = Ok m /\
    signature_holds pk m (SignedAuthResponse.signature s).
Proof.
  unfold SignedAuthResponse.verify. rewrite result_bind_ok.
  by setoid_rewrite verify_ed25519_ok.
Qed.

Lemma verify_for_request_ok (s : SignedAuthResponse.t) (q : AuthRequestBody.t) (pk : bytes) :
  SignedAuthResponse.verify_for_request s q pk = Ok tt <->
  SignedAuthResponse.verify s pk = Ok tt /\ bound_to (SignedAuthResponse.body s) q.
Proof.
  unfold SignedAuthResponse.verify_for_request. rewrite result_bind_ok, <- verify_binding_ok.
  split; [by intros ([] & V & Bd)|]. intros [V Bd]. by exists tt.
Qed.

(** C28: a response is accepted for a request exactly when its signature
    verifies, under the given 32-byte key, on its own canonical bytes, and
    its identifier, nonce, hash, host, service and user are those of the
    request. *)
Theorem verify_for_request_exact (s : SignedAuthResponse.t) (q : AuthRequestBody.t)
  (pk : bytes) :
  SignedAuthResponse.verify_for_request s q pk = Ok tt <->
  (exists m, AuthResponseBody.canonical_bytes (SignedAuthResponse.body s) = Ok m /\
     signature_holds pk m (SignedAuthResponse.signature s)) /\
  bound_to (SignedAuthResponse.body s) q.
Proof. by rewrite verify_for_request_ok, response_verify_ok. Qed.

(** A binding mismatch is reported only for a response whose signature
    was verified first. *)
Theorem binding_checked_after_signature (s : SignedAuthResponse.t) (q : AuthRequestBody.t)
  (pk : bytes) :
  SignedAuthResponse.verify_for_request s q pk = Err ResponseBindingMismatch <->
  SignedAuthResponse.verify s pk = Ok tt /\ ~ bound_to (SignedAuthResponse.body s) q /\
  exists m, AuthRequestBody.canonical_bytes q = Ok m.
Proof.
  unfold SignedAuthResponse.verify_for_request. rewrite <- verify_binding_ok.
  assert (SignedAuthResponse.verify s pk <> Err ResponseBindingMismatch) as Hne.
  { unfold SignedAuthResponse.verify. intros [E|(m & _ & E)]%result_bind_err.
    - rewrite response_canonical_spec in E.
      apply result_bind_err in E as [E|(? & _ & E)].
      + unfold AuthResponseBody.validate in E. by repeat case_match.
      + by case_match.
    - unfold verify_ed25519, ok_or, result_bind in E. repeat case_match; simplify_eq. }
  destruct (SignedAuthResponse.verify s pk) as [[]|e]; cbn [result_bind]; [|naive_solver].
  unfold AuthResponseBody.verify_binding, AuthRequestBody.sha256.
  destruct (AuthRequestBody.canonical_bytes q) as [m|e] eqn:E; cbn [result_bind].
  - case_match; naive_solver.
  - split; [|naive_solver]. intros [= ->]. apply request_canonical_err in E as [E|E].
    + unfold AuthRequestBody.validate in E. by repeat case_match.
    + naive_solver.
Qed.
End Signatures.

Section Honest.
Context `{L : CryptoLaws}.

Lemma sign_holds sk m :
  signature_holds (VerifyingKey_to_bytes (SigningKey_verifying_key sk)) m
    (Signature_to_bytes (SigningKey_sign sk m)).
Proof.
  split; [apply VerifyingKey_to_bytes_length|].
  exists (SigningKey_verifying_key sk), (SigningKey_sign sk m).
  split_and!; [apply VerifyingKey_bytes_id|apply Signature_bytes_id|apply verify_sign].
Qed.

(** Signing a request succeeds exactly when it has canonical bytes,
    does not change the body, and the result verifies under the public
    half of the key. *)
Theorem signed_request_verifies (r : AuthRequestBody.t) (sk : SigningKey) (m : bytes) :
  AuthRequestBody.canonical_bytes r = Ok m ->
  exists s, SignedAuthRequest.sign r sk = Ok s /\ SignedAuthRequest.body s = r /\
    SignedAuthRequest.verify s (VerifyingKey_to_bytes (SigningKey_verifying_key sk)) = Ok tt.
Proof.
  intros E. unfold SignedAuthRequest.sign. rewrite E. cbn [result_bind].
  eexists. split; [done|]. split; [done|].
  unfold SignedAuthRequest.verify. cbn [SignedAuthRequest.body SignedAuthRequest.signature].
  rewrite E. cbn [result_bind]. by apply verify_ed25519_ok, sign_holds.
Qed.

Lemma for_request_bound q d m c e k p :
  AuthResponseBody.for_request q d m c e k = Ok p -> bound_to p q.
Proof.
  unfold AuthResponseBody.for_request, AuthRequestBody.sha256.
  intros F. res_inv F. subst. unfold bound_to. cbn. eauto 10.
Qed.

(** A response that an agent builds for a request and signs is
    accepted for that request under the agent's public key, whatever the
    decision. *)
Theorem honest_response_accepted (q : AuthRequestBody.t) (d : Decision.t) (mt : AuthMethod.t)
  (created expires : N) (key_id : bytes) (sk : SigningKey)
  (p : AuthResponseBody.t) (s : SignedAuthResponse.t) :
  AuthResponseBody.for_request q d mt created expires key_id = Ok p ->
  SignedAuthResponse.sign p sk = Ok s ->
  SignedAuthResponse.verify_for_request s q
    (VerifyingKey_to_bytes (SigningKey_verifying_key sk)) = Ok tt.
Proof.
  intros F%for_request_bound S. unfold SignedAuthResponse.sign in S. res_inv S. subst.
  apply verify_for_request_ok. cbn. split; [|done].
  apply response_verify_ok. cbn. eexists. split; [done|apply sign_holds].
Qed.

(** A response accepted for two requests shows either that they are
    the same request or a collision of SHA-256 between their canonical
    bytes.  No assumption about the hash is made. *)
Theorem doubly_bound_is_collision (s : SignedAuthResponse.t) (q1 q2 : AuthRequestBody.t)
  (pk1 pk2 : bytes) :
  AuthRequestBody.wf q1 -> AuthRequestBody.wf q2 ->
  SignedAuthResponse.verify_for_request s q1 pk1 = Ok tt ->
  SignedAuthResponse.verify_for_request s q2 pk2 = Ok tt ->
  q1 = q2 \/
  exists m1 m2, AuthRequestBody.canonical_bytes q1 = Ok m1 /\
    AuthRequestBody.canonical_bytes q2 = Ok m2 /\ m1 <> m2 /\
    Sha256_digest m1 = Sha256_digest m2.
Proof.
  intros W1 W2 V1 V2.
  apply verify_for_request_ok in V1 as [_ (_ & _ & (m1 & E1 & H1) & _)].
  apply verify_for_request_ok in V2 as [_ (_ & _ & (m2 & E2 & H2) & _)].
  destruct (decide (m1 = m2)) as [<-|Hne].
  - left. by eapply request_canonical_inj.
  - right. exists m1, m2. by rewrite <- H1, <- H2.
Qed.
End Honest.

(** The witnesses run on the test vector with the sample instance. *)

Lemma signed_request_verifies_witness :
  exists s, SignedAuthRequest.sign (H := sample_crypto) vector_request (sample_sk x07) = Ok s /\
    SignedAuthRequest.body s = vector_request /\
    SignedAuthRequest.verify (H := sample_crypto) s (sample_key x07) = Ok tt.
Proof.
  exact (signed_request_verifies (L := sample_crypto_laws) vector_request (sample_sk x07)
    vector_request_bytes vector_request_canonical).
Defined.

Lemma vector_response_sign :
  SignedAuthResponse.sign (H := sample_crypto) vector_response (sample_sk x09)
  = Ok vector_signed_response.
Proof.
  unfold SignedAuthResponse.sign. rewrite vector_response_canonical. reflexivity.
Qed.

Lemma honest_response_accepted_witness :
  SignedAuthResponse.verify_for_request (H := sample_crypto) vector_signed_response
    vector_request (sample_key x09) = Ok tt.
Proof.
  exact (honest_response_accepted (L := sample_crypto_laws) vector_request Decision.Approved
    AuthMethod.BiometricOrWatch 1700000001000 1700000011000 (B "agent-key-1") (sample_sk x09)
    vector_response vector_signed_response vector_response_for_request vector_response_sign).
Defined.

Lemma vector_response_verified :
  SignedAuthResponse.verify_for_request (H := sample_crypto) vector_signed_response
    vector_request (sample_key x09) = Ok tt.
Proof. vm_compute. reflexivity. Qed.

Lemma doubly_bound_is_collision_witness :
  vector_request = vector_request \/
  exists m1 m2, AuthRequestBody.canonical_bytes vector_request = Ok m1 /\
    AuthRequestBody.canonical_bytes vector_request = Ok m2 /\ m1 <> m2 /\
    Sha256.digest m1 = Sha256.digest m2.
Proof.
  exact (doubly_bound_is_collision (H := sample_crypto) vector_signed_response vector_request
    vector_request (sample_key x09) (sample_key x09) vector_request_wf vector_request_wf
    vector_response_verified vector_response_verified).
Defined.
