(* ===== verification/Sys.v ===== *)
(** * The operating system and the effect monad

    The system calls the program makes, through [std] or [libc], are the
    operations of the class [Kernel] over an abstract state [W] of the
    outside world: clocks, files, sockets and the peer behind them.  Nothing
    is assumed about their answers, so a theorem about a handler holds
    whatever the kernel, the file system and the peer do, at every
    interleaving of their actions with the calls of the program.

    A computation [M W E A] takes the world and the log of the calls made so
    far.  It returns [Ok] or [Err], panics, or runs out of the fuel that
    bounds the loops.  The log is an observation only: no definition reads it. *)

From Stdlib Require Import NArith ZArith Lia List Bool.
From Stdlib Require Import Strings.Byte Strings.String.
From stdpp Require Import base decidable list option strings.
From S2P Require Import Prelude RustStd.

Open Scope N_scope.

(** ** Errors of [std::io] *)

Inductive errno : Type :=
| EINTR | EAGAIN | EINPROGRESS | EALREADY | EISCONN | EBADF | ETIMEDOUT
| EEXIST | ENOENT | EACCES | EPERM | EINVAL
| Eother (n : N).

#[global] Instance errno_eq_decision : EqDecision errno.
Proof. solve_decision. Defined.

Inductive ErrorKind : Type :=
| Interrupted | WouldBlock | TimedOut | AlreadyExists | NotFound | PermissionDenied
| InvalidInput | InvalidData | UnexpectedEof | WriteZero | OtherKind.

#[global] Instance ErrorKind_eq_decision : EqDecision ErrorKind.
Proof. solve_decision. Defined.

(** [io::Error::from_raw_os_error], [io::Error::new] and [io::Error::from(kind)]. *)
Inductive io_error : Type :=
| Os (e : errno)
| Custom (k : ErrorKind) (message : string)
| Simple (k : ErrorKind).

#[global] Instance io_error_eq_decision : EqDecision io_error.
Proof. solve_decision. Defined.

(** [io::Error::kind]; the raw codes decode as [std] does on Unix. *)
Definition kind (error : io_error) : ErrorKind :=
  match error with
  | Os EINTR => Interrupted
  | Os EAGAIN => WouldBlock
  | Os ETIMEDOUT => TimedOut
  | Os EEXIST => AlreadyExists
  | Os ENOENT => NotFound
  | Os (EACCES | EPERM) => PermissionDenied
  | Os EINVAL => InvalidInput
  | Os _ => OtherKind
  | Custom k _ | Simple k => k
  end.

(** ** System calls *)

Abbreviation fd := N.

Inductive open_flag : Type :=
| O_RDONLY | O_WRONLY | O_CLOEXEC | O_NOFOLLOW | O_NONBLOCK | O_DIRECTORY | O_CREAT | O_EXCL.

#[global] Instance open_flag_eq_decision : EqDecision open_flag.
Proof. solve_decision. Defined.

(** [fstat]: [st_mode] and [st_uid]; the file type is in the bits [S_IFMT],
    [0o170000]. *)
Record Metadata : Type := { mode : N; uid : N }.

Definition S_IFMT : N := 0xF000.
Definition is_dir (m : Metadata) : bool := N.land (mode m) S_IFMT =? 0x4000.
Definition is_file (m : Metadata) : bool := N.land (mode m) S_IFMT =? 0x8000.

(** What [poll] leaves: its result, [revents] and [errno]. *)
Record poll_reply : Type := { poll_result : Z; revents : N; poll_errno : errno }.

Definition POLLIN : N := 1.
Definition POLLOUT : N := 4.
Definition POLLNVAL : N := 32.

Class Kernel (W : Type) := {
  k_instant_now : W -> N * W;
  k_system_now : W -> option N * W;
  k_process_id : W -> N * W;
  k_random : nat -> W -> bytes * W;
  k_sleep : N -> W -> unit * W;
  k_sun_path_len : nat;
  k_socket : W -> result fd errno * W;
  k_set_cloexec : fd -> W -> result unit errno * W;
  k_set_nonblocking : fd -> W -> result unit errno * W;
  k_connect : fd -> bytes -> W -> result unit errno * W;
  k_take_error : fd -> W -> result (option errno) errno * W;
  k_poll : fd -> N -> N -> W -> poll_reply * W;
  k_bind : bytes -> W -> result fd errno * W;
  k_accept : fd -> W -> result fd errno * W;
  k_read : fd -> nat -> W -> result bytes errno * W;
  k_write : fd -> bytes -> W -> result nat errno * W;
  k_open : bytes -> list open_flag -> N -> W -> result fd errno * W;
  k_openat : fd -> bytes -> list open_flag -> N -> W -> result fd errno * W;
  k_fstat : fd -> W -> result Metadata errno * W;
  k_getcwd : W -> result bytes errno * W;
  k_unlink : bytes -> W -> result unit errno * W;
  k_unlinkat : fd -> bytes -> W -> result unit errno * W;
  k_dup_cloexec : fd -> W -> result fd errno * W;
  k_close : fd -> W -> unit * W;
  k_fdopendir : fd -> W -> result N errno * W;
  k_readdir : N -> W -> option bytes * W;
  k_closedir : N -> W -> unit * W;
  k_stdout : bytes -> W -> unit * W;
}.

(** The calls of the PAM module, which is another program: what it asks PAM,
    and what it does with processes. *)
Inductive pam_event : Type :=
| EvPamItem (item : N) (r : result (option bytes) N)
| EvPamUser (r : result (option bytes) N)
| EvStrdup (r : result unit errno)
| EvMonotonic (r : result (N * N) errno)
| EvFork (r : result N errno)
| EvWaitpid (pid : N) (nohang : bool) (r : result (option N) errno)
| EvKill (pid signal : N)
| EvUsleep (us : N)
| EvDup2 (f g : fd) (r : result unit errno)
| EvCloseRange (lowest : fd) (r : result unit errno)
| EvGetdents (f : fd) (len : nat) (r : result bytes errno)
| EvExec (f : fd) (argv envp : list bytes) (r : result unit errno).

(** The reply of LocalAuthentication on the Mac: the user was recognised, or
    not, with the code of an [LAError] or with another error. *)
Inductive la_code : Type :=
| userCancel | systemCancel | appCancel
| biometryNotAvailable | biometryNotEnrolled | biometryLockout | watchNotAvailable
| otherCode (n : Z).
Inductive la_reply : Type := Recognised | LAError (code : la_code) | OtherError.

(** [stat] on the Mac, as far as the agent reads it. *)
Record Stat : Type := { st_dev : N; st_ino : N; st_mode : N; st_uid : N; st_gid : N }.

(** What the agent asks of files, of the socket's file and of the keychain; a
    status of the keychain is an [OSStatus]. *)
Inductive mac_file_event : Type :=
| EvGeteuid (u : N)
| EvStat (f : fd) (r : result Stat errno)
| EvStatat (dir : fd) (name : bytes) (r : result Stat errno)
| EvLstat (path : bytes) (r : result Stat errno)
| EvReadToEnd (f : fd) (r : result bytes errno)
| EvContents (path : bytes) (r : result bytes errno)
| EvResolve (path resolved : bytes)
| EvUuid (u : bytes)
| EvFchown (f : fd) (owner group : N) (r : result unit errno)
| EvFchmod (f : fd) (m : N) (r : result unit errno)
| EvFsync (f : fd) (r : result unit errno)
| EvRenameat (dir : fd) (from : bytes) (dir' : fd) (to : bytes) (r : result unit errno)
| EvNoSigPipe (f : fd) (r : result unit errno)
| EvBindSocket (f : fd) (path : bytes) (r : result unit errno)
| EvListen (f : fd) (backlog : N) (r : result unit errno)
| EvChmod (path : bytes) (m : N) (r : result unit errno)
| EvUmask (mask previous : N)
| EvGenerate
| EvKeychainUpdate (service account : bytes) (status : Z)
| EvKeychainAdd (service account : bytes) (status : Z)
| EvKeychainRead (service account : bytes) (status : Z).

(** The calls of the agent on the Mac: its clocks, a look at the socket, the
    flag of a request, the turn for the screen, the session that asks the user
    and its result, the history of the rate limiter, what the user is shown
    and answers, and the signatures made. *)
Inductive mac_event : Type :=
| EvWall (t : N)
| EvUptime (t : N)
| EvPeek (f : fd) (r : result bytes errno)
| EvFlag (flag : N)
| EvCancelled (flag : N) (cancelled : bool)
| EvSetCancelled (flag : N)
| EvSlot (taken : bool)
| EvSlotSignal
| EvSession (id : N)
| EvStart (id : N)
| EvResult (id : N) (complete : bool)
| EvReady (id : N)
| EvSessionCancel (id : N)
| EvHistory
| EvLimiter (key : bytes) (now : N) (allowed : bool)
| EvAlert (text : bytes) (first_button : bool)
| EvCanEvaluate (can : bool)
| EvEvaluate (reason : bytes) (r : la_reply)
| EvSigned (message : bytes) (signature : option bytes)
| EvFile (e : mac_file_event).

Inductive event : Type :=
| EvInstant (t : N)
| EvSystem (t : option N)
| EvProcessId (p : N)
| EvRandom (b : bytes)
| EvSleep (ns : N)
| EvSocket (r : result fd errno)
| EvSetCloexec (f : fd) (r : result unit errno)
| EvSetNonblocking (f : fd) (r : result unit errno)
| EvConnect (f : fd) (path : bytes) (r : result unit errno)
| EvTakeError (f : fd) (r : result (option errno) errno)
| EvPoll (f : fd) (events timeout : N) (r : poll_reply)
| EvBind (path : bytes) (r : result fd errno)
| EvAccept (f : fd) (r : result fd errno)
| EvRead (f : fd) (len : nat) (r : result bytes errno)
| EvWrite (f : fd) (b : bytes) (r : result nat errno)
| EvOpen (path : bytes) (flags : list open_flag) (m : N) (r : result fd errno)
| EvOpenat (dir : fd) (name : bytes) (flags : list open_flag) (m : N) (r : result fd errno)
| EvFstat (f : fd) (r : result Metadata errno)
| EvGetcwd (r : result bytes errno)
| EvUnlink (path : bytes) (r : result unit errno)
| EvUnlinkat (dir : fd) (name : bytes) (r : result unit errno)
| EvDup (f : fd) (r : result fd errno)
| EvClose (f : fd)
| EvFdopendir (f : fd) (r : result N errno)
| EvReaddir (d : N) (r : option bytes)
| EvClosedir (d : N)
| EvStdout (b : bytes)
| EvPam (e : pam_event)
| EvMac (e : mac_event).

(** ** The monad *)

Record state (W : Type) : Type := St { world : W; log : list event }.
Arguments St {W} world log.
Arguments world {W} s.
Arguments log {W} s.

Inductive outcome (A : Type) : Type :=
| Done (a : A)
| Panicked
| OutOfFuel.
Arguments Done {A} a.
Arguments Panicked {A}.
Arguments OutOfFuel {A}.

Definition M (W E A : Type) : Type := state W -> outcome (result A E) * state W.

Section Monad.
Context {W : Type}.

Definition ret {E A} (a : A) : M W E A := fun s => (Done (Ok a), s).
Definition throw {E A} (e : E) : M W E A := fun s => (Done (Err e), s).
Definition panic {E A} : M W E A := fun s => (Panicked, s).
Definition out_of_fuel {E A} : M W E A := fun s => (OutOfFuel, s).
Definition lift {E A} (r : result A E) : M W E A := fun s => (Done r, s).

Definition bind {E A B} (m : M W E A) (k : A -> M W E B) : M W E B := fun s =>
  match m s with
  | (Done (Ok a), s') => k a s'
  | (Done (Err e), s') => (Done (Err e), s')
  | (Panicked, s') => (Panicked, s')
  | (OutOfFuel, s') => (OutOfFuel, s')
  end.

(** [match m { Ok(..) => .., Err(..) => .. }]: the result as a value. *)
Definition attempt {E F A} (m : M W E A) : M W F (result A E) := fun s =>
  match m s with
  | (Done r, s') => (Done (Ok r), s')
  | (Panicked, s') => (Panicked, s')
  | (OutOfFuel, s') => (OutOfFuel, s')
  end.

(** The conversion of the error that [?] and [map_err] make. *)
Definition into {E F A} (f : E -> F) (m : M W E A) : M W F A := fun s =>
  match m s with
  | (Done r, s') => (Done (map_err f r), s')
  | (Panicked, s') => (Panicked, s')
  | (OutOfFuel, s') => (OutOfFuel, s')
  end.

(** [loop { .. }]: [inl] continues with the next loop state, [inr] breaks. *)
Fixpoint loop {E S A} (fuel : nat) (body : S -> M W E (S + A)) (st : S) : M W E A :=
  match fuel with
  | O => out_of_fuel
  | S fuel' =>
      bind (body st) (fun r =>
        match r with
        | inl st' => loop fuel' body st'
        | inr a => ret a
        end)
  end.

Definition prim {E A} (f : W -> A * W) (ev : A -> event) : M W E A := fun s =>
  let (a, w') := f (world s) in
  (Done (Ok a), St w' (log s ++ [ev a])).

(** A call that reports failure through [errno]. *)
Definition os {A} (m : M W io_error (result A errno)) : M W io_error A :=
  bind m (fun r => lift (map_err Os r)).
End Monad.

Notation "'let!' x := m 'in' k" := (bind m (fun x => k))
  (at level 10, x pattern, m at level 100, k at level 200) : rust_scope.
Notation "'do!' m ';;' k" := (bind m (fun _ => k))
  (at level 10, m at level 99, k at level 200) : rust_scope.

(** ** The calls in the monad *)

Section Calls.
Context `{Kernel W} {E : Type}.

Definition instant_now : M W E N := prim k_instant_now EvInstant.
Definition system_now : M W E (option N) := prim k_system_now EvSystem.
(** [getpid() as u32] *)
Definition process_id : M W E N :=
  let! p := prim k_process_id EvProcessId in ret (p mod 4294967296).
(** A buffer of [n] zero bytes filled from the random source. *)
Definition fill_bytes (n : nat) : M W E bytes :=
  let! random := prim (k_random n) EvRandom in ret (take n (random ++ replicate n x00)).
Definition sleep (ns : N) : M W E unit := prim (k_sleep ns) (fun _ => EvSleep ns).
Definition stdout (b : bytes) : M W E unit := prim (k_stdout b) (fun _ => EvStdout b).
Definition take_error (f : fd) : M W io_error (option errno) :=
  os (prim (k_take_error f) (EvTakeError f)).
Definition poll (f : fd) (events timeout : N) : M W E poll_reply :=
  prim (k_poll f events timeout) (EvPoll f events timeout).
Definition sys_connect (f : fd) (path : bytes) : M W E (result unit errno) :=
  prim (k_connect f path) (EvConnect f path).
Definition socket : M W io_error fd := os (prim k_socket EvSocket).
Definition set_cloexec (f : fd) : M W io_error unit :=
  os (prim (k_set_cloexec f) (EvSetCloexec f)).
Definition set_nonblocking (f : fd) : M W io_error unit :=
  os (prim (k_set_nonblocking f) (EvSetNonblocking f)).
Definition sys_bind (path : bytes) : M W io_error fd := os (prim (k_bind path) (EvBind path)).
Definition accept (f : fd) : M W io_error fd := os (prim (k_accept f) (EvAccept f)).
Definition read (f : fd) (len : nat) : M W io_error bytes :=
  os (prim (k_read f len) (EvRead f len)).
Definition write (f : fd) (b : bytes) : M W io_error nat :=
  os (prim (k_write f b) (EvWrite f b)).
Definition sys_open (path : bytes) (flags : list open_flag) (m : N) : M W io_error fd :=
  os (prim (k_open path flags m) (EvOpen path flags m)).
Definition openat (dir : fd) (name : bytes) (flags : list open_flag) (m : N)
  : M W io_error fd := os (prim (k_openat dir name flags m) (EvOpenat dir name flags m)).
Definition fstat (f : fd) : M W io_error Metadata := os (prim (k_fstat f) (EvFstat f)).
Definition getcwd : M W io_error bytes := os (prim k_getcwd EvGetcwd).
Definition unlink (path : bytes) : M W io_error unit := os (prim (k_unlink path) (EvUnlink path)).
Definition unlinkat (dir : fd) (name : bytes) : M W E (result unit errno) :=
  prim (k_unlinkat dir name) (EvUnlinkat dir name).
Definition dup_cloexec (f : fd) : M W io_error fd := os (prim (k_dup_cloexec f) (EvDup f)).
Definition close (f : fd) : M W E unit := prim (k_close f) (fun _ => EvClose f).
Definition fdopendir (f : fd) : M W io_error N := os (prim (k_fdopendir f) (EvFdopendir f)).
Definition readdir (d : N) : M W E (option bytes) := prim (k_readdir d) (EvReaddir d).
Definition closedir (d : N) : M W E unit := prim (k_closedir d) (fun _ => EvClosedir d).

(** A local variable that owns a descriptor: dropped, hence closed, when the
    block ends ([scoped]), or when it ends in an error and is returned to the
    caller otherwise ([owned]). *)
Definition scoped {A} (f : fd) (m : M W E A) : M W E A :=
  let! r := attempt m in do! close f ;; lift r.
Definition owned {A} (f : fd) (m : M W E A) : M W E A :=
  let! r := attempt m in
  match r with Ok a => ret a | Err e => do! close f ;; throw e end.
End Calls.

(** ** Reasoning: how a computation ends

    [bind_ok] and [bind_inv] turn a run of a sequence into the runs of its
    steps; [run_inv] applies them through a whole handler. *)

Lemma bind_ok {W E A B} (m : M W E A) (k : A -> M W E B) s b s' :
  bind m k s = (Done (Ok b), s') ->
  exists a s1, m s = (Done (Ok a), s1) /\ k a s1 = (Done (Ok b), s').
Proof. unfold bind. destruct (m s) as [[[a|e]| |] s1]; naive_solver. Qed.

Lemma bind_err {W E A B} (m : M W E A) (k : A -> M W E B) s e s' :
  bind m k s = (Done (Err e), s') ->
  m s = (Done (Err e), s') \/
  exists a s1, m s = (Done (Ok a), s1) /\ k a s1 = (Done (Err e), s').
Proof. unfold bind. destruct (m s) as [[[a|e']| |] s1]; naive_solver. Qed.

Lemma bind_fuel {W E A B} (m : M W E A) (k : A -> M W E B) s s' :
  bind m k s = (OutOfFuel, s') ->
  m s = (OutOfFuel, s') \/ exists a s1, m s = (Done (Ok a), s1) /\ k a s1 = (OutOfFuel, s').
Proof. unfold bind. destruct (m s) as [[[a|e']| |] s1]; naive_solver. Qed.

Lemma bind_panic {W E A B} (m : M W E A) (k : A -> M W E B) s s' :
  bind m k s = (Panicked, s') ->
  m s = (Panicked, s') \/ exists a s1, m s = (Done (Ok a), s1) /\ k a s1 = (Panicked, s').
Proof. unfold bind. destruct (m s) as [[[a|e']| |] s1]; naive_solver. Qed.

(** Every way a sequence can end. *)
Lemma bind_run {W E A B} (m : M W E A) (k : A -> M W E B) s o s' :
  bind m k s = (o, s') ->
  (exists a s1, m s = (Done (Ok a), s1) /\ k a s1 = (o, s')) \/
  (exists e, m s = (Done (Err e), s') /\ o = Done (Err e)) \/
  (m s = (Panicked, s') /\ o = Panicked) \/ (m s = (OutOfFuel, s') /\ o = OutOfFuel).
Proof. unfold bind. destruct (m s) as [[[a|e]| |] s1]; naive_solver. Qed.

Lemma attempt_ok {W E F A} (m : M W E A) s r s' :
  attempt (F := F) m s = (Done r, s') <-> exists r', m s = (Done r', s') /\ r = Ok r'.
Proof. unfold attempt. destruct (m s) as [[r0| |] s1]; naive_solver. Qed.

Lemma into_ok {W E F A} (f : E -> F) (m : M W E A) s a s' :
  into f m s = (Done (Ok a), s') <-> m s = (Done (Ok a), s').
Proof. unfold into. destruct (m s) as [[[a'|e]| |] s1]; naive_solver. Qed.

Lemma prim_done {W E A} (f : W -> A * W) ev s r s' :
  prim (E := E) f ev s = (Done r, s') ->
  exists a, r = Ok a /\ log s' = log s ++ [ev a] /\ f (world s) = (a, world s').
Proof. unfold prim. destruct (f (world s)) as [a w] eqn:Ef. intros [= <- <-]. eauto. Qed.

Lemma os_ok {W A} (m : M W io_error (result A errno)) s a s' :
  os m s = (Done (Ok a), s') <-> m s = (Done (Ok (Ok a)), s').
Proof. unfold os, bind, lift. destruct (m s) as [[[[a'|e]|e]| |] s1]; naive_solver. Qed.

Lemma lift_done {W E A} (r : result A E) (s : state W) r' s' :
  lift r s = (Done r', s') <-> r' = r /\ s' = s.
Proof. unfold lift. naive_solver. Qed.

Lemma owned_ok `{Kernel W} {E A} f (m : M W E A) s a s' :
  owned f m s = (Done (Ok a), s') <-> m s = (Done (Ok a), s').
Proof.
  unfold owned, bind, attempt, close, prim.
  destruct (m s) as [[[a'|e]| |] s1]; [|destruct (k_close f (world s1))|..]; naive_solver.
Qed.

Lemma scoped_ok `{Kernel W} {E A} f (m : M W E A) s a s' :
  scoped f m s = (Done (Ok a), s') <->
  exists s1, m s = (Done (Ok a), s1) /\ close (E := E) f s1 = (Done (Ok tt), s').
Proof.
  unfold scoped, bind, attempt, lift. destruct (m s) as [[[a'|e]| |] s1]; [| |split; [done|by intros (? & [=] & _)]..].
  - unfold close, prim. destruct (k_close f (world s1)) as [[] w] eqn:Ec. split.
    + intros [= <- <-]. exists s1. by rewrite Ec.
    + intros (s2 & [= <- <-] & Hc). rewrite Ec in Hc. by injection Hc as <-.
  - unfold close, prim. destruct (k_close f (world s1)) as [[] w]. split; [done|].
    by intros (? & [=] & _).
Qed.

(** [run_inv H] splits a hypothesis about a run that ended in [Ok] into the
    runs of its steps. *)
Ltac run_inv H :=
  lazymatch type of H with
  | bind _ _ _ = (Done (Ok _), _) =>
      let a := fresh "a" in let s := fresh "s" in let Ha := fresh "Ha" in
      apply bind_ok in H as (a & s & Ha & H); run_inv Ha; cbv beta in H; run_inv H
  | attempt _ _ = (Done (Ok ?r), _) =>
      let r' := fresh "r" in let Hr := fresh "Hr" in let E := fresh "E" in
      apply attempt_ok in H as (r' & H & E); injection E as ->
  | into _ _ _ = (Done (Ok _), _) => apply into_ok in H; run_inv H
  | owned _ _ _ = (Done (Ok _), _) => apply owned_ok in H; run_inv H
  | scoped _ _ _ = (Done (Ok _), _) =>
      let s := fresh "s" in let Hc := fresh "Hc" in
      apply scoped_ok in H as (s & H & Hc); run_inv H
  | os _ _ = (Done (Ok _), _) => apply os_ok in H; run_inv H
  | ret _ _ = (Done (Ok _), _) => unfold ret in H; injection H; clear H; intros; subst
  | throw _ _ = (Done (Ok _), _) => discriminate H
  | panic _ = (Done (Ok _), _) => discriminate H
  | out_of_fuel _ = (Done (Ok _), _) => discriminate H
  | lift _ _ = (Done (Ok _), _) =>
      let E := fresh "E" in apply lift_done in H as [E ->]
  | _ => idtac
  end.

(** ** Reasoning: what a computation does to the state

    [respects R m]: every run of [m], whatever its end, relates its states by
    the preorder [R].  Sequencing, catching and loops preserve it. *)

Definition respects {W E A} (R : relation (state W)) (m : M W E A) : Prop :=
  forall s, R s (m s).2.

Section Respects.
Context {W : Type} (R : relation (state W)) `{!PreOrder R}.

Lemma respects_ret {E A} (a : A) : respects R (ret (E := E) a).
Proof. intros s. reflexivity. Qed.
Lemma respects_throw {E A} (e : E) : respects R (throw (A := A) e).
Proof. intros s. reflexivity. Qed.
Lemma respects_panic {E A} : respects R (panic (E := E) (A := A)).
Proof. intros s. reflexivity. Qed.
Lemma respects_out_of_fuel {E A} : respects R (out_of_fuel (E := E) (A := A)).
Proof. intros s. reflexivity. Qed.
Lemma respects_lift {E A} (r : result A E) : respects R (lift r).
Proof. intros s. reflexivity. Qed.

Lemma respects_bind {E A B} (m : M W E A) (k : A -> M W E B) :
  respects R m -> (forall a, respects R (k a)) -> respects R (bind m k).
Proof.
  intros Hm Hk s. specialize (Hm s). unfold bind.
  destruct (m s) as [[[a|e]| |] s1]; cbn in *; try done.
  etransitivity; [exact Hm|apply Hk].
Qed.

Lemma respects_attempt {E F A} (m : M W E A) :
  respects R m -> respects R (attempt (F := F) m).
Proof. intros Hm s. specialize (Hm s). unfold attempt. by destruct (m s) as [[?| |] ?]. Qed.

Lemma respects_into {E F A} (f : E -> F) (m : M W E A) :
  respects R m -> respects R (into f m).
Proof. intros Hm s. specialize (Hm s). unfold into. by destruct (m s) as [[?| |] ?]. Qed.

Lemma respects_os {A} (m : M W io_error (result A errno)) :
  respects R m -> respects R (os m).
Proof. intros Hm. apply respects_bind; [done|]. intros a. apply respects_lift. Qed.

Lemma respects_loop {E S A} fuel (body : S -> M W E (S + A)) :
  (forall st, respects R (body st)) -> forall st, respects R (loop fuel body st).
Proof.
  intros Hb. induction fuel as [|fuel IH]; intros st; [apply respects_out_of_fuel|].
  cbn. apply respects_bind; [apply Hb|]. intros [st'|a]; [apply IH|apply respects_ret].
Qed.
End Respects.

Create HintDb respects discriminated.
#[export] Hint Resolve respects_ret respects_throw respects_panic respects_out_of_fuel
  respects_lift respects_attempt respects_into respects_os : respects.

(** Goes through a handler: sequences, loops, case distinctions; closes the
    steps with the hints and leaves the others. *)
Ltac respects_step :=
  lazymatch goal with
  | |- respects _ (bind _ _) => apply respects_bind; [typeclasses eauto| |intros ?]
  | |- respects _ (loop _ _ _) => apply respects_loop; [typeclasses eauto|intros ?]
  | |- respects _ (attempt _) => apply respects_attempt
  | |- respects _ (into _ _) => apply respects_into
  | |- respects _ (os _) => apply respects_os; [typeclasses eauto|]
  | |- respects _ (match ?x with _ => _ end) => destruct x
  | |- respects _ (let _ := _ in _) => cbv zeta
  end.
Ltac respects_tac := repeat respects_step; eauto with respects typeclass_instances.

(** ** The log *)

(** The run from [s] to [s'] made the calls [evs]. *)
Definition made {W} (s s' : state W) (evs : list event) : Prop := log s' = log s ++ evs.

Lemma made_nil {W} (s : state W) : made s s [].
Proof. unfold made. by rewrite app_nil_r. Qed.

Lemma made_app {W} (s1 s2 s3 : state W) e1 e2 :
  made s1 s2 e1 -> made s2 s3 e2 -> made s1 s3 (e1 ++ e2).
Proof. unfold made. intros H1 H2. by rewrite H2, H1, app_assoc. Qed.

Lemma made_inj {W} (s s' : state W) e1 e2 : made s s' e1 -> made s s' e2 -> e1 = e2.
Proof. unfold made. intros -> H. by apply app_inv_head in H. Qed.

Lemma os_prim_ok {W A} (f : W -> result A errno * W) ev (s : state W) a s' :
  os (prim f ev) s = (Done (Ok a), s') -> made s s' [ev (Ok a)].
Proof. by intros (? & [= <-] & ? & _)%os_ok%prim_done. Qed.

(** Every call made between the two states satisfies [P]. *)
Definition emitted {W} (P : event -> Prop) (s s' : state W) : Prop :=
  exists evs, made s s' evs /\ Forall P evs.

#[export] Instance emitted_preorder {W} P : PreOrder (emitted (W := W) P).
Proof.
  split.
  - intros s. exists []. split; [apply made_nil|done].
  - intros s1 s2 s3 (e1 & M1 & F1) (e2 & M2 & F2). exists (e1 ++ e2).
    split; [by eapply made_app|]. by apply Forall_app.
Qed.

Abbreviation emits P := (respects (emitted P)).

Lemma emits_prim {W E A} (P : event -> Prop) (f : W -> A * W) ev :
  (forall a, P (ev a)) -> emits P (prim (E := E) f ev).
Proof.
  intros HP s. unfold prim. destruct (f (world s)) as [a w]. cbn.
  exists [ev a]. split; [done|]. by constructor.
Qed.

Lemma emits_close `{Kernel W} {E} (P : event -> Prop) f :
  P (EvClose f) -> emits P (close (E := E) f).
Proof. intros HP. by apply emits_prim. Qed.

(** A run, whatever its result. *)
Lemma emits_run {W E A} (P : event -> Prop) (m : M W E A) s o s' :
  emits P m -> m s = (o, s') -> emitted P s s'.
Proof. intros Hm HR. specialize (Hm s). by rewrite HR in Hm. Qed.

Lemma emits_scoped `{Kernel W} {E A} (P : event -> Prop) f (m : M W E A) :
  emits P m -> P (EvClose f) -> emits P (scoped f m).
Proof.
  intros Hm HP. apply respects_bind; [apply _|by apply respects_attempt|]. intros r.
  apply respects_bind; [apply _|exact (emits_close P f HP)|]. intros _. apply respects_lift; apply _.
Qed.

Lemma emits_owned `{Kernel W} {E A} (P : event -> Prop) f (m : M W E A) :
  emits P m -> P (EvClose f) -> emits P (owned f m).
Proof.
  intros Hm HP. apply respects_bind; [apply _|by apply respects_attempt|].
  intros [a|e]; [apply respects_ret; apply _|].
  apply respects_bind; [apply _|exact (emits_close P f HP)|]. intros _. apply respects_throw; apply _.
Qed.

Lemma emitted_mono {W} (P Q : event -> Prop) (s s' : state W) :
  (forall e, P e -> Q e) -> emitted P s s' -> emitted Q s s'.
Proof. intros HPQ (evs & ? & F). exists evs. split; [done|]. by eapply Forall_impl. Qed.

Lemma emits_mono {W E A} (P Q : event -> Prop) (m : M W E A) :
  (forall e, P e -> Q e) -> emits P m -> emits Q m.
Proof. intros HPQ Hm s. by eapply emitted_mono. Qed.

(** ** Termination of loops

    [I] holds at every entry of the body; a round that continues lowers the
    rank of the world. *)

Lemma loop_total {W E S A} (rank : W -> nat) (I : S -> state W -> Prop)
  (body : S -> M W E (S + A)) :
  (forall st s, I st s -> (body st s).1 <> OutOfFuel) ->
  (forall st s st' s', I st s -> body st s = (Done (Ok (inl st')), s') ->
     (rank (world s') < rank (world s))%nat /\ I st' s') ->
  forall fuel st s, I st s -> (rank (world s) < fuel)%nat ->
  (loop fuel body st s).1 <> OutOfFuel.
Proof.
  intros Hb Hr. induction fuel as [|fuel IH]; intros st s HI Hf; [lia|]. cbn. unfold bind.
  specialize (Hb st s HI). destruct (body st s) as [[[[st'|a]|e]| |] s1] eqn:E1; cbn in *; try done.
  destruct (Hr st s st' s1 HI E1) as [Hlt HI']. apply IH; [done|lia].
Qed.

(** Induction over the rounds of a run of a loop. *)
Lemma loop_ind {W E S A} (body : S -> M W E (S + A)) (P : S -> state W -> outcome (result A E) -> state W -> Prop) :
  (forall st s st' s1 o s', body st s = (Done (Ok (inl st')), s1) -> P st' s1 o s' -> P st s o s') ->
  (forall st s a s', body st s = (Done (Ok (inr a)), s') -> P st s (Done (Ok a)) s') ->
  (forall st s e s', body st s = (Done (Err e), s') -> P st s (Done (Err e)) s') ->
  (forall st s s', body st s = (Panicked, s') -> P st s Panicked s') ->
  (forall st s s', body st s = (OutOfFuel, s') -> P st s OutOfFuel s') ->
  (forall st s, P st s OutOfFuel s) ->
  forall fuel st s o s', loop fuel body st s = (o, s') -> P st s o s'.
Proof.
  intros Hc Hb He Hp Hof Hz. induction fuel as [|fuel IH]; intros st s o s'; cbn.
  - intros [= <- <-]. apply Hz.
  - unfold bind. destruct (body st s) as [[[[st'|a]|e]| |] s1] eqn:E1.
    + intros HL. eapply Hc; [done|by apply IH].
    + intros [= <- <-]. by eapply Hb.
    + intros [= <- <-]. by eapply He.
    + intros [= <- <-]. by eapply Hp.
    + intros [= <- <-]. by eapply Hof.
Qed.

(** The rounds of a run that ended in [Ok]. *)
Lemma loop_ok_ind {W E S A} (body : S -> M W E (S + A)) (P : S -> state W -> A -> state W -> Prop) :
  (forall st s st' s1 a s', body st s = (Done (Ok (inl st')), s1) -> P st' s1 a s' -> P st s a s') ->
  (forall st s a s', body st s = (Done (Ok (inr a)), s') -> P st s a s') ->
  forall fuel st s a s', loop fuel body st s = (Done (Ok a), s') -> P st s a s'.
Proof.
  intros Hc Hb fuel st s a s' HL.
  apply (loop_ind body (fun st s o s' => match o with Done (Ok a) => P st s a s' | _ => True end))
    in HL; try done.
  intros st0 s0 st1 s1 [[a0|]| |] s2; eauto.
Qed.
