(* ===== verification/Ownership.v ===== *)
(** * Ownership of descriptors

    A Rust value that owns a descriptor closes it when it is dropped.
    [owns h post m]: a run of [m] that starts holding the descriptors [h]
    ends holding [post a] when it returns [Ok a] and none when it returns an
    error; what it held otherwise was closed, and closed once.  The count of
    openings and closings of each descriptor is read off the log. *)

From Stdlib Require Import NArith ZArith Lia List Bool.
From Stdlib Require Import Strings.Byte Strings.String.
From stdpp Require Import base decidable list option strings.
From S2P Require Import Prelude Sys.

Open Scope Z_scope.

(** ** Openings minus closings *)

Definition is_fd (f g : fd) : Z := if decide (f = g) then 1 else 0.

Definition opened {E} (r : result fd E) (g : fd) : Z :=
  match r with Ok f => is_fd f g | Err _ => 0 end.

(** A directory stream takes its descriptor over until [closedir]. *)
Definition change (e : event) (g : fd) : Z :=
  match e with
  | EvSocket r | EvBind _ r | EvAccept _ r | EvOpen _ _ _ r | EvOpenat _ _ _ _ r | EvDup _ r =>
      opened r g
  | EvClose f => - is_fd f g
  | EvFdopendir f (Ok _) => - is_fd f g
  | _ => 0
  end.

Definition balance (evs : list event) (g : fd) : Z :=
  foldr (fun e z => change e g + z) 0 evs.

Definition held (h : list fd) (g : fd) : Z := foldr (fun f z => is_fd f g + z) 0 h.

Lemma balance_app e1 e2 g : balance (e1 ++ e2) g = balance e1 g + balance e2 g.
Proof. unfold balance. induction e1 as [|e e1 IH]; [done|]. cbn. rewrite IH. lia. Qed.

Lemma held_cons f h g : held (f :: h) g = is_fd f g + held h g.
Proof. done. Qed.
Lemma held_nil g : held [] g = 0.
Proof. done. Qed.

(** ** The judgement *)

Definition owns {W E A} (h : list fd) (post : A -> list fd) (m : M W E A) : Prop :=
  forall s r s', m s = (Done r, s') -> exists evs, made s s' evs /\
    forall g, balance evs g = match r with Ok a => held (post a) g | Err _ => 0 end - held h g.

Section Owns.
Context {W E : Type}.

Lemma owns_ret {A} (post : A -> list fd) (a : A) : owns (W := W) (E := E) (post a) post (ret a).
Proof. intros s r s' [= <- <-]. exists []. split; [apply made_nil|]. intros g. cbn. lia. Qed.

Lemma owns_throw {A} (post : A -> list fd) (e : E) : owns (W := W) [] post (throw e).
Proof. intros s r s' [= <- <-]. exists []. split; [apply made_nil|]. intros g. cbn. lia. Qed.

Lemma owns_panic {A} h (post : A -> list fd) : owns (W := W) (E := E) h post panic.
Proof. by intros s r s' [=]. Qed.

Lemma owns_lift {A} (r : result A E) : owns (W := W) [] (fun _ => []) (lift r).
Proof.
  intros s r' s' [= <- <-]. exists []. split; [apply made_nil|]. intros g. cbn. by case_match.
Qed.

Lemma owns_prim {A} (f : W -> A * W) ev (post : A -> list fd) :
  (forall a g, change (ev a) g = held (post a) g) -> owns (E := E) [] post (prim f ev).
Proof.
  intros He s r s' (a & -> & Hl & _)%prim_done. exists [ev a]. split; [done|].
  intros g. cbn. rewrite He. lia.
Qed.

Lemma owns_bind {A B} h (mid : A -> list fd) (post : B -> list fd) (m : M W E A) (k : A -> M W E B) :
  owns h mid m -> (forall a, owns (mid a) post (k a)) -> owns h post (bind m k).
Proof.
  intros Hm Hk s r s' HB. apply bind_run in HB as [(a & s1 & H1 & H2)|[(e & H1 & [= ->])|[[_ [=]]|[_ [=]]]]].
  - apply Hm in H1 as (e1 & M1 & B1). apply Hk in H2 as (e2 & M2 & B2).
    exists (e1 ++ e2). split; [by eapply made_app|]. intros g. rewrite balance_app, B1, B2. lia.
  - by apply Hm in H1.
Qed.

Lemma owns_attempt {F A} h (post : A -> list fd) (m : M W E A) :
  owns h post m ->
  owns h (fun r => match r with Ok a => post a | Err _ => [] end) (attempt (F := F) m).
Proof.
  intros Hm s r s' (r' & H & ->)%attempt_ok. apply Hm in H as (evs & ? & Hb).
  exists evs. split; [done|]. intros g. rewrite Hb. by destruct r'.
Qed.

Lemma owns_into {F A} h (post : A -> list fd) (f : E -> F) (m : M W E A) :
  owns h post m -> owns h post (into f m).
Proof.
  intros Hm s r s'. unfold into. destruct (m s) as [[r0| |] s1] eqn:E1; try done.
  intros [= <- <-]. apply Hm in E1 as (evs & ? & Hb). exists evs. split; [done|].
  intros g. rewrite Hb. by destruct r0.
Qed.

Lemma owns_loop {S A} fuel (body : S -> M W E (S + A)) (I : S -> list fd) (post : A -> list fd) st :
  (forall st, owns (I st) (fun r => match r with inl st' => I st' | inr a => post a end) (body st)) ->
  owns (I st) post (loop fuel body st).
Proof.
  intros Hb. revert st. induction fuel as [|fuel IH]; intros st; [by intros s r s' [=]|].
  cbn. eapply owns_bind; [apply Hb|]. intros [st'|a]; [apply IH|apply owns_ret].
Qed.
End Owns.

Lemma owns_os {W A} (m : M W io_error (result A errno)) (post : A -> list fd) :
  owns [] (fun r => match r with Ok a => post a | Err _ => [] end) m -> owns [] post (os m).
Proof.
  intros Hm s r s' HB. unfold os in HB.
  apply bind_run in HB as [(a & s1 & H1 & H2)|[(e & H1 & [= ->])|[[_ [=]]|[_ [=]]]]].
  - apply lift_done in H2 as [-> ->]. apply Hm in H1 as (evs & ? & Hb). exists evs.
    split; [done|]. intros g. rewrite Hb. by destruct a.
  - by apply Hm in H1.
Qed.

(** A call that opens a descriptor, and one that opens and closes none. *)
Lemma owns_open {W} (f : W -> result fd errno * W) ev :
  (forall r g, change (ev r) g = opened r g) -> owns [] (fun f => [f]) (os (prim f ev)).
Proof.
  intros He. apply owns_os, owns_prim. intros r g. rewrite He. destruct r as [g'|]; cbn; lia.
Qed.

Lemma owns_call {W A} (f : W -> result A errno * W) ev :
  (forall r g, change (ev r) g = 0) -> owns [] (fun _ => []) (os (prim f ev)).
Proof. intros He. apply owns_os, owns_prim. intros r g. rewrite He. by destruct r. Qed.

Section Drop.
Context `{Kernel W} {E : Type}.

Lemma owns_close f h : owns (W := W) (E := E) (f :: h) (fun _ => h) (close f).
Proof.
  intros s r s' (a & -> & Hl & _)%prim_done. exists [EvClose f]. split; [done|].
  intros g. rewrite held_cons. cbn. lia.
Qed.

Lemma owns_scoped {A} f h (post : A -> list fd) (m : M W E A) :
  owns h post m -> owns (f :: h) post (scoped f m).
Proof.
  intros Hm s r s' HB. unfold scoped in HB.
  apply bind_run in HB as [(r0 & s1 & H1 & H2)|[(e & H1 & _)|[[_ [=]]|[_ [=]]]]];
    apply attempt_ok in H1 as (r1 & H1 & [= ->]).
  apply Hm in H1 as (e1 & M1 & B1).
  apply bind_run in H2 as [([] & s2 & H2 & H3)|[(e & H2 & _)|[[_ [=]]|[_ [=]]]]].
  2: { by apply prim_done in H2 as (? & ? & _). }
  apply (owns_close f []) in H2 as (e2 & M2 & B2).
  apply lift_done in H3 as [-> ->]. exists (e1 ++ e2).
  split; [by eapply made_app|]. intros g. rewrite balance_app, B1, B2, ?held_cons, ?held_nil.
  case_match; lia.
Qed.

Lemma owns_owned {A} f h (post : A -> list fd) (m : M W E A) :
  owns h post m -> owns (f :: h) (fun a => f :: post a) (owned f m).
Proof.
  intros Hm s r s' HB. unfold owned in HB.
  apply bind_run in HB as [(r0 & s1 & H1 & H2)|[(e & H1 & _)|[[_ [=]]|[_ [=]]]]];
    apply attempt_ok in H1 as (r1 & H1 & [= ->]).
  apply Hm in H1 as (e1 & M1 & B1). destruct r1 as [a|e].
  - injection H2 as <- <-. exists e1. split; [done|]. intros g. rewrite B1, !held_cons. lia.
  - apply bind_run in H2 as [([] & s2 & H2 & H3)|[(e' & H2 & _)|[[_ [=]]|[_ [=]]]]].
    2: { by apply prim_done in H2 as (? & ? & _). }
    apply (owns_close f []) in H2 as (e2 & M2 & B2). injection H3 as <- <-.
    exists (e1 ++ e2). split; [by eapply made_app|]. intros g. 
    rewrite balance_app, B1, B2, ?held_cons, ?held_nil. lia.
Qed.
End Drop.

Lemma owns_fdopendir `{Kernel W} f : owns (W := W) [f] (fun _ => []) (owned f (fdopendir f)).
Proof.
  intros s r s'. unfold owned, bind, attempt, fdopendir, os, bind, prim, lift, close, prim, ret, throw.
  destruct (k_fdopendir f (world s)) as [[d|e] w]; cbn.
  - intros [= <- <-]. exists [EvFdopendir f (Ok d)]. split; [done|]. intros g. cbn. lia.
  - destruct (k_close f w) as [[] w']. intros [= <- <-].
    exists ([EvFdopendir f (Err e)] ++ [EvClose f]). split; [unfold made; cbn; by rewrite <- app_assoc|].
    intros g. cbn. lia.
Qed.

(** ** Computations that keep no descriptor *)

Abbreviation neutral := (owns [] (fun _ => [])).

Section Neutral.
Context {W E : Type}.

Lemma neutral_ret {A} (a : A) : neutral (ret (W := W) (E := E) a).
Proof. apply (owns_ret (fun _ => [])). Qed.

Lemma neutral_throw {A} (e : E) : neutral (throw (W := W) (A := A) e).
Proof. apply owns_throw. Qed.

Lemma neutral_prim {A} (f : W -> A * W) ev :
  (forall a g, change (ev a) g = 0) -> neutral (prim (E := E) f ev).
Proof. intros He. apply owns_prim. intros a g. by rewrite He. Qed.

Lemma neutral_bind {A B} (m : M W E A) (k : A -> M W E B) :
  neutral m -> (forall a, neutral (k a)) -> neutral (bind m k).
Proof. intros Hm Hk. by eapply owns_bind. Qed.

Lemma neutral_attempt {F A} (m : M W E A) : neutral m -> neutral (attempt (F := F) m).
Proof.
  intros Hm s r s' (r' & H & ->)%attempt_ok. apply Hm in H as (evs & ? & Hb).
  exists evs. split; [done|]. intros g. rewrite Hb. by destruct r'.
Qed.

Lemma neutral_into {F A} (f : E -> F) (m : M W E A) : neutral m -> neutral (into f m).
Proof. apply owns_into. Qed.

Lemma neutral_loop {S A} fuel (body : S -> M W E (S + A)) st :
  (forall st, neutral (body st)) -> neutral (loop fuel body st).
Proof.
  intros Hb. apply (owns_loop fuel body (fun _ => []) (fun _ => [])). intros st' s r s' HB.
  apply Hb in HB as (evs & ? & Hv). exists evs. split; [done|]. intros g. rewrite Hv.
  by destruct r as [[|]|].
Qed.

Lemma neutral_scoped `{Kernel W} {A} f (m : M W E A) :
  neutral m -> owns [f] (fun _ => []) (scoped f m).
Proof. apply owns_scoped. Qed.

(** A descriptor is acquired and the rest of the block gives it up. *)
Lemma neutral_acquire {A B} (own : A -> list fd) (m : M W E A) (k : A -> M W E B) :
  owns [] own m -> (forall a, owns (own a) (fun _ => []) (k a)) -> neutral (bind m k).
Proof. intros Hm Hk. by eapply owns_bind. Qed.
End Neutral.

Create HintDb owns discriminated.
#[export] Hint Resolve neutral_ret neutral_throw owns_panic owns_lift : owns.

(** Goes through a handler that opens nothing. *)
Ltac neutral_step :=
  lazymatch goal with
  | |- owns [] (fun _ => []) (bind _ _) => apply neutral_bind; [|intros ?]
  | |- owns [] (fun _ => []) (loop _ _ _) => apply neutral_loop; intros ?
  | |- owns [] (fun _ => []) (attempt _) => apply neutral_attempt
  | |- owns [] (fun _ => []) (into _ _) => apply neutral_into
  | |- owns [] (fun _ => []) (prim _ _) => apply neutral_prim; done
  | |- owns [] (fun _ => []) (os (prim _ _)) => apply owns_call; done
  | |- owns [] (fun _ => []) (match ?x with _ => _ end) => destruct x
  | |- owns [] (fun _ => []) (let _ := _ in _) => cbv zeta
  end.
Ltac neutral_tac := repeat neutral_step; auto with owns.
