(* ===== verification/Io.v ===== *)
(** * [std::io]: the [Read] and [Write] traits and their provided methods

    [Read] and [Write] are classes, so the frame codec is written once for a
    raw socket and for a [DeadlineStream].  [ReadLaws] and [WriteLaws] are
    what an implementation promises: every byte it reports was transferred by
    system calls on its descriptor, and a failed call transferred none. *)

From Stdlib Require Import NArith ZArith Lia List Bool.
From Stdlib Require Import Strings.Byte Strings.String.
From stdpp Require Import base decidable list option strings.
From S2P Require Import Prelude RustStd Sys Ownership.

Open Scope N_scope.

(** ** Bytes that crossed a descriptor, from the log *)

Definition read_event (f : fd) (e : event) : bytes :=
  match e with
  | EvRead g _ (Ok b) => if decide (g = f) then b else []
  | _ => []
  end.

Definition written_event (f : fd) (e : event) : bytes :=
  match e with
  | EvWrite g b (Ok n) => if decide (g = f) then take n b else []
  | _ => []
  end.

Definition bytes_read (f : fd) (evs : list event) : bytes := flat_map (read_event f) evs.
Definition bytes_written (f : fd) (evs : list event) : bytes := flat_map (written_event f) evs.

Lemma bytes_read_app f e1 e2 : bytes_read f (e1 ++ e2) = bytes_read f e1 ++ bytes_read f e2.
Proof. apply flat_map_app. Qed.
Lemma bytes_written_app f e1 e2 :
  bytes_written f (e1 ++ e2) = bytes_written f e1 ++ bytes_written f e2.
Proof. apply flat_map_app. Qed.

(** The run from [s] to [s'] read [b] from [f] and wrote nothing to it. *)
Definition only_read {W} (f : fd) (b : bytes) (s s' : state W) : Prop :=
  exists evs, made s s' evs /\ bytes_read f evs = b /\ bytes_written f evs = [].
Definition only_wrote {W} (f : fd) (b : bytes) (s s' : state W) : Prop :=
  exists evs, made s s' evs /\ bytes_written f evs = b /\ bytes_read f evs = [].

Lemma only_read_nil {W} f (s : state W) : only_read f [] s s.
Proof. exists []. split; [apply made_nil|done]. Qed.
Lemma only_wrote_nil {W} f (s : state W) : only_wrote f [] s s.
Proof. exists []. split; [apply made_nil|done]. Qed.

Lemma only_read_app {W} f b1 b2 (s1 s2 s3 : state W) :
  only_read f b1 s1 s2 -> only_read f b2 s2 s3 -> only_read f (b1 ++ b2) s1 s3.
Proof.
  intros (e1 & M1 & R1 & W1) (e2 & M2 & R2 & W2). exists (e1 ++ e2).
  rewrite bytes_read_app, bytes_written_app, R1, R2, W1, W2.
  split; [by eapply made_app|done].
Qed.

Lemma only_wrote_app {W} f b1 b2 (s1 s2 s3 : state W) :
  only_wrote f b1 s1 s2 -> only_wrote f b2 s2 s3 -> only_wrote f (b1 ++ b2) s1 s3.
Proof.
  intros (e1 & M1 & R1 & W1) (e2 & M2 & R2 & W2). exists (e1 ++ e2).
  rewrite bytes_read_app, bytes_written_app, R1, R2, W1, W2.
  split; [by eapply made_app|done].
Qed.

(** ** The traits *)

Class Read (W T : Type) := read_ : T -> nat -> M W io_error bytes.
Class Write (W T : Type) := write_ : T -> bytes -> M W io_error nat.

Class ReadLaws (W T : Type) `{Read W T} := {
  read_fd : T -> fd;
  read_log t n s r s' :
    read_ t n s = (Done r, s') ->
    only_read (read_fd t) (match r with Ok b => b | Err _ => [] end) s s';
}.

Class WriteLaws (W T : Type) `{Write W T} := {
  write_fd : T -> fd;
  write_log t b s r s' :
    write_ t b s = (Done r, s') ->
    only_wrote (write_fd t) (match r with Ok n => take n b | Err _ => [] end) s s';
}.

(** ** [read_exact] and [write_all]

    Both retry on [Interrupted].  A count beyond the buffer would break the
    contract of the trait: slicing the buffer with it panics. *)

Section Provided.
Context {W T : Type}.

Definition read_exact `{Read W T} (fuel : nat) (stream : T) (len : nat) : M W io_error bytes :=
  loop fuel (fun '(need, acc) =>
    if decide (need = 0%nat) then ret (inr acc) else
    let! r := attempt (read_ stream need) in
    match r with
    | Ok [] => throw (Custom UnexpectedEof "failed to fill whole buffer")
    | Ok b =>
        if decide (length b <= need)%nat
        then ret (inl ((need - length b)%nat, acc ++ b)) else panic
    | Err e =>
        if decide (kind e = Interrupted) then ret (inl (need, acc)) else throw e
    end) (len, []).

Definition write_all `{Write W T} (fuel : nat) (stream : T) (buf : bytes) : M W io_error unit :=
  loop fuel (fun buf =>
    if decide (buf = []) then ret (inr tt) else
    let! r := attempt (write_ stream buf) in
    match r with
    | Ok O => throw (Custom WriteZero "failed to write whole buffer")
    | Ok n => if decide (n <= length buf)%nat then ret (inl (drop n buf)) else panic
    | Err e =>
        if decide (kind e = Interrupted) then ret (inl buf) else throw e
    end) buf.

(** [write!] and [writeln!]: one [write_all] per piece of the format. *)
Fixpoint write_fmt `{Write W T} (fuel : nat) (stream : T) (pieces : list bytes)
  : M W io_error unit :=
  match pieces with
  | [] => ret tt
  | p :: ps => do! write_all fuel stream p ;; write_fmt fuel stream ps
  end.

(** [stream.take(limit).read_to_string(..)]: to the end of the stream or
    [limit] bytes, then the UTF-8 check. *)
Definition take_read_to_end `{Read W T} (fuel : nat) (stream : T) (limit : nat)
  : M W io_error bytes :=
  loop fuel (fun '(rest, acc) =>
    if decide (rest = 0%nat) then ret (inr acc) else
    let! r := attempt (read_ stream rest) in
    match r with
    | Ok [] => ret (inr acc)
    | Ok b =>
        if decide (length b <= rest)%nat
        then ret (inl ((rest - length b)%nat, acc ++ b)) else panic
    | Err e =>
        if decide (kind e = Interrupted) then ret (inl (rest, acc)) else throw e
    end) (limit, []).

Definition take_read_to_string `{Read W T} (fuel : nat) (stream : T) (limit : nat)
  : M W io_error bytes :=
  let! b := take_read_to_end fuel stream limit in
  if utf8_valid b then ret b
  else throw (Custom InvalidData "stream did not contain valid UTF-8").
End Provided.

(** ** What the provided methods transfer *)

Section ProvidedLaws.
Context {W T : Type}.

Lemma read_exact_ok `{RL : ReadLaws W T} fuel (t : T) len s b s' :
  read_exact fuel t len s = (Done (Ok b), s') ->
  length b = len /\ only_read (read_fd t) b s s'.
Proof.
  intros HL.
  pose (P := fun (st : nat * bytes) (s : state W) (b : bytes) s' => exists sfx,
    b = st.2 ++ sfx /\ length sfx = st.1 /\ only_read (read_fd t) sfx s s').
  assert (P (len, []) s b s') as (sfx & -> & ? & ?); [|done].
  refine (loop_ok_ind _ P _ _ _ _ _ _ _ HL); clear; unfold P.
  - intros [need acc] s st' s1 b s' HB (sfx & -> & Hl & Hr).
    case_decide; [run_inv HB; discriminate|]. run_inv HB.
    pose proof (read_log t need s r s0 Ha) as Hlog.
    destruct r as [[|x b]|e]; cbn in HB; [discriminate| |]; case_decide as Hle;
      try discriminate; run_inv HB; cbn [fst snd] in *.
    + exists ((x :: b) ++ sfx). rewrite <- app_assoc. split; [done|].
      split; [|by eapply only_read_app]. rewrite length_app. cbn in *. lia.
    + exists sfx. split; [done|]. split; [done|].
      by apply (only_read_app _ [] sfx _ _ _ Hlog).
  - intros [need acc] s b s' HB. case_decide as Hz.
    + run_inv HB. exists []. cbn. rewrite app_nil_r.
      split; [done|]. split; [done|apply only_read_nil].
    + run_inv HB. destruct r as [[|x b']|e]; cbn in HB; [discriminate| |]; case_decide; discriminate.
Qed.

Lemma take_read_to_string_ok `{RL : ReadLaws W T} fuel (t : T) limit s b s' :
  take_read_to_string fuel t limit s = (Done (Ok b), s') ->
  (length b <= limit)%nat /\ utf8_valid b = true /\ only_read (read_fd t) b s s'.
Proof.
  unfold take_read_to_string. intros HR. run_inv HR.
  destruct (utf8_valid a) eqn:Hu; run_inv HR.
  assert ((length b <= limit)%nat /\ only_read (read_fd t) b s s') as [? ?]; [|done].
  pose (P := fun (st : nat * bytes) (s : state W) (b : bytes) s' => exists sfx,
    b = st.2 ++ sfx /\ (length sfx <= st.1)%nat /\ only_read (read_fd t) sfx s s').
  assert (P (limit, []) s b s') as (sfx & -> & ? & ?); [|done].
  refine (loop_ok_ind _ P _ _ _ _ _ _ _ Ha); clear; unfold P.
  - intros [rest acc] s st' s1 b s' HB (sfx & -> & Hl & Hr).
    case_decide; [run_inv HB; discriminate|]. run_inv HB.
    pose proof (read_log t rest s r s0 Ha) as Hlog.
    destruct r as [[|x b]|e]; cbn in HB; [discriminate| |]; case_decide as Hle;
      try discriminate; run_inv HB; cbn [fst snd] in *.
    + exists ((x :: b) ++ sfx). rewrite <- app_assoc. split; [done|].
      split; [|by eapply only_read_app]. rewrite length_app. cbn in *. lia.
    + exists sfx. split; [done|]. split; [done|].
      by apply (only_read_app _ [] sfx _ _ _ Hlog).
  - intros [rest acc] s b s' HB. exists []. rewrite app_nil_r. cbn [fst snd length].
    case_decide as Hz.
    + run_inv HB. split_and!; [done|lia|apply only_read_nil].
    + run_inv HB. pose proof (read_log t rest s r s0 Ha) as Hlog.
      destruct r as [[|x b']|e]; cbn in HB; [|case_decide; discriminate..].
      run_inv HB. split_and!; [done|lia|done].
Qed.

Lemma write_all_ok `{WL : WriteLaws W T} fuel (t : T) buf s s' :
  write_all fuel t buf s = (Done (Ok tt), s') -> only_wrote (write_fd t) buf s s'.
Proof.
  intros HL.
  pose (P := fun (buf : bytes) (s : state W) (_ : unit) s' => only_wrote (write_fd t) buf s s').
  refine (loop_ok_ind _ P _ _ _ _ _ _ _ HL); clear; unfold P.
  - intros buf s buf' s1 [] s' HB Hw.
    case_decide; [run_inv HB; discriminate|]. run_inv HB.
    pose proof (write_log t buf s r s0 Ha) as Hlog.
    destruct r as [[|n]|e]; cbn in HB; [discriminate| |]; case_decide as Hle;
      try discriminate; run_inv HB.
    + rewrite <- (take_drop (S n) buf). by eapply only_wrote_app.
    + by apply (only_wrote_app _ [] buf' _ _ _ Hlog).
  - intros buf s [] s' HB. case_decide as Hz.
    + run_inv HB. apply only_wrote_nil.
    + run_inv HB. destruct r as [[|n]|e]; cbn in HB; [discriminate| |]; case_decide; discriminate.
Qed.

Lemma write_fmt_ok `{WL : WriteLaws W T} fuel (t : T) pieces s s' :
  write_fmt fuel t pieces s = (Done (Ok tt), s') ->
  only_wrote (write_fd t) (concat pieces) s s'.
Proof.
  revert s. induction pieces as [|p ps IH]; intros s HB; cbn in HB.
  - run_inv HB. apply only_wrote_nil.
  - run_inv HB. destruct a. cbn. eapply only_wrote_app; [by eapply write_all_ok|by apply IH].
Qed.
End ProvidedLaws.

(** ** They keep no descriptor *)

Section ProvidedOwns.
Context {W T : Type}.

Lemma neutral_read_exact `{Read W T} fuel (t : T) len :
  (forall n, neutral (read_ t n)) -> neutral (read_exact (W := W) fuel t len).
Proof. intros Hr. unfold read_exact. neutral_tac. Qed.

Lemma neutral_write_all `{Write W T} fuel (t : T) buf :
  (forall b, neutral (write_ t b)) -> neutral (write_all (W := W) fuel t buf).
Proof. intros Hw. unfold write_all. neutral_tac. Qed.

Lemma neutral_write_fmt `{Write W T} fuel (t : T) pieces :
  (forall b, neutral (write_ t b)) -> neutral (write_fmt (W := W) fuel t pieces).
Proof.
  intros Hw. induction pieces as [|b bs IH]; [apply neutral_ret|].
  apply neutral_bind; [by apply neutral_write_all|done].
Qed.

Lemma neutral_take_read_to_string `{Read W T} fuel (t : T) limit :
  (forall n, neutral (read_ t n)) -> neutral (take_read_to_string (W := W) fuel t limit).
Proof. intros Hr. unfold take_read_to_string, take_read_to_end. neutral_tac. Qed.
End ProvidedOwns.

(** ** The raw descriptor: [UnixStream] and [File] *)

Record UnixStream : Type := { raw_fd : fd }.
Record File : Type := { file_fd : fd }.

Section Raw.
Context `{Kernel W}.

#[global] Instance unix_stream_read : Read W UnixStream := fun t n => read (raw_fd t) n.
#[global] Instance unix_stream_write : Write W UnixStream := fun t b => write (raw_fd t) b.
#[global] Instance file_read : Read W File := fun t n => read (file_fd t) n.
#[global] Instance file_write : Write W File := fun t b => write (file_fd t) b.

Lemma sys_read_log f n s r s' :
  read f n s = (Done r, s') ->
  only_read f (match r with Ok b => b | Err _ => [] end) s s'.
Proof.
  unfold read, os, bind, prim. destruct (k_read f n (world s)) as [r0 w]. cbn.
  intros [= <- <-]. exists [EvRead f n r0]. split; [done|].
  destruct r0 as [b|e]; cbn; [|done]. rewrite decide_True by done. by rewrite app_nil_r.
Qed.

Lemma sys_write_log f b s r s' :
  write f b s = (Done r, s') ->
  only_wrote f (match r with Ok n => take n b | Err _ => [] end) s s'.
Proof.
  unfold write, os, bind, prim. destruct (k_write f b (world s)) as [r0 w]. cbn.
  intros [= <- <-]. exists [EvWrite f b r0]. split; [done|].
  destruct r0 as [n|e]; cbn; [|done]. rewrite decide_True by done. by rewrite app_nil_r.
Qed.

#[global] Instance unix_stream_read_laws : ReadLaws W UnixStream :=
  {| read_fd := raw_fd; read_log t n s r s' := sys_read_log (raw_fd t) n s r s' |}.
#[global] Instance unix_stream_write_laws : WriteLaws W UnixStream :=
  {| write_fd := raw_fd; write_log t b s r s' := sys_write_log (raw_fd t) b s r s' |}.
#[global] Instance file_read_laws : ReadLaws W File :=
  {| read_fd := file_fd; read_log t n s r s' := sys_read_log (file_fd t) n s r s' |}.
#[global] Instance file_write_laws : WriteLaws W File :=
  {| write_fd := file_fd; write_log t b s r s' := sys_write_log (file_fd t) b s r s' |}.
End Raw.
