(* ===== verification/Transport.v ===== *)
(** * Transport with one absolute deadline ([src/crates/helper/src/transport.rs])

    The nonblocking connect, and the reads and writes of a [DeadlineStream].
    An [Instant] is its nanoseconds.  The loops of [wait], [connect] and
    [transfer] take fuel; [transport_terminates] bounds the fuel they need by the
    number of clock readings left before the deadline. *)

From Stdlib Require Import NArith ZArith Lia List Bool.
From Stdlib Require Import Strings.Byte Strings.String.
From stdpp Require Import base decidable list option strings.
From S2P Require Import Prelude RustStd Sys Io.

Open Scope N_scope.

(** ** Errors

    A [serde_json::Error] is its message. *)

Inductive TransportError : Type :=
| Timeout
| Io (e : io_error)
| Json (message : string)
| Oversized (len : N).

Definition transport_error_from (error : io_error) : TransportError :=
  match kind error with
  | TimedOut | WouldBlock => Timeout
  | _ => Io error
  end.

Definition ns_per_ms : N := 1000000.

Section Transport.
Context `{Kernel W}.

Definition check_deadline (deadline : N) : M W TransportError unit :=
  let! now := instant_now in
  if deadline <=? now then throw Timeout else ret tt.

(** [deadline.checked_duration_since(now).filter(|d| !d.is_zero())] *)
Definition remaining_until (deadline now : N) : option N :=
  if now <=? deadline then
    let duration := deadline - now in
    if duration =? 0 then None else Some duration
  else None.

Definition u128_max : N := 340282366920938463463374607431768211455.
Definition poll_timeout (remaining : N) : N :=
  N.min (N.min (remaining / ns_per_ms + 1) u128_max) i32_max.

(** The body of the loop of [wait]. *)
Definition wait_round (stream : fd) (events deadline : N) : M W io_error (unit + unit) :=
  let! now := instant_now in
  let! remaining := lift (ok_or (remaining_until deadline now) (Simple TimedOut)) in
  let timeout := poll_timeout remaining in
  let! result := poll stream events timeout in
  if (0 <? poll_result result)%Z then
    if negb (N.land (revents result) POLLNVAL =? 0) then throw (Os EBADF)
    else ret (inr tt)
  else if (poll_result result <? 0)%Z then
    let error := Os (poll_errno result) in
    if negb (bool_decide (kind error = Interrupted)) then throw error
    else ret (inl tt)
  else ret (inl tt).

Definition wait (fuel : nat) (stream : fd) (events deadline : N) : M W io_error unit :=
  loop fuel (fun _ : unit => wait_round stream events deadline) tt.

Record DeadlineStream : Type := { stream : fd; deadline : N }.

(** A connect in progress: wait until writable, then ask how it ended. *)
Definition finish_pending (fuel : nat) (f : fd) (deadline : N)
  : M W TransportError (unit + unit) :=
  do! into transport_error_from (wait fuel f POLLOUT deadline) ;;
  let! pending := into transport_error_from (take_error f) in
  match pending with
  | Some error => throw (transport_error_from (Os error))
  | None => ret (inr tt)
  end.

(** The backlog is full: pause for at most a millisecond and retry. *)
Definition backlog_pause (deadline : N) : M W TransportError (unit + unit) :=
  let! now := instant_now in
  do! sleep (N.min (deadline - now) ns_per_ms) ;;
  ret (inl tt).

(** The body of the loop of [connect]. *)
Definition connect_round (fuel : nat) (f : fd) (path : bytes) (deadline : N)
  : M W TransportError (unit + unit) :=
  do! check_deadline deadline ;;
  let! result := sys_connect f path in
  match result with
  | Ok tt => ret (inr tt)
  | Err EISCONN => ret (inr tt)
  | Err EINTR => ret (inl tt)
  | Err EINPROGRESS | Err EALREADY => finish_pending fuel f deadline
  | Err EAGAIN => backlog_pause deadline
  | Err error => throw (transport_error_from (Os error))
  end.

Definition connect (fuel : nat) (path : bytes) (deadline : N)
  : M W TransportError DeadlineStream :=
  do! check_deadline deadline ;;
  if bool_decide (x00 ∈ path) || (k_sun_path_len <=? length path)%nat then
    throw (transport_error_from (Custom InvalidInput "invalid socket path"))
  else
  let! f := into transport_error_from socket in
  owned f (
    do! into transport_error_from (set_cloexec f) ;;
    do! into transport_error_from (set_nonblocking f) ;;
    do! loop fuel (fun _ : unit => connect_round fuel f path deadline) tt ;;
    do! check_deadline deadline ;;
    ret {| stream := f; deadline := deadline |}).

(** The body of the loop of [transfer]. *)
Definition transfer_round {T} (fuel : nat) (self : DeadlineStream) (events : N)
  (operation : M W io_error T) : M W io_error (unit + T) :=
  do! into (fun _ => Simple TimedOut) (check_deadline (deadline self)) ;;
  let! r := attempt operation in
  match r with
  | Err error =>
      if decide (kind error = Interrupted) then ret (inl tt)
      else if decide (kind error = WouldBlock) then
        do! wait fuel (stream self) events (deadline self) ;; ret (inl tt)
      else throw error
  | Ok result => ret (inr result)
  end.

Definition transfer {T} (fuel : nat) (self : DeadlineStream) (events : N)
  (operation : M W io_error T) : M W io_error T :=
  loop fuel (fun _ : unit => transfer_round fuel self events operation) tt.

Definition deadline_read (fuel : nat) (self : DeadlineStream) (len : nat) : M W io_error bytes :=
  transfer fuel self POLLIN (read (stream self) len).

Definition deadline_write (fuel : nat) (self : DeadlineStream) (b : bytes) : M W io_error nat :=
  transfer fuel self POLLOUT (write (stream self) b).
End Transport.

(** The fuel of the stream's own loops travels with the instance. *)
Record DeadlineIo : Type := { io_fuel : nat; io_stream : DeadlineStream }.

#[global] Instance deadline_io_read `{Kernel W} : Read W DeadlineIo :=
  fun t n => deadline_read (io_fuel t) (io_stream t) n.
#[global] Instance deadline_io_write `{Kernel W} : Write W DeadlineIo :=
  fun t b => deadline_write (io_fuel t) (io_stream t) b.

(** ** What the clock promises

    [rank w] bounds the clock readings before the deadline that are still
    to come: the monotonic clock advances past any deadline after finitely
    many readings. *)

Class DeadlineProgress (W : Type) `{Kernel W} (d : N) : Type := {
  rank : W -> nat;
  rank_now w : d <= (k_instant_now w).1 \/ (rank (k_instant_now w).2 < rank w)%nat;
  rank_now_le w : (rank (k_instant_now w).2 <= rank w)%nat;
  rank_poll f e t w : (rank (k_poll f e t w).2 <= rank w)%nat;
  rank_connect f p w : (rank (k_connect f p w).2 <= rank w)%nat;
  rank_take_error f w : (rank (k_take_error f w).2 <= rank w)%nat;
  rank_sleep n w : (rank (k_sleep n w).2 <= rank w)%nat;
  rank_socket w : (rank (k_socket w).2 <= rank w)%nat;
  rank_set_cloexec f w : (rank (k_set_cloexec f w).2 <= rank w)%nat;
  rank_set_nonblocking f w : (rank (k_set_nonblocking f w).2 <= rank w)%nat;
  rank_read f n w : (rank (k_read f n w).2 <= rank w)%nat;
  rank_write f b w : (rank (k_write f b w).2 <= rank w)%nat;
}.
