(* ===== verification/Sim.v ===== *)
(** * A computing instance of the kernel interface, for the witnesses

    An in-memory system: a clock that advances at every reading, a tree of
    inodes, and one peer behind a socket that answers a function of the bytes
    it received.  It shows that the hypotheses of the theorems can hold
    together; no theorem about the program is proved from it. *)

From Stdlib Require Import NArith ZArith Lia List Bool.
From Stdlib Require Import Strings.Byte Strings.String.
From stdpp Require Import base decidable list option strings gmap.
From S2P Require Import Prelude RustStd Sys Io Transport.

Open Scope N_scope.

Record inode : Type := { i_meta : Metadata; i_data : bytes; i_entries : list (bytes * N) }.

Record sim : Type := {
  clock : N;
  tick : N;
  wall : N;
  inodes : gmap N inode;
  fds : gmap N (N * nat);
  dirs : gmap N (list bytes);
  next : N;
  listening : option bytes;
  chunk : nat;
  sent : bytes;
  reply : bytes -> bytes;
  received : nat;
  printed : list bytes;
}.

Definition ENOTDIR := Eother 20.
Definition ECONNREFUSED := Eother 111.

(** The descriptor of the socket. *)
Definition sock : fd := 1000.

Definition set_clock t (w : sim) : sim :=
  Build_sim t (tick w) (wall w) (inodes w) (fds w) (dirs w) (next w) (listening w) (chunk w)
    (sent w) (reply w) (received w) (printed w).
Definition set_inodes i (w : sim) : sim :=
  Build_sim (clock w) (tick w) (wall w) i (fds w) (dirs w) (next w) (listening w) (chunk w)
    (sent w) (reply w) (received w) (printed w).
Definition set_fds f n (w : sim) : sim :=
  Build_sim (clock w) (tick w) (wall w) (inodes w) f (dirs w) n (listening w) (chunk w)
    (sent w) (reply w) (received w) (printed w).
Definition set_dirs d n (w : sim) : sim :=
  Build_sim (clock w) (tick w) (wall w) (inodes w) (fds w) d n (listening w) (chunk w)
    (sent w) (reply w) (received w) (printed w).
Definition set_sent b (w : sim) : sim :=
  Build_sim (clock w) (tick w) (wall w) (inodes w) (fds w) (dirs w) (next w) (listening w)
    (chunk w) b (reply w) (received w) (printed w).
Definition set_received n (w : sim) : sim :=
  Build_sim (clock w) (tick w) (wall w) (inodes w) (fds w) (dirs w) (next w) (listening w)
    (chunk w) (sent w) (reply w) n (printed w).
Definition set_printed p (w : sim) : sim :=
  Build_sim (clock w) (tick w) (wall w) (inodes w) (fds w) (dirs w) (next w) (listening w)
    (chunk w) (sent w) (reply w) (received w) p.

Definition assoc (name : bytes) (es : list (bytes * N)) : option N :=
  snd <$> List.find (fun e => bool_decide (e.1 = name)) es.

Definition fresh_fd (i : N) (w : sim) : result fd errno * sim :=
  (Ok (next w), set_fds (<[next w := (i, 0%nat)]> (fds w)) (next w + 1) w).

Definition has (f : open_flag) (fs : list open_flag) : bool := bool_decide (f ∈ fs).

(** Opening [name] in the directory with inode [d]. *)
Definition open_in (d : N) (name : bytes) (flags : list open_flag) (m : N) (w : sim)
  : result fd errno * sim :=
  match inodes w !! d with
  | None => (Err EBADF, w)
  | Some dir =>
      match assoc name (i_entries dir) with
      | Some i =>
          if has O_EXCL flags then (Err EEXIST, w)
          else match inodes w !! i with
               | None => (Err ENOENT, w)
               | Some n =>
                   if has O_DIRECTORY flags && negb (is_dir (i_meta n)) then (Err ENOTDIR, w)
                   else fresh_fd i w
               end
      | None =>
          if has O_CREAT flags then
            let i := next w in
            let n := {| i_meta := {| mode := N.lor 0x8000 m; uid := 0 |}; i_data := []; i_entries := [] |} in
            let dir' := {| i_meta := i_meta dir; i_data := i_data dir;
                           i_entries := i_entries dir ++ [(name, i)] |} in
            let w := set_inodes (<[i := n]> (<[d := dir']> (inodes w))) w in
            fresh_fd i (set_fds (fds w) (i + 1) w)
          else (Err ENOENT, w)
      end
  end.

Definition sim_read (f : fd) (n : nat) (w : sim) : result bytes errno * sim :=
  if f =? sock then
    let b := take (Nat.min n (chunk w)) (drop (received w) (reply w (sent w))) in
    (Ok b, set_received (received w + length b)%nat w)
  else
    match fds w !! f with
    | Some (i, off) =>
        match inodes w !! i with
        | Some nd =>
            let b := take n (drop off (i_data nd)) in
            (Ok b, set_fds (<[f := (i, (off + length b)%nat)]> (fds w)) (next w) w)
        | None => (Err EBADF, w)
        end
    | None => (Err EBADF, w)
    end.

Definition sim_write (f : fd) (b : bytes) (w : sim) : result nat errno * sim :=
  if f =? sock then
    let b := take (chunk w) b in (Ok (length b), set_sent (sent w ++ b) w)
  else
    match fds w !! f with
    | Some (i, off) =>
        match inodes w !! i with
        | Some nd =>
            let nd' := {| i_meta := i_meta nd; i_data := i_data nd ++ b; i_entries := i_entries nd |} in
            (Ok (length b), set_inodes (<[i := nd']> (inodes w)) w)
        | None => (Err EBADF, w)
        end
    | None => (Err EBADF, w)
    end.

Definition sim_openat (d : fd) (name : bytes) (flags : list open_flag) (m : N) (w : sim)
  : result fd errno * sim :=
  match fds w !! d with
  | Some (i, _) => open_in i name flags m w
  | None => (Err EBADF, w)
  end.

(** Absolute paths of the root and of its entries are enough. *)
Definition sim_open (path : bytes) (flags : list open_flag) (m : N) (w : sim)
  : result fd errno * sim :=
  match components path with
  | [RootDir] => fresh_fd 0 w
  | [RootDir; Normal name] => open_in 0 name flags m w
  | _ => (Err ENOENT, w)
  end.

Definition sim_unlinkat (d : fd) (name : bytes) (w : sim) : result unit errno * sim :=
  match fds w !! d with
  | Some (i, _) =>
      match inodes w !! i with
      | Some dir =>
          let dir' := {| i_meta := i_meta dir; i_data := i_data dir;
            i_entries := List.filter (fun e => negb (bool_decide (e.1 = name))) (i_entries dir) |} in
          (Ok tt, set_inodes (<[i := dir']> (inodes w)) w)
      | None => (Err EBADF, w)
      end
  | None => (Err EBADF, w)
  end.

Definition sim_fdopendir (f : fd) (w : sim) : result N errno * sim :=
  match fds w !! f with
  | Some (i, _) =>
      match inodes w !! i with
      | Some dir =>
          (Ok (next w), set_dirs (<[next w := map fst (i_entries dir)]> (dirs w)) (next w + 1) w)
      | None => (Err EBADF, w)
      end
  | None => (Err EBADF, w)
  end.

Definition sim_readdir (d : N) (w : sim) : option bytes * sim :=
  match dirs w !! d with
  | Some (e :: es) => (Some e, set_dirs (<[d := es]> (dirs w)) (next w) w)
  | _ => (None, w)
  end.

#[global] Instance sim_kernel : Kernel sim := {|
  k_instant_now w := let t := clock w + 1 + tick w in (t, set_clock t w);
  k_system_now w := (Some (wall w + clock w), w);
  k_process_id w := (4242, w);
  k_random n w := (replicate n x5a, w);
  k_sleep _ w := (tt, w);
  k_sun_path_len := 108;
  k_socket w := (Ok sock, w);
  k_set_cloexec _ w := (Ok tt, w);
  k_set_nonblocking _ w := (Ok tt, w);
  k_connect _ p w := (if bool_decide (listening w = Some p) then Ok tt else Err ECONNREFUSED, w);
  k_take_error _ w := (Ok None, w);
  k_poll _ ev _ w := ({| poll_result := 1; revents := ev; poll_errno := EINTR |}, w);
  k_bind _ w := (Ok 7, w);
  k_accept _ w := (Ok sock, w);
  k_read := sim_read;
  k_write := sim_write;
  k_open := sim_open;
  k_openat := sim_openat;
  k_fstat f w :=
    (match fds w !! f with
     | Some (i, _) => match inodes w !! i with Some n => Ok (i_meta n) | None => Err EBADF end
     | None => Err EBADF
     end, w);
  k_getcwd w := (Ok (B "/"), w);
  k_unlink _ w := (Err ENOENT, w);
  k_unlinkat := sim_unlinkat;
  k_dup_cloexec f w := (Ok f, w);
  k_close _ w := (tt, w);
  k_fdopendir := sim_fdopendir;
  k_readdir := sim_readdir;
  k_closedir _ w := (tt, w);
  k_stdout b w := (tt, set_printed (printed w ++ [b]) w);
|}.

Lemma sim_read_clock f n w : clock (sim_read f n w).2 = clock w.
Proof. unfold sim_read. by repeat case_match. Qed.

Lemma sim_write_clock f b w : clock (sim_write f b w).2 = clock w.
Proof. unfold sim_write. by repeat case_match. Qed.

Lemma sim_clock_lt d (w : sim) :
  d <= clock w + 1 + tick w \/
  (N.to_nat (d - (clock w + 1 + tick w)) < N.to_nat (d - clock w))%nat.
Proof. lia. Qed.

#[global] Instance sim_progress (d : N) : DeadlineProgress sim d.
Proof.
  refine {| rank := fun w => N.to_nat (d - clock w) |}; intros; cbn; try lia.
  - by rewrite sim_read_clock.
  - by rewrite sim_write_clock.
Defined.

(** An empty system: the root directory, owned by root. *)
Definition root_dir (es : list (bytes * N)) : inode :=
  {| i_meta := {| mode := 0x41ED; uid := 0 |}; i_data := []; i_entries := es |}.

Definition sim0 : sim := {|
  clock := 0; tick := 999999; wall := 1700000000000000000;
  inodes := {[ 0 := root_dir [] ]}; fds := ∅; dirs := ∅; next := 10;
  listening := None; chunk := 7; sent := []; reply := fun _ => []; received := 0; printed := []
|}.

(** A peer listening on [path] that answers [r] of what it received; each
    clock reading takes [1 + t] nanoseconds. *)
Definition sim_peer (t : N) (path : bytes) (r : bytes -> bytes) : sim := {|
  clock := 0; tick := t; wall := 1700000000000000000;
  inodes := {[ 0 := root_dir [] ]}; fds := ∅; dirs := ∅; next := 10;
  listening := Some path; chunk := 7; sent := []; reply := r; received := 0; printed := []
|}.

(** Root's files, given as directory, name, mode and contents in [etc]. *)
Definition file_inode (m : N) (b : bytes) : inode :=
  {| i_meta := {| mode := N.lor 0x8000 m; uid := 0 |}; i_data := b; i_entries := [] |}.

(** [/etc] holds [files]; [/cache] is a private directory holding [markers]. *)
Definition sim_files (files markers : list (bytes * inode)) (w : sim) : sim :=
  let number (base : N) (l : list (bytes * inode)) :=
    imap (fun i e => (e.1, base + N.of_nat i, e.2)) l in
  let es := number 3 files in
  let ms := number (3 + N.of_nat (length files)) markers in
  let names l := map (fun '(n, i, _) => (n, i)) l in
  let all := foldr (fun '(_, i, nd) acc => <[i := nd]> acc) ∅ (es ++ ms) in
  set_inodes
    (<[0 := root_dir [(B "etc", 1); (B "cache", 2)]]>
     (<[1 := root_dir (names es)]>
      (<[2 := {| i_meta := {| mode := 0x41C0; uid := 0 |}; i_data := []; i_entries := names ms |}]>
       all))) (set_fds (fds w) (100 + N.of_nat (length es + length ms)) w).

Definition start (w : sim) : state sim := St w [].

(** A run whose final state is a definition [(m s).2] is evaluated for its
    outcome only. *)
Lemma run_to {W E A} (r : outcome (result A E) * state W) o : r.1 = o -> r = (o, r.2).
Proof. intros <-. by destruct r. Qed.

Ltac run_here :=
  lazymatch goal with
  | |- _ = (_, ?f _) => unfold f
  | |- _ = (_, ?s) => unfold s
  end; apply run_to; vm_compute; reflexivity.
