(* ===== verification/TransportProps.v ===== *)
(** * Properties of the transport

    The discipline of the deadline: on every path, whatever the kernel
    answers, each connect, read, write and poll directly follows a clock
    reading before the deadline, and no poll or sleep is longer than what
    that reading leaves.  The loops end: fuel above the number of clock
    readings left before the deadline is enough. *)

From Stdlib Require Import NArith ZArith Lia List Bool.
From Stdlib Require Import Strings.Byte Strings.String.
From stdpp Require Import base decidable list option strings.
From S2P Require Import Prelude RustStd Sys Io Transport Sim.

Open Scope N_scope.

(** ** Error classification *)

(** An I/O error becomes [Timeout] exactly when its kind is [TimedOut]
    or [WouldBlock]; every other one stays an I/O error. *)
Lemma transport_error_classification (e : io_error) :
  transport_error_from e =
  if decide (kind e = TimedOut \/ kind e = WouldBlock) then Timeout else Io e.
Proof. unfold transport_error_from. destruct (kind e); case_decide; naive_solver. Qed.

(** ** The discipline of the deadline *)

(** [last]: the clock reading made by the call just before, if it was one. *)
Fixpoint disciplined (d : N) (last : option N) (evs : list event) : bool :=
  match evs with
  | [] => true
  | EvInstant t :: r => disciplined d (Some t) r
  | (EvConnect _ _ _ | EvRead _ _ _ | EvWrite _ _ _) :: r =>
      match last with Some t => t <? d | None => false end && disciplined d None r
  | EvPoll _ _ timeout _ :: r =>
      match last with
      | Some t => (t <? d) && (1 <=? timeout) && (timeout <=? i32_max)
                  && ((timeout - 1) * ns_per_ms <=? d - t)
      | None => false
      end && disciplined d None r
  | EvSleep ns :: r =>
      match last with Some t => (ns <=? d - t) && (ns <=? ns_per_ms) | None => false end
      && disciplined d None r
  | _ :: r => disciplined d None r
  end.

Lemma disciplined_none d o evs : disciplined d None evs = true -> disciplined d o evs = true.
Proof. destruct o as [t|]; [|done]. destruct evs as [|[]]; cbn; done. Qed.

Lemma disciplined_app d o e1 e2 :
  disciplined d o e1 = true -> disciplined d None e2 = true ->
  disciplined d o (e1 ++ e2) = true.
Proof.
  intros H1 H2. revert o H1. induction e1 as [|e e1 IH]; intros o H1.
  { by apply disciplined_none. }
  destruct e; cbn in *; try (by apply IH);
    (apply andb_prop in H1 as [? H1]; apply andb_true_intro; split; [done|by apply IH]).
Qed.

Definition disc_from {W E A} (d : N) (o : option N) (m : M W E A) : Prop :=
  forall s, exists evs, made s (m s).2 evs /\ disciplined d o evs = true.

Section Discipline.
Context `{Kernel W} (d : N).

Lemma disc_ret {E A} o (a : A) : disc_from (W := W) (E := E) d o (ret a).
Proof. intros s. exists []. split; [apply made_nil|done]. Qed.
Lemma disc_throw {E A} o (e : E) : disc_from (W := W) (A := A) d o (throw e).
Proof. intros s. exists []. split; [apply made_nil|done]. Qed.
Lemma disc_panic {E A} o : disc_from (W := W) (E := E) (A := A) d o panic.
Proof. intros s. exists []. split; [apply made_nil|done]. Qed.
Lemma disc_lift {E A} o (r : result A E) : disc_from (W := W) d o (lift r).
Proof. intros s. exists []. split; [apply made_nil|done]. Qed.

Lemma disc_prim {E A} o (f : W -> A * W) ev :
  (forall a, disciplined d o [ev a] = true) -> disc_from (E := E) d o (prim f ev).
Proof.
  intros HP s. unfold prim. destruct (f (world s)) as [a w]. cbn [snd].
  exists [ev a]. by split.
Qed.

Lemma disc_bind {E A B} o (m : M W E A) (k : A -> M W E B) :
  disc_from d o m -> (forall a, disc_from d None (k a)) -> disc_from d o (bind m k).
Proof.
  intros Hm Hk s. destruct (Hm s) as (e1 & M1 & D1). unfold bind.
  destruct (m s) as [[[a|e]| |] s1]; cbn [snd] in *; try (by exists e1).
  destruct (Hk a s1) as (e2 & M2 & D2). exists (e1 ++ e2).
  split; [by eapply made_app|by apply disciplined_app].
Qed.

Lemma disc_attempt {E F A} o (m : M W E A) :
  disc_from d o m -> disc_from (E := F) d o (attempt m).
Proof.
  intros Hm s. specialize (Hm s). unfold attempt. by destruct (m s) as [[?| |] ?].
Qed.

Lemma disc_into {E F A} o (f : E -> F) (m : M W E A) :
  disc_from d o m -> disc_from d o (into f m).
Proof. intros Hm s. specialize (Hm s). unfold into. by destruct (m s) as [[?| |] ?]. Qed.

Lemma disc_os {A} o (m : M W io_error (result A errno)) :
  disc_from d o m -> disc_from d o (os m).
Proof. intros Hm. apply disc_bind; [done|]. intros r. apply disc_lift. Qed.

Lemma disc_owned {E A} f (m : M W E A) :
  disc_from d None m -> disc_from d None (owned f m).
Proof.
  intros Hm. apply disc_bind; [by apply disc_attempt|].
  intros [a|e]; [apply disc_ret|]. apply disc_bind; [by apply disc_prim|].
  intros _. apply disc_throw.
Qed.

Lemma disc_loop {E S A} fuel (body : S -> M W E (S + A)) st :
  (forall st, disc_from d None (body st)) -> disc_from d None (loop fuel body st).
Proof.
  intros Hb. revert st. induction fuel as [|fuel IH]; intros st.
  - intros s. exists []. split; [apply made_nil|done].
  - cbn. apply disc_bind; [apply Hb|]. intros [st'|a]; [apply IH|apply disc_ret].
Qed.

(** A step that reads the clock hands its reading to the next call. *)
Lemma disc_now {E B} o (k : N -> M W E B) :
  (forall t, disc_from d (Some t) (k t)) -> disc_from d o (bind instant_now k).
Proof.
  intros Hk s. unfold bind, instant_now, prim. destruct (k_instant_now (world s)) as [t w].
  destruct (Hk t (St w (log s ++ [EvInstant t]))) as (evs & Hm & Hd).
  exists (EvInstant t :: evs). split; [|by destruct o].
  unfold made in *. cbn [log] in Hm. by rewrite Hm, <- app_assoc.
Qed.

Lemma disc_check {B} o (k : unit -> M W TransportError B) :
  (forall t, t < d -> disc_from d (Some t) (k tt)) ->
  disc_from d o (bind (check_deadline d) k).
Proof.
  intros Hk s.
  assert (disc_from d o (bind instant_now
    (fun now => if d <=? now then throw Timeout else k tt))) as Hd.
  { apply disc_now. intros t. destruct (N.leb_spec d t); [apply disc_throw|by apply Hk]. }
  specialize (Hd s). revert Hd. unfold bind, check_deadline, bind, instant_now, prim.
  destruct (k_instant_now (world s)) as [t w]. by destruct (d <=? t).
Qed.

Lemma disc_check_into {F B} o (f : TransportError -> F) (k : unit -> M W F B) :
  (forall t, t < d -> disc_from d (Some t) (k tt)) ->
  disc_from d o (bind (into f (check_deadline d)) k).
Proof.
  intros Hk s.
  assert (disc_from d o (bind instant_now
    (fun now => if d <=? now then throw (f Timeout) else k tt))) as Hd.
  { apply disc_now. intros t. destruct (N.leb_spec d t); [apply disc_throw|by apply Hk]. }
  specialize (Hd s). revert Hd. unfold bind, into, check_deadline, bind, instant_now, prim.
  destruct (k_instant_now (world s)) as [t w]. by destruct (d <=? t).
Qed.

Lemma remaining_until_some now r :
  remaining_until d now = Some r <-> now < d /\ r = d - now.
Proof.
  unfold remaining_until. destruct (N.leb_spec now d); [|naive_solver lia].
  destruct (N.eqb_spec (d - now) 0); split; try done.
  - intros [? ->]. lia.
  - intros [= <-]. split; [lia|done].
  - intros [? ->]. done.
Qed.

Lemma poll_timeout_bounds r :
  1 <= poll_timeout r <= i32_max /\ (poll_timeout r - 1) * ns_per_ms <= r.
Proof.
  unfold poll_timeout, i32_max, u128_max.
  pose proof (N.Div0.mul_div_le r ns_per_ms) as Hd.
  pose proof (N.le_0_l (r / ns_per_ms)). unfold ns_per_ms in *. lia.
Qed.

Lemma disc_wait fuel f events : disc_from d None (wait fuel f events d).
Proof.
  apply disc_loop. intros _. unfold wait_round. apply disc_now. intros t.
  destruct (remaining_until d t) as [r|] eqn:Er; [|apply disc_throw].
  apply remaining_until_some in Er as [Ht ->].
  apply (disc_bind (Some t) (poll f events (poll_timeout (d - t)))).
  - apply disc_prim. intros a. destruct (poll_timeout_bounds (d - t)) as [[? ?] ?].
    cbn. repeat (apply andb_true_intro; split); try done;
      by (apply N.ltb_lt || apply N.leb_le).
  - intros p. cbv zeta. repeat case_match; (apply disc_throw || apply disc_ret).
Qed.

Lemma disc_transfer {T} fuel self events (op : M W io_error T) :
  deadline self = d -> (forall t, t < d -> disc_from d (Some t) op) ->
  disc_from d None (transfer fuel self events op).
Proof.
  intros Hd Hop. apply disc_loop. intros _. unfold transfer_round. rewrite Hd.
  apply disc_check_into. intros t Ht. apply disc_bind; [by apply disc_attempt, Hop|].
  intros [b|e]; [apply disc_ret|]. case_decide; [apply disc_ret|]. case_decide; [|apply disc_throw].
  apply disc_bind; [apply disc_wait|]. intros _. apply disc_ret.
Qed.

Lemma disc_read f n t : t < d -> disc_from d (Some t) (read f n).
Proof.
  intros Ht. apply disc_os, disc_prim. intros a. cbn. by rewrite (proj2 (N.ltb_lt _ _)).
Qed.

Lemma disc_write f b t : t < d -> disc_from d (Some t) (write f b).
Proof.
  intros Ht. apply disc_os, disc_prim. intros a. cbn. by rewrite (proj2 (N.ltb_lt _ _)).
Qed.

Lemma disc_finish_pending fuel f : disc_from d None (finish_pending fuel f d).
Proof.
  apply disc_bind; [apply disc_into, disc_wait|]. intros _.
  apply disc_bind; [by apply disc_into, disc_os, disc_prim|].
  intros [e|]; [apply disc_throw|apply disc_ret].
Qed.

Lemma disc_backlog_pause : disc_from d None (backlog_pause d).
Proof.
  apply disc_now. intros t. apply (disc_bind (Some t) (sleep _)); [|intros ?; apply disc_ret].
  apply disc_prim. intros _. cbn.
  repeat (apply andb_true_intro; split); try done; apply N.leb_le; lia.
Qed.

Lemma disc_connect_round fuel f path : disc_from d None (connect_round fuel f path d).
Proof.
  apply disc_check. intros t Ht.
  apply (disc_bind (Some t) (sys_connect f path)).
  { apply disc_prim. intros a. cbn. by rewrite (proj2 (N.ltb_lt _ _)). }
  intros [[]|[]]; try apply disc_ret; try apply disc_throw; try apply disc_finish_pending.
  apply disc_backlog_pause.
Qed.

Lemma disc_connect fuel path : disc_from d None (connect fuel path d).
Proof.
  apply disc_check. intros t Ht.
  case_match; [apply disc_throw|].
  apply disc_bind; [by apply disc_into, disc_os, disc_prim|]. intros f. apply disc_owned.
  apply disc_bind; [by apply disc_into, disc_os, disc_prim|]. intros _.
  apply disc_bind; [by apply disc_into, disc_os, disc_prim|]. intros _.
  apply disc_bind; [apply disc_loop; intros _; apply disc_connect_round|]. intros _.
  apply disc_check. intros t' _. apply disc_ret.
Qed.

End Discipline.

(** On every path and whatever the kernel answers, each [connect],
    [read], [write] and [poll] of the stream directly follows a clock
    reading before the deadline; a poll lasts between one and [i32::MAX]
    milliseconds and at most a millisecond more than what is left; the
    pause after a full backlog is at most a millisecond and what is left.
    Bytes received therefore never extend the budget. *)
Theorem deadline_discipline `{Kernel W} (fuel : nat) (self : DeadlineStream)
  (path b : bytes) (n : nat) :
  disc_from (W := W) (deadline self) None (connect fuel path (deadline self)) /\
  disc_from (W := W) (deadline self) None (deadline_read fuel self n) /\
  disc_from (W := W) (deadline self) None (deadline_write fuel self b).
Proof.
  split_and!; [apply disc_connect|..]; apply disc_transfer; try done; intros t.
  - apply disc_read.
  - apply disc_write.
Qed.

(** ** What a transfer moves *)

Section Laws.
Context `{Kernel W}.

(** Calls that move no byte over any descriptor. *)
Definition quiet (e : event) : Prop :=
  match e with EvRead _ _ _ | EvWrite _ _ _ => False | _ => True end.

Lemma quiet_bytes f evs :
  Forall quiet evs -> bytes_read f evs = [] /\ bytes_written f evs = [].
Proof. induction 1 as [|e evs He _ [IH1 IH2]]; [done|]. destruct e; cbn in *; tauto. Qed.

Lemma quiet_only_read f (s s' : state W) : emitted quiet s s' -> only_read f [] s s'.
Proof. intros (evs & Hm & [Hr Hw]%(quiet_bytes f)). by exists evs. Qed.

Lemma quiet_only_wrote f (s s' : state W) : emitted quiet s s' -> only_wrote f [] s s'.
Proof. intros (evs & Hm & [Hr Hw]%(quiet_bytes f)). by exists evs. Qed.

Lemma quiet_check_deadline d : emits quiet (check_deadline d : M W _ _).
Proof.
  apply respects_bind; [apply _|by apply emits_prim|]. intros t. case_match; intros s; reflexivity.
Qed.

Lemma quiet_wait fuel f events d : emits quiet (wait fuel f events d : M W _ _).
Proof.
  unfold wait, wait_round. respects_tac; by apply emits_prim.
Qed.

(** A transfer moves exactly the bytes of the operation that ended it. *)
Section Moved.
Context {T : Type} (val : T -> bytes) (mv : bytes -> state W -> state W -> Prop).
Context (mv_quiet : forall s s', emitted quiet s s' -> mv [] s s').
Context (mv_app : forall b1 b2 s1 s2 s3, mv b1 s1 s2 -> mv b2 s2 s3 -> mv (b1 ++ b2) s1 s3).

Definition moved (r : result T io_error) : bytes :=
  match r with Ok v => val v | Err _ => [] end.

Lemma transfer_round_log fuel self events (op : M W io_error T) s o s' :
  (forall s r s', op s = (Done r, s') -> mv (moved r) s s') ->
  transfer_round fuel self events op s = (o, s') ->
  match o with
  | Done (Ok (inr v)) => mv (val v) s s' | Done _ => mv [] s s' | _ => True end.
Proof.
  intros Hop HB.
  pose proof (quiet_check_deadline (deadline self) s) as Q.
  assert (emitted quiet s (into (fun _ => Simple TimedOut)
    (check_deadline (deadline self)) s).2) as Q' by
    (unfold into; revert Q; by destruct (check_deadline _ s) as [[?| |] ?]).
  apply bind_run in HB as [(a & s1 & H1 & HB)|[(e & H1 & ->)|[[H1 ->]|[H1 ->]]]];
    rewrite H1 in Q'; cbn [snd] in Q'; apply mv_quiet in Q'; try done.
  apply bind_run in HB as [(r & s2 & H2 & HB)|[(e & H2 & ->)|[[H2 ->]|[H2 ->]]]]; try done.
  2: { apply attempt_ok in H2 as (? & ? & ?). discriminate. }
  apply attempt_ok in H2 as (r' & H2 & [= ->]). apply Hop in H2.
  pose proof (mv_app _ _ _ _ _ Q' H2) as H3. cbn [app] in H3.
  destruct r' as [v|e]; [by injection HB as <- <-|].
  case_decide; [by injection HB as <- <-|]. case_decide; [|by injection HB as <- <-].
  pose proof (quiet_wait fuel (stream self) events (deadline self) s2) as Q2.
  unfold bind in HB. destruct (wait _ _ _ _ s2) as [[[[]|e']| |] s3];
    injection HB as <- <-; try done; cbn [snd] in Q2; apply mv_quiet in Q2;
    exact (mv_app _ _ _ _ _ H3 Q2).
Qed.

Lemma transfer_log fuel self events (op : M W io_error T) :
  (forall s r s', op s = (Done r, s') -> mv (moved r) s s') ->
  forall s r s', transfer fuel self events op s = (Done r, s') -> mv (moved r) s s'.
Proof.
  intros Hop s r s' HT.
  pose (P := fun (_ : unit) (s : state W) (o : outcome (result T io_error)) s' =>
    match o with Done r => mv (moved r) s s' | _ => True end).
  pose proof (fun s o s' => transfer_round_log fuel self events op s o s' Hop) as Hround.
  change (P tt s (Done r) s').
  refine (loop_ind _ P _ _ _ _ _ _ _ _ _ _ _ HT); unfold P; try done.
  - intros _ s1 [] s2 o s3 HB%Hround HP. destruct o as [r'| |]; [|done..].
    exact (mv_app _ _ _ _ _ HB HP).
  - intros _ s1 v s2 HB%Hround. exact HB.
  - intros _ s1 e s2 HB%Hround. exact HB.
Qed.
End Moved.

#[global] Instance deadline_io_read_laws : ReadLaws W DeadlineIo.
Proof.
  refine {| read_fd := fun t => stream (io_stream t); read_log := _ |}.
  intros t n s r s' HT.
  apply (transfer_log (fun b => b) (only_read (stream (io_stream t)))
    (quiet_only_read _) (only_read_app _) _ _ _ _ (sys_read_log _ n) _ _ _ HT).
Defined.
End Laws.

#[global] Instance deadline_io_write_laws `{Kernel W} : WriteLaws W DeadlineIo.
Proof.
  refine {| write_fd := fun t => stream (io_stream t); write_log := _ |}.
  intros t b s r s' HT.
  apply (transfer_log (fun n => take n b) (only_wrote (stream (io_stream t)))
    (quiet_only_wrote _) (only_wrote_app _) _ _ _ _ (sys_write_log _ b) _ _ _ HT).
Defined.

(** ** The loops end *)

Section Total.
Context `{DP : DeadlineProgress W d}.

Definition lowers (s s' : state W) : Prop := (rank (world s') <= rank (world s))%nat.

#[local] Instance lowers_preorder : PreOrder lowers.
Proof. split; unfold lowers; repeat intro; lia. Qed.

Lemma lowers_prim {E A} (f : W -> A * W) ev :
  (forall w, rank (f w).2 <= rank w)%nat -> respects lowers (prim (E := E) f ev).
Proof.
  intros Hf s. unfold prim, lowers. specialize (Hf (world s)).
  by destruct (f (world s)).
Qed.

(** A round that reads the clock and goes on has lowered the rank. *)
Lemma check_deadline_lowers s s1 :
  check_deadline d s = (Done (Ok tt), s1) -> (rank (world s1) < rank (world s))%nat.
Proof.
  unfold check_deadline, bind, instant_now, prim.
  pose proof (rank_now (world s)) as Hr. destruct (k_instant_now (world s)) as [t w].
  cbn in Hr. destruct (N.leb_spec d t); intros [= <-]. cbn. by destruct Hr; [lia|].
Qed.

Lemma lowers_check_deadline : respects lowers (check_deadline d : M W _ _).
Proof.
  apply respects_bind; [apply _|by apply lowers_prim, rank_now_le|].
  intros t. case_match; intros s; reflexivity.
Qed.

Lemma lowers_wait fuel f events : respects lowers (wait fuel f events d : M W _ _).
Proof.
  unfold wait, wait_round. respects_tac; apply lowers_prim; [apply rank_now_le|apply rank_poll].
Qed.

Lemma wait_total fuel f events s :
  (rank (world s) < fuel)%nat -> (wait fuel f events d s).1 <> OutOfFuel.
Proof.
  intros Hf. unfold wait, wait_round.
  apply (loop_total rank (fun _ _ => True)); try done.
  - intros _ s0 _. unfold bind, instant_now, poll, prim, lift.
    destruct (k_instant_now (world s0)) as [t w]. destruct (remaining_until d t); [|done].
    cbn. destruct (k_poll _ _ _ w) as [p w']. repeat case_match; done.
  - intros _ s0 [] s1 _ HB. split; [|done].
    pose proof (rank_now (world s0)) as Hr. revert HB.
    unfold bind at 1, instant_now, prim. destruct (k_instant_now (world s0)) as [t w].
    cbn [fst snd] in Hr.
    destruct (remaining_until d t) as [r|] eqn:Er; [|discriminate].
    apply remaining_until_some in Er as [Ht _]. destruct Hr as [Hr|Hr]; [lia|].
    intros HB. run_inv HB. unfold poll in Ha. apply prim_done in Ha as (p & _ & _ & Hp).
    pose proof (rank_poll f events (poll_timeout a) w) as Hle. cbn [world] in Hp. rewrite Hp in Hle.
    cbv zeta in HB. repeat case_match; run_inv HB; try discriminate; cbn in Hle; lia.
Qed.

Lemma check_deadline_total s : (check_deadline d s).1 <> OutOfFuel (A := result unit _).
Proof.
  unfold check_deadline, bind, instant_now, prim.
  destruct (k_instant_now (world s)) as [t w]. by case_match.
Qed.

Section TransferTotal.
Context {T : Type} (fuel : nat) (self : DeadlineStream) (events : N) (op : M W io_error T).
Context (Hd : deadline self = d).
Context (op_total : forall s, (op s).1 <> OutOfFuel) (op_lowers : respects lowers op).

Abbreviation round := (transfer_round fuel self events op).

Lemma round_lowers s r s' :
  round s = (Done r, s') -> (rank (world s') < rank (world s))%nat \/ r = Err (Simple TimedOut).
Proof.
  unfold transfer_round. rewrite Hd. intros HB.
  apply bind_run in HB as [([] & s1 & H1%into_ok & HB)|[(e & H1 & [= ->])|[[_ [=]]|[_ [=]]]]].
  2: { right. revert H1. unfold into, check_deadline, bind, instant_now, prim.
       destruct (k_instant_now (world s)) as [t w]. cbn. destruct (d <=? t); cbn; [by intros [= <- _]|done]. }
  apply check_deadline_lowers in H1. left.
  apply bind_run in HB as [(r1 & s2 & H2 & HB)|[(e & H2 & _)|[[_ [=]]|[_ [=]]]]];
    apply attempt_ok in H2 as (r' & H2 & [= ->]).
  pose proof (op_lowers s1) as L2. rewrite H2 in L2. unfold lowers in L2. cbn [snd] in L2.
  destruct r' as [v|e]; [injection HB as _ <-; lia|].
  case_decide; [injection HB as _ <-; lia|]. case_decide; [|injection HB as _ <-; lia].
  pose proof (lowers_wait fuel (stream self) events s2) as L3. unfold lowers in L3.
  unfold bind in HB. destruct (wait _ _ _ _ s2) as [[[[]|e']| |] s3];
    injection HB as _ <-; cbn [snd] in L3; lia.
Qed.

Lemma round_total s : (rank (world s) < fuel)%nat -> (round s).1 <> OutOfFuel.
Proof.
  intros Hf. unfold transfer_round. rewrite Hd. destruct (bind _ _ s) as [o s'] eqn:HB. cbn. intros ->.
  apply bind_fuel in HB as [HB|([] & s1 & H1%into_ok & HB)].
  { revert HB. unfold into. pose proof (check_deadline_total s) as Hc.
    by destruct (check_deadline d s) as [[?| |] ?]. }
  apply check_deadline_lowers in H1.
  apply bind_fuel in HB as [HB|(r & s2 & H2 & HB)].
  { revert HB. unfold attempt. specialize (op_total s1). by destruct (op s1) as [[?| |] ?]. }
  apply attempt_ok in H2 as (r' & H2 & [= ->]).
  pose proof (op_lowers s1) as L2. rewrite H2 in L2. unfold lowers in L2. cbn [snd] in L2.
  assert (forall r0 : unit + T, ret (E := io_error) r0 s2 <> (OutOfFuel, s')) as Hret by done.
  destruct r' as [v|e]; [by apply Hret in HB|].
  case_decide; [by apply Hret in HB|]. case_decide; [|discriminate HB].
  apply bind_fuel in HB as [HB|(? & ? & _ & HB)]; [|discriminate HB].
  apply (wait_total fuel (stream self) events s2); [lia|]. by rewrite HB.
Qed.

Lemma transfer_total s :
  (rank (world s) < fuel)%nat -> (transfer fuel self events op s).1 <> OutOfFuel.
Proof.
  intros Hf.
  apply (loop_total rank (fun _ s => (rank (world s) < fuel)%nat) (fun _ => round));
    [|..|done|done].
  - intros _ s0 H0. by apply round_total.
  - intros _ s0 [] s1 H0 [?|[=]]%round_lowers. lia.
Qed.

Lemma transfer_lowers s r s' :
  transfer fuel self events op s = (Done r, s') ->
  (rank (world s') < rank (world s))%nat \/ r = Err (Simple TimedOut).
Proof.
  intros HT.
  pose (P := fun (_ : unit) (s : state W) (o : outcome (result T io_error)) s' =>
    match o with
    | Done r => (rank (world s') < rank (world s))%nat \/ r = Err (Simple TimedOut)
    | _ => True end).
  change (P tt s (Done r) s').
  refine (loop_ind (fun _ => round) P _ _ _ _ _ _ _ _ _ _ _ HT); unfold P; try done.
  - intros _ s1 [] s2 o s3 [H1|[=]]%round_lowers H2. destruct o as [r'| |]; [|done..].
    destruct H2; [left; lia|by right].
  - intros _ s1 v s2 [?|[=]]%round_lowers. by left.
  - intros _ s1 e s2 [?|[= ->]]%round_lowers; [by left|by right].
Qed.
End TransferTotal.

Lemma deadline_read_total fuel self n s :
  deadline self = d -> (rank (world s) < fuel)%nat ->
  (deadline_read fuel self n s).1 <> OutOfFuel.
Proof.
  intros Hd Hf. apply transfer_total; try done.
  - intros s0. unfold read, os, bind, prim, lift. by destruct (k_read _ _ _).
  - apply respects_os; [apply _|]. apply lowers_prim, rank_read.
Qed.

Lemma deadline_write_total fuel self b s :
  deadline self = d -> (rank (world s) < fuel)%nat ->
  (deadline_write fuel self b s).1 <> OutOfFuel.
Proof.
  intros Hd Hf. apply transfer_total; try done.
  - intros s0. unfold write, os, bind, prim, lift. by destruct (k_write _ _ _).
  - apply respects_os; [apply _|]. apply lowers_prim, rank_write.
Qed.
Lemma check_then_lowers {B} (k : unit -> M W TransportError B) s b s' :
  respects lowers (k tt) -> bind (check_deadline d) k s = (Done (Ok b), s') ->
  (rank (world s') < rank (world s))%nat.
Proof.
  intros Hk HB. apply bind_ok in HB as ([] & s1 & H1%check_deadline_lowers & H2).
  specialize (Hk s1). rewrite H2 in Hk. unfold lowers in Hk. cbn in Hk. lia.
Qed.

Lemma lowers_finish_pending fuel f : respects lowers (finish_pending fuel f d : M W _ _).
Proof.
  apply respects_bind; [apply _|by apply respects_into, lowers_wait|]. intros _.
  apply respects_bind; [apply _| |intros [e|] s; reflexivity].
  apply respects_into, respects_os; [apply _|]. apply lowers_prim, rank_take_error.
Qed.

Lemma lowers_backlog_pause : respects lowers (backlog_pause d : M W _ _).
Proof.
  apply respects_bind; [apply _|apply lowers_prim, rank_now_le|]. intros t.
  apply respects_bind; [apply _|apply lowers_prim; intros w; apply rank_sleep|].
  intros _ s. reflexivity.
Qed.

Lemma finish_pending_total fuel f s :
  (rank (world s) < fuel)%nat -> (finish_pending fuel f d s).1 <> OutOfFuel.
Proof.
  intros Hf. unfold finish_pending, bind at 1, into at 1.
  pose proof (wait_total fuel f POLLOUT s Hf) as Hw.
  destruct (wait fuel f POLLOUT d s) as [[[[]|e]| |] s1]; try done. cbn.
  unfold bind, into, take_error, os, bind, prim, lift.
  destruct (k_take_error f (world s1)) as [[[e|]|e] w]; done.
Qed.

Lemma backlog_pause_total s : (backlog_pause d s).1 <> OutOfFuel.
Proof.
  unfold backlog_pause, bind, instant_now, sleep, prim.
  destruct (k_instant_now (world s)) as [t w]. cbn. by destruct (k_sleep _ w).
Qed.

Lemma connect_round_lowers fuel f path s r s' :
  connect_round fuel f path d s = (Done (Ok r), s') ->
  (rank (world s') < rank (world s))%nat.
Proof.
  apply check_then_lowers.
  apply respects_bind; [apply _|by apply lowers_prim; intros w; apply rank_connect|].
  intros [[]|[]]; try (intros s7; reflexivity);
    (apply lowers_finish_pending || apply lowers_backlog_pause).
Qed.

Lemma connect_round_total fuel f path s :
  (rank (world s) < fuel)%nat -> (connect_round fuel f path d s).1 <> OutOfFuel.
Proof.
  intros Hf. destruct (connect_round _ _ _ _ s) as [o s'] eqn:HR. cbn. intros ->.
  apply bind_fuel in HR as [HR|([] & s1 & H1%check_deadline_lowers & HR)];
    [by apply (check_deadline_total s); rewrite HR|].
  unfold bind at 1, sys_connect, prim in HR. pose proof (rank_connect f path (world s1)) as Hc.
  destruct (k_connect f path (world s1)) as [r w]. cbn [snd] in Hc.
  destruct r as [[]|[]]; try discriminate HR;
    first [ eapply finish_pending_total; [|by rewrite HR]; cbn; lia
          | eapply backlog_pause_total; by rewrite HR ].
Qed.

(** One fallible setup call that cannot run out of fuel. *)
Lemma setup_fuel {A B} (m : M W io_error A) (k : A -> M W TransportError B) s s' :
  (forall s, (m s).1 <> OutOfFuel) -> respects lowers m ->
  bind (into transport_error_from m) k s = (OutOfFuel, s') ->
  exists a s1, (rank (world s1) <= rank (world s))%nat /\ k a s1 = (OutOfFuel, s').
Proof.
  intros Ht Hl HB. apply bind_fuel in HB as [HB|(a & s1 & HB & HK)].
  - revert HB. unfold into. specialize (Ht s). by destruct (m s) as [[?| |] ?].
  - apply into_ok in HB. specialize (Hl s). rewrite HB in Hl. by exists a, s1.
Qed.

Lemma os_prim_total {A} (f : W -> result A errno * W) ev s : (os (prim f ev) s).1 <> OutOfFuel.
Proof. unfold os, bind, prim, lift. by destruct (f (world s)). Qed.

Lemma owned_fuel {E A} f (m : M W E A) s s' :
  owned f m s = (OutOfFuel, s') -> m s = (OutOfFuel, s').
Proof.
  unfold owned, bind, attempt, close, prim.
  destruct (m s) as [[[a|e]| |] s1]; [done|by destruct (k_close f (world s1))|done|].
  by intros [= ->].
Qed.

Lemma connect_total fuel path s :
  (rank (world s) < fuel)%nat -> (connect fuel path d s).1 <> OutOfFuel.
Proof.
  intros Hf. unfold connect. destruct (bind _ _ s) as [o s'] eqn:HB. cbn. intros ->.
  apply bind_fuel in HB as [HB|([] & s1 & H1%check_deadline_lowers & HB)];
    [by apply (check_deadline_total s); rewrite HB|].
  case_match; [discriminate|].
  apply setup_fuel in HB as (f & s2 & L2 & HB);
    [|apply os_prim_total|apply respects_os; [apply _|apply lowers_prim, rank_socket]].
  apply owned_fuel in HB.
  apply setup_fuel in HB as ([] & s3 & L3 & HB);
    [|apply os_prim_total|apply respects_os; [apply _|apply lowers_prim, rank_set_cloexec]].
  apply setup_fuel in HB as ([] & s4 & L4 & HB);
    [|apply os_prim_total|apply respects_os; [apply _|apply lowers_prim, rank_set_nonblocking]].
  apply bind_fuel in HB as [HB|([] & s5 & _ & HB)].
  - apply (loop_total rank (fun _ s => (rank (world s) < fuel)%nat)
      (fun _ : unit => connect_round fuel f path d)) with (fuel := fuel) (st := tt) (s := s4);
      [|..|lia|lia|by rewrite HB].
    + intros _ s0. apply connect_round_total.
    + intros _ s0 [] s6 Hs0 HR%connect_round_lowers. lia.
  - apply bind_fuel in HB as [HB|(? & ? & _ & [=])].
    by apply (check_deadline_total s5); rewrite HB.
Qed.
(** [read_exact] over the stream: each round that goes on came from a
    transfer, which read the clock before the deadline. *)
Lemma read_exact_total fuel self len s :
  deadline self = d -> (rank (world s) < fuel)%nat ->
  (read_exact fuel {| io_fuel := fuel; io_stream := self |} len s).1 <> OutOfFuel.
Proof.
  intros Hd Hf. unfold read_exact.
  apply (loop_total rank (fun _ s => (rank (world s) < fuel)%nat)); [| |done|done].
  - intros [need acc] s0 Hs0. case_decide; [done|]. unfold bind at 1, attempt, read_.
    unfold deadline_io_read. cbn [io_fuel io_stream].
    pose proof (deadline_read_total fuel self need s0 Hd Hs0) as Ht.
    destruct (deadline_read _ _ _ s0) as [[[[|x b]|e]| |] s1]; try done; cbn; by case_decide.
  - intros [need acc] s0 st s1 Hs0 HB. case_decide; [discriminate|]. run_inv HB.
    unfold read_, deadline_io_read in Ha. cbn [io_fuel io_stream] in Ha.
    apply transfer_lowers in Ha as [Hlt|Her];
      [| |done|apply respects_os; [apply _|apply lowers_prim, rank_read]].
    + destruct r as [[|x b]|e]; cbn in HB; [discriminate| |]; case_decide; try discriminate;
        run_inv HB; lia.
    + subst r. cbn in HB. discriminate HB.
Qed.

Lemma write_all_total fuel self buf s :
  deadline self = d -> (rank (world s) < fuel)%nat ->
  (write_all fuel {| io_fuel := fuel; io_stream := self |} buf s).1 <> OutOfFuel.
Proof.
  intros Hd Hf. unfold write_all.
  apply (loop_total rank (fun _ s => (rank (world s) < fuel)%nat)); [| |done|done].
  - intros b s0 Hs0. case_decide; [done|]. unfold bind at 1, attempt, write_.
    unfold deadline_io_write. cbn [io_fuel io_stream].
    pose proof (deadline_write_total fuel self b s0 Hd Hs0) as Ht.
    destruct (deadline_write _ _ _ s0) as [[[[|n]|e]| |] s1]; try done; cbn; by case_decide.
  - intros b s0 st s1 Hs0 HB. case_decide; [discriminate|]. run_inv HB.
    unfold write_, deadline_io_write in Ha. cbn [io_fuel io_stream] in Ha.
    apply transfer_lowers in Ha as [Hlt|Her];
      [| |done|apply respects_os; [apply _|apply lowers_prim, rank_write]].
    + destruct r as [[|n]|e]; cbn in HB; [discriminate| |]; case_decide; try discriminate;
        run_inv HB; lia.
    + subst r. cbn in HB. discriminate HB.
Qed.
End Total.

(** With fuel above the number of clock readings left before the
    deadline, connecting, and reading or writing any number of bytes over
    the stream, all end: no answer of the kernel or of the peer keeps the
    helper in a loop past its deadline. *)
Theorem transport_terminates `{DeadlineProgress W d} (fuel : nat) (self : DeadlineStream)
  (path buf : bytes) (len : nat) (s : state W) :
  deadline self = d -> (rank (world s) < fuel)%nat ->
  (connect fuel path d s).1 <> OutOfFuel /\
  (read_exact fuel {| io_fuel := fuel; io_stream := self |} len s).1 <> OutOfFuel /\
  (write_all fuel {| io_fuel := fuel; io_stream := self |} buf s).1 <> OutOfFuel.
Proof.
  intros Hd Hf. split_and!; [by apply connect_total|by apply read_exact_total|by apply write_all_total].
Qed.

(** Fifteen clock readings before the deadline; the peer never completes the
    eight bytes. *)
Lemma transport_terminates_witness :
  let s := start (sim_peer 0 (B "/agent.sock") (fun _ => B "short")) in
  let self := {| stream := sock; deadline := 15 |} in
  (connect 16 (B "/agent.sock") 15 s).1 <> OutOfFuel /\
  (read_exact 16 {| io_fuel := 16; io_stream := self |} 8 s).1 <> OutOfFuel /\
  (write_all 16 {| io_fuel := 16; io_stream := self |} (B "request") s).1 <> OutOfFuel.
Proof.
  intros s self.
  assert (rank (DeadlineProgress := sim_progress 15) (world s) < 16)%nat as Hr
    by (vm_compute; lia).
  exact (transport_terminates 16 self (B "/agent.sock") (B "request") 8 s eq_refl Hr).
Defined.
