(* ===== verification/Frame.v ===== *)
(** * JSON frames ([write_json_frame] and [read_json_frame] of
    [src/crates/helper/src/main.rs])

    A frame is a 32-bit big-endian length and a JSON payload of at most one
    mebibyte.  [serde_json] is the class [SerdeJson]; its law is the round
    trip of a value through its text.  The stream is any [Read] or [Write]
    that keeps the laws of [Io]; the theorems hold for every way the kernel
    splits, delays or interrupts the transfers. *)

From Stdlib Require Import NArith ZArith Lia List Bool.
From Stdlib Require Import Strings.Byte Strings.String.
From stdpp Require Import base decidable list option strings.
From S2P Require Import Prelude RustStd Sys Io Transport Sim.

Open Scope N_scope.

(** [1024 * 1024] as [N]; compared with lengths taken to [N]. *)
Definition MAX_FRAME_LEN : N := 1048576.

Class SerdeJson (T : Type) := {
  to_vec : T -> result bytes string;
  from_slice : bytes -> result T string;
}.

Class SerdeJsonLaws (T : Type) `{SerdeJson T} : Prop := {
  json_round_trip v b : to_vec v = Ok b -> from_slice b = Ok v;
}.

Section Frame.
Context {W Stream T : Type} `{SerdeJson T}.

Definition write_json_frame `{Write W Stream} (fuel : nat) (stream : Stream) (value : T)
  : M W TransportError unit :=
  let! bytes := lift (map_err Json (to_vec value)) in
  if MAX_FRAME_LEN <? N.of_nat (length bytes) then throw (Oversized (N.of_nat (length bytes)))
  else
  let frame_len := N.of_nat (length bytes) mod 4294967296 in
  do! into transport_error_from (write_all fuel stream (to_be_bytes 4 frame_len)) ;;
  do! into transport_error_from (write_all fuel stream bytes) ;;
  ret tt.

Definition read_json_frame `{Read W Stream} (fuel : nat) (stream : Stream)
  : M W TransportError T :=
  let! len_bytes := into transport_error_from (read_exact fuel stream 4) in
  let len := from_be_bytes len_bytes in
  if MAX_FRAME_LEN <? len then throw (Oversized len)
  else
  let! bytes := into transport_error_from (read_exact fuel stream (N.to_nat len)) in
  lift (map_err Json (from_slice bytes)).
End Frame.

(** ** What a frame puts on the wire *)

Definition frame (payload : bytes) : bytes :=
  to_be_bytes 4 (N.of_nat (length payload)) ++ payload.

Lemma frame_prefix_inj p1 p2 t1 t2 :
  N.of_nat (length p1) <= MAX_FRAME_LEN -> N.of_nat (length p2) <= MAX_FRAME_LEN ->
  frame p1 ++ t1 = frame p2 ++ t2 -> p1 = p2 /\ t1 = t2.
Proof.
  unfold frame, MAX_FRAME_LEN. intros H1 H2 He. rewrite <- !app_assoc in He.
  apply app_inj_length in He as [Hl He]; [|by autorewrite with bytes].
  apply to_be_bytes_inj in Hl; [|cbn; lia..].
  apply app_inj_length in He; [done|lia].
Qed.

Section FrameProps.
Context {W Stream T : Type} `{SerdeJson T}.

Lemma write_frame_wire `{WL : WriteLaws W Stream} fuel (stream : Stream) (v : T) s s' :
  write_json_frame fuel stream v s = (Done (Ok tt), s') ->
  exists p, to_vec v = Ok p /\ N.of_nat (length p) <= MAX_FRAME_LEN /\
    only_wrote (write_fd stream) (frame p) s s'.
Proof.
  unfold write_json_frame. intros HW. apply bind_ok in HW as (p & s1 & HP & HW).
  apply lift_done in HP as [HP ->]. symmetry in HP. apply map_err_ok in HP.
  destruct (N.ltb_spec MAX_FRAME_LEN (N.of_nat (length p))); [discriminate|].
  run_inv HW. destruct a, a0. exists p. split; [done|]. split; [done|].
  rewrite N.mod_small in Ha by (unfold MAX_FRAME_LEN in *; lia).
  eapply only_wrote_app; by eapply write_all_ok.
Qed.

Lemma read_frame_wire `{RL : ReadLaws W Stream} fuel (stream : Stream) (v : T) s s' :
  read_json_frame fuel stream s = (Done (Ok v), s') ->
  exists p, from_slice p = Ok v /\ N.of_nat (length p) <= MAX_FRAME_LEN /\
    only_read (read_fd stream) (frame p) s s'.
Proof.
  unfold read_json_frame. intros HR. run_inv HR. apply read_exact_ok in Ha as [Hl Ha].
  destruct (N.ltb_spec MAX_FRAME_LEN (from_be_bytes a)) as [|Hle]; [discriminate|].
  run_inv HR. apply read_exact_ok in Ha0 as [Hl' Ha0].
  symmetry in E. apply map_err_ok in E. exists a0. split; [done|].
  rewrite Hl', N2Nat.id. split; [done|].
  unfold frame. rewrite Hl', N2Nat.id.
  replace (to_be_bytes 4 (from_be_bytes a)) with a
    by (symmetry; rewrite <- Hl at 1; apply to_from_be_bytes).
  by eapply only_read_app.
Qed.

(** A frame that is written completely puts exactly the length and
    the JSON text of the value on the wire, within the limit; a frame that
    is read successfully was exactly such bytes, and nothing beyond the
    frame was consumed. *)
Theorem frames_on_the_wire `{WL : WriteLaws W Stream} `{RL : ReadLaws W Stream} (fuel : nat)
  (stream : Stream) (v : T) (s s' : state W) :
  (write_json_frame fuel stream v s = (Done (Ok tt), s') ->
   exists p, to_vec v = Ok p /\ N.of_nat (length p) <= MAX_FRAME_LEN /\
     only_wrote (write_fd stream) (frame p) s s') /\
  (read_json_frame fuel stream s = (Done (Ok v), s') ->
   exists p, from_slice p = Ok v /\ N.of_nat (length p) <= MAX_FRAME_LEN /\
     only_read (read_fd stream) (frame p) s s').
Proof. split; [apply write_frame_wire|apply read_frame_wire]. Qed.

Lemma only_wrote_inj f b1 b2 (s s' : state W) :
  only_wrote f b1 s s' -> only_wrote f b2 s s' -> b1 = b2.
Proof. intros (e1 & M1 & <- & _) (e2 & M2 & <- & _). by rewrite (made_inj _ _ _ _ M1 M2). Qed.

Lemma only_read_inj f b1 b2 (s s' : state W) :
  only_read f b1 s s' -> only_read f b2 s s' -> b1 = b2.
Proof. intros (e1 & M1 & <- & _) (e2 & M2 & <- & _). by rewrite (made_inj _ _ _ _ M1 M2). Qed.
End FrameProps.

(** A value written by one side and read by the other arrives intact:
    if what the writer wrote and what the reader read start the same byte
    stream, the reader consumed exactly the frame and returned the value. *)
Theorem frame_round_trip {W1 W2 S1 S2 T : Type} `{WL : WriteLaws W1 S1} `{RL : ReadLaws W2 S2}
  `{JL : SerdeJsonLaws T} (fuel1 fuel2 : nat) (out : S1) (inp : S2) (v v' : T)
  (s1 s1' : state W1) (s2 s2' : state W2) (written consumed rest1 rest2 : bytes) :
  write_json_frame fuel1 out v s1 = (Done (Ok tt), s1') ->
  read_json_frame fuel2 inp s2 = (Done (Ok v'), s2') ->
  only_wrote (write_fd out) written s1 s1' ->
  only_read (read_fd inp) consumed s2 s2' ->
  written ++ rest1 = consumed ++ rest2 ->
  v' = v /\ consumed = written /\ rest2 = rest1.
Proof.
  intros (p & Hp & Lp & Wp)%write_frame_wire (q & Hq & Lq & Rq)%read_frame_wire HW HR He.
  apply (only_wrote_inj _ _ _ _ _ HW) in Wp as ->.
  apply (only_read_inj _ _ _ _ _ HR) in Rq as ->.
  apply frame_prefix_inj in He as [-> ->]; [|done..].
  apply json_round_trip in Hp. rewrite Hp in Hq. by injection Hq as ->.
Qed.

Section Oversized.
Context {W Stream T : Type} `{SerdeJson T}.

(** A value whose text is longer than the limit is refused before any
    system call; a length prefix above the limit is refused right after the
    four bytes of the prefix, before anything is allocated or read for the
    payload. *)
Theorem oversized_frames_refused `{WL : WriteLaws W Stream} `{RL : ReadLaws W Stream}
  (fuel : nat) (stream : Stream) (v : T) (p b : bytes) (s s1 : state W) :
  (to_vec v = Ok p -> MAX_FRAME_LEN < N.of_nat (length p) ->
   write_json_frame fuel stream v s = (Done (Err (Oversized (N.of_nat (length p)))), s)) /\
  (read_exact fuel stream 4 s = (Done (Ok b), s1) -> MAX_FRAME_LEN < from_be_bytes b ->
   read_json_frame (T := T) fuel stream s = (Done (Err (Oversized (from_be_bytes b))), s1) /\
   only_read (read_fd stream) b s s1 /\ length b = 4%nat).
Proof.
  split.
  - intros Hp Hl. unfold write_json_frame, bind, lift. rewrite Hp. cbn.
    by rewrite (proj2 (N.ltb_lt _ _) Hl).
  - intros HR Hl. split; [|by apply read_exact_ok in HR as [? ?]].
    unfold read_json_frame, bind at 1, into at 1. rewrite HR. cbn [map_err].
    by rewrite (proj2 (N.ltb_lt _ _) Hl).
Qed.
End Oversized.

(** ** Witnesses: a JSON text taken as a value, over the sample kernel *)

#[local] Instance text_json : SerdeJson bytes := {| to_vec b := Ok b; from_slice b := Ok b |}.
#[local] Instance text_json_laws : SerdeJsonLaws bytes.
Proof. split. by intros v b [= ->]. Qed.

Definition echo_start : state sim := start (sim_peer 0 (B "/agent.sock") (fun b => b)).
Definition echo_stream : UnixStream := {| raw_fd := sock |}.
Definition echo_value : bytes := B "{decision: approved}".
Definition echo_written : state sim := (write_json_frame 20 echo_stream echo_value echo_start).2.
Definition echo_read : state sim := (read_json_frame (T := bytes) 20 echo_stream echo_written).2.

Lemma echo_write : write_json_frame 20 echo_stream echo_value echo_start = (Done (Ok tt), echo_written).
Proof. run_here. Qed.

Lemma echo_read_back :
  read_json_frame 20 echo_stream echo_written = (Done (Ok echo_value), echo_read).
Proof. run_here. Qed.

Lemma frames_on_the_wire_witness :
  (exists p, Ok (E := string) echo_value = Ok p /\ N.of_nat (length p) <= MAX_FRAME_LEN /\
     only_wrote sock (frame p) echo_start echo_written) /\
  (exists p, Ok (E := string) p = Ok echo_value /\ N.of_nat (length p) <= MAX_FRAME_LEN /\
     only_read sock (frame p) echo_written echo_read).
Proof.
  split.
  - exact (proj1 (frames_on_the_wire 20 echo_stream echo_value echo_start echo_written) echo_write).
  - exact (proj2 (frames_on_the_wire 20 echo_stream echo_value echo_written echo_read)
      echo_read_back).
Defined.

Lemma echo_wrote : only_wrote sock (frame echo_value) echo_start echo_written.
Proof. destruct (write_frame_wire _ _ _ _ _ echo_write) as (p & [= <-] & _ & Hw). exact Hw. Qed.

Lemma echo_consumed : only_read sock (frame echo_value) echo_written echo_read.
Proof. destruct (read_frame_wire _ _ _ _ _ echo_read_back) as (p & [= ->] & _ & Hr). exact Hr. Qed.

Lemma frame_round_trip_witness :
  echo_value = echo_value /\ frame echo_value = frame echo_value /\ B "tail" = B "tail".
Proof.
  exact (frame_round_trip 20 20 echo_stream echo_stream echo_value echo_value echo_start
    echo_written echo_written echo_read (frame echo_value) (frame echo_value) (B "tail") (B "tail")
    echo_write echo_read_back echo_wrote echo_consumed eq_refl).
Defined.

Definition flood_start : state sim :=
  start (sim_peer 0 (B "/agent.sock") (fun _ => to_be_bytes 4 2000000)).
Definition flood_prefix : state sim := (read_exact 20 echo_stream 4 flood_start).2.
Definition huge : bytes := replicate (N.to_nat 1048577) x61.

Lemma flood_read :
  read_exact 20 echo_stream 4 flood_start = (Done (Ok (to_be_bytes 4 2000000)), flood_prefix).
Proof. run_here. Qed.

Lemma huge_oversized : MAX_FRAME_LEN < N.of_nat (length huge).
Proof. unfold huge. rewrite length_replicate, N2Nat.id. reflexivity. Qed.

Lemma oversized_frames_refused_witness :
  write_json_frame 20 echo_stream huge flood_start
  = (Done (Err (Oversized (N.of_nat (length huge)))), flood_start) /\
  read_json_frame (T := bytes) 20 echo_stream flood_start
  = (Done (Err (Oversized 2000000)), flood_prefix).
Proof.
  destruct (oversized_frames_refused 20 echo_stream huge huge (to_be_bytes 4 2000000)
    flood_start flood_prefix) as [HW HR].
  split; [exact (HW eq_refl huge_oversized)|].
  exact (proj1 (HR flood_read eq_refl)).
Defined.
