(* ===== verification/FrameDecode.v ===== *)
(** * What the frame reader makes of a stream

    A stream that gives some bytes and then ends, however the bytes are cut
    and whatever is interrupted, is decoded as the pure function
    [decode_frame] says. *)

From Stdlib Require Import NArith ZArith Lia List Bool.
From Stdlib Require Import Strings.Byte Strings.String.
From stdpp Require Import base decidable list option strings.
From S2P Require Import Prelude RustStd Sys Io Transport Frame.

Open Scope N_scope.

(** ** The reference decoder *)

Definition short_read : TransportError :=
  transport_error_from (Custom UnexpectedEof "failed to fill whole buffer").

(** The result, and what is left of the stream. *)
Definition decode_frame `{SerdeJson T} (b : bytes) : result T TransportError * bytes :=
  if decide (length b < 4)%nat then (Err short_read, []) else
  let len := from_be_bytes (take 4 b) in
  let rest := drop 4 b in
  if MAX_FRAME_LEN <? len then (Err (Oversized len), rest)
  else if decide (length rest < N.to_nat len)%nat then (Err short_read, [])
  else (map_err Json (from_slice (take (N.to_nat len) rest)), drop (N.to_nat len) rest).

(** ** A stream that gives bytes and then ends

    [source p b w]: in the world [w] the stream still gives [b], and at most
    [p] reads are interrupted. *)
Class Source {W T : Type} `{Read W T} (t : T) := {
  source : nat -> bytes -> W -> Prop;
  source_read p b (s : state W) l : (0 < l)%nat -> source p b (world s) ->
    exists r s', read_ t l s = (Done r, s') /\
      ((exists c, r = Ok c /\ c `prefix_of` b /\ (length c <= l)%nat /\ (c = [] -> b = []) /\
          source p (drop (length c) b) (world s')) \/
       (exists e, r = Err e /\ kind e = Interrupted /\ (0 < p)%nat /\ source (p - 1) b (world s')));
}.

Section Decode.
Context {W T : Type} `{Hsource : Source W T t}.

(** The stream now gives [b], after no more than [p] interruptions. *)
Definition gives (p : nat) (b : bytes) (s : state W) : Prop :=
  exists p', (p' <= p)%nat /\ source p' b (world s).

Lemma read_exact_from fuel p b l (s : state W) : source p b (world s) ->
  (Nat.min l (length b) + p < fuel)%nat ->
  exists s', read_exact fuel t l s
    = (Done (if decide (length b < l)%nat then Err (Custom UnexpectedEof "failed to fill whole buffer")
             else Ok (take l b)), s') /\ gives p (drop l b) s'.
Proof.
  unfold read_exact.
  enough (forall acc, source p b (world s) -> (Nat.min l (length b) + p < fuel)%nat ->
    exists s', loop fuel (fun '(need, acc) =>
      if decide (need = 0%nat) then ret (inr acc) else
      let! r := attempt (read_ t need) in
      match r with
      | Ok [] => throw (Custom UnexpectedEof "failed to fill whole buffer")
      | Ok b => if decide (length b <= need)%nat then ret (inl ((need - length b)%nat, acc ++ b)) else panic
      | Err e => if decide (kind e = Interrupted) then ret (inl (need, acc)) else throw e
      end) (l, acc) s
    = (Done (if decide (length b < l)%nat then Err (Custom UnexpectedEof "failed to fill whole buffer")
             else Ok (acc ++ take l b)), s') /\ gives p (drop l b) s') as Hacc by (by apply (Hacc [])).
  revert p b l s. induction fuel as [|fuel IH]; intros p b l s acc Hs Hf; [lia|]. cbn [loop].
  unfold bind at 1. destruct (decide (l = 0%nat)) as [->|Hl].
  { cbn [ret]. rewrite decide_False by lia. cbn [take]. rewrite app_nil_r. exists s. split; [done|].
    by exists p. }
  unfold bind at 1, attempt at 1. destruct (source_read p b s l ltac:(lia) Hs) as
    (r & s1 & -> & [(c & -> & [k ->] & Hc & Hnil & Hs1)|(e & -> & He & Hp & Hs1)]).
  - rewrite drop_app_length in Hs1. rewrite length_app in *. destruct c as [|x c].
    + specialize (Hnil eq_refl). cbn [app] in *. subst k. cbn [throw length]. rewrite decide_True by (cbn; lia).
      exists s1. split; [done|]. rewrite drop_nil. by exists p.
    + set (xc := x :: c) in *. assert (0 < length xc)%nat by (cbn; lia).
      rewrite decide_True by done. cbn [ret].
      destruct (IH p k (l - length xc)%nat s1 (acc ++ xc) Hs1 ltac:(lia)) as (s' & -> & Hg).
      exists s'. rewrite drop_app_ge, take_app_ge, <- app_assoc by lia. split; [|done]. f_equal.
      f_equal. repeat case_decide; first [done|lia].
  - rewrite decide_True by done. cbn [ret].
    destruct (IH (p - 1)%nat b l s1 acc Hs1 ltac:(lia)) as (s' & -> & (p' & Hp' & Hg)).
    exists s'. split; [done|]. exists p'. split; [lia|done].
Qed.

Lemma read_frame_from `{SerdeJson A} (fuel p : nat) (b : bytes) (s : state W) :
  source p b (world s) -> (length b + p < fuel)%nat ->
  exists s', read_json_frame (T := A) fuel t s = (Done (decode_frame b).1, s') /\
    gives p (decode_frame (T := A) b).2 s'.
Proof.
  intros Hs Hf. unfold read_json_frame, decode_frame. unfold bind at 1, into at 1.
  destruct (read_exact_from fuel p b 4 s Hs ltac:(lia)) as (s1 & -> & (p1 & Hp1 & Hs1)).
  destruct (decide (length b < 4)%nat) as [H4|H4]; cbn [map_err].
  { exists s1. split; [done|]. rewrite drop_ge in Hs1 by lia. by exists p1. }
  destruct (MAX_FRAME_LEN <? from_be_bytes (take 4 b)).
  { exists s1. split; [done|]. by exists p1. }
  unfold bind at 1, into at 1.
  destruct (read_exact_from fuel p1 (drop 4 b) (N.to_nat (from_be_bytes (take 4 b))) s1 Hs1) as
    (s2 & -> & (p2 & Hp2 & Hs2)); [rewrite length_drop; lia|].
  destruct (decide (length (drop 4 b) < _)%nat) as [Hshort|Hshort]; cbn [map_err].
  - exists s2. split; [done|]. rewrite drop_ge in Hs2 by lia. exists p2. split; [lia|done].
  - exists s2. split; [done|]. exists p2. split; [lia|done].
Qed.
End Decode.

Lemma decode_one_frame `{SerdeJson A} payload : N.of_nat (length payload) <= MAX_FRAME_LEN ->
  decode_frame (T := A) (frame payload) = (map_err Json (from_slice payload), []).
Proof.
  intros Hl. unfold decode_frame, frame. cbv zeta. rewrite length_app, to_be_bytes_length, decide_False by lia.
  rewrite take_app_length', drop_app_length' by (symmetry; apply to_be_bytes_length).
  rewrite from_to_be_bytes_small by (unfold MAX_FRAME_LEN in Hl; cbn; lia).
  rewrite (proj2 (N.ltb_ge _ _) Hl), Nat2N.id, decide_False by lia. by rewrite take_ge, drop_ge by lia.
Qed.

(** What the reader has read when it returns: the four bytes and the payload
    that they announce. *)
Lemma decode_parts `{SerdeJson A} len_bytes payload :
  length len_bytes = 4%nat -> from_be_bytes len_bytes <= MAX_FRAME_LEN ->
  length payload = N.to_nat (from_be_bytes len_bytes) ->
  decode_frame (T := A) (len_bytes ++ payload) = (map_err Json (from_slice payload), []).
Proof.
  intros H4 Hm Hl. rewrite <- decode_one_frame by lia. f_equal. unfold frame. f_equal.
  rewrite Hl, N2Nat.id. symmetry. rewrite <- H4 at 1. apply to_from_be_bytes.
Qed.

Lemma decode_frame_ok `{SerdeJson A} b v rest : decode_frame (T := A) b = (Ok v, rest) ->
  exists wire, b = frame wire ++ rest /\ from_slice wire = Ok v /\ N.of_nat (length wire) <= MAX_FRAME_LEN.
Proof.
  unfold decode_frame. case_decide as H4; [done|]. cbv zeta.
  destruct (N.ltb_spec MAX_FRAME_LEN (from_be_bytes (take 4 b))) as [|Hm]; [done|].
  case_decide as Hs; [done|]. intros [= Hv%map_err_ok <-].
  set (len := from_be_bytes (take 4 b)) in *. exists (take (N.to_nat len) (drop 4 b)).
  assert (length (take (N.to_nat len) (drop 4 b)) = N.to_nat len) as Hl by (rewrite length_take; lia).
  split_and!; [|done|lia]. unfold frame. rewrite Hl, N2Nat.id, <- app_assoc, take_drop.
  replace (to_be_bytes 4 len) with (take 4 b); [by rewrite take_drop|].
  assert (length (take 4 b) = 4%nat) as E by (rewrite length_take; lia).
  symmetry. unfold len. rewrite <- E at 1. apply to_from_be_bytes.
Qed.
