(* ===== verification/Trust.v ===== *)
(** * Trusted paths and the replay cache directory
    ([src/crates/helper/src/trust.rs], and [parse_expires_at_ms] of [main.rs])

    Opening a path one component at a time, each relative to a descriptor
    that was validated before; creating a marker; removing expired markers.
    A [File] that goes out of scope is closed where the source drops it. *)

From Stdlib Require Import NArith ZArith Lia List Bool.
From Stdlib Require Import Strings.Byte Strings.String.
From stdpp Require Import base decidable list option strings.
From S2P Require Import Prelude RustStd Sys Ownership Io Transport Sim.

Open Scope N_scope.

Definition invalid (message : string) : io_error := Custom PermissionDenied message.

Definition name (value : bytes) : result bytes io_error :=
  if bool_decide (x00 ∈ value) then Err (invalid "path contains NUL") else Ok value.

(** The checks of [validate] on the metadata; [0o077] is [0x3F] and [0o022]
    is [0x12]. *)
Definition check_metadata (metadata : Metadata) (root_owned directory private : bool)
  : result unit io_error :=
  if negb (Bool.eqb directory (is_dir metadata)) || (negb directory && negb (is_file metadata)) then
    Err (invalid "trusted path has incorrect file type")
  else
  let owner := uid metadata in
  if root_owned && negb (owner =? 0) then
    Err (invalid "trusted path has an untrusted owner (root required in production)")
  else
  let forbidden := if private then 0x3F else 0x12 in
  if negb (N.land (mode metadata) forbidden =? 0) then
    Err (invalid (if private then "trusted path must not grant group/world permissions"
                  else "trusted path must not be group/world writable"))
  else Ok tt.

(** The components of the absolute path, converted one by one. *)
Fixpoint normal_components (cs : list Component) : result (list bytes) io_error :=
  match cs with
  | [] => Ok []
  | (RootDir | CurDir) :: cs => normal_components cs
  | Normal component :: cs =>
      let? component := name component in
      let? components := normal_components cs in
      Ok (component :: components)
  | ParentDir :: _ => Err (invalid "trusted path must not contain parent components")
  end.

Definition open_flags (is_directory : bool) : list open_flag :=
  [O_RDONLY; O_CLOEXEC; O_NOFOLLOW; O_NONBLOCK] ++ (if is_directory then [O_DIRECTORY] else []).

Definition create_flags : list open_flag := [O_WRONLY; O_CLOEXEC; O_NOFOLLOW; O_CREAT; O_EXCL].
Definition marker_flags : list open_flag := [O_RDONLY; O_CLOEXEC; O_NOFOLLOW; O_NONBLOCK].

(** ** Markers *)

(** [contents.lines().next()?.trim().strip_prefix(..)?.parse().ok()] *)
Definition parse_expires_at_ms (contents : bytes) : option N :=
  match lines contents with
  | [] => None
  | line :: _ =>
      match strip_prefix (B "expires_at_ms=") (trim line) with
      | None => None
      | Some digits => parse_u64 digits
      end
  end.

Section Trust.
Context `{Kernel W}.

Definition validate (file : File) (root_owned directory private : bool) : M W io_error unit :=
  let! metadata := fstat (file_fd file) in
  lift (check_metadata metadata root_owned directory private).

(** The loop over the components and the validation after it.  Assigning
    [file] closes the descriptor it held; an error return closes it too. *)
Fixpoint walk (file : File) (components : list bytes) (root_owned directory private : bool)
  : M W io_error File :=
  match components with
  | [] => do! owned (file_fd file) (validate file root_owned directory private) ;; ret file
  | component :: rest =>
      let last := match rest with [] => true | _ => false end in
      let is_directory := negb last || directory in
      let! f := owned (file_fd file)
                  (openat (file_fd file) component (open_flags is_directory) 0) in
      do! close (file_fd file) ;;
      let file := {| file_fd := f |} in
      do! owned f (validate file root_owned is_directory (last && private)) ;;
      walk file rest root_owned directory private
  end.

Definition open (path : bytes) (root_owned directory private : bool) : M W io_error File :=
  if root_owned && negb (is_absolute path) then
    throw (invalid "production trusted paths must be absolute")
  else
  let! absolute :=
    if is_absolute path then ret path
    else let! current_dir := getcwd in ret (path_join current_dir path) in
  let! components := lift (normal_components (components absolute)) in
  let! f := sys_open (B "/") [O_RDONLY; O_CLOEXEC] 0 in
  let file := {| file_fd := f |} in
  do! owned f (validate file root_owned true false) ;;
  walk file components root_owned directory private.

Definition create_marker (directory : File) (marker : bytes) : M W io_error File :=
  let! marker := lift (name marker) in
  let! f := openat (file_fd directory) marker create_flags 0x180 in
  ret {| file_fd := f |}.

(** The text of one entry, when it is a readable regular file. *)
Definition read_marker (fuel : nat) (directory : File) (name : bytes)
  : M W io_error (option bytes) :=
  let! r := attempt (openat (file_fd directory) name marker_flags 0) in
  match r with
  | Err _ => ret None
  | Ok f =>
      scoped f (
        let! metadata := attempt (fstat f) in
        match metadata with
        | Ok metadata =>
            if is_file metadata then
              let! r := attempt (take_read_to_string fuel {| file_fd := f |} 128) in
              ret (match r with Ok contents => Some contents | Err _ => None end)
            else ret None
        | Err _ => ret None
        end)
  end.

(** The body of the loop over the entries. *)
Definition cleanup_entry (fuel : nat) (directory : File) (now : N) (name : bytes)
  : M W io_error unit :=
  if negb (length name =? 64)%nat || negb (forallb is_ascii_hexdigit name) then ret tt
  else
  let! contents := read_marker fuel directory name in
  match contents with
  | Some contents =>
      match parse_expires_at_ms contents with
      | Some expiry =>
          if expiry <? now then do! unlinkat (file_fd directory) name ;; ret tt else ret tt
      | None => ret tt
      end
  | None => ret tt
  end.

Definition cleanup_round (fuel : nat) (directory : File) (dir : N) (now : N)
  : M W io_error (unit + unit) :=
  let! entry := readdir dir in
  match entry with
  | None => ret (inr tt)
  | Some name => do! cleanup_entry fuel directory now name ;; ret (inl tt)
  end.

(** [fdopendir] takes the duplicate over; [closedir] closes it. *)
Definition cleanup_markers (fuel : nat) (directory : File) (now : N) : M W io_error unit :=
  let! f := dup_cloexec (file_fd directory) in
  let! dir := owned f (fdopendir f) in
  do! loop fuel (fun _ : unit => cleanup_round fuel directory dir now) tt ;;
  do! closedir dir ;;
  ret tt.
End Trust.

(** ** What is trusted *)

(** The file has the type, the owner and the permissions asked for: bits 1
    and 4 of the mode let others and the group write, bits 0 to 5 let them
    do anything. *)
Definition trusted (root_owned directory private : bool) (m : Metadata) : Prop :=
  (if directory then is_dir m = true else is_file m = true) /\
  (root_owned = true -> uid m = 0) /\
  (forall i, i < 6 -> (private = true \/ i = 1 \/ i = 4) -> N.testbit (mode m) i = false).

Lemma land_zero_bits a b k :
  b < 2 ^ k -> N.land a b = 0 <->
  forall i, i < k -> N.testbit b i = true -> N.testbit a i = false.
Proof.
  intros Hb. split.
  - intros Hl i Hi Hbi. pose proof (N.land_spec a b i) as Hs.
    rewrite Hl, N.bits_0, Hbi, andb_true_r in Hs. done.
  - intros Hi. apply N.bits_inj_0. intros i. rewrite N.land_spec.
    destruct (N.testbit b i) eqn:Hbi; [|apply andb_false_r].
    rewrite Hi; [done| |done]. destruct (N.lt_ge_cases i k) as [|Hk]; [done|].
    rewrite N.testbit_eqb, N.div_small in Hbi; [done|].
    eapply N.lt_le_trans; [exact Hb|]. by apply N.pow_le_mono_r.
Qed.

Lemma forbidden_bits (private : bool) i : i < 6 ->
  N.testbit (if private then 0x3F else 0x12) i = true <-> private = true \/ i = 1 \/ i = 4.
Proof.
  intros Hi. assert (i = 0 \/ i = 1 \/ i = 2 \/ i = 3 \/ i = 4 \/ i = 5) as Hc by lia.
  destruct private, Hc as [->|[->|[->|[->|[->| ->]]]]]; cbn; intuition congruence.
Qed.

Lemma file_not_dir m : is_file m = true -> is_dir m = false.
Proof.
  unfold is_file, is_dir. intros E%N.eqb_eq. rewrite E. done.
Qed.

Lemma check_metadata_ok m ro d p : check_metadata m ro d p = Ok tt <-> trusted ro d p m.
Proof.
  unfold check_metadata, trusted.
  assert ((negb (Bool.eqb d (is_dir m)) || (negb d && negb (is_file m))) = false <->
          (if d then is_dir m = true else is_file m = true)) as Hty.
  { pose proof (file_not_dir m). destruct d, (is_dir m), (is_file m); cbn; naive_solver. }
  assert (N.land (mode m) (if p then 0x3F else 0x12) = 0 <->
    forall i, i < 6 -> p = true \/ i = 1 \/ i = 4 -> N.testbit (mode m) i = false) as Hmode.
  { rewrite (land_zero_bits _ _ 6) by (by destruct p).
    split; intros Hi i Hi6 Hf; apply Hi; try done; by apply forbidden_bits. }
  destruct (negb (Bool.eqb d (is_dir m)) || _); [naive_solver|].
  destruct (N.eqb_spec (uid m) 0) as [Hu|Hu]; rewrite ?andb_false_r, ?andb_true_r;
    [|destruct ro; cbn; [naive_solver|]];
    cbn; destruct (N.eqb_spec (N.land (mode m) (if p then 0x3F else 0x12)) 0); cbn; naive_solver.
Qed.

(** [validate] accepts exactly the trusted files: a directory or a
    regular file as asked, owned by root in production, that the group and
    others cannot write and, when private, cannot access at all. *)
Theorem validate_exact `{Kernel W} (file : File) (ro d p : bool) (s s' : state W) :
  validate file ro d p s = (Done (Ok tt), s') <->
  exists m w, k_fstat (file_fd file) (world s) = (Ok m, w) /\ trusted ro d p m /\
    s' = St w (log s ++ [EvFstat (file_fd file) (Ok m)]).
Proof.
  unfold validate, fstat, os, bind, prim, lift.
  destruct (k_fstat (file_fd file) (world s)) as [[m|e] w]; cbn; [|naive_solver].
  destruct (check_metadata m ro d p) as [[]|e] eqn:Ec.
  - apply check_metadata_ok in Ec. split; [intros [= <-]; eauto|].
    by intros (? & ? & [= <- <-] & _ & ->).
  - split; [done|]. intros (? & ? & [= <- <-] & Ht%check_metadata_ok & _). congruence.
Qed.

(** ** Opening a trusted path *)

(** The names on the way to the file, in order. *)
Definition normals (cs : list Component) : list bytes :=
  flat_map (fun c => match c with Normal n => [n] | _ => [] end) cs.

(** One plain directory entry: it can neither leave the directory nor name
    another one below it. *)
Definition plain (n : bytes) : Prop :=
  n <> [] /\ n <> B "." /\ n <> B ".." /\ (slash ∉ n) /\ x00 ∉ n.

(** Each name is opened without following links, relative to the descriptor
    that was just validated, and the result is validated before it is used;
    the descriptor before it is closed. *)
Inductive walked (ro d p : bool) : fd -> list bytes -> fd -> list event -> Prop :=
| walked_end f m : trusted ro d p m -> walked ro d p f [] f [EvFstat f (Ok m)]
| walked_last dir n f g m evs :
    trusted ro d p m -> walked ro d p f [] g evs ->
    walked ro d p dir [n] g
      (EvOpenat dir n ([O_RDONLY; O_CLOEXEC; O_NOFOLLOW; O_NONBLOCK]
        ++ (if d then [O_DIRECTORY] else [])) 0 (Ok f) :: EvClose dir :: EvFstat f (Ok m) :: evs)
| walked_dir dir n n' ns f g m evs :
    trusted ro true false m -> walked ro d p f (n' :: ns) g evs ->
    walked ro d p dir (n :: n' :: ns) g
      (EvOpenat dir n [O_RDONLY; O_CLOEXEC; O_NOFOLLOW; O_NONBLOCK; O_DIRECTORY] 0 (Ok f)
       :: EvClose dir :: EvFstat f (Ok m) :: evs).

Lemma split_notin c s part : part ∈ split c s -> c ∉ part.
Proof.
  revert part. induction s as [|b s IH]; cbn; intros part.
  - intros ->%list_elem_of_singleton. apply not_elem_of_nil.
  - case_decide as Hb.
    + intros [->|Hin]%elem_of_cons; [apply not_elem_of_nil|by apply IH].
    + destruct (split c s) as [|q qs].
      * intros ->%list_elem_of_singleton. by intros ?%list_elem_of_singleton.
      * intros [->|Hin]%elem_of_cons; [|apply IH; by right].
        intros [->|Hq]%elem_of_cons; [done|]. by apply (IH q); [left|].
Qed.

Lemma normal_components_ok cs ns :
  normal_components cs = Ok ns <->
  ns = normals cs /\ (ParentDir ∉ cs) /\ Forall (fun n => x00 ∉ n) ns.
Proof.
  revert ns. induction cs as [|c cs IH]; intros ns; cbn.
  - split; [|naive_solver]. intros [= <-]. split_and!; [done|apply not_elem_of_nil|done].
  - destruct c as [| | |n]; cbn; rewrite ?not_elem_of_cons.
    1,2: rewrite IH; naive_solver.
    + naive_solver.
    + rewrite result_bind_ok. unfold name. case_bool_decide as Hn.
      * split; [naive_solver|]. intros (-> & _ & Hf). by inversion Hf.
      * setoid_rewrite result_bind_ok. setoid_rewrite IH. split.
        -- intros (? & [= <-] & ns' & (-> & ? & ?) & [= <-]). by repeat constructor.
        -- intros (-> & [_ ?] & Hf). inversion Hf. subst. eexists; split; [done|].
           eexists. by split_and!.
Qed.

Lemma components_plain path n : Normal n ∈ components path -> x00 ∉ n -> plain n.
Proof.
  unfold components. intros [Hf|Hb]%elem_of_app Hn0.
  - exfalso. revert Hf. destruct (is_absolute path).
    + by intros [=]%list_elem_of_singleton.
    + destruct (split slash path); [by intros ?%not_elem_of_nil|]. case_decide;
        [by intros [=]%list_elem_of_singleton|by intros ?%not_elem_of_nil].
  - apply list_elem_of_In, in_flat_map in Hb as (part & Hin & Hb).
    apply list_elem_of_In, split_notin in Hin. revert Hb. unfold body_component.
    repeat case_decide; cbn; try tauto; intros [[= <-]|[]]. done.
Qed.

Lemma normals_plain path :
  Forall (fun n => x00 ∉ n) (normals (components path)) ->
  Forall plain (normals (components path)).
Proof.
  intros Hf. apply Forall_forall. intros n Hn. rewrite Forall_forall in Hf.
  apply (components_plain path); [|by apply Hf].
  apply list_elem_of_In, in_flat_map in Hn as (c & Hc & Hn). apply list_elem_of_In in Hc.
  destruct c as [| | |n']; try done. by destruct Hn as [<-|[]].
Qed.

(** The run from [s] to [s'] opened [path] as the descriptor [f]: from the
    root directory, along the plain names of the absolute path. *)
Definition opened_trusted {W} (path : bytes) (ro d p : bool) (f : fd) (s s' : state W) : Prop :=
  exists pre absolute root m evs,
    (pre = [] /\ is_absolute path = true /\ absolute = path \/
     is_absolute path = false /\ ro = false /\
     exists cwd, pre = [EvGetcwd (Ok cwd)] /\ absolute = path_join cwd path) /\
    (ParentDir ∉ components absolute) /\ Forall plain (normals (components absolute)) /\
    trusted ro true false m /\
    walked ro d p root (normals (components absolute)) f evs /\
    made s s' (pre ++ [EvOpen (B "/") [O_RDONLY; O_CLOEXEC] 0 (Ok root);
                       EvFstat root (Ok m)] ++ evs).

Section OpenTrace.
Context `{Kernel W}.

Lemma validate_log f ro d p (s s' : state W) u :
  validate f ro d p s = (Done (Ok u), s') ->
  exists m, trusted ro d p m /\ made s s' [EvFstat (file_fd f) (Ok m)].
Proof.
  unfold validate, fstat. intros HV. apply bind_ok in HV as (m & s1 & H1%os_prim_ok & H2).
  apply lift_done in H2 as [Hc ->]. exists m. split; [|done].
  apply check_metadata_ok. by destruct u.
Qed.

Lemma walk_log ns ro d p file g (s s' : state W) :
  walk file ns ro d p s = (Done (Ok g), s') ->
  exists evs, made s s' evs /\ walked ro d p (file_fd file) ns (file_fd g) evs.
Proof.
  revert file s. induction ns as [|n ns IH]; intros file s HW; cbn [walk] in HW.
  - apply bind_ok in HW as (u & s1 & (m & Ht & Hm)%owned_ok%validate_log & [= <- <-]).
    exists [EvFstat (file_fd file) (Ok m)]. split; [done|by constructor].
  - cbv zeta in HW.
    apply bind_ok in HW as (f & s1 & H1%owned_ok%os_prim_ok & HW).
    apply bind_ok in HW as ([] & s2 & (? & _ & H2 & _)%prim_done & HW).
    apply bind_ok in HW as (u & s3 & H3%owned_ok & HW).
    apply validate_log in H3 as (m & Ht & H3). apply IH in HW as (evs & H4 & Hw).
    eexists. split; [eapply (made_app s s1); [exact H1|];
      eapply (made_app s1 s2); [exact H2|]; eapply (made_app s2 s3); [exact H3|exact H4]|].
    destruct ns as [|n' ns]; cbn in *.
    + by apply walked_last.
    + by apply walked_dir.
Qed.

Lemma open_log path ro d p file (s s' : state W) :
  open path ro d p s = (Done (Ok file), s') ->
  opened_trusted path ro d p (file_fd file) s s'.
Proof.
  unfold open. intros HO. destruct (ro && negb (is_absolute path)) eqn:Hro; [discriminate|].
  apply bind_ok in HO as (absolute & s1 & H1 & HO).
  apply bind_ok in HO as (ns & s2 & (Hn & ->)%lift_done & HO). symmetry in Hn.
  apply normal_components_ok in Hn as (-> & Hp & Hz).
  apply bind_ok in HO as (root & s3 & H3%os_prim_ok & HO).
  apply bind_ok in HO as (u & s4 & H4%owned_ok & HO).
  apply validate_log in H4 as (m & Ht & H4). apply walk_log in HO as (evs & H5 & Hw).
  assert (exists pre, made s s1 pre /\
    (pre = [] /\ is_absolute path = true /\ absolute = path \/
     is_absolute path = false /\ ro = false /\
     exists cwd, pre = [EvGetcwd (Ok cwd)] /\ absolute = path_join cwd path)) as (pre & Hpre & Hc).
  { destruct (is_absolute path).
    - injection H1 as <- <-. exists []. split; [apply made_nil|by left].
    - apply bind_ok in H1 as (cwd & s5 & H5'%os_prim_ok & [= <- <-]).
      exists [EvGetcwd (Ok cwd)]. split; [done|]. right. destruct ro; [done|]. eauto. }
  exists pre, absolute, root, m, evs. split_and!; try done.
  - by apply normals_plain.
  - eapply made_app; [exact Hpre|]. eapply (made_app s1 s4 s' [_; _]); [|exact H5].
    by eapply (made_app s1 s3 s4 [_] [_]).
Qed.
End OpenTrace.

(** C36: whenever [open] succeeds, it walked from the root directory of the
    system along the components of the absolute path, none of which is a
    parent component, each a plain name opened without following links
    relative to a directory it had just validated; the file it returns was
    itself validated as what was asked for.  Under [root_owned] the path was
    absolute and every directory on the way belongs to root and is writable
    by root alone, whatever happens to the path concurrently. *)
Theorem open_walks_trusted `{Kernel W} (path : bytes) (ro d p : bool) (file : File)
  (s s' : state W) :
  open path ro d p s = (Done (Ok file), s') ->
  opened_trusted path ro d p (file_fd file) s s'.
Proof. apply open_log. Qed.

Lemma opened_trusted_absolute {W} path d p f (s s' : state W) :
  opened_trusted path true d p f s s' -> is_absolute path = true.
Proof. by intros (? & ? & ? & ? & ? & [(_ & ? & _)|(_ & [=] & _)] & _). Qed.

(** A relative path under [root_owned], and an absolute path with a
    parent component or a NUL byte, are refused before any system call. *)
Theorem open_refuses_lexically `{Kernel W} (path : bytes) (ro d p : bool) (s : state W) :
  (ro = true /\ is_absolute path = false \/
   is_absolute path = true /\
   (ParentDir ∈ components path \/ exists n, Normal n ∈ components path /\ x00 ∈ n)) ->
  exists message, open path ro d p s = (Done (Err (invalid message)), s).
Proof.
  unfold open. intros [[-> ->]|[Ha Hc]]; [by eexists|]. rewrite Ha, andb_false_r.
  assert (exists message, normal_components (components path) = Err (invalid message)) as [msg Hm].
  { clear Ha. induction (components path) as [|c cs IH].
    - destruct Hc as [Hc|(n & Hc & _)]; by apply not_elem_of_nil in Hc.
    - destruct c as [| | |n]; cbn.
      1,2: apply IH; destruct Hc as [Hc|(n & Hc & Hn)]; apply elem_of_cons in Hc; naive_solver.
      + by eexists.
      + unfold name. case_bool_decide as Hn; [by eexists|]. cbn.
        destruct IH as [msg ->]; [|by exists msg].
        destruct Hc as [Hc|(n' & Hc & Hn')]; apply elem_of_cons in Hc; naive_solver. }
  exists msg. unfold bind, ret, lift. by rewrite Hm.
Qed.

(** ** Descriptors *)

Section OpenOwns.
Context `{Kernel W}.

Lemma owns_validate file ro d p : owns [] (fun _ => []) (validate (W := W) file ro d p).
Proof. eapply owns_bind; [by apply owns_call|cbv beta]. intros m. apply owns_lift. Qed.

Lemma owns_validate_owned f ro d p :
  owns [f] (fun _ => [f]) (owned f (validate (W := W) {| file_fd := f |} ro d p)).
Proof. apply (owns_owned f [] (fun _ => [])), owns_validate. Qed.

Lemma owns_walk ns ro d p file :
  owns [file_fd file] (fun f => [file_fd f]) (walk (W := W) file ns ro d p).
Proof.
  revert file. induction ns as [|n ns IH]; intros [dir]; cbn [walk].
  - eapply owns_bind; [apply owns_validate_owned|cbv beta]. intros _.
    apply (owns_ret (fun f : File => [file_fd f])).
  - cbv zeta.
    eapply owns_bind; [apply (owns_owned dir [] (fun f => [f])); by apply owns_open|cbv beta]. intros f.
    eapply owns_bind; [apply owns_close|cbv beta]. intros _.
    eapply owns_bind; [apply owns_validate_owned|cbv beta]. intros _. apply IH.
Qed.

Lemma owns_open_file path ro d p :
  owns [] (fun f => [file_fd f]) (open (W := W) path ro d p).
Proof.
  unfold open. destruct (ro && negb (is_absolute path)); [apply owns_throw|].
  eapply (owns_bind _ (fun _ => [])).
  { destruct (is_absolute path); [apply (owns_ret (fun _ => []))|].
    eapply owns_bind; [by apply owns_call|cbv beta]. intros cwd. apply (owns_ret (fun _ => [])). }
  intros absolute. eapply owns_bind; [apply owns_lift|cbv beta]. intros ns.
  eapply owns_bind; [by apply owns_open|cbv beta]. intros root.
  eapply owns_bind; [apply owns_validate_owned|cbv beta]. intros _.
  apply (owns_walk ns ro d p {| file_fd := root |}).
Qed.

Lemma owns_create_marker directory marker :
  owns [] (fun f => [file_fd f]) (create_marker (W := W) directory marker).
Proof.
  eapply owns_bind; [apply owns_lift|cbv beta]. intros m. eapply owns_bind; [by apply owns_open|cbv beta].
  intros f. apply (owns_ret (fun f : File => [file_fd f]) {| file_fd := f |}).
Qed.

Lemma neutral_read_marker fuel directory n :
  neutral (read_marker (W := W) fuel directory n).
Proof.
  unfold read_marker. eapply owns_bind; [apply owns_attempt; by apply owns_open|cbv beta].
  intros [f|e]; [|apply neutral_ret].
  apply neutral_scoped. unfold fstat. neutral_tac. apply neutral_take_read_to_string.
  intros ?. unfold read_, file_read, read. neutral_tac.
Qed.

Lemma neutral_cleanup_entry fuel directory now n :
  neutral (cleanup_entry (W := W) fuel directory now n).
Proof.
  unfold cleanup_entry, unlinkat. case_match; [apply neutral_ret|].
  apply neutral_bind; [apply neutral_read_marker|]. intros c. neutral_tac.
Qed.

Lemma neutral_cleanup_markers fuel directory now :
  neutral (cleanup_markers (W := W) fuel directory now).
Proof.
  unfold cleanup_markers. eapply owns_bind; [by apply owns_open|]. intros f.
  eapply owns_bind; [apply owns_fdopendir|]. intros dir. unfold cleanup_round, readdir, closedir.
  neutral_tac. apply neutral_cleanup_entry.
Qed.
End OpenOwns.

(** ** Removing expired markers *)

Definition reads_from (f : fd) (e : event) : Prop :=
  match e with EvRead g _ _ => g = f | _ => False end.

(** Every removal in the log directly follows the reading of that entry, as
    a regular file of the same directory whose text says that it expired. *)
Definition justified (d : fd) (now : N) (evs : list event) : Prop :=
  forall e1 d' n r e2, evs = e1 ++ EvUnlinkat d' n r :: e2 ->
  d' = d /\ length n = 64%nat /\ forallb is_ascii_hexdigit n = true /\
  exists e0 f m reads expiry,
    e1 = e0 ++ EvOpenat d n [O_RDONLY; O_CLOEXEC; O_NOFOLLOW; O_NONBLOCK] 0 (Ok f)
         :: EvFstat f (Ok m) :: reads ++ [EvClose f] /\
    is_file m = true /\ Forall (reads_from f) reads /\
    parse_expires_at_ms (bytes_read f reads) = Some expiry /\ expiry < now.

Definition keeps (e : event) : Prop :=
  match e with EvUnlinkat _ _ _ => False | _ => True end.

Lemma keeps_justified d now evs : Forall (keeps) evs -> justified d now evs.
Proof.
  intros Hf e1 d' n r e2 ->. apply Forall_app in Hf as [_ Hf]. inversion Hf. done.
Qed.

Lemma justified_app d now e1 e2 :
  justified d now e1 -> justified d now e2 -> justified d now (e1 ++ e2).
Proof.
  intros H1 H2 p d' n r q He. apply app_eq_inv in He as [(k & -> & E)|(k & -> & E)].
  - destruct k as [|e k].
    + destruct (H2 [] d' n r q) as (_ & _ & _ & [|] & ? & ? & ? & ? & [=] & _). by rewrite E.
    + injection E as <- ->. by apply (H1 p d' n r k).
  - apply H2 in E as (-> & ? & ? & e0 & f & m & reads & expiry & -> & ?).
    split_and!; try done. exists (e1 ++ e0), f, m, reads, expiry. by rewrite <- app_assoc.
Qed.

Lemma justified_snoc d now n r pre f m reads expiry :
  pre = EvOpenat d n marker_flags 0 (Ok f) :: EvFstat f (Ok m) :: reads ++ [EvClose f] ->
  Forall keeps pre -> length n = 64%nat -> forallb is_ascii_hexdigit n = true ->
  is_file m = true -> Forall (reads_from f) reads ->
  parse_expires_at_ms (bytes_read f reads) = Some expiry -> expiry < now ->
  justified d now (pre ++ [EvUnlinkat d n r]).
Proof.
  intros Hp Hk Hl Hx Hm Hreads He Hlt e1 d' n' r' e2 E.
  assert (e1 = pre /\ d' = d /\ n' = n) as (-> & -> & ->).
  { apply app_eq_inv in E as [(k & -> & E)|(k & -> & E)].
    - destruct k as [|e k]; cbn in E; injection E as E; [subst; by rewrite app_nil_r|].
      subst. apply Forall_app in Hk as [_ Hk]. inversion Hk. done.
    - destruct k as [|e k]; cbn in E; injection E as E; [subst; by rewrite app_nil_r|].
      by destruct k. }
  split_and!; try done. exists [], f, m, reads, expiry. by rewrite Hp.
Qed.

Section Cleanup.
Context `{Kernel W} (fuel : nat) (directory : File) (now : N).

Definition removes_justly (s s' : state W) : Prop :=
  exists evs, made s s' evs /\ justified (file_fd directory) now evs.

#[local] Instance removes_justly_preorder : PreOrder removes_justly.
Proof.
  split.
  - intros s. exists []. split; [apply made_nil|]. by apply keeps_justified.
  - intros s1 s2 s3 (e1 & M1 & J1) (e2 & M2 & J2). exists (e1 ++ e2).
    split; [by eapply made_app|by apply justified_app].
Qed.

Lemma emitted_justly (s s' : state W) : emitted keeps s s' -> removes_justly s s'.
Proof. intros (evs & ? & ?). exists evs. split; [done|]. by apply keeps_justified. Qed.

Lemma keeps_prim {E A} (f : W -> A * W) ev :
  (forall a, keeps (ev a)) -> respects removes_justly (prim (E := E) f ev).
Proof. intros Hk s. apply emitted_justly. by apply emits_prim. Qed.

Lemma keeps_take_read f : emits keeps (take_read_to_string fuel {| file_fd := f |} 128 : M W _ _).
Proof.
  unfold take_read_to_string, take_read_to_end, read_, file_read, read. respects_tac.
  by apply emits_prim.
Qed.

Lemma keeps_read_marker n : emits keeps (read_marker fuel directory n : M W _ _).
Proof.
  unfold read_marker, openat. respects_tac; [by apply emits_prim|].
  apply emits_scoped; [|done]. unfold fstat. respects_tac; [by apply emits_prim|].
  apply keeps_take_read.
Qed.

Lemma take_read_reads f :
  emits (reads_from f) (take_read_to_string fuel {| file_fd := f |} 128 : M W _ _).
Proof.
  unfold take_read_to_string, take_read_to_end, read_, file_read, read. respects_tac.
  by apply emits_prim.
Qed.

Lemma read_marker_log n c (s s' : state W) :
  read_marker fuel directory n s = (Done (Ok (Some c)), s') ->
  exists f m reads,
    made s s' (EvOpenat (file_fd directory) n marker_flags 0 (Ok f) :: EvFstat f (Ok m)
               :: reads ++ [EvClose f]) /\
    is_file m = true /\ Forall (reads_from f) reads /\ bytes_read f reads = c.
Proof.
  unfold read_marker. intros HR. apply bind_ok in HR as (r & s1 & H1 & HR).
  apply attempt_ok in H1 as (r1 & H1 & [= ->]). destruct r1 as [f|e]; [|discriminate].
  apply os_prim_ok in H1. apply scoped_ok in HR as (s4 & HR & (? & _ & H5 & _)%prim_done).
  apply bind_ok in HR as (r & s2 & H2 & HR). apply attempt_ok in H2 as (r1 & H2 & [= ->]).
  destruct r1 as [m|e]; [|discriminate]. apply os_prim_ok in H2.
  destruct (is_file m) eqn:Hm; [|discriminate].
  apply bind_ok in HR as (r & s3 & H3 & HR). apply attempt_ok in H3 as (r1 & H3 & [= ->]).
  destruct r1 as [c'|e]; [|discriminate]. injection HR as -> <-.
  pose proof (take_read_reads f s2) as (reads' & H3' & Hreads). rewrite H3 in H3'.
  apply take_read_to_string_ok in H3 as (_ & _ & reads & H3 & <- & _).
  rewrite (made_inj _ _ _ _ H3' H3) in Hreads. exists f, m, reads. split_and!; [|done..].
  eapply (made_app s s1 s' [_]); [exact H1|]. eapply (made_app s1 s2 s' [_]); [exact H2|].
  eapply made_app; [exact H3|exact H5].
Qed.

Lemma cleanup_entry_justly n : respects removes_justly (cleanup_entry fuel directory now n : M W _ _).
Proof.
  unfold cleanup_entry. destruct (Nat.eqb_spec (length n) 64) as [Hl|]; [|cbn; apply respects_ret; apply _].
  destruct (forallb is_ascii_hexdigit n) eqn:Hx; [|cbn; apply respects_ret; apply _]. cbn [negb orb].
  intros s. pose proof (keeps_read_marker n s) as Hk. unfold bind at 1.
  destruct (read_marker fuel directory n s) as [[[[c|]|e]| |] s1] eqn:E1;
    try (by apply emitted_justly).
  destruct (parse_expires_at_ms c) as [expiry|] eqn:Hp; [|by apply emitted_justly].
  destruct (N.ltb_spec expiry now) as [Hlt|]; [|by apply emitted_justly].
  apply read_marker_log in E1 as (f & m & reads & M1 & Hm & Hreads & Hc).
  destruct Hk as (pre & M1' & Hk). cbn [snd] in M1'.
  unfold bind, unlinkat, prim, ret. destruct (k_unlinkat _ _ (world s1)) as [r w]. cbn.
  exists (pre ++ [EvUnlinkat (file_fd directory) n r]). split; [by eapply made_app|].
  eapply justified_snoc; try done; [by eapply made_inj|by rewrite Hc].
Qed.

Lemma cleanup_markers_justly : respects removes_justly (cleanup_markers fuel directory now : M W _ _).
Proof.
  unfold cleanup_markers. apply respects_bind; [apply _|apply respects_os; [apply _|by apply keeps_prim]|].
  intros f.
  apply respects_bind; [apply _| |intros d].
  { intros s. apply emitted_justly. apply emits_owned; [|done].
    apply respects_os; [apply _|]. by apply emits_prim. }
  apply respects_bind; [apply _| |intros ?].
  - apply respects_loop; [apply _|]. intros _. unfold cleanup_round.
    apply respects_bind; [apply _|by apply keeps_prim|]. intros [n|]; [|cbn; apply respects_ret; apply _].
    apply respects_bind; [apply _|apply cleanup_entry_justly|]. intros _. apply respects_ret; apply _.
  - apply respects_bind; [apply _|by apply keeps_prim|]. intros _. apply respects_ret; apply _.
Qed.
End Cleanup.

(** Cleaning the replay cache removes only expired markers: however the
    run ends and whatever the directory holds, every removal directly follows
    the opening, without following links, of that 64-digit hexadecimal name
    in the same directory, and the reading of a regular file whose text says
    that it expired before [now]. *)
Theorem cleanup_removes_only_expired `{Kernel W} (fuel : nat) (directory : File) (now : N)
  (s : state W) :
  exists evs, made s (cleanup_markers fuel directory now s).2 evs /\
    justified (file_fd directory) now evs.
Proof. apply cleanup_markers_justly. Qed.

(** A trusted path that is opened costs no descriptor when it fails and
    exactly the returned one when it succeeds; cleaning the replay cache
    keeps none. *)
Theorem trust_keeps_no_descriptor `{Kernel W} (path : bytes) (ro d p : bool) (fuel : nat)
  (directory : File) (now : N) :
  owns [] (fun f => [file_fd f]) (open (W := W) path ro d p) /\
  owns [] (fun _ => []) (cleanup_markers (W := W) fuel directory now).
Proof. split; [apply owns_open_file|apply neutral_cleanup_markers]. Qed.

(** ** The text of a marker *)

(** The pieces of [writeln!(file, "expires_at_ms={}", expires_at_ms)]. *)
Definition marker_pieces (expires_at_ms : N) : list bytes :=
  [B "expires_at_ms="; show_N expires_at_ms; [nl]].

Lemma show_digits_length fuel n acc :
  (length (show_digits fuel n acc) <= fuel + length acc)%nat.
Proof.
  revert n acc. induction fuel as [|fuel IH]; intros n acc; [done|]. cbn [show_digits].
  destruct (n / 10 =? 0); [cbn; lia|]. specialize (IH (n / 10) (digit (n mod 10) :: acc)).
  cbn [length] in IH. lia.
Qed.

Lemma show_N_length n : n <= u64_max -> (length (show_N n) <= 65)%nat.
Proof.
  intros Hn. unfold show_N. pose proof (show_digits_length (S (N.to_nat (N.size n))) n []) as Hl.
  assert (N.size n <= 64) as Hs; [|cbn [length] in Hl; lia].
  destruct (N.eq_dec n 0) as [->|Hz]; [cbn; lia|].
  rewrite N.size_log2 by done. apply N.le_succ_l, N.log2_lt_pow2; [lia|].
  unfold u64_max in Hn. cbn. lia.
Qed.

Lemma marker_text expires_at_ms :
  expires_at_ms <= u64_max ->
  parse_expires_at_ms (concat (marker_pieces expires_at_ms)) = Some expires_at_ms.
Proof.
  intros Hn. unfold marker_pieces. cbn [concat]. rewrite app_nil_r, app_assoc.
  assert (forallb is_graphic (B "expires_at_ms=" ++ show_N expires_at_ms) = true) as Hg
    by by rewrite forallb_app, show_N_graphic.
  unfold parse_expires_at_ms. rewrite lines_cons by by apply (graphic_notin _ _ Hg).
  rewrite trim_graphic by done. rewrite strip_prefix_app. by apply parse_show_u64.
Qed.

(** The text that is written for a marker is the one that is parsed:
    every 64-bit expiry comes back, within the 128 bytes that are read of a
    marker, so a marker lives exactly until its response expires. *)
Theorem marker_round_trip (expires_at_ms : N) :
  expires_at_ms <= u64_max ->
  parse_expires_at_ms (concat (marker_pieces expires_at_ms)) = Some expires_at_ms /\
  (length (concat (marker_pieces expires_at_ms)) <= 128)%nat.
Proof.
  intros Hn. split; [by apply marker_text|]. unfold marker_pieces. cbn [concat].
  rewrite app_nil_r, !length_app. pose proof (show_N_length _ Hn).
  change (length (B "expires_at_ms=")) with 14%nat. change (length [nl]) with 1%nat. lia.
Qed.

Lemma marker_round_trip_witness :
  parse_expires_at_ms (concat (marker_pieces 1700000011000)) = Some 1700000011000 /\
  (length (concat (marker_pieces 1700000011000)) <= 128)%nat.
Proof. exact (marker_round_trip 1700000011000 ltac:(by compute)). Defined.

(** ** Witnesses *)

Definition key_start : state sim :=
  start (sim_files [(B "host.key", file_inode 0x180 (B "private_key_hex=00"))] [] sim0).
Definition key_opened : state sim := (open (B "/etc/host.key") true false true key_start).2.

Lemma key_open :
  open (B "/etc/host.key") true false true key_start
  = (Done (Ok {| file_fd := 103 |}), key_opened).
Proof. run_here. Qed.

Lemma open_walks_trusted_witness :
  opened_trusted (B "/etc/host.key") true false true 103 key_start key_opened.
Proof.
  exact (open_walks_trusted (B "/etc/host.key") true false true {| file_fd := 103 |}
    key_start key_opened key_open).
Defined.

Lemma open_refuses_lexically_witness :
  (exists message, open (B "keys/host.key") true false true key_start
     = (Done (Err (invalid message)), key_start)) /\
  (exists message, open (B "/etc/../tmp/host.key") false false true key_start
     = (Done (Err (invalid message)), key_start)).
Proof.
  split; apply open_refuses_lexically; [by left|right].
  split; [done|left]. apply (bool_decide_unpack _). by compute.
Defined.
