(* ===== verification/Common.v ===== *)
(** * What the subcommands of [src/crates/helper/src/main.rs] share

    The boxed errors, the [hex] crate (a parameter), the exit codes and the
    wall clock. *)

From Stdlib Require Import NArith ZArith Lia List Bool.
From Stdlib Require Import Strings.Byte Strings.String.
From stdpp Require Import base decidable list option strings.
From S2P Require Import Prelude RustStd Protocol Sys Ownership.

Open Scope N_scope.

(** ** [Box<dyn std::error::Error>]

    One constructor per source of errors; messages are their bytes. *)

Inductive error : Type :=
| EIo (e : io_error)
| EProtocol (e : ProtocolError)
| EHex (message : string)
| EToml (message : string)
| EJson (message : string)
| ETime
| EInt
| EMsg (message : bytes).

#[global] Instance error_eq_decision : EqDecision error.
Proof. solve_decision. Defined.

Definition err {A} (message : string) : result A error := Err (EMsg (B message)).
Definition fail {W A} (message : string) : M W error A := throw (EMsg (B message)).

(** ** The [hex] crate *)

Class Hex := {
  hex_encode : bytes -> bytes;
  hex_decode : bytes -> result bytes string;
}.

Class HexLaws `{Hex} : Prop := {
  hex_round_trip b : hex_decode (hex_encode b) = Ok b;
  hex_encode_digits b : forallb is_ascii_hexdigit (hex_encode b) = true;
  hex_encode_length b : length (hex_encode b) = (2 * length b)%nat;
}.

(** ** Exit codes *)

Definition EXIT_APPROVED : N := 0.
Definition EXIT_UNAVAILABLE : N := 10.
Definition EXIT_CANCELLED : N := 11.
Definition EXIT_FAILED : N := 12.
Definition EXIT_DENIED : N := 20.
Definition EXIT_TAMPER : N := 30.
Definition EXIT_UNSAFE_CONFIG : N := 31.
Definition EXIT_PROTOCOL : N := 32.

Definition exit_code_for_decision (decision : Decision.t) : N :=
  match decision with
  | Decision.Approved => EXIT_APPROVED
  | Decision.Denied => EXIT_DENIED
  | Decision.Unavailable => EXIT_UNAVAILABLE
  | Decision.Cancelled => EXIT_CANCELLED
  | Decision.Failed => EXIT_FAILED
  end.

(** ** The wall clock

    [system_now] answers nanoseconds since the epoch, nothing before it. *)

Definition millis_of (duration : N) : result N error :=
  let millis := duration / 1000000 in
  if millis <=? u64_max then Ok millis else Err EInt.

Definition unix_time_ms `{Kernel W} : M W error N :=
  let! now := system_now in
  let! duration := lift (ok_or now ETime) in
  lift (millis_of duration).

Lemma neutral_unix_time_ms `{Kernel W} : neutral (unix_time_ms (W := W)).
Proof. unfold unix_time_ms, system_now. neutral_tac. Qed.

Lemma unix_time_ms_ok `{Kernel W} (s s' : state W) now :
  unix_time_ms s = (Done (Ok now), s') ->
  now <= u64_max /\ exists ns, now = ns / 1000000 /\ made s s' [EvSystem (Some ns)].
Proof.
  unfold unix_time_ms. intros HU. apply bind_ok in HU as (o & s1 & H1 & HU).
  apply prim_done in H1 as (a & [= ->] & Hl & _).
  apply bind_ok in HU as (ns & s2 & (Ho & ->)%lift_done & (Hm & ->)%lift_done).
  destruct a as [ns'|]; [|discriminate]. injection Ho as ->. unfold millis_of in Hm.
  destruct (N.leb_spec (ns' / 1000000) u64_max); [|discriminate]. injection Hm as ->.
  split; [done|]. by exists ns'.
Qed.

(** ** The budget of one operation *)

(** [Instant] counts 64-bit seconds and nanoseconds. *)
Definition instant_max : N := 9223372036854775807999999999.

Definition checked_add_instant (t duration : N) : option N :=
  if t + duration <=? instant_max then Some (t + duration) else None.

Definition operation_budget `{Kernel W} (timeout_ms now_ms : N) : M W error (N * N) :=
  if timeout_ms =? 0 then fail "timeout_ms must be positive"
  else
  let! expiry := lift (ok_or (checked_add_u64 now_ms timeout_ms)
                         (EMsg (B "timeout_ms overflows request expiry"))) in
  let! now := instant_now in
  let! deadline := lift (ok_or (checked_add_instant now (timeout_ms * 1000000))
                           (EMsg (B "timeout_ms overflows operation deadline"))) in
  ret (deadline, expiry).

Lemma operation_budget_ok `{Kernel W} timeout now d e (s s' : state W) :
  operation_budget timeout now s = (Done (Ok (d, e)), s') <->
  0 < timeout /\ e = now + timeout /\ now + timeout <= u64_max /\
  exists t w, k_instant_now (world s) = (t, w) /\ d = t + timeout * 1000000 /\
    t + timeout * 1000000 <= instant_max /\ s' = St w (log s ++ [EvInstant t]).
Proof.
  unfold operation_budget. destruct (N.eqb_spec timeout 0) as [->|Hz].
  { split; [done|]. intros [? _]. lia. }
  unfold bind, instant_now, prim, lift, ret. unfold checked_add_u64.
  destruct (N.leb_spec (now + timeout) u64_max) as [Hle|Hle]; cbn.
  2: { split; [done|]. intros (_ & _ & ? & _). lia. }
  destruct (k_instant_now (world s)) as [t w]. unfold checked_add_instant.
  destruct (N.leb_spec (t + timeout * 1000000) instant_max) as [Hle2|Hle2]; cbn.
  - split.
    + intros [= <- <- <-]. split_and!; [lia|done|done|]. by exists t, w.
    + by intros (_ & -> & _ & ? & ? & [= <- <-] & -> & _ & ->).
  - split; [done|]. intros (_ & _ & _ & ? & ? & [= <- <-] & _ & ? & _). lia.
Qed.

Lemma neutral_operation_budget `{Kernel W} timeout now :
  neutral (operation_budget (W := W) timeout now).
Proof. unfold operation_budget, instant_now, fail. neutral_tac. Qed.
