(* ===== verification/Keys.v ===== *)
(** * Trusted files and keys ([src/crates/helper/src/main.rs])

    Reading a bounded text through a trusted path, finding the key in it,
    decoding private and public keys, and writing key files. *)

From Stdlib Require Import NArith ZArith Lia List Bool.
From Stdlib Require Import Strings.Byte Strings.String.
From stdpp Require Import base decidable list option strings.
From S2P Require Import Prelude RustStd Crypto Protocol Samples Sys Ownership Io Transport Sim.
From S2P Require Import Frame Trust Common.

Open Scope N_scope.

(** [(MAX_FRAME_LEN + 1) as u64] *)
Definition trusted_limit : nat := N.to_nat (MAX_FRAME_LEN + 1).

Section Keys.
Context `{Kernel W} `{Crypto} `{Hex}.

Definition read_trusted_file (fuel : nat) (path : bytes) (root_owned private : bool)
  : M W error bytes :=
  let! file := into EIo (open path root_owned false private) in
  let! contents := scoped (file_fd file) (into EIo (take_read_to_string fuel file trusted_limit)) in
  if MAX_FRAME_LEN <? N.of_nat (length contents) then fail "trusted file is too large"
  else ret contents.

(** The first line that is neither empty nor a comment; what follows its
    first equals sign, if it has one. *)
Fixpoint key_line (lines : list bytes) : option bytes :=
  match lines with
  | [] => None
  | raw_line :: rest =>
      let line := trim raw_line in
      match line with
      | [] => key_line rest
      | first :: _ =>
          if decide (first = x23) then key_line rest
          else match split_once x3d line with
               | Some (_, value) => Some (trim value)
               | None => Some line
               end
      end
  end.

Definition read_key_material (fuel : nat) (path : bytes) (root_owned private : bool)
  : M W error bytes :=
  let! contents := read_trusted_file fuel path root_owned private in
  match key_line (lines contents) with
  | Some material => ret material
  | None => throw (EMsg (B "key file " ++ path ++ B " does not contain key material"))
  end.

Definition signing_key_from_hex (key_hex : bytes) : result SigningKey error :=
  let? key_bytes := map_err EHex (hex_decode (trim key_hex)) in
  if decide (length key_bytes = 32%nat) then Ok (SigningKey_from_bytes key_bytes)
  else err "Ed25519 private key must be exactly 32 bytes".

Definition signing_key_from_file (fuel : nat) (path : bytes) : M W error SigningKey :=
  let! material := read_key_material fuel path false true in
  lift (signing_key_from_hex material).

(** [SigningKey::generate(&mut OsRng)] *)
Definition generate_key : M W error SigningKey :=
  let! seed := fill_bytes SigningKey_generate_len in
  ret (SigningKey_generate seed).

Definition load_optional_signing_key (fuel : nat) (key_hex key_file : option bytes)
  : M W error SigningKey :=
  match key_hex, key_file with
  | Some key_hex, None => lift (signing_key_from_hex key_hex)
  | None, Some path => signing_key_from_file fuel path
  | None, None => generate_key
  | Some _, Some _ => fail "provide only one of --key-hex or --key-file"
  end.

Definition load_signing_key (fuel : nat) (key_hex key_file : option bytes) (root_owned : bool)
  : M W error SigningKey :=
  match key_hex, key_file with
  | Some key_hex, None =>
      if negb root_owned then lift (signing_key_from_hex key_hex)
      else fail "production requires a trusted private key file, not inline hex"
  | None, Some path =>
      let! material := read_key_material fuel path root_owned true in
      lift (signing_key_from_hex material)
  | None, None => fail "missing private key; provide --key-hex or --key-file"
  | Some _, Some _ => fail "provide only one of --key-hex or --key-file"
  end.

Definition load_required_signing_key (fuel : nat) (key_hex key_file : option bytes)
  : M W error SigningKey := load_signing_key fuel key_hex key_file false.

(** The decoding of a public key, after the choice of its source. *)
Definition public_key_from_hex (material : bytes) (label : string) : result bytes error :=
  let? bytes := map_err EHex (hex_decode material) in
  if decide (length bytes = 32%nat) then Ok bytes
  else Err (EMsg (B label ++ B " must be exactly 32 bytes")).

Definition load_public_key (fuel : nat) (key_hex key_file : option bytes) (label : string)
  (root_owned : bool) : M W error bytes :=
  let! material :=
    match key_hex, key_file with
    | Some key_hex, None =>
        if negb root_owned then ret (trim key_hex)
        else fail "production requires a trusted public key file, not inline hex"
    | None, Some path => read_key_material fuel path root_owned false
    | None, None => throw (EMsg (B "missing " ++ B label ++ B "; provide hex or file"))
    | Some _, Some _ => throw (EMsg (B "provide only one " ++ B label ++ B " source"))
    end in
  lift (public_key_from_hex material label).

Definition load_required_public_key (fuel : nat) (key_hex key_file : option bytes)
  (label : string) : M W error bytes := load_public_key fuel key_hex key_file label false.

(** [OpenOptions::new().write(true).create_new(true)]: never an existing file. *)
Definition create_new_flags : list open_flag := [O_WRONLY; O_CLOEXEC; O_CREAT; O_EXCL].

Definition private_key_pieces (private_key_hex : bytes) : list bytes :=
  [B "private_key_hex="; private_key_hex; [nl]].
Definition public_key_pieces (public_key_hex : bytes) : list bytes :=
  [B "public_key_hex="; public_key_hex; [nl]].

Definition write_private_key_file (fuel : nat) (path private_key_hex : bytes) : M W error unit :=
  let! f := into EIo (sys_open path create_new_flags 0x180) in
  scoped f (
    do! into EIo (write_fmt fuel {| file_fd := f |} (private_key_pieces private_key_hex)) ;;
    ret tt).

Definition write_public_key_file (fuel : nat) (path public_key_hex : bytes) : M W error unit :=
  let! f := into EIo (sys_open path create_new_flags 0x1A4) in
  scoped f (
    do! into EIo (write_fmt fuel {| file_fd := f |} (public_key_pieces public_key_hex)) ;;
    ret tt).
End Keys.

(** ** Where keys come from *)

(** The run read the text [c] through the trusted path, and nothing else
    from that descriptor, and closed it. *)
Definition read_trusted {W} (path : bytes) (ro p : bool) (c : bytes) (s s' : state W) : Prop :=
  exists f s1 s2, opened_trusted path ro false p f s s1 /\ only_read f c s1 s2 /\
    made s2 s' [EvClose f].

(** The key material a text holds. *)
Definition key_text (c material : bytes) : Prop := key_line (lines c) = Some material.

Section Sources.
Context `{Kernel W} `{Crypto} `{Hex}.

Lemma read_trusted_file_ok fuel path ro p c (s s' : state W) :
  read_trusted_file fuel path ro p s = (Done (Ok c), s') ->
  read_trusted path ro p c s s' /\ N.of_nat (length c) <= MAX_FRAME_LEN /\ utf8_valid c = true.
Proof.
  unfold read_trusted_file. intros HR. apply bind_ok in HR as (f & s1 & Hop%into_ok%open_log & HR).
  apply bind_ok in HR as (c' & s2 & Htk & HR).
  apply scoped_ok in Htk as (s3 & Htk%into_ok%take_read_to_string_ok & (? & _ & Hcl & _)%prim_done).
  destruct (N.ltb_spec MAX_FRAME_LEN (N.of_nat (length c'))); [discriminate|].
  injection HR as -> <-. destruct Htk as (_ & ? & Htk). split_and!; [|done..].
  by exists (file_fd f), s1, s3.
Qed.

Lemma read_key_material_ok fuel path ro p m (s s' : state W) :
  read_key_material fuel path ro p s = (Done (Ok m), s') ->
  exists c, read_trusted path ro p c s s' /\ key_text c m.
Proof.
  unfold read_key_material. intros HR.
  apply bind_ok in HR as (c & s1 & (Hop & _ & _)%read_trusted_file_ok & HR).
  destruct (key_line (lines c)) as [m'|] eqn:Hk; [|discriminate].
  injection HR as -> <-. by exists c.
Qed.

Lemma load_signing_key_trusted fuel key_hex key_file sk (s s' : state W) :
  load_signing_key fuel key_hex key_file true s = (Done (Ok sk), s') ->
  key_hex = None /\ exists path c m, key_file = Some path /\ is_absolute path = true /\
    read_trusted path true true c s s' /\ key_text c m /\ signing_key_from_hex m = Ok sk.
Proof.
  unfold load_signing_key. destruct key_hex, key_file as [path|]; try discriminate.
  intros HL. apply bind_ok in HL as (m & s1 & (c & Hr & Hk)%read_key_material_ok & HL).
  apply lift_done in HL as [Hs ->]. split; [done|]. exists path, c, m. split_and!; try done.
  destruct Hr as (f & s2 & s3 & Ho & _). by eapply opened_trusted_absolute.
Qed.

Lemma load_public_key_trusted fuel key_hex key_file label pk (s s' : state W) :
  load_public_key fuel key_hex key_file label true s = (Done (Ok pk), s') ->
  key_hex = None /\ exists path c m, key_file = Some path /\ is_absolute path = true /\
    read_trusted path true false c s s' /\ key_text c m /\ public_key_from_hex m label = Ok pk.
Proof.
  unfold load_public_key. intros HL. apply bind_ok in HL as (m & s1 & Hm & HL).
  apply lift_done in HL as [Hs ->]. destruct key_hex, key_file as [path|]; try discriminate.
  apply read_key_material_ok in Hm as (c & Hr & Hk).
  split; [done|]. exists path, c, m. split_and!; try done.
  destruct Hr as (f & s2 & s3 & Ho & _). by eapply opened_trusted_absolute.
Qed.
End Sources.

(** C37: in production a private key comes from nowhere but a private file of
    root, opened through trusted directories, and a public key from a file
    that root alone can write; key material on the command line is refused
    before any system call. *)
Theorem production_keys_from_trusted_files `{Kernel W} `{Crypto} `{Hex} (fuel : nat)
  (key_hex key_file : option bytes) (label : string) (sk : SigningKey) (pk : bytes)
  (s s' : state W) :
  (load_signing_key fuel key_hex key_file true s = (Done (Ok sk), s') ->
   key_hex = None /\ exists path c m, key_file = Some path /\ is_absolute path = true /\
     read_trusted path true true c s s' /\ key_text c m /\ signing_key_from_hex m = Ok sk) /\
  (load_public_key fuel key_hex key_file label true s = (Done (Ok pk), s') ->
   key_hex = None /\ exists path c m, key_file = Some path /\ is_absolute path = true /\
     read_trusted path true false c s s' /\ key_text c m /\ public_key_from_hex m label = Ok pk) /\
  (key_hex <> None -> exists e1 e2,
   load_signing_key fuel key_hex key_file true s = (Done (Err (EMsg e1)), s) /\
   load_public_key fuel key_hex key_file label true s = (Done (Err (EMsg e2)), s)).
Proof.
  split_and!; [apply load_signing_key_trusted|apply load_public_key_trusted|].
  destruct key_hex, key_file; try done; intros _; by eexists _, _.
Qed.

(** A trusted file is read at most to one mebibyte, is valid UTF-8, and
    its text is exactly what came from the validated descriptor. *)
Theorem trusted_file_bounded `{Kernel W} (fuel : nat) (path : bytes) (ro p : bool) (c : bytes)
  (s s' : state W) :
  read_trusted_file fuel path ro p s = (Done (Ok c), s') ->
  read_trusted path ro p c s s' /\ N.of_nat (length c) <= MAX_FRAME_LEN /\ utf8_valid c = true.
Proof. apply read_trusted_file_ok. Qed.

(** ** Key files that are written can be read *)

Section KeyFiles.
Context `{CL : CryptoLaws} `{HL : HexLaws}.

Lemma key_text_written (label value : bytes) :
  forallb is_graphic label = true -> forallb is_graphic value = true -> value <> [] ->
  x3d ∉ label -> (forall r, label <> x23 :: r) ->
  key_text (concat [label ++ [x3d]; value; [nl]]) value.
Proof.
  intros Hl Hv Hne Heq Hc. unfold key_text. cbn [concat]. rewrite app_nil_r, app_assoc.
  assert (forallb is_graphic ((label ++ [x3d]) ++ value) = true) as Hg
    by by rewrite !forallb_app, Hl, Hv.
  rewrite lines_cons by by apply (graphic_notin _ _ Hg).
  cbn [key_line]. cbv zeta. rewrite trim_graphic by done. rewrite <- app_assoc.
  change ([x3d] ++ value) with (x3d :: value). destruct (label ++ x3d :: value) as [|b r] eqn:E.
  { by destruct label. }
  rewrite decide_False.
  2: { intros ->. destruct label as [|b' r']; [discriminate|]. injection E as -> _. by eapply Hc. }
  rewrite <- E, split_once_notin by done. by rewrite trim_graphic.
Qed.

Lemma hex_encode_graphic b : forallb is_graphic (hex_encode b) = true.
Proof. apply hexdigits_graphic, hex_encode_digits. Qed.

Lemma hex_encode_nonempty b : length b = 32%nat -> hex_encode b <> [].
Proof. intros Hl He. pose proof (hex_encode_length b) as Hlen. rewrite He, Hl in Hlen. done. Qed.

Lemma private_key_text sk :
  key_text (concat (private_key_pieces (hex_encode (SigningKey_to_bytes sk))))
    (hex_encode (SigningKey_to_bytes sk)).
Proof.
  apply (key_text_written (B "private_key_hex")); try done.
  - apply hex_encode_graphic.
  - apply hex_encode_nonempty, SigningKey_to_bytes_length.
  - by apply (bool_decide_unpack _).
Qed.

Lemma public_key_text b :
  length b = 32%nat -> key_text (concat (public_key_pieces (hex_encode b))) (hex_encode b).
Proof.
  intros Hb. apply (key_text_written (B "public_key_hex")); try done.
  - apply hex_encode_graphic.
  - by apply hex_encode_nonempty.
  - by apply (bool_decide_unpack _).
Qed.

Lemma signing_key_from_encoded sk :
  exists sk', signing_key_from_hex (hex_encode (SigningKey_to_bytes sk)) = Ok sk' /\
    SigningKey_to_bytes sk' = SigningKey_to_bytes sk.
Proof.
  exists (SigningKey_from_bytes (SigningKey_to_bytes sk)). unfold signing_key_from_hex.
  rewrite trim_graphic by apply hex_encode_graphic. rewrite hex_round_trip. cbn.
  rewrite decide_True by apply SigningKey_to_bytes_length. split; [done|].
  by apply SigningKey_bytes_id, SigningKey_to_bytes_length.
Qed.

Lemma public_key_from_encoded b label :
  length b = 32%nat -> public_key_from_hex (hex_encode b) label = Ok b.
Proof.
  intros Hb. unfold public_key_from_hex. rewrite hex_round_trip. cbn. by rewrite decide_True.
Qed.
End KeyFiles.

Section Written.
Context `{Kernel W}.

(** The file was created by the run, with mode [m], and holds [c]. *)
Definition created {W} (path : bytes) (m : N) (c : bytes) (s s' : state W) : Prop :=
  exists f s1 s2, made s s1 [EvOpen path [O_WRONLY; O_CLOEXEC; O_CREAT; O_EXCL] m (Ok f)] /\
    only_wrote f c s1 s2 /\ made s2 s' [EvClose f].

Lemma write_private_key_file_ok fuel path h (s s' : state W) :
  write_private_key_file fuel path h s = (Done (Ok tt), s') ->
  created path 0x180 (concat (private_key_pieces h)) s s'.
Proof.
  intros HW. apply bind_ok in HW as (f & s1 & Hop%into_ok%os_prim_ok & HW).
  apply scoped_ok in HW as (s2 & HW & (? & _ & Hcl & _)%prim_done).
  apply bind_ok in HW as ([] & s3 & Hw%into_ok & [= <-]). apply write_fmt_ok in Hw.
  by exists f, s1, s3.
Qed.

Lemma write_public_key_file_ok fuel path h (s s' : state W) :
  write_public_key_file fuel path h s = (Done (Ok tt), s') ->
  created path 0x1A4 (concat (public_key_pieces h)) s s'.
Proof.
  intros HW. apply bind_ok in HW as (f & s1 & Hop%into_ok%os_prim_ok & HW).
  apply scoped_ok in HW as (s2 & HW & (? & _ & Hcl & _)%prim_done).
  apply bind_ok in HW as ([] & s3 & Hw%into_ok & [= <-]). apply write_fmt_ok in Hw.
  by exists f, s1, s3.
Qed.
End Written.

(** A key file is created exclusively, the private one accessible to its
    owner alone, and the text written gives the key back when it is read:
    the same private bytes, and the same public key under any label. *)
Theorem key_file_round_trip `{Kernel W} `{CL : CryptoLaws} `{HL : HexLaws} (fuel : nat)
  (path : bytes) (sk : SigningKey) (pk : bytes) (label : string) (s s' : state W) :
  length pk = 32%nat ->
  (write_private_key_file fuel path (hex_encode (SigningKey_to_bytes sk)) s = (Done (Ok tt), s') ->
   exists c m sk', created path 0x180 c s s' /\ key_text c m /\
     signing_key_from_hex m = Ok sk' /\ SigningKey_to_bytes sk' = SigningKey_to_bytes sk) /\
  (write_public_key_file fuel path (hex_encode pk) s = (Done (Ok tt), s') ->
   exists c m, created path 0x1A4 c s s' /\ key_text c m /\ public_key_from_hex m label = Ok pk).
Proof.
  intros Hpk. split.
  - intros HW%write_private_key_file_ok. destruct (signing_key_from_encoded sk) as (sk' & ? & ?).
    eexists _, _, sk'. split_and!; [exact HW|apply private_key_text|done..].
  - intros HW%write_public_key_file_ok. eexists _, _.
    split_and!; [exact HW|by apply public_key_text|by apply public_key_from_encoded].
Qed.

(** ** Witnesses *)

Definition nibble (n : N) : byte := byte_of (if n <? 10 then 48 + n else 87 + n).
Definition unnibble (b : byte) : option N :=
  let v := byte_val b in
  if in_range 48 57 b then Some (v - 48)
  else if in_range 97 102 b then Some (v - 87)
  else if in_range 65 70 b then Some (v - 55)
  else None.
Definition hex_byte (b : byte) : bytes := [nibble (byte_val b / 16); nibble (byte_val b mod 16)].

Fixpoint unhex (s : bytes) : result bytes string :=
  match s with
  | [] => Ok []
  | [_] => Err "Odd number of digits"%string
  | a :: b :: r =>
      match unnibble a, unnibble b with
      | Some h, Some l => let? bs := unhex r in Ok (byte_of (16 * h + l) :: bs)
      | _, _ => Err "Invalid character"%string
      end
  end.

#[global] Instance sample_hex : Hex := {| hex_encode := flat_map hex_byte; hex_decode := unhex |}.

Lemma hex_byte_digits b : forallb is_ascii_hexdigit (hex_byte b) = true.
Proof. by destruct b. Qed.

Lemma unhex_byte b r : unhex (hex_byte b ++ r) = let? bs := unhex r in Ok (b :: bs).
Proof. by destruct b. Qed.

Lemma sample_hex_laws : HexLaws.
Proof.
  split; cbn [hex_encode hex_decode sample_hex].
  - induction b as [|b bs IH]; [done|]. cbn [flat_map]. by rewrite unhex_byte, IH.
  - induction b as [|b bs IH]; [done|]. cbn [flat_map]. by rewrite forallb_app, hex_byte_digits, IH.
  - induction b as [|b bs IH]; [done|]. cbn [flat_map]. rewrite length_app, IH. cbn. lia.
Qed.

#[local] Existing Instance sample_crypto.
#[local] Existing Instance sample_crypto_laws.
#[local] Existing Instance sample_hex_laws.

(** Root's key files in [/etc]. *)
Definition host_key_text : bytes := concat (private_key_pieces (hex_encode (sample_key x07))).
Definition agent_key_text : bytes :=
  B "# agent" ++ nl :: concat (public_key_pieces (hex_encode (sample_key x09))).

Definition keys_start : state sim :=
  start (sim_files [(B "host.key", file_inode 0x180 host_key_text);
                    (B "agent.pub", file_inode 0x1A4 agent_key_text)] [] sim0).

Definition host_loaded : state sim :=
  (load_signing_key 400 None (Some (B "/etc/host.key")) true keys_start).2.
Definition agent_loaded : state sim :=
  (load_public_key 400 None (Some (B "/etc/agent.pub")) "agent public key" true keys_start).2.

Lemma host_load :
  load_signing_key 400 None (Some (B "/etc/host.key")) true keys_start
  = (Done (Ok (sample_sk x07)), host_loaded).
Proof. run_here. Qed.

Lemma agent_load :
  load_public_key 400 None (Some (B "/etc/agent.pub")) "agent public key" true keys_start
  = (Done (Ok (sample_key x09)), agent_loaded).
Proof. run_here. Qed.

Lemma production_keys_from_trusted_files_witness :
  (exists path c m, Some (B "/etc/host.key") = Some path /\ is_absolute path = true /\
     read_trusted path true true c keys_start host_loaded /\ key_text c m /\
     signing_key_from_hex m = Ok (sample_sk x07)) /\
  (exists path c m, Some (B "/etc/agent.pub") = Some path /\ is_absolute path = true /\
     read_trusted path true false c keys_start agent_loaded /\ key_text c m /\
     public_key_from_hex m "agent public key" = Ok (sample_key x09)).
Proof.
  split.
  - exact (proj2 (proj1 (production_keys_from_trusted_files 400 None (Some (B "/etc/host.key")) ""
      (sample_sk x07) [] keys_start host_loaded) host_load)).
  - exact (proj2 (proj1 (proj2 (production_keys_from_trusted_files 400 None
      (Some (B "/etc/agent.pub")) "agent public key" (sample_sk x07) (sample_key x09)
      keys_start agent_loaded)) agent_load)).
Defined.

Definition host_read : state sim := (read_trusted_file 400 (B "/etc/host.key") true true keys_start).2.

Lemma host_file_read :
  read_trusted_file 400 (B "/etc/host.key") true true keys_start
  = (Done (Ok host_key_text), host_read).
Proof. run_here. Qed.

Lemma trusted_file_bounded_witness :
  read_trusted (B "/etc/host.key") true true host_key_text keys_start host_read /\
  N.of_nat (length host_key_text) <= MAX_FRAME_LEN /\ utf8_valid host_key_text = true.
Proof.
  exact (trusted_file_bounded 400 (B "/etc/host.key") true true host_key_text keys_start host_read
    host_file_read).
Defined.

Definition host_written : state sim :=
  (write_private_key_file 400 (B "/new.key") (hex_encode (sample_key x07)) (start sim0)).2.

Lemma host_write :
  write_private_key_file 400 (B "/new.key") (hex_encode (sample_key x07)) (start sim0)
  = (Done (Ok tt), host_written).
Proof. run_here. Qed.

Lemma key_file_round_trip_witness :
  exists c m sk', created (B "/new.key") 0x180 c (start sim0) host_written /\ key_text c m /\
    signing_key_from_hex m = Ok sk' /\ SigningKey_to_bytes sk' = sample_key x07.
Proof.
  exact (proj1 (key_file_round_trip 400 (B "/new.key") (sample_sk x07) (sample_key x09) ""
    (start sim0) host_written eq_refl) host_write).
Defined.
