(* ===== verification/Config.v ===== *)
(** * Configuration ([src/crates/helper/src/main.rs])

    Loading a configuration through a trusted path, generating or relocating
    one, and the validation of its fields.  [toml] is the class [Toml]; its
    laws are that a table remembers what was inserted and that a
    configuration read from the text of a table has the table's strings. *)

From Stdlib Require Import NArith ZArith Lia List Bool.
From Stdlib Require Import Strings.Byte Strings.String.
From stdpp Require Import base decidable list option strings.
From S2P Require Import Prelude RustStd Crypto Protocol Samples Sys Ownership Io Transport Sim.
From S2P Require Import Frame Trust Common Keys.

Open Scope N_scope.

Record HelperConfig : Type := {
  socket_path : option bytes;
  host_key_file : option bytes;
  agent_pubkey_file : option bytes;
  key_id : option bytes;
  host_id : option bytes;
  hostname : option bytes;
  service : option bytes;
  timeout_ms : option N;
  allowed_future_skew_ms : option N;
  replay_cache_dir : option bytes;
}.

Definition HelperConfig_default : HelperConfig := {|
  socket_path := None; host_key_file := None; agent_pubkey_file := None; key_id := None;
  host_id := None; hostname := None; service := None; timeout_ms := None;
  allowed_future_skew_ms := None; replay_cache_dir := None |}.

(** [Table_get]: nothing, a string, or another value. *)
Class Toml := {
  Table : Type;
  Table_new : Table;
  Table_get : bytes -> Table -> option (option bytes);
  Table_insert : bytes -> bytes -> Table -> Table;
  toml_from_str_table : bytes -> result Table string;
  toml_from_str_config : bytes -> result HelperConfig string;
  toml_to_string_pretty : Table -> result bytes string;
}.

Definition Table_string `{Toml} (k : bytes) (t : Table) : option bytes :=
  match Table_get k t with Some (Some v) => Some v | _ => None end.

Class TomlLaws `{Toml} : Prop := {
  Table_get_insert k v t : Table_get k (Table_insert k v t) = Some (Some v);
  Table_get_insert_ne k k' v t : k <> k' -> Table_get k (Table_insert k' v t) = Table_get k t;
  config_of_table t b c :
    toml_to_string_pretty t = Ok b -> toml_from_str_config b = Ok c ->
    socket_path c = Table_string (B "socket_path") t /\
    host_key_file c = Table_string (B "host_key_file") t /\
    agent_pubkey_file c = Table_string (B "agent_pubkey_file") t /\
    host_id c = Table_string (B "host_id") t /\
    hostname c = Table_string (B "hostname") t /\
    replay_cache_dir c = Table_string (B "replay_cache_dir") t;
}.

Record PrepareConfigArgs : Type := {
  arg_source : option bytes;
  arg_socket : bytes;
  arg_host_key_file : bytes;
  arg_agent_pubkey_file : bytes;
  arg_host_id : option bytes;
  arg_hostname : option bytes;
  arg_replay_cache_dir : option bytes;
}.

(** [path.is_absolute()] and no parent component. *)
Definition clean_path (path : bytes) : bool :=
  is_absolute path && negb (existsb (fun part => bool_decide (part = ParentDir)) (components path)).

Definition path_error (field : bytes) : error :=
  EMsg (field ++ B " must be absolute without parent components").

Definition path_to_str (path : bytes) : result bytes error :=
  if utf8_valid path then Ok path else err "path is not UTF-8".

Fixpoint check_paths (fields : list (bytes * option bytes)) : result unit error :=
  match fields with
  | [] => Ok tt
  | (field, path) :: rest =>
      let? path := ok_or path (EMsg (field ++ B " is required")) in
      guard! clean_path path else path_error field ;;
      check_paths rest
  end.

Definition blank (setting : option bytes) : bool :=
  match setting with None => true | Some setting => bool_decide (trim setting = []) end.

Fixpoint check_settings (fields : list (bytes * option bytes)) : result unit error :=
  match fields with
  | [] => Ok tt
  | (field, setting) :: rest =>
      guard! negb (blank setting) else EMsg (field ++ B " is required and must not be empty") ;;
      check_settings rest
  end.

Definition config_paths (config : HelperConfig) : list (bytes * option bytes) :=
  [(B "socket_path", socket_path config); (B "host_key_file", host_key_file config);
   (B "agent_pubkey_file", agent_pubkey_file config)].

Definition config_settings (config : HelperConfig) : list (bytes * option bytes) :=
  [(B "host_id", host_id config); (B "hostname", hostname config);
   (B "key_id", Some (default (B "host-key-1") (key_id config)));
   (B "service", Some (default (B "sudo") (service config)))].

Section Config.
Context `{Kernel W} `{Toml}.

Definition load_helper_config (fuel : nat) (path : option bytes) (root_owned : bool)
  : M W error HelperConfig :=
  match path with
  | None => ret HelperConfig_default
  | Some path =>
      let! contents := read_trusted_file fuel path root_owned false in
      lift (map_err EToml (toml_from_str_config contents))
  end.

Definition validate_config_fields (config : HelperConfig) : M W error unit :=
  do! lift (check_paths (config_paths config)) ;;
  do! lift (check_settings (config_settings config)) ;;
  let! now := unix_time_ms in
  do! operation_budget (default 15000 (timeout_ms config)) now ;;
  ret tt.

Fixpoint insert_paths (fields : list (bytes * bytes)) (value : Table) : result Table error :=
  match fields with
  | [] => Ok value
  | (field, path) :: rest =>
      guard! clean_path path else path_error field ;;
      let? text := path_to_str path in
      insert_paths rest (Table_insert field text value)
  end.

Definition insert_setting (field : bytes) (setting : option bytes) (value : Table) : Table :=
  match setting with Some setting => Table_insert field setting value | None => value end.

(** An existing replay cache must be relocated. *)
Definition relocate_replay_cache (dir : option bytes) (value : Table) : result Table error :=
  match Table_get (B "replay_cache_dir") value with
  | None => Ok value
  | Some _ =>
      let? path := ok_or dir
        (EMsg (B "existing replay cache requires --replay-cache-dir relocation")) in
      guard! clean_path path else path_error (B "replay_cache_dir") ;;
      let? text := path_to_str path in
      Ok (Table_insert (B "replay_cache_dir") text value)
  end.

Definition prepare_config (fuel : nat) (args : PrepareConfigArgs) : M W error bytes :=
  let! value :=
    match arg_source args with
    | Some path =>
        let! contents := read_trusted_file fuel path false false in
        lift (map_err EToml (toml_from_str_table contents))
    | None => ret Table_new
    end in
  let! value := lift (insert_paths
    [(B "socket_path", arg_socket args); (B "host_key_file", arg_host_key_file args);
     (B "agent_pubkey_file", arg_agent_pubkey_file args)] value) in
  let value := insert_setting (B "host_id") (arg_host_id args) value in
  let value := insert_setting (B "hostname") (arg_hostname args) value in
  let! value := lift (relocate_replay_cache (arg_replay_cache_dir args) value) in
  let! contents := lift (map_err EToml (toml_to_string_pretty value)) in
  let! config := lift (map_err EToml (toml_from_str_config contents)) in
  do! validate_config_fields config ;;
  ret contents.
End Config.

(** ** What is validated *)

Definition clean (path : bytes) : Prop :=
  is_absolute path = true /\ ParentDir ∉ components path.

Definition present (P : bytes -> Prop) (o : option bytes) : Prop := exists v, o = Some v /\ P v.

Definition config_valid (c : HelperConfig) : Prop :=
  present clean (socket_path c) /\ present clean (host_key_file c) /\
  present clean (agent_pubkey_file c) /\
  present (fun h => trim h <> []) (host_id c) /\ present (fun h => trim h <> []) (hostname c) /\
  trim (default (B "host-key-1") (key_id c)) <> [] /\ trim (default (B "sudo") (service c)) <> [].

Lemma clean_path_ok path : clean_path path = true <-> clean path.
Proof.
  unfold clean_path, clean. rewrite andb_true_iff, negb_true_iff.
  assert (existsb (fun part => bool_decide (part = ParentDir)) (components path) = false
          <-> ParentDir ∉ components path) as ->; [|done].
  rewrite <- not_true_iff_false, existsb_exists. apply not_iff_compat. split.
  - intros (x & Hx & ->%bool_decide_eq_true). by apply list_elem_of_In.
  - intros Hp%list_elem_of_In. exists ParentDir. split; [done|]. by apply bool_decide_eq_true.
Qed.

Lemma check_paths_ok fields :
  check_paths fields = Ok tt <-> Forall (fun f => present clean f.2) fields.
Proof.
  induction fields as [|[f [p|]] fields IH]; cbn.
  - split; [constructor|done].
  - rewrite Forall_cons, <- IH. unfold present. cbn. destruct (clean_path p) eqn:E.
    + apply clean_path_ok in E. naive_solver.
    + split; [done|]. intros [(? & [= <-] & Hp%clean_path_ok) _]. congruence.
  - rewrite Forall_cons. unfold present. cbn. naive_solver.
Qed.

Lemma check_settings_ok fields :
  check_settings fields = Ok tt <-> Forall (fun f => present (fun v => trim v <> []) f.2) fields.
Proof.
  induction fields as [|[f [p|]] fields IH]; cbn.
  - split; [constructor|done].
  - rewrite Forall_cons, <- IH. unfold present. cbn. case_bool_decide; cbn; naive_solver.
  - rewrite Forall_cons. unfold present. cbn. naive_solver.
Qed.

Lemma config_checks_ok c :
  check_paths (config_paths c) = Ok tt /\ check_settings (config_settings c) = Ok tt <->
  config_valid c.
Proof.
  rewrite check_paths_ok, check_settings_ok. unfold config_paths, config_settings, config_valid.
  rewrite !Forall_cons, !Forall_nil. cbn [snd]. unfold present at 6 7.
  assert (forall v, (exists w, Some v = Some w /\ trim w <> []) <-> trim v <> []) as E
    by naive_solver.
  rewrite !E. tauto.
Qed.

Section ConfigProps.
Context `{Kernel W} `{Toml}.

(** The clock calls of the validation. *)
Definition budget_fits (timeout : N) (s s' : state W) : Prop :=
  exists ns w t w', k_system_now (world s) = (Some ns, w) /\ k_instant_now w = (t, w') /\
    0 < timeout /\ ns / 1000000 + timeout <= u64_max /\
    t + timeout * 1000000 <= instant_max /\
    s' = St w' (log s ++ [EvSystem (Some ns); EvInstant t]).

Lemma unix_time_budget timeout (s s' : state W) :
  (let! now := unix_time_ms in do! operation_budget timeout now ;; ret tt) s = (Done (Ok tt), s')
  <-> budget_fits timeout s s'.
Proof.
  unfold budget_fits. split.
  - intros HB. apply bind_ok in HB as (now & s1 & Hu & HB).
    apply bind_ok in HB as ([d e] & s2 & Ho & [= <-]).
    apply operation_budget_ok in Ho as (? & -> & ? & t & w' & Ht & -> & ? & ->).
    unfold unix_time_ms, bind, system_now, prim, lift in Hu.
    destruct (k_system_now (world s)) as [[ns|] w] eqn:Ek; cbn in Hu; [|discriminate].
    unfold millis_of in Hu. destruct (N.leb_spec (ns / 1000000) u64_max); [|discriminate].
    injection Hu as <- <-. exists ns, w, t, w'. cbn in Ht |- *. by rewrite <- app_assoc.
  - intros (ns & w & t & w' & Ek & Ht & Hpos & Hf & Hi & ->). unfold bind at 1, unix_time_ms.
    unfold bind at 1, system_now, prim. rewrite Ek. cbn. unfold bind, lift, millis_of.
    rewrite (proj2 (N.leb_le _ _)) by lia.
    assert (operation_budget timeout (ns / 1000000) (St w (log s ++ [EvSystem (Some ns)]))
      = (Done (Ok (t + timeout * 1000000, ns / 1000000 + timeout)),
         St w' (log s ++ [EvSystem (Some ns); EvInstant t]))) as ->; [|done].
    apply operation_budget_ok. split_and!; try done. exists t, w'. cbn.
    by rewrite <- app_assoc.
Qed.

Lemma validate_config_ok c (s s' : state W) :
  validate_config_fields c s = (Done (Ok tt), s') <->
  config_valid c /\ budget_fits (default 15000 (timeout_ms c)) s s'.
Proof.
  rewrite <- config_checks_ok, <- unix_time_budget. unfold validate_config_fields.
  unfold bind at 1 2, lift at 1 2.
  destruct (check_paths (config_paths c)) as [[]|]; [|naive_solver].
  destruct (check_settings (config_settings c)) as [[]|]; naive_solver.
Qed.

(** A configuration is accepted exactly when the socket and both key
    files are present, absolute and without parent components, the four
    identity settings are not blank after their defaults, and the budget of
    its timeout fits both clocks. *)
Theorem validate_config_exact (c : HelperConfig) (s s' : state W) :
  validate_config_fields c s = (Done (Ok tt), s') <->
  config_valid c /\ budget_fits (default 15000 (timeout_ms c)) s s'.
Proof. apply validate_config_ok. Qed.
End ConfigProps.

(** ** What is generated *)

Section Prepare.
Context `{Kernel W} `{TL : TomlLaws}.

Lemma insert_paths_ok fields (t t' : Table) :
  insert_paths fields t = Ok t' ->
  Forall (fun f => clean f.2) fields /\
  forall k, Table_get k t' =
    match List.find (fun f => bool_decide (f.1 = k)) (rev fields) with
    | Some f => Some (Some f.2)
    | None => Table_get k t
    end.
Proof.
  revert t. induction fields as [|[f p] fields IH]; intros t HI; cbn in HI.
  - injection HI as <-. by split.
  - destruct (clean_path p) eqn:Ec; [|discriminate]. unfold path_to_str in HI.
    destruct (utf8_valid p); [|discriminate]. apply IH in HI as [Hf Hg].
    split; [constructor; [by apply clean_path_ok|done]|]. intros k. rewrite Hg. cbn [rev].
    rewrite find_app. destruct (List.find _ (rev fields)); [done|]. cbn.
    case_bool_decide as Hk; [subst; apply Table_get_insert|]. by apply Table_get_insert_ne.
Qed.

Lemma insert_setting_get f setting (t : Table) k :
  Table_get k (insert_setting f setting t) =
  match setting with
  | Some v => if decide (k = f) then Some (Some v) else Table_get k t
  | None => Table_get k t
  end.
Proof.
  destruct setting; [|done]. cbn. case_decide; [subst; apply Table_get_insert|].
  by apply Table_get_insert_ne.
Qed.

Lemma relocate_ok dir (t t' : Table) :
  relocate_replay_cache dir t = Ok t' ->
  (forall k, k <> B "replay_cache_dir" -> Table_get k t' = Table_get k t) /\
  match Table_string (B "replay_cache_dir") t' with
  | Some p => dir = Some p /\ clean p
  | None => Table_get (B "replay_cache_dir") t' = None
  end.
Proof.
  unfold relocate_replay_cache, Table_string.
  destruct (Table_get (B "replay_cache_dir") t) eqn:Eg.
  - destruct dir as [p|]; [|discriminate]. cbn. destruct (clean_path p) eqn:Ec; [|discriminate].
    unfold path_to_str. destruct (utf8_valid p); [|discriminate]. intros [= <-]. split.
    + intros k Hk. by apply Table_get_insert_ne.
    + rewrite Table_get_insert. split; [done|]. by apply clean_path_ok.
  - intros [= <-]. by rewrite Eg.
Qed.

(** A generated or relocated configuration reads back as a valid one
    whose socket and key files are the arguments; the host identity is the
    argument when there is one; a replay cache is never enabled, and one that
    the source had is moved to the argument. *)
Theorem prepare_config_relocates (fuel : nat) (args : PrepareConfigArgs) (contents : bytes)
  (s s' : state W) :
  prepare_config fuel args s = (Done (Ok contents), s') ->
  exists config, toml_from_str_config contents = Ok config /\ config_valid config /\
    socket_path config = Some (arg_socket args) /\
    host_key_file config = Some (arg_host_key_file args) /\
    agent_pubkey_file config = Some (arg_agent_pubkey_file args) /\
    (arg_host_id args <> None -> host_id config = arg_host_id args) /\
    (arg_hostname args <> None -> hostname config = arg_hostname args) /\
    (replay_cache_dir config = None \/
     replay_cache_dir config = arg_replay_cache_dir args /\ present clean (arg_replay_cache_dir args)).
Proof.
  unfold prepare_config. intros HP. apply bind_ok in HP as (t0 & s1 & _ & HP).
  apply bind_ok in HP as (t1 & s2 & (Hi & ->)%lift_done & HP). symmetry in Hi.
  apply insert_paths_ok in Hi as [_ Hg]. cbv zeta in HP.
  apply bind_ok in HP as (t2 & s3 & (Hr & ->)%lift_done & HP). symmetry in Hr.
  apply relocate_ok in Hr as [Hne Hr].
  apply bind_ok in HP as (c & s4 & (Hc & ->)%lift_done & HP). symmetry in Hc.
  apply map_err_ok in Hc.
  apply bind_ok in HP as (config & s5 & (Hf & ->)%lift_done & HP). symmetry in Hf.
  apply map_err_ok in Hf.
  apply bind_ok in HP as ([] & s6 & (Hv & _)%validate_config_ok & [= <- <-]).
  destruct (config_of_table _ _ _ Hc Hf) as (E1 & E2 & E3 & E4 & E5 & E6).
  unfold Table_string in E1, E2, E3, E4, E5. rewrite Hne in E1, E2, E3, E4, E5 by done.
  rewrite !insert_setting_get in E1, E2, E3, E4, E5. rewrite Hg in E1, E2, E3.
  exists config. split_and!; try done.
  - rewrite E1. by destruct (arg_host_id args), (arg_hostname args).
  - rewrite E2. by destruct (arg_host_id args), (arg_hostname args).
  - rewrite E3. by destruct (arg_host_id args), (arg_hostname args).
  - rewrite E4. by destruct (arg_host_id args), (arg_hostname args).
  - rewrite E5. by destruct (arg_host_id args), (arg_hostname args).
  - rewrite E6. destruct (Table_string (B "replay_cache_dir") t2) as [p|]; [|by left].
    right. destruct Hr as [-> Hp]. split; [done|]. by exists p.
Qed.
End Prepare.

(** ** Witnesses: a fragment of TOML with one [key=text] per line *)

Definition lines_table (b : bytes) : list (bytes * bytes) := omap (split_once x3d) (lines b).
Definition table_lines (t : list (bytes * bytes)) : bytes :=
  flat_map (fun '(k, v) => k ++ x3d :: v ++ [nl]) t.
Definition assoc_text (k : bytes) (t : list (bytes * bytes)) : option bytes :=
  snd <$> List.find (fun e => bool_decide (e.1 = k)) t.
Definition table_config (t : list (bytes * bytes)) : HelperConfig := {|
  socket_path := assoc_text (B "socket_path") t;
  host_key_file := assoc_text (B "host_key_file") t;
  agent_pubkey_file := assoc_text (B "agent_pubkey_file") t;
  key_id := assoc_text (B "key_id") t;
  host_id := assoc_text (B "host_id") t;
  hostname := assoc_text (B "hostname") t;
  service := assoc_text (B "service") t;
  timeout_ms := assoc_text (B "timeout_ms") t ≫= parse_u64;
  allowed_future_skew_ms := assoc_text (B "allowed_future_skew_ms") t ≫= parse_u64;
  replay_cache_dir := assoc_text (B "replay_cache_dir") t |}.

#[global] Instance sample_toml : Toml := {|
  Table := list (bytes * bytes);
  Table_new := [];
  Table_get k t := Some <$> assoc_text k t;
  Table_insert k v t := (k, v) :: t;
  toml_from_str_table b := Ok (lines_table b);
  toml_from_str_config b := Ok (table_config (lines_table b));
  toml_to_string_pretty t :=
    if decide (lines_table (table_lines t) = t) then Ok (table_lines t)
    else Err "text with a line break"%string |}.

Lemma sample_toml_laws : TomlLaws.
Proof.
  split.
  - intros k v t. cbn. unfold assoc_text. cbn. by rewrite bool_decide_true.
  - intros k k' v t Hk. cbn. unfold assoc_text. cbn. by rewrite bool_decide_false by congruence.
  - intros t b c. cbn. case_decide as Ht; [|done]. intros [= <-] [= <-]. rewrite Ht.
    unfold Table_string. cbn. split_and!; by destruct (assoc_text _ t).
Qed.

#[local] Existing Instance sample_toml_laws.

Definition sample_config_text : bytes := table_lines
  [(B "socket_path", B "/run/old.sock"); (B "replay_cache_dir", B "/old");
   (B "host_id", B "host-abc"); (B "hostname", B "linux.example.com"); (B "timeout_ms", B "20000")].

Definition prepare_args : PrepareConfigArgs := {|
  arg_source := Some (B "/etc/config.toml"); arg_socket := B "/run/agent.sock";
  arg_host_key_file := B "/etc/host.key"; arg_agent_pubkey_file := B "/etc/agent.pub";
  arg_host_id := None; arg_hostname := Some (B "box.example.com");
  arg_replay_cache_dir := Some (B "/cache") |}.

Definition prepare_start : state sim :=
  start (sim_files [(B "config.toml", file_inode 0x1A4 sample_config_text)] [] sim0).
Definition prepared : state sim := (prepare_config 400 prepare_args prepare_start).2.
Definition prepared_text : bytes := Eval vm_compute in
  match (prepare_config 400 prepare_args prepare_start).1 with Done (Ok b) => b | _ => [] end.

Lemma prepare_run :
  prepare_config 400 prepare_args prepare_start = (Done (Ok prepared_text), prepared).
Proof. run_here. Qed.

Lemma prepare_config_relocates_witness :
  exists config, toml_from_str_config prepared_text = Ok config /\ config_valid config /\
    socket_path config = Some (B "/run/agent.sock") /\
    host_key_file config = Some (B "/etc/host.key") /\
    agent_pubkey_file config = Some (B "/etc/agent.pub") /\
    (arg_host_id prepare_args <> None -> host_id config = arg_host_id prepare_args) /\
    (Some (B "box.example.com") <> None -> hostname config = Some (B "box.example.com")) /\
    (replay_cache_dir config = None \/
     replay_cache_dir config = Some (B "/cache") /\ present clean (Some (B "/cache"))).
Proof.
  exact (prepare_config_relocates 400 prepare_args prepared_text prepare_start prepared prepare_run).
Defined.
