(* ===== verification/Replay.v ===== *)
(** * The replay cache ([record_replay_marker] of [src/crates/helper/src/main.rs])

    A response is accepted once: its marker, named by the hash of its
    signature, is created exclusively in the replay cache, after the expired
    markers were removed. *)

From Stdlib Require Import NArith ZArith Lia List Bool.
From Stdlib Require Import Strings.Byte Strings.String.
From stdpp Require Import base decidable list option strings.
From S2P Require Import Prelude RustStd Crypto Protocol Samples Sys Ownership Io Transport Sim.
From S2P Require Import Frame Trust Common Keys.

Open Scope N_scope.

Section Replay.
Context `{Kernel W} `{Crypto} `{Hex}.

Definition marker_name (response : SignedAuthResponse.t) : bytes :=
  hex_encode (Sha256_digest (SignedAuthResponse.signature response)).

Definition record_replay_marker (fuel : nat) (replay_cache_dir : File)
  (response : SignedAuthResponse.t) : M W error unit :=
  let! now := unix_time_ms in
  do! into EIo (cleanup_markers fuel replay_cache_dir now) ;;
  let! r := attempt (create_marker replay_cache_dir (marker_name response)) in
  match r with
  | Ok file =>
      scoped (file_fd file) (
        do! into EIo (write_fmt fuel file (marker_pieces
              (AuthResponseBody.expires_at_ms (SignedAuthResponse.body response)))) ;;
        ret tt)
  | Err error =>
      if decide (kind error = AlreadyExists) then fail "response replay detected"
      else throw (EIo error)
  end.

Lemma neutral_record_replay_marker fuel dir response :
  neutral (record_replay_marker fuel dir response).
Proof.
  unfold record_replay_marker. apply neutral_bind; [apply neutral_unix_time_ms|]. intros now.
  apply neutral_bind; [apply neutral_into, neutral_cleanup_markers|]. intros _.
  eapply owns_bind; [apply owns_attempt, owns_create_marker|cbv beta].
  intros [f|e].
  - apply neutral_scoped. apply neutral_bind; [|intros _; apply neutral_ret].
    apply neutral_into, neutral_write_fmt. intros b. unfold write_, file_write, write. neutral_tac.
  - case_decide; apply owns_throw.
Qed.

Lemma emits_write_fmt (P : event -> Prop) fuel file pieces :
  (forall b r, P (EvWrite (file_fd file) b r)) ->
  emits P (write_fmt fuel file pieces : M W _ _).
Proof.
  intros HP. induction pieces as [|p ps IH]; [apply respects_ret; apply _|]. cbn [write_fmt].
  apply respects_bind; [apply _| |done]. unfold write_all, write_, file_write, write.
  respects_tac. by apply emits_prim.
Qed.

Lemma write_fmt_keeps fuel f pieces (s : state W) o s' :
  write_fmt fuel {| file_fd := f |} pieces s = (o, s') -> emitted keeps s s'.
Proof. intros HW. pose proof (emits_write_fmt keeps fuel {| file_fd := f |} pieces ltac:(done) s) as Hk. by rewrite HW in Hk. Qed.

(** How a successful recording went: the clock, the cleaning, the exclusive
    creation, the text of the expiry, the closing. *)
Lemma record_ok fuel dir response (s s' : state W) :
  record_replay_marker fuel dir response s = (Done (Ok tt), s') ->
  exists ns cleaned f written,
    made s s' ([EvSystem (Some ns)] ++ cleaned
      ++ [EvOpenat (file_fd dir) (marker_name response) create_flags 0x180 (Ok f)]
      ++ written ++ [EvClose f]) /\
    justified (file_fd dir) (ns / 1000000) cleaned /\
    Forall keeps written /\
    bytes_written f written = concat (marker_pieces
      (AuthResponseBody.expires_at_ms (SignedAuthResponse.body response))).
Proof.
  unfold record_replay_marker. intros HR.
  apply bind_ok in HR as (now & s1 & (_ & ns & -> & M1)%unix_time_ms_ok & HR).
  apply bind_ok in HR as ([] & s2 & Hc%into_ok & HR).
  destruct (cleanup_markers_justly fuel dir (ns / 1000000) s1) as (cleaned & M2 & Hj).
  rewrite Hc in M2. cbn [snd] in M2.
  apply bind_ok in HR as (r & s3 & Ha & HR). apply attempt_ok in Ha as (r' & Ha & [= ->]).
  destruct r' as [file|e]; [|by case_decide].
  unfold create_marker in Ha. apply bind_ok in Ha as (n & s4 & (Hn & ->)%lift_done & Ha).
  apply bind_ok in Ha as (f & s5 & M3%os_prim_ok & [= <- <-]).
  apply scoped_ok in HR as (s6 & HR & (? & _ & M5 & _)%prim_done).
  apply bind_ok in HR as ([] & s7 & HW%into_ok & [= <-]).
  pose proof (write_fmt_keeps _ _ _ _ _ _ HW) as (w' & M4' & Hk).
  apply write_fmt_ok in HW as (w & M4 & Hw & _).
  rewrite (made_inj _ _ _ _ M4' M4) in Hk.
  assert (n = marker_name response) as ->.
  { unfold name in Hn. case_bool_decide; congruence. }
  exists ns, cleaned, f, w. split_and!; [|done..].
  eapply made_app; [exact M1|]. eapply made_app; [exact M2|]. eapply made_app; [exact M3|].
  eapply made_app; [exact M4|exact M5].
Qed.
End Replay.

(** A recording that succeeds removed only markers expired at its own
    clock reading, then created, exclusively and for the owner alone, a
    marker named by the 64 hexadecimal digits that the next cleaning looks
    for, and wrote the text that parses to the expiry of the response. *)
Theorem replay_marker_recorded `{Kernel W} `{CL : CryptoLaws} `{HL : HexLaws} (fuel : nat)
  (dir : File) (response : SignedAuthResponse.t) (s s' : state W) :
  AuthResponseBody.wf (SignedAuthResponse.body response) ->
  record_replay_marker fuel dir response s = (Done (Ok tt), s') ->
  exists ns cleaned f written,
    made s s' ([EvSystem (Some ns)] ++ cleaned
      ++ [EvOpenat (file_fd dir) (marker_name response)
           [O_WRONLY; O_CLOEXEC; O_NOFOLLOW; O_CREAT; O_EXCL] 0x180 (Ok f)]
      ++ written ++ [EvClose f]) /\
    justified (file_fd dir) (ns / 1000000) cleaned /\
    length (marker_name response) = 64%nat /\
    forallb is_ascii_hexdigit (marker_name response) = true /\
    parse_expires_at_ms (bytes_written f written)
      = Some (AuthResponseBody.expires_at_ms (SignedAuthResponse.body response)).
Proof.
  intros (_ & _ & Hw) (ns & cleaned & f & w & HM & Hj & _ & Hb)%record_ok.
  exists ns, cleaned, f, w. split_and!; [done|done|..].
  - unfold marker_name. by rewrite hex_encode_length, Sha256_digest_length.
  - apply hex_encode_digits.
  - rewrite Hb. by apply marker_text.
Qed.

(** ** A response is not accepted twice *)

(** What [O_CREAT | O_EXCL] and [unlinkat] mean for one name of a directory
    that nobody else removes from: [there] says whether the name exists;
    nothing is returned when a creation succeeds on an existing name. *)
Definition exclusive_step (d : fd) (n : bytes) (there : bool) (e : event) : option bool :=
  match e with
  | EvOpenat d' n' flags _ (Ok _) =>
      if decide (d' = d /\ n' = n /\ O_EXCL ∈ flags) then
        if there then None else Some true
      else Some there
  | EvUnlinkat d' n' (Ok tt) => if decide (d' = d /\ n' = n) then Some false else Some there
  | _ => Some there
  end.

Fixpoint exclusive (d : fd) (n : bytes) (there : bool) (evs : list event) : option bool :=
  match evs with
  | [] => Some there
  | e :: evs =>
      match exclusive_step d n there e with
      | Some there => exclusive d n there evs
      | None => None
      end
  end.

Definition removes (d : fd) (n : bytes) (e : event) : Prop :=
  match e with EvUnlinkat d' n' _ => d' = d /\ n' = n | _ => False end.

#[global] Instance removes_decision d n e : Decision (removes d n e).
Proof. destruct e; cbn; apply _. Defined.

Lemma exclusive_app d n b e1 e2 :
  exclusive d n b (e1 ++ e2) =
  match exclusive d n b e1 with Some b' => exclusive d n b' e2 | None => None end.
Proof.
  revert b. induction e1 as [|e e1 IH]; intros b; [done|]. cbn.
  destruct (exclusive_step d n b e); [apply IH|done].
Qed.

Lemma exclusive_stays d n evs b :
  Forall (fun e => ~ removes d n e) evs -> exclusive d n true evs = Some b -> b = true.
Proof.
  induction 1 as [|e evs He _ IH]; cbn; [congruence|].
  destruct (exclusive_step d n true e) as [[]|] eqn:Es; [done| |done].
  destruct e as [| | | | | | | | | | | | | | | |d' n' fl m [f|]| | | |d' n' [[]|]| | | | | | | |]; cbn in *;
    try congruence; case_decide; congruence || tauto.
Qed.

Lemma exclusive_created d n b m f : exclusive d n b [EvOpenat d n create_flags m (Ok f)] =
  if b then None else Some true.
Proof. cbn -[create_flags]. rewrite decide_True by (split_and!; [done..|by apply (bool_decide_unpack _)]). by destruct b. Qed.

Lemma keeps_not_removes d n evs : Forall keeps evs -> Forall (fun e => ~ removes d n e) evs.
Proof. intros Hk. eapply Forall_impl; [exact Hk|]. intros [] ? ?; done. Qed.

(** Two successful creations of one name leave room for a removal. *)
Lemma exclusive_removal d n b0 b1 pre mid post m1 m2 f1 f2 :
  exclusive d n b0 (pre ++ EvOpenat d n create_flags m1 (Ok f1) :: mid
    ++ EvOpenat d n create_flags m2 (Ok f2) :: post) = Some b1 ->
  Exists (removes d n) mid.
Proof.
  intros He. destruct (decide (Exists (removes d n) mid)) as [|Hno]; [done|exfalso].
  apply not_Exists_Forall in Hno; [|apply _].
  rewrite exclusive_app in He. destruct (exclusive d n b0 pre) as [b|]; [|done].
  change (?e :: mid ++ ?r) with ([e] ++ mid ++ r) in He.
  rewrite exclusive_app, exclusive_created in He. destruct b; [done|].
  rewrite exclusive_app in He. destruct (exclusive d n true mid) as [b|] eqn:Em; [|done].
  apply exclusive_stays in Em as ->; [|done].
  change (?e :: post) with ([e] ++ post) in He.
  by rewrite exclusive_app, exclusive_created in He.
Qed.

(** Two responses with the same signature are both recorded only if the
    second recording found the first marker expired: between the two
    creations, the second cleaning read, from a regular file of that name, a
    text whose expiry is before its own clock reading.  [between] is what
    happened between the two recordings; only cleaning removes markers. *)
Theorem replay_rejected_until_expiry `{Kernel W} `{Crypto} `{Hex} (fuel1 fuel2 : nat) (dir : File)
  (r1 r2 : SignedAuthResponse.t) (s0 s1 s2 s3 : state W) (between evs : list event) (b : bool) :
  record_replay_marker fuel1 dir r1 s0 = (Done (Ok tt), s1) ->
  made s1 s2 between ->
  Forall (fun e => ~ removes (file_fd dir) (marker_name r1) e) between ->
  record_replay_marker fuel2 dir r2 s2 = (Done (Ok tt), s3) ->
  SignedAuthResponse.signature r1 = SignedAuthResponse.signature r2 ->
  made s0 s3 evs -> exclusive (file_fd dir) (marker_name r1) false evs = Some b ->
  exists ns f reads expiry,
    In (EvSystem (Some ns)) evs /\
    In (EvOpenat (file_fd dir) (marker_name r1)
          [O_RDONLY; O_CLOEXEC; O_NOFOLLOW; O_NONBLOCK] 0 (Ok f)) evs /\
    (exists pre post, evs = pre ++ reads ++ post) /\
    parse_expires_at_ms (bytes_read f reads) = Some expiry /\ expiry < ns / 1000000.
Proof.
  intros (ns1 & c1 & f1 & w1 & M1 & _ & K1 & _)%record_ok Mb Kb
    (ns2 & c2 & f2 & w2 & M2 & J2 & _)%record_ok Hsig M3 He.
  assert (marker_name r2 = marker_name r1) as Hn by (unfold marker_name; by rewrite Hsig).
  rewrite Hn in M2. clear Hn Hsig.
  set (d := file_fd dir) in *. set (n := marker_name r1) in *.
  assert (evs = ([EvSystem (Some ns1)] ++ c1) ++ EvOpenat d n create_flags 0x180 (Ok f1)
    :: (w1 ++ [EvClose f1] ++ between ++ [EvSystem (Some ns2)] ++ c2)
    ++ EvOpenat d n create_flags 0x180 (Ok f2) :: w2 ++ [EvClose f2]) as Hevs.
  { apply (made_inj _ _ _ _ M3). eapply eq_trans.
    - exact (made_app _ _ _ _ _ (made_app _ _ _ _ _ M1 Mb) M2).
    - f_equal. by app_norm. }
  rewrite Hevs in He. apply exclusive_removal in He.
  assert (Exists (removes d n) c2) as Hx.
  { rewrite !Exists_app in He. destruct He as [He|[He|[He|[He|He]]]]; [..|done]; exfalso.
    - apply keeps_not_removes with (d := d) (n := n) in K1.
      by apply Exists_exists in He as (e & ? & ?); rewrite Forall_forall in K1; apply (K1 e).
    - by inversion_clear He as [? ? Hr|? ? Hr]; [|inversion Hr].
    - by apply Exists_exists in He as (e & ? & ?); rewrite Forall_forall in Kb; apply (Kb e).
    - by inversion_clear He as [? ? Hr|? ? Hr]; [|inversion Hr]. }
  apply Exists_exists in Hx as (e & Hin & Hr). destruct e; try done. destruct Hr as [-> ->].
  apply list_elem_of_split in Hin as (e1 & e2 & Hc).
  destruct (J2 e1 d n r e2 Hc) as (_ & _ & _ & e0 & f & m & reads & expiry & E1 & _ & _ & Hp & Hlt).
  assert (exists p1 p2 p3 post, evs = p1 ++ EvSystem (Some ns2) :: p2
    ++ EvOpenat d n marker_flags 0 (Ok f) :: p3 ++ reads ++ post) as (p1 & p2 & p3 & post & ->).
  { exists (([EvSystem (Some ns1)] ++ c1) ++ [EvOpenat d n create_flags 0x180 (Ok f1)]
      ++ w1 ++ [EvClose f1] ++ between), e0, [EvFstat f (Ok m)]. eexists. rewrite Hevs, Hc, E1.
    by app_norm. }
  exists ns2, f, reads, expiry. split_and!; [apply in_elt| |..|done|done].
  - apply in_app_iff. right. right. apply in_elt.
  - exists (p1 ++ EvSystem (Some ns2) :: p2 ++ EvOpenat d n marker_flags 0 (Ok f) :: p3), post.
    by app_norm.
Qed.

(** ** Witnesses: the marker of the first recording is found expired by the
    second, twenty seconds later *)

#[local] Existing Instance sample_crypto.
#[local] Existing Instance sample_crypto_laws.
#[local] Existing Instance sample_hex_laws.

Definition cache_opened : outcome (result File io_error) * state sim :=
  open (B "/cache") true true true (start (sim_files [] [] sim0)).
Definition cache : File := {| file_fd := 101 |}.

Lemma cache_open : cache_opened.1 = Done (Ok cache).
Proof. vm_compute. reflexivity. Qed.

Definition replay0 : state sim := start (world cache_opened.2).
Definition replay1 : state sim := (record_replay_marker 400 cache vector_signed_response replay0).2.
Definition replay2 : state sim := St (set_clock 20000000000 (world replay1)) (log replay1).
Definition replay3 : state sim := (record_replay_marker 400 cache vector_signed_response replay2).2.
Definition replay_log : list event := log replay3.

Lemma first_recording :
  record_replay_marker 400 cache vector_signed_response replay0 = (Done (Ok tt), replay1).
Proof. run_here. Qed.

Lemma second_recording :
  record_replay_marker 400 cache vector_signed_response replay2 = (Done (Ok tt), replay3).
Proof. run_here. Qed.

(** Had it come at once, it would have been a replay. *)
Example replay_at_once :
  (record_replay_marker 400 cache vector_signed_response replay1).1
  = Done (Err (EMsg (B "response replay detected"))).
Proof. vm_compute. reflexivity. Qed.

Lemma replay_exclusive :
  exclusive 101 (marker_name vector_signed_response) false replay_log = Some true.
Proof. vm_compute. reflexivity. Qed.

Lemma replay_marker_recorded_witness :
  exists ns cleaned f written,
    made replay0 replay1 ([EvSystem (Some ns)] ++ cleaned
      ++ [EvOpenat 101 (marker_name vector_signed_response)
           [O_WRONLY; O_CLOEXEC; O_NOFOLLOW; O_CREAT; O_EXCL] 0x180 (Ok f)]
      ++ written ++ [EvClose f]) /\
    justified 101 (ns / 1000000) cleaned /\
    length (marker_name vector_signed_response) = 64%nat /\
    forallb is_ascii_hexdigit (marker_name vector_signed_response) = true /\
    parse_expires_at_ms (bytes_written f written) = Some 1700000011000.
Proof.
  exact (replay_marker_recorded 400 cache vector_signed_response replay0 replay1
    vector_response_wf first_recording).
Defined.

Lemma replay_rejected_until_expiry_witness :
  exists ns f reads expiry,
    In (EvSystem (Some ns)) replay_log /\
    In (EvOpenat 101 (marker_name vector_signed_response)
          [O_RDONLY; O_CLOEXEC; O_NOFOLLOW; O_NONBLOCK] 0 (Ok f)) replay_log /\
    (exists pre post, replay_log = pre ++ reads ++ post) /\
    parse_expires_at_ms (bytes_read f reads) = Some expiry /\ expiry < ns / 1000000.
Proof.
  exact (replay_rejected_until_expiry 400 400 cache vector_signed_response vector_signed_response
    replay0 replay1 replay2 replay3 [] replay_log true first_recording (made_nil replay1)
    (Forall_nil_2 _) second_recording eq_refl eq_refl replay_exclusive).
Defined.
