(* ===== verification/Request.v ===== *)
(** * The [request] subcommand ([run_request] of [src/crates/helper/src/main.rs])

    From the arguments and the configuration to the exit code that the PAM
    module maps.  [or_return code m k] is the source's
    [match m { Ok(x) => x, Err(error) => { eprintln!(..); return Ok(code) } }];
    the messages on standard error are not modelled. *)

From Stdlib Require Import NArith ZArith Lia List Bool.
From Stdlib Require Import Strings.Byte Strings.String.
From stdpp Require Import base decidable list option strings.
From S2P Require Import Prelude RustStd Crypto Protocol Canonical Samples Sys Ownership Io.
From S2P Require Import Transport Sim TransportProps Frame Trust Common Keys Config Replay.

Open Scope N_scope.

(** ** Arguments *)

Record KeyInputArgs : Type := { key_hex : option bytes; key_file : option bytes }.
Record AgentPublicKeyInputArgs : Type :=
  { agent_pubkey_hex : option bytes; agent_pubkey_file_arg : option bytes }.

Record RequestArgs : Type := {
  require_root_owned : bool;
  config_arg : option bytes;
  socket_arg : option bytes;
  key_input : KeyInputArgs;
  agent_pubkey_input : AgentPublicKeyInputArgs;
  key_id_arg : option bytes;
  host_id_arg : option bytes;
  hostname_arg : option bytes;
  service_arg : option bytes;
  user : bytes;
  ruser : option bytes;
  rhost : option bytes;
  tty : option bytes;
  sudo_command : option bytes;
  timeout_ms_arg : option N;
  allowed_future_skew_ms_arg : option N;
  replay_cache_dir_arg : option bytes;
}.

Record RequestContext : Type := {
  ctx_key_id : bytes;
  ctx_host_id : bytes;
  ctx_hostname : bytes;
  ctx_service : bytes;
  ctx_user : bytes;
  ctx_ruser : option bytes;
  ctx_rhost : option bytes;
  ctx_tty : option bytes;
  ctx_sudo_command : option bytes;
}.

Definition RequestContext_sample : RequestContext := {|
  ctx_key_id := B "host-key-1";
  ctx_host_id := B "host-abc";
  ctx_hostname := B "linux.example.com";
  ctx_service := B "sudo";
  ctx_user := B "alice";
  ctx_ruser := Some (B "alice");
  ctx_rhost := None;
  ctx_tty := Some (B "pts/3");
  ctx_sudo_command := None |}.

(** [self.or(other)] *)
Definition or {A} (self other : option A) : option A :=
  match self with Some a => Some a | None => other end.

Definition transport_exit (error : TransportError) : N :=
  match error with Timeout => EXIT_UNAVAILABLE | _ => EXIT_PROTOCOL end.

(** [request_body.expires_at_ms = expires_at_ms] *)
Definition set_expires_at_ms (body : AuthRequestBody.t) (expires_at_ms : N) : AuthRequestBody.t :=
  AuthRequestBody.mk (AuthRequestBody.protocol_version body) (AuthRequestBody.request_id body)
    (AuthRequestBody.nonce body) (AuthRequestBody.created_at_ms body) expires_at_ms
    (AuthRequestBody.linux_host_id body) (AuthRequestBody.linux_hostname body)
    (AuthRequestBody.pam_service body) (AuthRequestBody.pam_user body)
    (AuthRequestBody.pam_ruser body) (AuthRequestBody.pam_rhost body)
    (AuthRequestBody.pam_tty body) (AuthRequestBody.sudo_command body)
    (AuthRequestBody.client_pid body) (AuthRequestBody.key_id body) (AuthRequestBody.alg body).

Definition or_return {W E A} (code : E -> N) (m : M W E A) (k : A -> M W error N) : M W error N :=
  let! r := attempt m in
  match r with Ok a => k a | Err e => ret (code e) end.

Notation "'try!' x := m 'else' code 'in' k" := (or_return (fun _ => code) m (fun x => k))
  (at level 10, x pattern, m at level 100, code at level 100, k at level 200) : rust_scope.

Section Request.
Context `{Kernel W} `{Crypto} `{Hex} `{Toml}.
Context `{SerdeJson SignedAuthRequest.t} `{SerdeJson SignedAuthResponse.t}.

(** Integer overflow of [+] panics when the build checks for it, and wraps
    when it does not. *)
Context (overflow_checks : bool).

Definition add_u64 (a b : N) : M W error N :=
  if a + b <=? u64_max then ret (a + b)
  else if overflow_checks then panic else ret (wrapping_add_u64 a b).

Definition build_request (now_ms : N) (context : RequestContext) : M W error AuthRequestBody.t :=
  let! nonce := fill_bytes NONCE_LEN in
  let! id := process_id in
  let! expires_at_ms := add_u64 now_ms 30000 in
  let! client_pid := process_id in
  ret {| AuthRequestBody.protocol_version := PROTOCOL_VERSION;
         AuthRequestBody.request_id := B "req-" ++ show_N now_ms ++ B "-" ++ show_N id;
         AuthRequestBody.nonce := nonce;
         AuthRequestBody.created_at_ms := now_ms;
         AuthRequestBody.expires_at_ms := expires_at_ms;
         AuthRequestBody.linux_host_id := ctx_host_id context;
         AuthRequestBody.linux_hostname := ctx_hostname context;
         AuthRequestBody.pam_service := ctx_service context;
         AuthRequestBody.pam_user := ctx_user context;
         AuthRequestBody.pam_ruser := ctx_ruser context;
         AuthRequestBody.pam_rhost := ctx_rhost context;
         AuthRequestBody.pam_tty := ctx_tty context;
         AuthRequestBody.sudo_command := ctx_sudo_command context;
         AuthRequestBody.client_pid := Some client_pid;
         AuthRequestBody.key_id := ctx_key_id context;
         AuthRequestBody.alg := Ed25519 |}.

(** [check_deadline(deadline).is_err() || request.body.verify_freshness(now, skew).is_err()]:
    the clock [now] is read only before the deadline. *)
Definition too_late (deadline : N) (body : AuthRequestBody.t) (skew : N) (now : M W error N)
  : M W error bool :=
  let! r := attempt (check_deadline deadline) in
  match r with
  | Err _ => ret true
  | Ok _ =>
      let! now := now in
      ret (is_err (AuthRequestBody.verify_freshness body now skew))
  end.

(** The decision about a response that was received. *)
Definition conclude (fuel : nat) (agent_pubkey : bytes) (deadline allowed_future_skew_ms : N)
  (replay_cache : option File) (request : SignedAuthRequest.t) (response : SignedAuthResponse.t)
  : M W error N :=
  try! _ := lift (SignedAuthResponse.verify_for_request response
                    (SignedAuthRequest.body request) agent_pubkey)
    else EXIT_TAMPER in
  let! now := unix_time_ms in
  let! late := too_late deadline (SignedAuthRequest.body request) allowed_future_skew_ms (ret now) in
  if late : bool then ret EXIT_UNAVAILABLE
  else
  try! _ := lift (AuthResponseBody.verify_freshness (SignedAuthResponse.body response) now
                    allowed_future_skew_ms)
    else EXIT_TAMPER in
  try! _ := match replay_cache with
            | Some replay_cache => record_replay_marker fuel replay_cache response
            | None => ret tt
            end
    else EXIT_TAMPER in
  let! late := too_late deadline (SignedAuthRequest.body request) allowed_future_skew_ms unix_time_ms in
  if late : bool then ret EXIT_UNAVAILABLE
  else ret (exit_code_for_decision (AuthResponseBody.decision (SignedAuthResponse.body response))).

(** The exchange with the agent, over one connection. *)
Definition exchange (fuel : nat) (socket agent_pubkey : bytes) (deadline skew : N)
  (replay_cache : option File) (request : SignedAuthRequest.t) : M W error N :=
  try! stream := connect fuel socket deadline else EXIT_UNAVAILABLE in
  scoped (Transport.stream stream) (
    let io := {| io_fuel := fuel; io_stream := stream |} in
    or_return transport_exit (write_json_frame fuel io request) (fun _ =>
    or_return transport_exit (read_json_frame (T := SignedAuthResponse.t) fuel io) (fun response =>
    conclude fuel agent_pubkey deadline skew replay_cache request response))).

(** Everything after the inputs were loaded. *)
Definition send_request (fuel : nat) (args : RequestArgs) (signing_key : SigningKey)
  (agent_pubkey socket key_id host_id hostname service : bytes)
  (timeout_ms allowed_future_skew_ms : N) (replay_cache : option File) : M W error N :=
  let! now := unix_time_ms in
  try! (deadline, expires_at_ms) := operation_budget timeout_ms now else EXIT_UNSAFE_CONFIG in
  if existsb (fun value => bool_decide (trim value = [])) [key_id; host_id; hostname; service; user args]
  then ret EXIT_UNSAFE_CONFIG
  else
  let! request_body := build_request now
    {| ctx_key_id := key_id; ctx_host_id := host_id; ctx_hostname := hostname;
       ctx_service := service; ctx_user := user args; ctx_ruser := ruser args;
       ctx_rhost := rhost args; ctx_tty := tty args; ctx_sudo_command := sudo_command args |} in
  let request_body := set_expires_at_ms request_body expires_at_ms in
  let! request := lift (map_err EProtocol (SignedAuthRequest.sign request_body signing_key)) in
  exchange fuel socket agent_pubkey deadline allowed_future_skew_ms replay_cache request.

Definition run_request (fuel : nat) (args : RequestArgs) : M W error N :=
  try! config := load_helper_config fuel (config_arg args) (require_root_owned args)
    else EXIT_UNSAFE_CONFIG in
  let host_key_file := or (key_file (key_input args)) (host_key_file config) in
  try! signing_key := load_signing_key fuel (key_hex (key_input args)) host_key_file
                        (require_root_owned args)
    else EXIT_UNSAFE_CONFIG in
  let agent_pubkey_file :=
    or (agent_pubkey_file_arg (agent_pubkey_input args)) (agent_pubkey_file config) in
  try! agent_pubkey := load_public_key fuel (agent_pubkey_hex (agent_pubkey_input args))
                         agent_pubkey_file "agent public key" (require_root_owned args)
    else EXIT_UNSAFE_CONFIG in
  match or (socket_arg args) (socket_path config) with
  | None => ret EXIT_UNSAFE_CONFIG
  | Some socket =>
  if negb (is_absolute socket) then ret EXIT_UNSAFE_CONFIG else
  let key_id := default (B "host-key-1") (or (key_id_arg args) (key_id config)) in
  match or (host_id_arg args) (host_id config) with
  | None => ret EXIT_UNSAFE_CONFIG
  | Some host_id =>
  match or (hostname_arg args) (hostname config) with
  | None => ret EXIT_UNSAFE_CONFIG
  | Some hostname =>
  let service := default (B "sudo") (or (service_arg args) (service config)) in
  let timeout_ms := default 15000 (or (timeout_ms_arg args) (timeout_ms config)) in
  let allowed_future_skew_ms :=
    default 30000 (or (allowed_future_skew_ms_arg args) (allowed_future_skew_ms config)) in
  match or (replay_cache_dir_arg args) (replay_cache_dir config) with
  | Some path =>
      try! directory := open path (require_root_owned args) true true else EXIT_UNSAFE_CONFIG in
      scoped (file_fd directory) (
        send_request fuel args signing_key agent_pubkey socket key_id host_id hostname service
          timeout_ms allowed_future_skew_ms (Some directory))
  | None =>
      send_request fuel args signing_key agent_pubkey socket key_id host_id hostname service
        timeout_ms allowed_future_skew_ms None
  end end end end.
End Request.
