(* ===== verification/Verdict.v ===== *)
(** * The verdict on a response ([conclude] of [Request])

    What makes a response authentic and fresh, and the table of the exit
    codes that the last part of [run_request] ends in. *)

From Stdlib Require Import NArith ZArith Lia List Bool.
From Stdlib Require Import Strings.Byte Strings.String.
From stdpp Require Import base decidable list option strings.
From S2P Require Import Prelude RustStd Crypto Protocol Canonical Samples ProtocolProps Sys.
From S2P Require Import Ownership Io Transport Sim TransportProps Frame Trust Common Keys Config.
From S2P Require Import Replay Request.

Open Scope N_scope.

(** ** Early returns *)

Section OrReturn.
Context {W E A : Type}.

Lemma or_return_ok (code : E -> N) (m : M W E A) (k : A -> M W error N) s n s' :
  or_return code m k s = (Done (Ok n), s') ->
  (exists a s1, m s = (Done (Ok a), s1) /\ k a s1 = (Done (Ok n), s')) \/
  (exists e, m s = (Done (Err e), s') /\ n = code e).
Proof.
  unfold or_return. intros HO. apply bind_ok in HO as (r & s1 & Ha & HO).
  apply attempt_ok in Ha as (r' & Ha & [= ->]). destruct r' as [a|e]; [by eauto|].
  injection HO as <- <-. right. eauto.
Qed.

Lemma owns_or_return h (mid : A -> list fd) (code : E -> N) (m : M W E A) (k : A -> M W error N) :
  owns h mid m -> (forall a, owns (mid a) (fun _ => []) (k a)) ->
  owns h (fun _ => []) (or_return code m k).
Proof.
  intros Hm Hk. unfold or_return. eapply owns_bind; [by apply owns_attempt|cbv beta].
  intros [a|e]; [apply Hk|apply neutral_ret].
Qed.

Lemma neutral_or_return (code : E -> N) (m : M W E A) (k : A -> M W error N) :
  neutral m -> (forall a, neutral (k a)) -> neutral (or_return code m k).
Proof. apply owns_or_return. Qed.
End OrReturn.

(** ** Authentic and fresh *)

(** The response was signed, with the agent's key, for this very request. *)
Definition authentic `{Crypto} (pk : bytes) (q : AuthRequestBody.t) (r : SignedAuthResponse.t) : Prop :=
  (exists m, AuthResponseBody.canonical_bytes (SignedAuthResponse.body r) = Ok m /\
     signature_holds pk m (SignedAuthResponse.signature r)) /\
  bound_to (SignedAuthResponse.body r) q.

Definition fresh (created expires now skew : N) : Prop :=
  now <= expires /\ created <= saturating_add_u64 now skew.
Definition fresh_request (q : AuthRequestBody.t) (now skew : N) : Prop :=
  fresh (AuthRequestBody.created_at_ms q) (AuthRequestBody.expires_at_ms q) now skew.
Definition fresh_response (r : SignedAuthResponse.t) (now skew : N) : Prop :=
  fresh (AuthResponseBody.created_at_ms (SignedAuthResponse.body r))
    (AuthResponseBody.expires_at_ms (SignedAuthResponse.body r)) now skew.

Lemma authentic_ok `{Crypto} pk q r :
  SignedAuthResponse.verify_for_request r q pk = Ok tt <-> authentic pk q r.
Proof. unfold authentic. by rewrite verify_for_request_ok, response_verify_ok. Qed.

Lemma fresh_request_ok q now skew :
  AuthRequestBody.verify_freshness q now skew = Ok tt <-> fresh_request q now skew.
Proof.
  unfold AuthRequestBody.verify_freshness, fresh_request, fresh.
  destruct (N.ltb_spec (AuthRequestBody.expires_at_ms q) now); cbn; [naive_solver lia|].
  destruct (N.ltb_spec (saturating_add_u64 now skew) (AuthRequestBody.created_at_ms q)); cbn;
    naive_solver lia.
Qed.

Lemma fresh_response_ok r now skew :
  AuthResponseBody.verify_freshness (SignedAuthResponse.body r) now skew = Ok tt <->
  fresh_response r now skew.
Proof.
  unfold AuthResponseBody.verify_freshness, fresh_response, fresh.
  destruct (N.ltb_spec (AuthResponseBody.expires_at_ms (SignedAuthResponse.body r)) now); cbn;
    [naive_solver lia|].
  destruct (N.ltb_spec (saturating_add_u64 now skew)
    (AuthResponseBody.created_at_ms (SignedAuthResponse.body r))); cbn; naive_solver lia.
Qed.

Lemma is_err_false {E} (r : result unit E) : is_err r = false <-> r = Ok tt.
Proof. destruct r as [[]|]; cbn; naive_solver. Qed.

Section Conclude.
Context `{Kernel W} `{Crypto} `{Hex}.

(** Clock readings. *)
Definition ticks (t : N) (s s' : state W) : Prop :=
  k_instant_now (world s) = (t, world s') /\ made s s' [EvInstant t].
Definition wall (now : N) (s s' : state W) : Prop :=
  exists ns, k_system_now (world s) = (Some ns, world s') /\ made s s' [EvSystem (Some ns)] /\
    now = ns / 1000000 /\ now <= u64_max.

(** The response is recorded, if there is a cache to record it in. *)
Definition recorded (fuel : nat) (cache : option File) (r : SignedAuthResponse.t)
  (s s' : state W) : Prop :=
  match cache with
  | None => s' = s
  | Some dir => record_replay_marker fuel dir r s = (Done (Ok tt), s')
  end.

(** The first reading of the two clocks, before the deadline and while the
    request and the response are fresh. *)
Definition in_time (d skew : N) (q : AuthRequestBody.t) (r : SignedAuthResponse.t)
  (s s' : state W) : Prop :=
  exists now s1 t, wall now s s1 /\ ticks t s1 s' /\ t < d /\
    fresh_request q now skew /\ fresh_response r now skew.

(** From a response that verified to the report of its decision. *)
Definition concluded (fuel : nat) (d skew : N) (cache : option File) (q : AuthRequestBody.t)
  (r : SignedAuthResponse.t) (s s' : state W) : Prop :=
  exists s1 s2 s3 t now, in_time d skew q r s s1 /\ recorded fuel cache r s1 s2 /\
    ticks t s2 s3 /\ t < d /\ wall now s3 s' /\ fresh_request q now skew.

(** The verdict on a response, case by case: the exit code, and the state
    that the run ends in. *)
Inductive verdict (fuel : nat) (pk : bytes) (d skew : N) (cache : option File)
  (q : AuthRequestBody.t) (r : SignedAuthResponse.t) (s : state W) : N -> state W -> Prop :=
| verdict_forged :
    ~ authentic pk q r -> verdict fuel pk d skew cache q r s EXIT_TAMPER s
| verdict_after_deadline now s1 t s2 :
    authentic pk q r -> wall now s s1 -> ticks t s1 s2 -> d <= t ->
    verdict fuel pk d skew cache q r s EXIT_UNAVAILABLE s2
| verdict_request_expired now s1 t s2 :
    authentic pk q r -> wall now s s1 -> ticks t s1 s2 -> t < d -> ~ fresh_request q now skew ->
    verdict fuel pk d skew cache q r s EXIT_UNAVAILABLE s2
| verdict_stale now s1 t s2 :
    authentic pk q r -> wall now s s1 -> ticks t s1 s2 -> t < d -> fresh_request q now skew ->
    ~ fresh_response r now skew -> verdict fuel pk d skew cache q r s EXIT_TAMPER s2
| verdict_not_recorded dir s1 e s2 :
    authentic pk q r -> in_time d skew q r s s1 -> cache = Some dir ->
    record_replay_marker fuel dir r s1 = (Done (Err e), s2) ->
    verdict fuel pk d skew cache q r s EXIT_TAMPER s2
| verdict_deadline_at_end s1 s2 t s3 :
    authentic pk q r -> in_time d skew q r s s1 -> recorded fuel cache r s1 s2 ->
    ticks t s2 s3 -> d <= t -> verdict fuel pk d skew cache q r s EXIT_UNAVAILABLE s3
| verdict_expired_at_end s1 s2 t s3 now s4 :
    authentic pk q r -> in_time d skew q r s s1 -> recorded fuel cache r s1 s2 ->
    ticks t s2 s3 -> t < d -> wall now s3 s4 -> ~ fresh_request q now skew ->
    verdict fuel pk d skew cache q r s EXIT_UNAVAILABLE s4
| verdict_decision s1 :
    authentic pk q r -> concluded fuel d skew cache q r s s1 ->
    verdict fuel pk d skew cache q r s
      (exit_code_for_decision (AuthResponseBody.decision (SignedAuthResponse.body r))) s1.

Lemma unix_time_ms_wall now (s s' : state W) :
  unix_time_ms s = (Done (Ok now), s') <-> wall now s s'.
Proof.
  unfold unix_time_ms, system_now, wall, bind, prim, lift, ok_or, millis_of, made.
  destruct s as [w l], s' as [w' l']. cbn. destruct (k_system_now w) as [[ns|] w1]; cbn.
  - destruct (N.leb_spec (ns / 1000000) u64_max); cbn; naive_solver lia.
  - naive_solver.
Qed.

Lemma ticks_exist (s : state W) : exists t s1, ticks t s s1.
Proof.
  destruct (k_instant_now (world s)) as [t w] eqn:Ht.
  exists t, (St w (log s ++ [EvInstant t])). unfold ticks. by rewrite Ht.
Qed.

Lemma too_late_run d body skew m t (s s1 : state W) :
  ticks t s s1 ->
  too_late d body skew m s =
    if d <=? t then (Done (Ok true), s1)
    else (let! now := m in ret (is_err (AuthRequestBody.verify_freshness body now skew))) s1.
Proof.
  destruct s as [w l], s1 as [w1 l1]. unfold ticks, made. cbn. intros [Ht ->].
  unfold too_late, check_deadline, instant_now, attempt, bind at 1 2 3, prim. cbn. rewrite Ht.
  by destruct (d <=? t).
Qed.

(** [too_late] case by case. *)
Lemma too_late_cases d body skew m late (s s' : state W) :
  too_late d body skew m s = (Done (Ok late), s') ->
  exists t s1, ticks t s s1 /\
    (late = true /\ d <= t /\ s' = s1 \/
     t < d /\ exists now, m s1 = (Done (Ok now), s') /\
       if late then ~ fresh_request body now skew else fresh_request body now skew).
Proof.
  destruct (ticks_exist s) as (t & s1 & Ht). rewrite (too_late_run _ _ _ _ _ _ _ Ht).
  exists t, s1. split; [done|]. destruct (N.leb_spec d t).
  { left. naive_solver. }
  right. split; [done|]. apply bind_ok in H2 as (now & s2 & Hm & [= <- <-]). exists now.
  split; [done|]. destruct (is_err _) eqn:Hi; rewrite <- fresh_request_ok, <- is_err_false; congruence.
Qed.

Lemma conclude_verdict fuel pk d skew cache q r (s s' : state W) n :
  conclude fuel pk d skew cache q r s = (Done (Ok n), s') ->
  verdict fuel pk d skew cache (SignedAuthRequest.body q) r s n s'.
Proof.
  unfold conclude. set (body := SignedAuthRequest.body q). intros HC.
  apply or_return_ok in HC as [([] & s1 & (Hv & ->)%lift_done & HC)|(e & (Hv & ->)%lift_done & ->)].
  2: { apply verdict_forged. rewrite <- authentic_ok. congruence. }
  symmetry in Hv. apply authentic_ok in Hv.
  apply bind_ok in HC as (now & s2 & Hw%unix_time_ms_wall & HC).
  apply bind_ok in HC as (late & s3 & HL & HC).
  apply too_late_cases in HL as (t1 & s4 & T1 & [(-> & Hd & ->)|(Hd & now1 & [= <- <-] & F1)]).
  { injection HC as <- <-. by eapply verdict_after_deadline. }
  destruct late; [injection HC as <- <-; by eapply verdict_request_expired|].
  apply or_return_ok in HC as [([] & s1 & (Hf & ->)%lift_done & HC)|(e & (Hf & ->)%lift_done & ->)].
  2: { eapply verdict_stale; [done..|]. rewrite <- fresh_response_ok. congruence. }
  symmetry in Hf. apply fresh_response_ok in Hf.
  assert (in_time d skew body r s s4) as Hin by (by exists now, s2, t1).
  apply or_return_ok in HC as [([] & s5 & Hr & HC)|(e & Hr & ->)].
  2: { destruct cache as [dir|]; [|discriminate]. by eapply verdict_not_recorded. }
  assert (recorded fuel cache r s4 s5) as Hrec by (destruct cache; [done|by injection Hr]).
  apply bind_ok in HC as (late & s6 & HL & HC).
  apply too_late_cases in HL as (t2 & s7 & T2 & [(-> & Hd2 & ->)|(Hd2 & now2 & Hw2%unix_time_ms_wall & F2)]).
  { injection HC as <- <-. by eapply verdict_deadline_at_end. }
  destruct late; injection HC as <- <-; [by eapply verdict_expired_at_end|].
  apply verdict_decision; [done|]. by exists s4, s5, s7, t2, now2.
Qed.

Lemma or_return_run {E A} (code : E -> N) (m : M W E A) (k : A -> M W error N) s r s1 :
  m s = (Done r, s1) ->
  or_return code m k s = match r with Ok a => k a s1 | Err e => (Done (Ok (code e)), s1) end.
Proof. intros Hm. unfold or_return, bind, attempt. rewrite Hm. by destruct r. Qed.

(** One of the two readings of the clocks. *)
Lemma late_run d body skew m now t (s s1 s2 : state W) late :
  ticks t s s1 -> t < d -> m s1 = (Done (Ok now), s2) ->
  (late = false <-> fresh_request body now skew) ->
  too_late d body skew m s = (Done (Ok late), s2).
Proof.
  intros Ht Hd Hm Hf. rewrite (too_late_run _ _ _ _ _ _ _ Ht), (proj2 (N.leb_gt _ _) Hd).
  unfold bind. rewrite Hm. unfold ret. do 3 f_equal.
  rewrite <- fresh_request_ok, <- is_err_false in Hf. destruct late, (is_err _); naive_solver.
Qed.

Lemma bind_step {E A B} (m : M W E A) (k : A -> M W E B) s a s1 :
  m s = (Done (Ok a), s1) -> bind m k s = k a s1.
Proof. intros Hm. unfold bind. by rewrite Hm. Qed.

Lemma past_run d body skew m t (s s1 : state W) :
  ticks t s s1 -> d <= t -> too_late d body skew m s = (Done (Ok true), s1).
Proof. intros Ht Hd. by rewrite (too_late_run _ _ _ _ _ _ _ Ht), (proj2 (N.leb_le _ _) Hd). Qed.

Lemma recorded_run fuel cache r (s s' : state W) :
  recorded fuel cache r s s' <->
  match cache with Some dir => record_replay_marker fuel dir r | None => ret tt end s
    = (Done (Ok tt), s').
Proof. destruct cache; cbn; [done|]. unfold ret. naive_solver. Qed.

(** The run up to the recording. *)
Lemma conclude_verified fuel pk d skew cache q r now (s s1 : state W) :
  authentic pk (SignedAuthRequest.body q) r -> wall now s s1 ->
  conclude fuel pk d skew cache q r s = (
    let! late := too_late d (SignedAuthRequest.body q) skew (ret now) in
    if late : bool then ret EXIT_UNAVAILABLE
    else or_return (fun _ => EXIT_TAMPER)
      (lift (AuthResponseBody.verify_freshness (SignedAuthResponse.body r) now skew)) (fun _ =>
    or_return (fun _ => EXIT_TAMPER)
      match cache with Some dir => record_replay_marker fuel dir r | None => ret tt end (fun _ =>
    let! late := too_late d (SignedAuthRequest.body q) skew unix_time_ms in
    if late : bool then ret EXIT_UNAVAILABLE
    else ret (exit_code_for_decision (AuthResponseBody.decision (SignedAuthResponse.body r)))))) s1.
Proof.
  intros Hv%authentic_ok Hw%unix_time_ms_wall. unfold conclude.
  rewrite (or_return_run _ _ _ s (Ok tt) s) by (unfold lift; by rewrite Hv).
  by rewrite (bind_step _ _ _ _ _ Hw).
Qed.

Lemma conclude_in_time fuel pk d skew cache q r (s s1 : state W) :
  authentic pk (SignedAuthRequest.body q) r -> in_time d skew (SignedAuthRequest.body q) r s s1 ->
  conclude fuel pk d skew cache q r s = or_return (fun _ => EXIT_TAMPER)
    match cache with Some dir => record_replay_marker fuel dir r | None => ret tt end (fun _ =>
    let! late := too_late d (SignedAuthRequest.body q) skew unix_time_ms in
    if late : bool then ret EXIT_UNAVAILABLE
    else ret (exit_code_for_decision (AuthResponseBody.decision (SignedAuthResponse.body r)))) s1.
Proof.
  intros Hv (now & s2 & t & Hw & Ht & Hd & Hq & Hr%fresh_response_ok).
  rewrite (conclude_verified _ _ _ _ _ _ _ _ _ _ Hv Hw).
  rewrite (bind_step _ _ s2 false s1) by (by eapply late_run).
  by rewrite (or_return_run _ _ _ s1 (Ok tt) s1) by (unfold lift; by rewrite Hr).
Qed.

Lemma verdict_conclude fuel pk d skew cache q r (s s' : state W) n :
  verdict fuel pk d skew cache (SignedAuthRequest.body q) r s n s' ->
  conclude fuel pk d skew cache q r s = (Done (Ok n), s').
Proof.
  destruct 1 as [Hf|now s1 t s2 Hv Hw Ht Hd|now s1 t s2 Hv Hw Ht Hd Hq|now s1 t s2 Hv Hw Ht Hd Hq Hr
    |dir s1 e s2 Hv Hi -> Hr|s1 s2 t s3 Hv Hi Hr Ht Hd|s1 s2 t s3 now s4 Hv Hi Hr Ht Hd Hw Hq
    |s1 Hv (s2 & s3 & s4 & t & now & Hi & Hr & Ht & Hd & Hw & Hq)];
    try rewrite (conclude_verified _ _ _ _ _ _ _ _ _ _ Hv Hw);
    try rewrite (conclude_in_time _ _ _ _ _ _ _ _ _ Hv Hi);
    try apply recorded_run in Hr; try (rewrite (or_return_run _ _ _ _ _ _ Hr));
    try apply unix_time_ms_wall in Hw.
  - rewrite <- authentic_ok in Hf. unfold conclude.
    rewrite (or_return_run _ _ _ s (SignedAuthResponse.verify_for_request r _ pk) s) by done.
    by destruct (SignedAuthResponse.verify_for_request r _ pk) as [[]|].
  - by rewrite (bind_step _ _ s1 true s2) by (by eapply past_run).
  - by rewrite (bind_step _ _ s1 true s2) by (by eapply late_run).
  - rewrite (bind_step _ _ s1 false s2) by (by eapply late_run).
    rewrite <- fresh_response_ok in Hr.
    rewrite (or_return_run _ _ _ s2 (AuthResponseBody.verify_freshness _ now skew) s2) by done.
    by destruct (AuthResponseBody.verify_freshness _ now skew) as [[]|].
  - done.
  - by rewrite (bind_step _ _ s2 true s3) by (by eapply past_run).
  - by rewrite (bind_step _ _ s2 true s4) by (by eapply late_run).
  - by rewrite (bind_step _ _ s3 false s1) by (by eapply late_run).
Qed.
End Conclude.

(** C6: the verdict on a response is exactly that of the table [verdict].  It
    counts as tampered with when it is not authentic for the request, not
    fresh while the request still is, or not recorded; the answer came too
    late when the deadline had passed or the request had expired at one of the
    two readings of the clocks; else the exit code is that of the agent's
    decision. *)
Theorem response_verdict `{Kernel W} `{Crypto} `{Hex} (fuel : nat) (pk : bytes) (d skew : N)
  (cache : option File) (q : SignedAuthRequest.t) (r : SignedAuthResponse.t) (n : N)
  (s s' : state W) :
  conclude fuel pk d skew cache q r s = (Done (Ok n), s') <->
  verdict fuel pk d skew cache (SignedAuthRequest.body q) r s n s'.
Proof. split; [apply conclude_verdict|apply verdict_conclude]. Qed.

(** ** Witness *)

#[local] Existing Instance sample_crypto.
#[local] Existing Instance sample_hex.

Definition vector_signed_request : SignedAuthRequest.t := SignedAuthRequest.mk vector_request [].
Definition verdict_end : state sim :=
  (conclude 400 (sample_key x09) 5000000000 30000 None vector_signed_request vector_signed_response
     (start sim0)).2.

Lemma verdict_run :
  conclude 400 (sample_key x09) 5000000000 30000 None vector_signed_request vector_signed_response
    (start sim0) = (Done (Ok EXIT_APPROVED), verdict_end).
Proof. run_here. Qed.

Lemma response_verdict_witness :
  verdict 400 (sample_key x09) 5000000000 30000 None vector_request vector_signed_response
    (start sim0) EXIT_APPROVED verdict_end.
Proof.
  exact (proj1 (response_verdict 400 (sample_key x09) 5000000000 30000 None vector_signed_request
    vector_signed_response EXIT_APPROVED (start sim0) verdict_end) verdict_run).
Defined.
