(* ===== verification/RequestProps.v ===== *)
(** * Properties of the [request] subcommand

    What each exit code means, from the wire to the code: a decision is
    reported only for an authenticated, bound and fresh response; nothing is
    sent under an unsafe configuration; a response that fails verification
    never becomes a fallback; the exchange stays within its budget; no
    descriptor outlives the call. *)

From Stdlib Require Import NArith ZArith Lia List Bool.
From Stdlib Require Import Strings.Byte Strings.String.
From stdpp Require Import base decidable list option strings.
From S2P Require Import Prelude RustStd Crypto Protocol Canonical Samples ProtocolProps Sys.
From S2P Require Import Ownership Io Transport Sim TransportProps Frame Trust Common Keys Config.
From S2P Require Import Replay Request Verdict.

Open Scope N_scope.

(** ** Descriptors *)

Section RequestOwns.
Context `{Kernel W} `{Crypto} `{Hex} `{Toml}.
Context `{SerdeJson SignedAuthRequest.t} `{SerdeJson SignedAuthResponse.t}.

Lemma neutral_check_deadline d : neutral (check_deadline (W := W) d).
Proof. unfold check_deadline, instant_now. neutral_tac. Qed.

Lemma neutral_wait fuel f events d : neutral (wait (W := W) fuel f events d).
Proof. unfold wait, wait_round, instant_now, poll. neutral_tac. Qed.

Lemma neutral_transfer {T} fuel self events (op : M W io_error T) :
  neutral op -> neutral (transfer fuel self events op).
Proof.
  intros Hop. unfold transfer, transfer_round. neutral_tac; [apply neutral_check_deadline|].
  apply neutral_wait.
Qed.

Lemma neutral_deadline_read (t : DeadlineIo) n : neutral (read_ (W := W) t n).
Proof. apply neutral_transfer. unfold read. neutral_tac. Qed.

Lemma neutral_deadline_write (t : DeadlineIo) b : neutral (write_ (W := W) t b).
Proof. apply neutral_transfer. unfold write. neutral_tac. Qed.

Lemma neutral_connect_round fuel f path d : neutral (connect_round (W := W) fuel f path d).
Proof.
  unfold connect_round, sys_connect, finish_pending, take_error, backlog_pause, instant_now, sleep.
  apply neutral_bind; [apply neutral_check_deadline|]. intros _.
  apply neutral_bind; [by apply neutral_prim|]. intros [[]|[]]; neutral_tac; apply neutral_wait.
Qed.

Lemma owns_connect fuel path d : owns [] (fun st => [stream st]) (connect (W := W) fuel path d).
Proof.
  unfold connect. eapply owns_bind; [apply neutral_check_deadline|cbv beta]. intros _.
  case_match; [apply owns_throw|].
  eapply owns_bind; [apply owns_into; by apply owns_open|cbv beta]. intros f.
  intros s r s' HO.
  assert (owns [f] (fun a : DeadlineStream => f :: []) (owned f (
    do! into transport_error_from (set_cloexec f) ;;
    do! into transport_error_from (set_nonblocking f) ;;
    do! loop fuel (fun _ : unit => connect_round fuel f path d) tt ;;
    do! check_deadline d ;;
    ret {| stream := f; deadline := d |}) : M W TransportError DeadlineStream)) as Ho.
  { apply (owns_owned f [] (fun _ => [])). unfold set_cloexec, set_nonblocking.
    neutral_tac; [apply neutral_connect_round|apply neutral_check_deadline]. }
  destruct (Ho s r s' HO) as (evs & Hm & Hb). exists evs. split; [done|cbv beta]. intros g. rewrite Hb.
  destruct r as [st|]; [|done]. apply owned_ok in HO. run_inv HO. done.
Qed.

Lemma neutral_write_json_frame {T} `{SerdeJson T} fuel (t : DeadlineIo) (v : T) :
  neutral (write_json_frame (W := W) fuel t v).
Proof.
  unfold write_json_frame. neutral_tac; apply neutral_write_all, neutral_deadline_write.
Qed.

Lemma neutral_read_json_frame {T} `{SerdeJson T} fuel (t : DeadlineIo) :
  neutral (read_json_frame (W := W) (T := T) fuel t).
Proof.
  unfold read_json_frame. neutral_tac; apply neutral_read_exact, neutral_deadline_read.
Qed.

Lemma neutral_read_trusted_file fuel path ro p : neutral (read_trusted_file (W := W) fuel path ro p).
Proof.
  unfold read_trusted_file. eapply owns_bind; [apply owns_into, owns_open_file|cbv beta].
  intros f. eapply (owns_bind _ (fun _ => [])).
  - apply neutral_scoped, neutral_into, neutral_take_read_to_string. intros n.
    unfold read_, file_read, read. neutral_tac.
  - intros c. unfold fail. neutral_tac.
Qed.

Lemma neutral_read_key_material fuel path ro p :
  neutral (read_key_material (W := W) fuel path ro p).
Proof. unfold read_key_material. neutral_tac. apply neutral_read_trusted_file. Qed.

Lemma neutral_load_signing_key fuel h f ro : neutral (load_signing_key (W := W) fuel h f ro).
Proof. unfold load_signing_key, fail. neutral_tac. apply neutral_read_key_material. Qed.

Lemma neutral_load_public_key fuel h f label ro :
  neutral (load_public_key (W := W) fuel h f label ro).
Proof. unfold load_public_key, fail. neutral_tac; apply neutral_read_key_material. Qed.

Lemma neutral_load_helper_config fuel path ro : neutral (load_helper_config (W := W) fuel path ro).
Proof. unfold load_helper_config. neutral_tac. apply neutral_read_trusted_file. Qed.

Lemma neutral_too_late d body skew now :
  neutral now -> neutral (too_late (W := W) d body skew now).
Proof. intros Hn. unfold too_late. neutral_tac. apply neutral_check_deadline. Qed.

Lemma neutral_conclude fuel pk d skew cache q r :
  neutral (conclude (W := W) fuel pk d skew cache q r).
Proof.
  unfold conclude. apply neutral_or_return; [apply owns_lift|]. intros _.
  apply neutral_bind; [apply neutral_unix_time_ms|]. intros now.
  apply neutral_bind; [apply neutral_too_late, neutral_ret|]. intros []; [apply neutral_ret|].
  apply neutral_or_return; [apply owns_lift|]. intros _.
  apply neutral_or_return.
  { destruct cache; [apply neutral_record_replay_marker|apply neutral_ret]. }
  intros _. apply neutral_bind; [apply neutral_too_late, neutral_unix_time_ms|].
  intros []; apply neutral_ret.
Qed.

Lemma neutral_exchange fuel socket pk d skew cache q :
  neutral (exchange (W := W) fuel socket pk d skew cache q).
Proof.
  unfold exchange. eapply owns_or_return; [apply owns_connect|cbv beta]. intros st.
  apply neutral_scoped. cbv zeta. apply neutral_or_return; [apply neutral_write_json_frame|].
  intros _. apply neutral_or_return; [apply neutral_read_json_frame|]. intros r.
  apply neutral_conclude.
Qed.

Lemma neutral_build_request oc now ctx : neutral (build_request (W := W) oc now ctx).
Proof. unfold build_request, fill_bytes, process_id, add_u64. neutral_tac. Qed.

Lemma neutral_send_request oc fuel args sk pk socket k h n sv t skew cache :
  neutral (send_request (W := W) oc fuel args sk pk socket k h n sv t skew cache).
Proof.
  unfold send_request. apply neutral_bind; [apply neutral_unix_time_ms|]. intros now.
  apply neutral_or_return; [apply neutral_operation_budget|]. intros [d e].
  case_match; [apply neutral_ret|]. apply neutral_bind; [apply neutral_build_request|]. intros body.
  cbv zeta. apply neutral_bind; [apply owns_lift|]. intros q. apply neutral_exchange.
Qed.

Lemma neutral_run_request oc fuel args : neutral (run_request (W := W) oc fuel args).
Proof.
  unfold run_request. apply neutral_or_return; [apply neutral_load_helper_config|]. intros c.
  cbv zeta. apply neutral_or_return; [apply neutral_load_signing_key|]. intros sk.
  apply neutral_or_return; [apply neutral_load_public_key|]. intros pk.
  destruct (or (socket_arg args) (socket_path c)); [|apply neutral_ret].
  case_match; [apply neutral_ret|].
  destruct (or (host_id_arg args) (host_id c)); [|apply neutral_ret].
  destruct (or (hostname_arg args) (hostname c)); [|apply neutral_ret].
  destruct (or (replay_cache_dir_arg args) (replay_cache_dir c)).
  - eapply owns_or_return; [apply owns_open_file|cbv beta]. intros dir.
    apply neutral_scoped, neutral_send_request.
  - apply neutral_send_request.
Qed.
End RequestOwns.

(** Whatever its exit code or error, the request subcommand closes every
    descriptor that it opens, and closes it once. *)
Theorem request_keeps_no_descriptor `{Kernel W} `{Crypto} `{Hex} `{Toml}
  `{SerdeJson SignedAuthRequest.t} `{SerdeJson SignedAuthResponse.t} (overflow_checks : bool)
  (fuel : nat) (args : RequestArgs) :
  owns [] (fun _ => []) (run_request (W := W) overflow_checks fuel args).
Proof. apply neutral_run_request. Qed.

(** ** Before the exchange *)

(** Calls that neither reach a peer nor change a file. *)
Definition offline (e : event) : Prop :=
  match e with
  | EvSocket _ | EvSetCloexec _ _ | EvSetNonblocking _ _ | EvConnect _ _ _ | EvBind _ _ | EvAccept _ _
  | EvWrite _ _ _ | EvUnlink _ _ | EvUnlinkat _ _ _ | EvStdout _ => False
  | _ => True
  end.

Section Offline.
Context `{Kernel W} `{Crypto} `{Hex} `{Toml}.

Lemma offline_scoped {E A} f (m : M W E A) : emits offline m -> emits offline (scoped f m).
Proof. intros Hm. by apply emits_scoped. Qed.

Lemma offline_validate file ro d p : emits offline (validate file ro d p : M W _ _).
Proof. unfold validate, fstat. respects_tac. by apply emits_prim. Qed.

Lemma offline_walk ns file ro d p : emits offline (walk file ns ro d p : M W _ _).
Proof.
  revert file. induction ns as [|n ns IH]; intros file; cbn [walk]; cbv zeta.
  - apply respects_bind; [apply _| |intros _; apply respects_ret; apply _].
    apply emits_owned; [apply offline_validate|done].
  - apply respects_bind; [apply _| |intros f].
    + apply emits_owned; [|done]. unfold openat. respects_tac. by apply emits_prim.
    + apply respects_bind; [apply _|by apply emits_close|]. intros _.
      apply respects_bind; [apply _| |intros _; apply IH].
      apply emits_owned; [apply offline_validate|done].
Qed.

Lemma offline_open path ro d p : emits offline (open path ro d p : M W _ _).
Proof.
  unfold open, getcwd, sys_open. respects_tac; try (by apply emits_prim); try apply offline_walk.
  all: apply emits_owned; [apply offline_validate|done].
Qed.

Lemma offline_read_trusted_file fuel path ro p :
  emits offline (read_trusted_file fuel path ro p : M W _ _).
Proof.
  unfold read_trusted_file, fail. respects_tac; [apply offline_open|].
  apply offline_scoped. unfold take_read_to_string, take_read_to_end, read_, file_read, read.
  respects_tac. by apply emits_prim.
Qed.

Lemma offline_read_key_material fuel path ro p :
  emits offline (read_key_material fuel path ro p : M W _ _).
Proof. unfold read_key_material. respects_tac. apply offline_read_trusted_file. Qed.

Lemma offline_load_helper_config fuel path ro :
  emits offline (load_helper_config fuel path ro : M W _ _).
Proof. unfold load_helper_config. respects_tac. apply offline_read_trusted_file. Qed.

Lemma offline_load_signing_key fuel h f ro :
  emits offline (load_signing_key fuel h f ro : M W _ _).
Proof. unfold load_signing_key, fail. respects_tac. apply offline_read_key_material. Qed.

Lemma offline_load_public_key fuel h f label ro :
  emits offline (load_public_key fuel h f label ro : M W _ _).
Proof. unfold load_public_key, fail. respects_tac; apply offline_read_key_material. Qed.

Lemma offline_unix_time_ms : emits offline (unix_time_ms : M W _ _).
Proof. unfold unix_time_ms, system_now. respects_tac. by apply emits_prim. Qed.

Lemma offline_operation_budget t now : emits offline (operation_budget t now : M W _ _).
Proof. unfold operation_budget, fail, instant_now. respects_tac. by apply emits_prim. Qed.

End Offline.

(** The request that is built from the clock, the random source and the
    arguments. *)
Definition request_of (now timeout : N) (random : bytes) (id client_pid : N) (ctx : RequestContext)
  : AuthRequestBody.t :=
  {| AuthRequestBody.protocol_version := PROTOCOL_VERSION;
     AuthRequestBody.request_id := B "req-" ++ show_N now ++ B "-" ++ show_N id;
     AuthRequestBody.nonce := take NONCE_LEN (random ++ replicate NONCE_LEN x00);
     AuthRequestBody.created_at_ms := now;
     AuthRequestBody.expires_at_ms := now + timeout;
     AuthRequestBody.linux_host_id := ctx_host_id ctx;
     AuthRequestBody.linux_hostname := ctx_hostname ctx;
     AuthRequestBody.pam_service := ctx_service ctx;
     AuthRequestBody.pam_user := ctx_user ctx;
     AuthRequestBody.pam_ruser := ctx_ruser ctx;
     AuthRequestBody.pam_rhost := ctx_rhost ctx;
     AuthRequestBody.pam_tty := ctx_tty ctx;
     AuthRequestBody.sudo_command := ctx_sudo_command ctx;
     AuthRequestBody.client_pid := Some client_pid;
     AuthRequestBody.key_id := ctx_key_id ctx;
     AuthRequestBody.alg := Ed25519 |}.

Section Sending.
Context `{Kernel W} `{Crypto} `{Hex} `{Toml}.
Context `{SerdeJson SignedAuthRequest.t} `{SerdeJson SignedAuthResponse.t} (oc : bool).

Lemma fill_bytes_ok {E} n b (s s' : state W) :
  fill_bytes (E := E) n s = (Done (Ok b), s') ->
  exists random, made s s' [EvRandom random] /\ b = take n (random ++ replicate n x00).
Proof.
  intros HF. apply bind_ok in HF as (r & s1 & (r' & [= <-] & Hm & _)%prim_done & [= <- <-]). eauto.
Qed.

Lemma process_id_ok {E} p (s s' : state W) :
  process_id (E := E) s = (Done (Ok p), s') ->
  exists pid, made s s' [EvProcessId pid] /\ p = pid mod 4294967296.
Proof.
  intros HF. apply bind_ok in HF as (r & s1 & (r' & [= <-] & Hm & _)%prim_done & [= <- <-]). eauto.
Qed.

Lemma build_request_ok now ctx timeout body (s s' : state W) :
  build_request oc now ctx s = (Done (Ok body), s') ->
  exists random id pid, made s s' [EvRandom random; EvProcessId id; EvProcessId pid] /\
    set_expires_at_ms body (now + timeout)
    = request_of now timeout random (id mod 4294967296) (pid mod 4294967296) ctx.
Proof.
  unfold build_request. intros HB.
  apply bind_ok in HB as (nonce & s1 & (random & M1 & ->)%fill_bytes_ok & HB).
  apply bind_ok in HB as (i & s2 & (id & M2 & ->)%process_id_ok & HB).
  apply bind_ok in HB as (e & s3 & He & HB).
  assert (s3 = s2) as ->.
  { unfold add_u64 in He. destruct (now + 30000 <=? u64_max); [by injection He|].
    destruct oc; [discriminate|by injection He]. }
  apply bind_ok in HB as (p & s4 & (pid & M3 & ->)%process_id_ok & [= <- <-]).
  exists random, id, pid. split; [|done].
  eapply (made_app s s1 s4 [_]); [exact M1|]. eapply (made_app s1 s2 s4 [_] [_]); [exact M2|exact M3].
Qed.

(** The context of the request, from the arguments and the configuration. *)
Definition context_of (args : RequestArgs) (c : HelperConfig) (host_id hostname : bytes)
  : RequestContext :=
  {| ctx_key_id := default (B "host-key-1") (or (key_id_arg args) (key_id c));
     ctx_host_id := host_id; ctx_hostname := hostname;
     ctx_service := default (B "sudo") (or (service_arg args) (service c));
     ctx_user := user args; ctx_ruser := ruser args; ctx_rhost := rhost args;
     ctx_tty := tty args; ctx_sudo_command := sudo_command args |}.

(** What was decided before anything was sent: the deadline and the request,
    from one reading of each clock, the random source and the process. *)
Record sending (ctx : RequestContext) (sk : SigningKey) (timeout d : N)
  (signed : SignedAuthRequest.t) (pre : list event) : Prop := {
  sending_calls : exists ns0 t0 random id pid,
    pre = [EvSystem (Some ns0); EvInstant t0; EvRandom random; EvProcessId id; EvProcessId pid] /\
    d = t0 + timeout * 1000000 /\ 0 < timeout /\ ns0 / 1000000 + timeout <= u64_max /\
    SignedAuthRequest.body signed = request_of (ns0 / 1000000) timeout random
      (id mod 4294967296) (pid mod 4294967296) ctx;
  sending_signed : SignedAuthRequest.sign (SignedAuthRequest.body signed) sk = Ok signed;
}.

Lemma send_request_ok fuel args sk pk socket k h n sv timeout skew cache code (s s' : state W) :
  send_request oc fuel args sk pk socket k h n sv timeout skew cache s = (Done (Ok code), s') ->
  (code = EXIT_UNSAFE_CONFIG /\ emitted offline s s') \/
  exists signed d pre s1, made s s1 pre /\
    sending {| ctx_key_id := k; ctx_host_id := h; ctx_hostname := n; ctx_service := sv;
               ctx_user := user args; ctx_ruser := ruser args; ctx_rhost := rhost args;
               ctx_tty := tty args; ctx_sudo_command := sudo_command args |}
      sk timeout d signed pre /\
    exchange fuel socket pk d skew cache signed s1 = (Done (Ok code), s').
Proof.
  unfold send_request. intros HS.
  apply bind_ok in HS as (now & s1 & Hu & HS).
  pose proof (emits_run _ _ _ _ _ offline_unix_time_ms Hu) as O1.
  apply unix_time_ms_ok in Hu as (_ & ns0 & -> & M1).
  apply or_return_ok in HS as [([d e] & s2 & Hb & HS)|(e & Hb & ->)].
  2: { left. split; [done|]. etransitivity; [exact O1|].
       eapply emits_run; [apply offline_operation_budget|exact Hb]. }
  pose proof (emits_run _ _ _ _ _ (offline_operation_budget _ _) Hb) as O2.
  apply operation_budget_ok in Hb as (Hpos & -> & Hmax & t0 & w & Ht & -> & _ & E2).
  destruct (existsb _ _).
  { injection HS as <- <-. left. split; [done|]. by etransitivity. }
  apply bind_ok in HS as (body & s3 & HB & HS). cbv zeta in HS.
  apply (build_request_ok _ _ timeout) in HB as (random & id & pid & M3 & Hbody).
  apply bind_ok in HS as (signed & s4 & (Hsig & ->)%lift_done & HS). symmetry in Hsig.
  apply map_err_ok in Hsig. right.
  exists signed, (t0 + timeout * 1000000), [EvSystem (Some ns0); EvInstant t0; EvRandom random;
    EvProcessId id; EvProcessId pid], s3.
  assert (SignedAuthRequest.body signed = set_expires_at_ms body (ns0 / 1000000 + timeout)) as Hsb.
  { unfold SignedAuthRequest.sign in Hsig. res_inv Hsig. by subst. }
  assert (made s1 s2 [EvInstant t0]) as M2 by by rewrite E2.
  split_and!; [|split|done].
  - eapply (made_app s s1 s3 [_]); [exact M1|]. eapply (made_app s1 s2 s3 [_]); [exact M2|exact M3].
  - rewrite Hbody in Hsb. exists ns0, t0, random, id, pid. by split_and!.
  - by rewrite Hsb.
Qed.
End Sending.

(** ** The exchange *)

(** The calls of a connect on the socket [f]. *)
Definition dials (f : fd) (path : bytes) (e : event) : Prop :=
  match e with
  | EvInstant _ | EvSleep _ => True
  | EvSetCloexec g _ | EvSetNonblocking g _ | EvTakeError g _ | EvPoll g _ _ _ => g = f
  | EvConnect g p _ => g = f /\ p = path
  | _ => False
  end.

(** A new socket [f] was connected to [path], and nothing else was done. *)
Definition connected (f : fd) (path : bytes) (evs : list event) : Prop :=
  exists t calls, evs = EvInstant t :: EvSocket (Ok f) :: calls /\ Forall (dials f path) calls /\
    exists r, In (EvConnect f path r) calls.

Section Connected.
Context `{Kernel W}.

Lemma dials_check_deadline f path d : emits (dials f path) (check_deadline d : M W _ _).
Proof. unfold check_deadline, instant_now. respects_tac. by apply emits_prim. Qed.

Lemma dials_connect_round fuel f path d :
  emits (dials f path) (connect_round fuel f path d : M W _ _).
Proof.
  unfold connect_round, sys_connect, finish_pending, backlog_pause, wait, wait_round, take_error,
    instant_now, poll, sleep.
  respects_tac; first [apply dials_check_deadline|by apply emits_prim].
Qed.

Definition any (e : event) : Prop := True.

Lemma any_connect_round fuel f path d : emits any (connect_round fuel f path d : M W _ _).
Proof.
  intros s. destruct (dials_connect_round fuel f path d s) as (evs & ? & ?).
  exists evs. split; [done|]. by apply Forall_true.
Qed.

Lemma connect_round_calls fuel f path d (s : state W) a s' :
  connect_round fuel f path d s = (Done (Ok a), s') ->
  exists r evs, made s s' evs /\ In (EvConnect f path r) evs.
Proof.
  unfold connect_round. intros HR.
  apply bind_ok in HR as ([] & s1 & HC & HR).
  eapply emits_run in HC as (e1 & M1 & _); [|apply (dials_check_deadline f path d)].
  apply bind_ok in HR as (r & s2 & (? & [= <-] & M2 & _)%prim_done & HR).
  eapply (emits_run any) in HR as (e3 & M3 & _).
  - exists r, (e1 ++ [EvConnect f path r] ++ e3). split.
    + eapply made_app; [exact M1|]. by eapply made_app.
    + apply in_or_app. right. by left.
  - unfold finish_pending, backlog_pause, wait, wait_round, take_error, instant_now, poll, sleep.
    respects_tac; by apply emits_prim.
Qed.

Lemma connect_ok fuel path d st (s s' : state W) :
  connect fuel path d s = (Done (Ok st), s') ->
  deadline st = d /\ exists evs, made s s' evs /\ connected (stream st) path evs.
Proof.
  unfold connect. intros HC.
  apply bind_ok in HC as ([] & s1 & HD & HC).
  assert (exists t, made s s1 [EvInstant t]) as (t & M1).
  { apply bind_ok in HD as (t & s0 & (? & [= <-] & M1 & _)%prim_done & HD). exists t.
    destruct (d <=? t); [discriminate|]. by injection HD as <-. }
  case_match; [discriminate|].
  apply bind_ok in HC as (f & s2 & HS%into_ok & HC). apply os_prim_ok in HS.
  apply owned_ok in HC.
  assert (emitted (dials f path) s2 s') as (calls & M3 & Hd).
  { eapply emits_run; [|exact HC]. unfold set_cloexec, set_nonblocking.
    respects_tac; first [apply dials_check_deadline|apply dials_connect_round|by apply emits_prim]. }
  apply bind_ok in HC as ([] & s3 & HX & HC).
  eapply (emits_run any) in HX as (e3 & X3 & _); [|unfold set_cloexec; respects_tac; by apply emits_prim].
  apply bind_ok in HC as ([] & s4 & HX & HC).
  eapply (emits_run any) in HX as (e4 & X4 & _); [|unfold set_nonblocking; respects_tac; by apply emits_prim].
  apply bind_ok in HC as ([] & s5 & HL & HC).
  assert (exists r evs, made s4 s5 evs /\ In (EvConnect f path r) evs) as (r & e5 & X5 & Hin).
  { destruct fuel as [|fuel']; [discriminate|]. cbn [loop] in HL.
    apply bind_ok in HL as (a & s6 & HR & HL).
    apply connect_round_calls in HR as (r & e6 & X6 & Hin).
    assert (emitted any s6 s5) as (e7 & X7 & _).
    { eapply emits_run; [|exact HL]. respects_tac. apply any_connect_round. }
    exists r, (e6 ++ e7). split; [by eapply made_app|]. apply in_or_app. by left. }
  apply bind_ok in HC as ([] & s6 & HX & [= <- <-]).
  eapply (emits_run any) in HX as (e6 & X6 & _).
  2: { unfold check_deadline, instant_now. respects_tac. by apply emits_prim. }
  assert (calls = e3 ++ e4 ++ e5 ++ e6) as Hcalls.
  { eapply made_inj; [exact M3|]. eapply made_app; [exact X3|]. eapply made_app; [exact X4|].
    by eapply made_app. }
  split; [done|]. exists (EvInstant t :: EvSocket (Ok f) :: calls). split.
  - eapply (made_app _ _ _ [_]); [exact M1|]. by eapply (made_app _ _ _ [_]).
  - exists t, calls. split_and!; [done|done|]. exists r. rewrite Hcalls.
    apply in_or_app; right. apply in_or_app; right. apply in_or_app. by left.
Qed.
End Connected.

Section Exchange.
Context `{Kernel W} `{Crypto} `{Hex}.
Context `{SerdeJson SignedAuthRequest.t} `{SerdeJson SignedAuthResponse.t}.

(** The descriptor carried the whole request out, then one whole response
    in, and nothing else. *)
Definition exchanged (f : fd) (signed : SignedAuthRequest.t) (r : SignedAuthResponse.t)
  (sent received : list event) : Prop :=
  exists question answer,
    to_vec signed = Ok question /\ from_slice answer = Ok r /\
    bytes_written f sent = frame question /\ bytes_read f sent = [] /\
    bytes_read f received = frame answer /\ bytes_written f received = [].

(** The run from [s] to [s'] got the response [r] to the request over one
    new connection to the socket. *)
Definition asked (f : fd) (socket : bytes) (signed : SignedAuthRequest.t)
  (r : SignedAuthResponse.t) (s s' : state W) : Prop :=
  exists connecting sent received, made s s' (connecting ++ sent ++ received) /\
    connected f socket connecting /\ exchanged f signed r sent received.

Lemma exchange_ok fuel socket pk d skew cache signed n (s s' : state W) :
  exchange fuel socket pk d skew cache signed s = (Done (Ok n), s') ->
  (n = EXIT_UNAVAILABLE \/ n = EXIT_PROTOCOL) \/
  exists r f s1 s2, asked f socket signed r s s1 /\
    verdict fuel pk d skew cache (SignedAuthRequest.body signed) r s1 n s2 /\
    made s2 s' [EvClose f].
Proof.
  unfold exchange. intros HE.
  apply or_return_ok in HE as [(st & s1 & Hc & HE)|(e & _ & ->)]; [|by left; left].
  apply connect_ok in Hc as (_ & connecting & M1 & Hconn).
  apply scoped_ok in HE as (s2 & HE & (? & _ & Mc & _)%prim_done). cbv zeta in HE.
  apply or_return_ok in HE as [([] & s3 & Hw & HE)|(e & _ & ->)].
  2: { left. destruct e; cbn; auto. }
  apply write_frame_wire in Hw as (question & Hq & _ & sent & M2 & Hsw & Hsr).
  apply or_return_ok in HE as [(r & s4 & Hr & HE)|(e & _ & ->)].
  2: { left. destruct e; cbn; auto. }
  apply read_frame_wire in Hr as (answer & Ha & _ & received & M3 & Hrr & Hrw).
  right. exists r, (stream st), s4, s2. split_and!; [|by apply conclude_verdict|exact Mc].
  exists connecting, sent, received. split_and!; [|done|by exists question, answer].
  eapply made_app; [exact M1|]. by eapply made_app.
Qed.

Lemma verdict_codes fuel pk d skew cache q r (s s' : state W) n :
  verdict fuel pk d skew cache q r s n s' ->
  n = EXIT_TAMPER \/ n = EXIT_UNAVAILABLE \/
  authentic pk q r /\ concluded fuel d skew cache q r s s' /\
    n = exit_code_for_decision (AuthResponseBody.decision (SignedAuthResponse.body r)).
Proof. destruct 1; auto. Qed.

Lemma exchange_codes fuel socket pk d skew cache signed n (s s' : state W) :
  exchange fuel socket pk d skew cache signed s = (Done (Ok n), s') ->
  In n [EXIT_APPROVED; EXIT_UNAVAILABLE; EXIT_CANCELLED; EXIT_FAILED; EXIT_DENIED; EXIT_TAMPER;
        EXIT_PROTOCOL].
Proof.
  intros [[->| ->]|(r & f & s1 & s2 & _ & HV & _)]%exchange_ok; [cbn; tauto..|].
  apply verdict_codes in HV as [->|[->|(_ & _ & ->)]]; [cbn; tauto..|].
  destruct (AuthResponseBody.decision _); cbn; tauto.
Qed.
End Exchange.

(** ** The whole run *)

Section Run.
Context `{Kernel W} `{Crypto} `{Hex} `{Toml}.
Context `{SerdeJson SignedAuthRequest.t} `{SerdeJson SignedAuthResponse.t} (oc : bool).

(** In production the keys came from trusted files of root, at the paths of
    the arguments or else of the configuration. *)
Definition pinned (args : RequestArgs) (c : HelperConfig) (sk : SigningKey) (pk : bytes)
  (s1 s2 s3 : state W) : Prop :=
  (exists path text m, or (key_file (key_input args)) (host_key_file c) = Some path /\
     read_trusted path true true text s1 s2 /\ key_text text m /\ signing_key_from_hex m = Ok sk) /\
  (exists path text m,
     or (agent_pubkey_file_arg (agent_pubkey_input args)) (agent_pubkey_file c) = Some path /\
     read_trusted path true false text s2 s3 /\ key_text text m /\
     public_key_from_hex m "agent public key" = Ok pk).

(** The inputs of a run: the configuration, the keys, the socket, the context
    of the request, the limits and the replay cache, as the arguments and the
    configuration determine them. *)
Record loaded (fuel : nat) (args : RequestArgs) (c : HelperConfig) (sk : SigningKey) (pk socket : bytes)
  (ctx : RequestContext) (timeout skew : N) (cache : option File) (s s' : state W) : Prop := {
  loaded_offline : emitted offline s s';
  loaded_files : exists s1 s2 s3,
    load_helper_config fuel (config_arg args) (require_root_owned args) s = (Done (Ok c), s1) /\
    load_signing_key fuel (key_hex (key_input args)) (or (key_file (key_input args)) (host_key_file c))
      (require_root_owned args) s1 = (Done (Ok sk), s2) /\
    load_public_key fuel (agent_pubkey_hex (agent_pubkey_input args))
      (or (agent_pubkey_file_arg (agent_pubkey_input args)) (agent_pubkey_file c))
      "agent public key" (require_root_owned args) s2 = (Done (Ok pk), s3) /\
    (require_root_owned args = true -> pinned args c sk pk s1 s2 s3) /\
    match or (replay_cache_dir_arg args) (replay_cache_dir c) with
    | None => cache = None /\ s' = s3
    | Some path => exists dir, cache = Some dir /\
        opened_trusted path (require_root_owned args) true true (file_fd dir) s3 s'
    end;
  loaded_socket : or (socket_arg args) (socket_path c) = Some socket /\ is_absolute socket = true;
  loaded_context : exists h n, or (host_id_arg args) (host_id c) = Some h /\
    or (hostname_arg args) (hostname c) = Some n /\ ctx = context_of args c h n;
  loaded_timeout : timeout = default 15000 (or (timeout_ms_arg args) (timeout_ms c));
  loaded_skew :
    skew = default 30000 (or (allowed_future_skew_ms_arg args) (allowed_future_skew_ms c));
}.

Definition close_cache (cache : option File) : list event :=
  match cache with Some dir => [EvClose (file_fd dir)] | None => [] end.

(** A run that went as far as the exchange. *)
Definition sent_request (fuel : nat) (args : RequestArgs) (n : N) (s s' : state W) : Prop :=
  exists c sk pk socket ctx timeout skew cache d signed pre s1 s2 s3,
    loaded fuel args c sk pk socket ctx timeout skew cache s s1 /\
    made s1 s2 pre /\ sending ctx sk timeout d signed pre /\
    exchange fuel socket pk d skew cache signed s2 = (Done (Ok n), s3) /\
    made s3 s' (close_cache cache).

Lemma pinned_ok fuel args c sk pk (s1 s2 s3 : state W) :
  load_signing_key fuel (key_hex (key_input args)) (or (key_file (key_input args)) (host_key_file c))
    (require_root_owned args) s1 = (Done (Ok sk), s2) ->
  load_public_key fuel (agent_pubkey_hex (agent_pubkey_input args))
    (or (agent_pubkey_file_arg (agent_pubkey_input args)) (agent_pubkey_file c))
    "agent public key" (require_root_owned args) s2 = (Done (Ok pk), s3) ->
  require_root_owned args = true -> pinned args c sk pk s1 s2 s3.
Proof.
  intros Hs Hp Hr. rewrite Hr in Hs, Hp.
  apply load_signing_key_trusted in Hs as (_ & p1 & t1 & m1 & ? & _ & ? & ? & ?).
  apply load_public_key_trusted in Hp as (_ & p2 & t2 & m2 & ? & _ & ? & ? & ?).
  split; [by exists p1, t1, m1|by exists p2, t2, m2].
Qed.

Lemma run_request_ok fuel args n (s s' : state W) :
  run_request oc fuel args s = (Done (Ok n), s') ->
  (n = EXIT_UNSAFE_CONFIG /\ emitted offline s s') \/ sent_request fuel args n s s'.
Proof.
  unfold run_request. intros HR.
  apply or_return_ok in HR as [(c & s1 & Hc & HR)|(e & Hc & ->)];
    pose proof (emits_run _ _ _ _ _ (offline_load_helper_config _ _ _) Hc) as O1; [|by left].
  cbv zeta in HR.
  apply or_return_ok in HR as [(sk & s2 & Hsk & HR)|(e & Hsk & ->)];
    pose proof (emits_run _ _ _ _ _ (offline_load_signing_key _ _ _ _) Hsk) as O2;
    [|by left; split; [|etransitivity]].
  apply or_return_ok in HR as [(pk & s3 & Hpk & HR)|(e & Hpk & ->)];
    pose proof (emits_run _ _ _ _ _ (offline_load_public_key _ _ _ _ _) Hpk) as O3;
    assert (emitted offline s s2) as O12 by (by etransitivity);
    [|by left; split; [|etransitivity]].
  assert (emitted offline s s3) as O by (by etransitivity). clear O1 O2 O3 O12.
  assert (forall code : N, ret (W := W) (E := error) code s3 = (Done (Ok n), s') -> code = EXIT_UNSAFE_CONFIG ->
    n = EXIT_UNSAFE_CONFIG /\ emitted offline s s') as Hret.
  { intros code HR' Hcode. unfold ret in HR'. injection HR' as Hn Hs'. subst. done. }
  destruct (or (socket_arg args) (socket_path c)) as [socket|] eqn:Esock; [|left; by apply (Hret _ HR)].
  destruct (is_absolute socket) eqn:Eabs; cbn [negb] in HR; [|left; by apply (Hret _ HR)].
  destruct (or (host_id_arg args) (host_id c)) as [h|] eqn:Eh; [|left; by apply (Hret _ HR)].
  destruct (or (hostname_arg args) (hostname c)) as [m|] eqn:Em; [|left; by apply (Hret _ HR)].
  pose proof (pinned_ok _ _ _ _ _ _ _ _ Hsk Hpk) as Hpin.
  destruct (or (replay_cache_dir_arg args) (replay_cache_dir c)) as [path|] eqn:Ecache.
  - apply or_return_ok in HR as [(dir & s4 & Hd & HR)|(e & Hd & ->)];
      pose proof (emits_run _ _ _ _ _ (offline_open _ _ _ _) Hd) as O4;
      [|by left; split; [|etransitivity]].
    apply open_log in Hd.
    apply scoped_ok in HR as (s5 & HR & (? & _ & Mc & _)%prim_done).
    apply send_request_ok in HR as [[-> O5]|(signed & d & pre & s6 & Mp & Hs & HE)].
    + left. split; [done|]. etransitivity; [exact O|]. etransitivity; [exact O4|].
      etransitivity; [exact O5|]. exists [EvClose (file_fd dir)]. by repeat constructor.
    + right. eexists c, sk, pk, socket, _, _, _, (Some dir), d, signed, pre, s4, s6, s5.
      split_and!; [|done|exact Hs|exact HE|exact Mc].
      split; [by etransitivity| |done|by exists h, m|done|done].
      exists s1, s2, s3. rewrite Ecache. split_and!; try done. by exists dir.
  - apply send_request_ok in HR as [[-> O5]|(signed & d & pre & s6 & Mp & Hs & HE)].
    + left. split; [done|]. by etransitivity.
    + right. eexists c, sk, pk, socket, _, _, _, None, d, signed, pre, s3, s6, s'.
      split_and!; [|done|exact Hs|exact HE|apply made_nil].
      split; [done| |done|by exists h, m|done|done].
      exists s1, s2, s3. by rewrite Ecache.
Qed.

(** A run that reports the decision of the response [r] to the request
    [signed]: the inputs, the signed request, the response, its verification
    under the pinned key, the recording in the configured cache, and the
    closing of what was opened. *)
Definition decided_on (fuel : nat) (args : RequestArgs) (signed : SignedAuthRequest.t)
  (r : SignedAuthResponse.t) (s s' : state W) : Prop :=
  exists c sk pk socket ctx timeout skew cache d pre f s1 s2 s3 s4,
    loaded fuel args c sk pk socket ctx timeout skew cache s s1 /\
    made s1 s2 pre /\ sending ctx sk timeout d signed pre /\
    asked f socket signed r s2 s3 /\
    authentic pk (SignedAuthRequest.body signed) r /\
    concluded fuel d skew cache (SignedAuthRequest.body signed) r s3 s4 /\
    made s4 s' (EvClose f :: close_cache cache).

Definition decided (fuel : nat) (args : RequestArgs) (r : SignedAuthResponse.t) (s s' : state W) : Prop :=
  exists signed, decided_on fuel args signed r s s'.

Lemma decision_run fuel args n (s s' : state W) :
  run_request oc fuel args s = (Done (Ok n), s') ->
  In n [EXIT_APPROVED; EXIT_DENIED; EXIT_CANCELLED; EXIT_FAILED] ->
  exists r, decided fuel args r s s' /\
    n = exit_code_for_decision (AuthResponseBody.decision (SignedAuthResponse.body r)).
Proof.
  intros HR Hn.
  assert (n <> EXIT_UNSAFE_CONFIG /\ n <> EXIT_UNAVAILABLE /\ n <> EXIT_PROTOCOL /\ n <> EXIT_TAMPER)
    as (N1 & N2 & N3 & N4).
  { cbn in Hn. repeat (destruct Hn as [<-|Hn]; [done|]). done. }
  apply run_request_ok in HR as [[-> _]|HS]; [done|].
  destruct HS as (c & sk & pk & socket & ctx & timeout & skew & cache & d & signed & pre & s1 & s2 &
    s3 & Hl & Mp & Hs & HE & Mc).
  apply exchange_ok in HE as [[->| ->]|(r & f & s4 & s5 & Ha & HV & Mf)]; [done..|].
  apply verdict_codes in HV as [->|[->|(Hau & Hco & Hd)]]; [done..|].
  exists r. split; [|done].
  exists signed, c, sk, pk, socket, ctx, timeout, skew, cache, d, pre, f, s1, s2, s4, s5.
  split_and!; try done. by eapply (made_app _ _ _ [_]).
Qed.

Lemma run_codes fuel args n (s s' : state W) :
  run_request oc fuel args s = (Done (Ok n), s') ->
  In n [EXIT_APPROVED; EXIT_UNAVAILABLE; EXIT_CANCELLED; EXIT_FAILED; EXIT_DENIED; EXIT_TAMPER;
        EXIT_UNSAFE_CONFIG; EXIT_PROTOCOL].
Proof.
  intros [[-> HO]|HS]%run_request_ok; [cbn; tauto|].
  destruct HS as (? & ? & ? & ? & ? & ? & ? & ? & ? & ? & ? & ? & ? & ? & _ & _ & _ & HE & _).
  apply exchange_codes in HE. cbn in *. tauto.
Qed.
End Run.

(** The subcommand reports nothing but the eight documented codes, and
    the code of an unsafe configuration only when it reached no peer and
    changed no file. *)
Theorem request_exit_codes `{Kernel W} `{Crypto} `{Hex} `{Toml}
  `{SerdeJson SignedAuthRequest.t} `{SerdeJson SignedAuthResponse.t} (overflow_checks : bool)
  (fuel : nat) (args : RequestArgs) (n : N) (s s' : state W) :
  run_request overflow_checks fuel args s = (Done (Ok n), s') ->
  In n [EXIT_APPROVED; EXIT_UNAVAILABLE; EXIT_CANCELLED; EXIT_FAILED; EXIT_DENIED; EXIT_TAMPER;
        EXIT_UNSAFE_CONFIG; EXIT_PROTOCOL] /\
  (n = EXIT_UNSAFE_CONFIG -> emitted offline s s').
Proof.
  intros HR. split; [by eapply run_codes|]. intros ->.
  apply run_request_ok in HR as [[_ HO]|HS]; [done|].
  destruct HS as (? & ? & ? & ? & ? & ? & ? & ? & ? & ? & ? & ? & ? & ? & _ & _ & _ & HE & _).
  apply exchange_codes in HE.
  cbn in HE. unfold EXIT_UNSAFE_CONFIG in HE. repeat (destruct HE as [HE|HE]; [done|]). done.
Qed.

(** C5: when the subcommand reports a decision (approved, denied, cancelled
    or failed), it is that of a response [r] for which [decided] holds: the
    run loaded its inputs, in production the keys from trusted files of root;
    signed one request for the user it was called for, with a nonce drawn in
    this run and the lifetime of its budget; connected to the configured
    socket, sent the request whole and received [r] whole over that one
    connection; [r] is authentic under the pinned key for exactly that
    request; request and response were fresh and the deadline had not passed;
    [r] was recorded in the replay cache, if one is configured, and after
    that the deadline had still not passed and the request was still fresh. *)
Theorem decision_is_authenticated `{Kernel W} `{Crypto} `{Hex} `{Toml}
  `{SerdeJson SignedAuthRequest.t} `{SerdeJson SignedAuthResponse.t} (overflow_checks : bool)
  (fuel : nat) (args : RequestArgs) (n : N) (s s' : state W) :
  run_request overflow_checks fuel args s = (Done (Ok n), s') ->
  In n [EXIT_APPROVED; EXIT_DENIED; EXIT_CANCELLED; EXIT_FAILED] ->
  exists r, decided fuel args r s s' /\
    n = exit_code_for_decision (AuthResponseBody.decision (SignedAuthResponse.body r)).
Proof. apply decision_run. Qed.

(** ** The budget *)

(** Calls that do not concern a peer. *)
Definition local (e : event) : Prop :=
  match e with
  | EvSleep _ | EvSocket _ | EvSetCloexec _ _ | EvSetNonblocking _ _ | EvConnect _ _ _
  | EvTakeError _ _ | EvPoll _ _ _ _ | EvBind _ _ | EvAccept _ _ => False
  | _ => True
  end.

(** First calls under the discipline of the deadline, then local ones. *)
Definition phased {W E A} (d : N) (m : M W E A) : Prop :=
  forall s, exists net rest, made s (m s).2 (net ++ rest) /\
    disciplined d None net = true /\ Forall local rest.

Section Phases.
Context `{Kernel W} `{Crypto} `{Hex} `{Toml}.
Context `{SerdeJson SignedAuthRequest.t} `{SerdeJson SignedAuthResponse.t}.

Lemma phased_local {E A} d (m : M W E A) : emits local m -> phased d m.
Proof. intros Hm s. destruct (Hm s) as (evs & ? & ?). by exists [], evs. Qed.

Lemma phased_disc_bind {E A B} d (m : M W E A) (k : A -> M W E B) :
  disc_from d None m -> (forall s a s', m s = (Done (Ok a), s') -> phased d (k a)) ->
  phased d (bind m k).
Proof.
  intros Hm Hk s. destruct (Hm s) as (e1 & M1 & D1). unfold bind.
  destruct (m s) as [[[a|e]| |] s1] eqn:Em; cbn [snd] in *;
    try (exists e1, []; rewrite app_nil_r; by split_and!).
  destruct (Hk s a s1 Em s1) as (e2 & e3 & M2 & D2 & L2). exists (e1 ++ e2), e3.
  rewrite <- app_assoc. split_and!; [by eapply made_app|by apply disciplined_app|done].
Qed.

Lemma phased_bind_local {E A B} d (m : M W E A) (k : A -> M W E B) :
  phased d m -> (forall a, emits local (k a)) -> phased d (bind m k).
Proof.
  intros Hm Hk s. destruct (Hm s) as (e1 & e2 & M1 & D1 & L1). unfold bind.
  destruct (m s) as [[[a|e]| |] s1]; cbn [snd] in *; try (by exists e1, e2).
  destruct (Hk a s1) as (e3 & M2 & L2). exists e1, (e2 ++ e3).
  rewrite app_assoc. split_and!; [by eapply made_app|done|by apply Forall_app].
Qed.

Lemma phased_or_return {E A} d (code : E -> N) (m : M W E A) (k : A -> M W error N) :
  disc_from d None m -> (forall s a s', m s = (Done (Ok a), s') -> phased d (k a)) ->
  phased d (or_return code m k).
Proof.
  intros Hm Hk. apply phased_disc_bind; [by apply disc_attempt|].
  intros s r s' Ha. apply attempt_ok in Ha as (r' & Ha & [= ->]).
  destruct r' as [a|e]; [by eapply Hk|]. apply phased_local, respects_ret; apply _.
Qed.

Lemma phased_scoped {E A} d f (m : M W E A) : phased d m -> phased d (scoped f m).
Proof.
  intros Hm. unfold scoped. apply phased_bind_local.
  - intros s. specialize (Hm s). unfold attempt. by destruct (m s) as [[?| |] ?].
  - intros r. apply respects_bind; [apply _|by apply emits_close|].
    intros _. apply respects_lift; apply _.
Qed.

Section Io.
Context (io : DeadlineIo).
Let d := deadline (io_stream io).

Lemma disc_io_read n : disc_from d None (read_ (W := W) io n).
Proof. apply disc_transfer; [done|]. intros t. apply disc_read. Qed.

Lemma disc_io_write b : disc_from d None (write_ (W := W) io b).
Proof. apply disc_transfer; [done|]. intros t. apply disc_write. Qed.

Lemma disc_read_exact fuel n : disc_from d None (read_exact (W := W) fuel io n).
Proof.
  apply disc_loop. intros [need acc]. case_decide; [apply disc_ret|].
  apply disc_bind; [apply disc_attempt, disc_io_read|].
  intros [[|b bs]|e]; repeat case_decide; apply disc_throw || apply disc_ret || apply disc_panic.
Qed.

Lemma disc_write_all fuel b : disc_from d None (write_all (W := W) fuel io b).
Proof.
  apply disc_loop. intros buf. case_decide; [apply disc_ret|].
  apply disc_bind; [apply disc_attempt, disc_io_write|].
  intros [[|n]|e]; repeat case_decide; apply disc_throw || apply disc_ret || apply disc_panic.
Qed.

Lemma disc_write_json_frame {T} `{SerdeJson T} fuel (v : T) :
  disc_from d None (write_json_frame (W := W) fuel io v).
Proof.
  apply disc_bind; [apply disc_lift|]. intros b. case_match; [apply disc_throw|]. cbv zeta.
  apply disc_bind; [apply disc_into, disc_write_all|]. intros _.
  apply disc_bind; [apply disc_into, disc_write_all|]. intros _. apply disc_ret.
Qed.

Lemma disc_read_json_frame {T} `{SerdeJson T} fuel :
  disc_from d None (read_json_frame (W := W) (T := T) fuel io).
Proof.
  apply disc_bind; [apply disc_into, disc_read_exact|]. intros b. cbv zeta.
  case_match; [apply disc_throw|].
  apply disc_bind; [apply disc_into, disc_read_exact|]. intros b'. apply disc_lift.
Qed.
End Io.

Lemma local_cleanup fuel dir now : emits local (cleanup_markers fuel dir now : M W _ _).
Proof.
  assert (forall n, emits local (read_marker fuel dir n : M W _ _)) as Hread.
  { intros n. unfold read_marker, openat. respects_tac; [by apply emits_prim|].
    apply emits_scoped; [|done]. unfold fstat, take_read_to_string, take_read_to_end, read_,
      file_read, read. respects_tac; by apply emits_prim. }
  unfold cleanup_markers, cleanup_round, cleanup_entry, dup_cloexec, fdopendir, readdir, closedir,
    unlinkat.
  respects_tac; try (by apply emits_prim); try apply Hread.
  apply emits_owned; [|done]. respects_tac. by apply emits_prim.
Qed.

Lemma local_record fuel dir r : emits local (record_replay_marker fuel dir r : M W _ _).
Proof.
  unfold record_replay_marker, unix_time_ms, system_now, create_marker, openat, fail.
  respects_tac; try (by apply emits_prim); [apply local_cleanup|].
  apply emits_scoped; [|done]. respects_tac. by apply emits_write_fmt.
Qed.

Lemma local_too_late d body skew now :
  emits local now -> emits local (too_late d body skew now : M W _ _).
Proof.
  intros Hn. unfold too_late, check_deadline, instant_now. respects_tac. by apply emits_prim.
Qed.

Lemma local_unix_time_ms : emits local (unix_time_ms : M W _ _).
Proof. unfold unix_time_ms, system_now. respects_tac. by apply emits_prim. Qed.

Lemma local_conclude fuel pk d skew cache q r :
  emits local (conclude fuel pk d skew cache q r : M W _ _).
Proof.
  unfold conclude, or_return. respects_tac; try apply local_unix_time_ms; try apply local_record;
    apply local_too_late; [apply respects_ret; apply _|apply local_unix_time_ms].
Qed.

Lemma connect_deadline fuel path d st (s s' : state W) :
  connect fuel path d s = (Done (Ok st), s') -> deadline st = d.
Proof. unfold connect. intros HC. run_inv HC. case_match; [discriminate|]. by run_inv HC. Qed.

Lemma phased_exchange fuel socket pk d skew cache q :
  phased (W := W) d (exchange fuel socket pk d skew cache q).
Proof.
  unfold exchange. apply phased_or_return; [apply disc_connect|].
  intros s st s' Hst%connect_deadline. apply phased_scoped. cbv zeta. subst d.
  apply phased_or_return; [apply (disc_write_json_frame {| io_fuel := fuel; io_stream := st |})|].
  intros _ _ _ _.
  apply phased_or_return; [apply (disc_read_json_frame {| io_fuel := fuel; io_stream := st |})|].
  intros _ r _ _. apply phased_local, local_conclude.
Qed.
End Phases.


(** ** Witnesses: a complete exchange with an agent that approves *)

#[local] Existing Instance sample_crypto.
#[local] Existing Instance sample_hex.
#[local] Existing Instance sample_toml.

(** A stand-in for the JSON texts: the canonical bytes, then the signature. *)
#[global] Instance sample_request_json : SerdeJson SignedAuthRequest.t := {|
  to_vec v :=
    let? m := map_err (fun _ => "request"%string)
                (AuthRequestBody.canonical_bytes (SignedAuthRequest.body v)) in
    Ok (m ++ SignedAuthRequest.signature v);
  from_slice b :=
    match decode_request b with
    | Some (q, s) => Ok (SignedAuthRequest.mk q s)
    | None => Err "request"%string
    end |}.

#[global] Instance sample_response_json : SerdeJson SignedAuthResponse.t := {|
  to_vec v :=
    let? m := map_err (fun _ => "response"%string)
                (AuthResponseBody.canonical_bytes (SignedAuthResponse.body v)) in
    Ok (m ++ SignedAuthResponse.signature v);
  from_slice b :=
    match decode_response b with
    | Some (q, s) =>
        if AuthResponseBody.expires_at_ms q <=? u64_max then Ok (SignedAuthResponse.mk q s)
        else Err "expires_at_ms"%string
    | None => Err "response"%string
    end |}.

(** The agent verifies the request it finds in the frame and answers. *)
Definition sample_agent (decision : Decision.t) (received : bytes) : bytes :=
  match from_slice (drop 4 received) with
  | Ok request =>
      match SignedAuthRequest.verify request (sample_key x07) with
      | Ok _ =>
          let body := SignedAuthRequest.body request in
          match (let? p := AuthResponseBody.for_request body decision AuthMethod.BiometricOrWatch
                             1700000000500 1700000010500 (B "agent-key-1") in
                 SignedAuthResponse.sign p (sample_sk x09)) with
          | Ok response => match to_vec response with Ok b => frame b | Err _ => [] end
          | Err _ => []
          end
      | Err _ => []
      end
  | Err _ => []
  end.

Definition production_config : bytes := table_lines
  [(B "socket_path", B "/run/agent.sock"); (B "host_key_file", B "/etc/host.key");
   (B "agent_pubkey_file", B "/etc/agent.pub"); (B "host_id", B "host-abc");
   (B "hostname", B "linux.example.com"); (B "replay_cache_dir", B "/cache")].

Definition production_args : RequestArgs := {|
  require_root_owned := true; config_arg := Some (B "/etc/config.toml"); socket_arg := None;
  key_input := {| key_hex := None; key_file := None |};
  agent_pubkey_input := {| agent_pubkey_hex := None; agent_pubkey_file_arg := None |};
  key_id_arg := None; host_id_arg := None; hostname_arg := None; service_arg := None;
  user := B "alice"; ruser := Some (B "alice"); rhost := None; tty := Some (B "pts/3");
  sudo_command := Some (B "/usr/bin/id"); timeout_ms_arg := None;
  allowed_future_skew_ms_arg := None; replay_cache_dir_arg := None |}.

Definition production_start (decision : Decision.t) : state sim :=
  start (sim_files
    [(B "config.toml", file_inode 0x1A4 production_config);
     (B "host.key", file_inode 0x180 host_key_text);
     (B "agent.pub", file_inode 0x1A4 agent_key_text)] []
    (sim_peer 999999 (B "/run/agent.sock") (sample_agent decision))).

Definition production_end (decision : Decision.t) : state sim :=
  (run_request false 4000 production_args (production_start decision)).2.

Lemma approved_run :
  run_request false 4000 production_args (production_start Decision.Approved)
  = (Done (Ok EXIT_APPROVED), production_end Decision.Approved).
Proof. run_here. Qed.

Lemma request_exit_codes_witness :
  In EXIT_APPROVED [EXIT_APPROVED; EXIT_UNAVAILABLE; EXIT_CANCELLED; EXIT_FAILED; EXIT_DENIED;
    EXIT_TAMPER; EXIT_UNSAFE_CONFIG; EXIT_PROTOCOL] /\
  (EXIT_APPROVED = EXIT_UNSAFE_CONFIG ->
   emitted offline (production_start Decision.Approved) (production_end Decision.Approved)).
Proof.
  exact (request_exit_codes false 4000 production_args EXIT_APPROVED
    (production_start Decision.Approved) (production_end Decision.Approved) approved_run).
Defined.

Lemma decision_is_authenticated_witness :
  exists r, decided 4000 production_args r (production_start Decision.Approved)
      (production_end Decision.Approved) /\
    EXIT_APPROVED = exit_code_for_decision (AuthResponseBody.decision (SignedAuthResponse.body r)).
Proof.
  exact (decision_is_authenticated false 4000 production_args EXIT_APPROVED
    (production_start Decision.Approved) (production_end Decision.Approved) approved_run
    (or_introl eq_refl)).
Defined.

