(* ===== verification/RequestTypes.v ===== *)
(** * The types of what is sent

    The bodies are records over [N], so the widths of the integer fields are
    a typing judgement ([wf]) that the definitions have to keep.  A request
    that is sent keeps it, is valid, and is signed by the key that was
    loaded, so that the agent accepts its signature under the public half. *)

From Stdlib Require Import NArith ZArith Lia List Bool.
From Stdlib Require Import Strings.Byte Strings.String.
From stdpp Require Import base decidable list option strings.
From S2P Require Import Prelude RustStd Crypto Protocol Canonical Samples ProtocolProps Sys.
From S2P Require Import Io Sim Frame Trust Common Keys Config Request Verdict RequestProps.

Open Scope N_scope.

Definition well_typed `{Crypto} (sk : SigningKey) (signed : SignedAuthRequest.t) : Prop :=
  AuthRequestBody.wf (SignedAuthRequest.body signed) /\
  AuthRequestBody.validate (SignedAuthRequest.body signed) = Ok tt /\
  length (SignedAuthRequest.signature signed) = 64%nat /\
  SignedAuthRequest.verify signed (VerifyingKey_to_bytes (SigningKey_verifying_key sk)) = Ok tt.

Lemma request_of_wf now timeout random id pid ctx :
  now + timeout <= u64_max -> AuthRequestBody.wf (request_of now timeout random id (pid mod 4294967296) ctx).
Proof.
  intros Hn. unfold AuthRequestBody.wf. cbn. split_and!; [done|lia|done|].
  pose proof (N.mod_lt pid 4294967296 ltac:(done)). unfold u32_max. lia.
Qed.

Lemma sign_well_typed `{CL : CryptoLaws} sk body signed :
  SignedAuthRequest.sign body sk = Ok signed -> AuthRequestBody.wf body -> well_typed sk signed.
Proof.
  intros Hs Hw. unfold SignedAuthRequest.sign in Hs.
  apply result_bind_ok in Hs as (m & Hm & [= <-]).
  assert (AuthRequestBody.validate body = Ok tt) as Hv.
  { unfold AuthRequestBody.canonical_bytes in Hm. by destruct (AuthRequestBody.validate body) as [[]|]. }
  split_and!; cbn; [done|done|apply Signature_to_bytes_length|].
  unfold SignedAuthRequest.verify. cbn [SignedAuthRequest.body SignedAuthRequest.signature].
  rewrite Hm. cbn [result_bind]. by apply verify_ed25519_ok, sign_holds.
Qed.

Lemma sending_well_typed `{CL : CryptoLaws} ctx sk timeout d signed pre :
  sending ctx sk timeout d signed pre -> well_typed sk signed.
Proof.
  intros [(ns0 & t0 & random & id & pid & _ & _ & _ & Hmax & Hb) Hs].
  eapply sign_well_typed; [exact Hs|]. rewrite Hb. by apply request_of_wf.
Qed.


(** ** Witness *)

#[local] Existing Instance sample_crypto.
#[local] Existing Instance sample_crypto_laws.
#[local] Existing Instance sample_toml.

