(* ===== verification/Termination.v ===== *)
(** * The [request] subcommand ends

    Under a kernel whose clock advances, whose directories are finite and
    whose calls are not interrupted for ever, a run with enough fuel never
    runs out of it: it returns a code or an error.  What the kernel has to
    promise is the class [Progress]; nothing is asked of the peer. *)

From Stdlib Require Import NArith ZArith Lia List Bool.
From Stdlib Require Import Strings.Byte Strings.String.
From stdpp Require Import base decidable list option strings gmap.
From S2P Require Import Prelude RustStd Crypto Protocol Canonical Samples ProtocolProps Sys.
From S2P Require Import Ownership Io Transport Sim TransportProps Frame Trust Common Keys Config.
From S2P Require Import Replay Request Verdict RequestProps.

Open Scope N_scope.

(** ** What the kernel promises *)

Inductive call_kind : Type := Plain | Lists | Creates.

Definition opening_kind (flags : list open_flag) : call_kind :=
  if bool_decide (O_CREAT ∈ flags) then Creates else Plain.

(** The calls of the kernel: one that opens a listing of a directory, those
    that create names, and the others. *)
Inductive kernel_call `{Kernel W} : call_kind -> forall A : Type, (W -> A * W) -> Prop :=
| call_instant_now : kernel_call Plain _ k_instant_now
| call_system_now : kernel_call Plain _ k_system_now
| call_process_id : kernel_call Plain _ k_process_id
| call_random n : kernel_call Plain _ (k_random n)
| call_sleep n : kernel_call Plain _ (k_sleep n)
| call_socket : kernel_call Plain _ k_socket
| call_set_cloexec f : kernel_call Plain _ (k_set_cloexec f)
| call_set_nonblocking f : kernel_call Plain _ (k_set_nonblocking f)
| call_connect f p : kernel_call Plain _ (k_connect f p)
| call_take_error f : kernel_call Plain _ (k_take_error f)
| call_poll f e t : kernel_call Plain _ (k_poll f e t)
| call_read f n : kernel_call Plain _ (k_read f n)
| call_write f b : kernel_call Plain _ (k_write f b)
| call_open p fl m : kernel_call (opening_kind fl) _ (k_open p fl m)
| call_openat d n fl m : kernel_call (opening_kind fl) _ (k_openat d n fl m)
| call_fstat f : kernel_call Plain _ (k_fstat f)
| call_getcwd : kernel_call Plain _ k_getcwd
| call_unlinkat d n : kernel_call Plain _ (k_unlinkat d n)
| call_dup_cloexec f : kernel_call Plain _ (k_dup_cloexec f)
| call_close f : kernel_call Plain _ (k_close f)
| call_fdopendir f : kernel_call Lists _ (k_fdopendir f)
| call_readdir d : kernel_call Plain _ (k_readdir d)
| call_closedir d : kernel_call Plain _ (k_closedir d).
Create HintDb progress discriminated.
#[export] Hint Constructors kernel_call : progress.

(** [remaining] counts what is still to come of the readings of the clock
    before the end of its range and of the interrupted reads and writes;
    [listed] bounds the length of a listing that would be opened now, and
    [entries d] what is left of the listing [d].  No call lengthens them,
    except that a new name may lengthen a listing.  A read or a write moves
    at most what it was asked to move. *)
Class Progress (W : Type) `{Kernel W} := {
  remaining : W -> nat;
  listed : W -> nat;
  entries : N -> W -> nat;
  remaining_call c A (f : W -> A * W) w :
    kernel_call c A f -> (remaining (f w).2 <= remaining w)%nat;
  listed_call c A (f : W -> A * W) w :
    kernel_call c A f -> c <> Creates -> (listed (f w).2 <= listed w)%nat;
  entries_call d A (f : W -> A * W) w :
    kernel_call Plain A f -> (entries d (f w).2 <= entries d w)%nat;
  remaining_now w :
    instant_max <= (k_instant_now w).1 \/ (remaining (k_instant_now w).2 < remaining w)%nat;
  remaining_read f n w :
    (k_read f n w).1 = Err EINTR -> (remaining (k_read f n w).2 < remaining w)%nat;
  remaining_write f b w :
    (k_write f b w).1 = Err EINTR -> (remaining (k_write f b w).2 < remaining w)%nat;
  entries_fdopendir f w d :
    (k_fdopendir f w).1 = Ok d -> (entries d (k_fdopendir f w).2 <= listed w)%nat;
  entries_readdir d w :
    (k_readdir d w).1 = None \/ (entries d (k_readdir d w).2 < entries d w)%nat;
  read_bounded f n w b : (k_read f n w).1 = Ok b -> (length b <= n)%nat;
  write_bounded f b w n : (k_write f b w).1 = Ok n -> (n <= length b)%nat;
}.

(** How a computation may end: with a result, or by the panic of an overflow
    that the build checks for. *)
Definition ends {A} (overflow_checks : bool) (o : outcome A) : Prop :=
  match o with Done _ => True | Panicked => overflow_checks = true | OutOfFuel => False end.

(** ** Computations without a panic *)

Definition calm {W E A} (m : M W E A) : Prop := forall s, (m s).1 <> Panicked.

Section Calm.
Context {W : Type}.

Lemma calm_ret {E A} (a : A) : calm (ret (W := W) (E := E) a).
Proof. done. Qed.
Lemma calm_throw {E A} (e : E) : calm (throw (W := W) (A := A) e).
Proof. done. Qed.
Lemma calm_lift {E A} (r : result A E) : calm (lift (W := W) r).
Proof. done. Qed.
Lemma calm_out_of_fuel {E A} : calm (out_of_fuel (W := W) (E := E) (A := A)).
Proof. done. Qed.

Lemma calm_prim {E A} (f : W -> A * W) ev : calm (prim (E := E) f ev).
Proof. intros s. unfold prim. by destruct (f (world s)). Qed.

Lemma calm_bind_post {E A B} (m : M W E A) (k : A -> M W E B) :
  calm m -> (forall s a s', m s = (Done (Ok a), s') -> calm (k a)) -> calm (bind m k).
Proof.
  intros Hm Hk s. specialize (Hm s). unfold bind.
  destruct (m s) as [[[a|e]| |] s1] eqn:E1; try done. by eapply Hk.
Qed.

Lemma calm_bind {E A B} (m : M W E A) (k : A -> M W E B) :
  calm m -> (forall a, calm (k a)) -> calm (bind m k).
Proof. intros Hm Hk. by apply calm_bind_post. Qed.

Lemma calm_attempt {E F A} (m : M W E A) : calm m -> calm (attempt (F := F) m).
Proof. intros Hm s. specialize (Hm s). unfold attempt. by destruct (m s) as [[?| |] ?]. Qed.

Lemma calm_into {E F A} (f : E -> F) (m : M W E A) : calm m -> calm (into f m).
Proof. intros Hm s. specialize (Hm s). unfold into. by destruct (m s) as [[?| |] ?]. Qed.

Lemma calm_os {A} (m : M W io_error (result A errno)) : calm m -> calm (os m).
Proof. intros Hm. by apply calm_bind. Qed.

Lemma calm_loop {E S A} fuel (body : S -> M W E (S + A)) :
  (forall st, calm (body st)) -> forall st, calm (loop fuel body st).
Proof.
  intros Hb. induction fuel as [|fuel IH]; intros st; [apply calm_out_of_fuel|].
  cbn. apply calm_bind; [apply Hb|]. intros [st'|a]; [apply IH|apply calm_ret].
Qed.

Lemma calm_owned `{Kernel W} {E A} f (m : M W E A) : calm m -> calm (owned f m).
Proof.
  intros Hm. apply calm_bind; [by apply calm_attempt|]. intros [a|e]; [done|].
  apply calm_bind; [apply calm_prim|done].
Qed.
End Calm.

Create HintDb calm discriminated.
#[export] Hint Resolve calm_ret calm_throw calm_lift calm_out_of_fuel calm_prim : calm.

Ltac calm_step :=
  lazymatch goal with
  | |- calm (bind _ _) => apply calm_bind; [|intros ?]
  | |- calm (loop _ _ _) => apply calm_loop; intros ?
  | |- calm (attempt _) => apply calm_attempt
  | |- calm (into _ _) => apply calm_into
  | |- calm (os _) => apply calm_os
  | |- calm (owned _ _) => apply calm_owned
  | |- calm (match ?x with _ => _ end) => destruct x
  | |- calm (let _ := _ in _) => cbv zeta
  end.
Ltac calm_tac := repeat calm_step; auto with calm.

(** ** Bounded computations

    [bounded mu]: started with more fuel than the measure [mu] of the world
    and the longest buffer need, a computation ends, and does not raise the
    measure. *)

(** Above the limit of a trusted text, which is the longest buffer. *)
Definition slack : nat := trusted_limit.

Section Bounded.
Context `{Progress W} (overflow_checks : bool) (fuel : nat).

Section Measure.
Context (mu : W -> nat).

Definition enough (s : state W) : Prop := (mu (world s) + slack < fuel)%nat.

Definition bounded {E A} (m : M W E A) : Prop :=
  forall s, enough s -> ends overflow_checks (m s).1 /\ (mu (world (m s).2) <= mu (world s))%nat.
Definition halts {E A} (m : M W E A) : Prop := forall s, enough s -> ends overflow_checks (m s).1.

Lemma bounded_halts {E A} (m : M W E A) : bounded m -> halts m.
Proof. intros Hm s Hs. by apply Hm. Qed.

Lemma bounded_done {E A} (r : result A E) : bounded (lift r).
Proof. by split. Qed.
Lemma bounded_ret {E A} (a : A) : bounded (ret (E := E) a).
Proof. by split. Qed.
Lemma bounded_throw {E A} (e : E) : bounded (throw (A := A) e).
Proof. by split. Qed.

Lemma bounded_prim {E A} (f : W -> A * W) ev :
  (forall w, mu (f w).2 <= mu w)%nat -> bounded (prim (E := E) f ev).
Proof.
  intros Hf s _. unfold prim. specialize (Hf (world s)). by destruct (f (world s)).
Qed.

(** [bounded] for the run from one state. *)
Definition settles {E A} (m : M W E A) (s : state W) : Prop :=
  ends overflow_checks (m s).1 /\ (mu (world (m s).2) <= mu (world s))%nat.

Lemma settles_bind {E A B} (m : M W E A) (k : A -> M W E B) s :
  settles m s -> (forall a s', m s = (Done (Ok a), s') -> settles (k a) s') -> settles (bind m k) s.
Proof.
  unfold settles, bind. intros Hm Hk.
  destruct (m s) as [[[a|e]| |] s1] eqn:E1; try done. destruct Hm as [_ Hle]. cbn in Hle.
  destruct (Hk _ _ eq_refl) as [He Hle']. split; [done|lia].
Qed.

Lemma bounded_bind {E A B} (m : M W E A) (k : A -> M W E B) :
  bounded m -> (forall s a s', m s = (Done (Ok a), s') -> bounded (k a)) -> bounded (bind m k).
Proof.
  intros Hm Hk s Hs. apply settles_bind; [by apply Hm|]. intros a s1 E1. apply (Hk _ _ _ E1).
  specialize (Hm s Hs) as [_ Hle]. rewrite E1 in Hle. unfold enough in *. cbn in Hle. lia.
Qed.

Lemma halts_bind {E A B} (m : M W E A) (k : A -> M W E B) :
  bounded m -> (forall s a s', m s = (Done (Ok a), s') -> halts (k a)) -> halts (bind m k).
Proof.
  intros Hm Hk s Hs. specialize (Hm s Hs). unfold bind.
  destruct (m s) as [[[a|e]| |] s1] eqn:E1; [|by apply Hm..]. destruct Hm as [_ Hle]. cbn in Hle.
  apply (Hk _ _ _ E1 s1). unfold enough in *. lia.
Qed.

(** What follows needs no fuel. *)
Lemma halts_then {E A B} (m : M W E A) (k : A -> M W E B) :
  halts m -> (forall a s, ends overflow_checks (k a s).1) -> halts (bind m k).
Proof.
  intros Hm Hk s Hs. specialize (Hm s Hs). unfold bind.
  destruct (m s) as [[[a|e]| |] s1] eqn:E1; [apply Hk|done..].
Qed.

Lemma bounded_attempt {E F A} (m : M W E A) : bounded m -> bounded (attempt (F := F) m).
Proof. intros Hm s Hs. specialize (Hm s Hs). unfold attempt. by destruct (m s) as [[?| |] ?]. Qed.
Lemma halts_attempt {E F A} (m : M W E A) : halts m -> halts (attempt (F := F) m).
Proof. intros Hm s Hs. specialize (Hm s Hs). unfold attempt. by destruct (m s) as [[?| |] ?]. Qed.

Lemma bounded_into {E F A} (f : E -> F) (m : M W E A) : bounded m -> bounded (into f m).
Proof. intros Hm s Hs. specialize (Hm s Hs). unfold into. by destruct (m s) as [[?| |] ?]. Qed.
Lemma halts_into {E F A} (f : E -> F) (m : M W E A) : halts m -> halts (into f m).
Proof. intros Hm s Hs. specialize (Hm s Hs). unfold into. by destruct (m s) as [[?| |] ?]. Qed.

Lemma bounded_os {A} (m : M W io_error (result A errno)) : bounded m -> bounded (os m).
Proof. intros Hm. apply bounded_bind; [done|]. intros ? a ? _. apply bounded_done. Qed.

(** A loop whose rounds lower a measure of their own. *)
Lemma bounded_loop {E S A} (body : S -> M W E (S + A)) (size : S -> W -> nat)
  (I : S -> W -> Prop) :
  (forall st s, I st (world s) -> enough s ->
     ends overflow_checks (body st s).1 /\ (mu (world (body st s).2) <= mu (world s))%nat) ->
  (forall st s st' s', I st (world s) -> body st s = (Done (Ok (inl st')), s') ->
     I st' (world s') /\ (size st' (world s') < size st (world s))%nat) ->
  forall n st s, I st (world s) -> enough s -> (size st (world s) < n)%nat ->
  ends overflow_checks (loop n body st s).1 /\ (mu (world (loop n body st s).2) <= mu (world s))%nat.
Proof.
  intros Hb Hr. induction n as [|n IH]; intros st s HI Hs Hn; [lia|]. cbn. unfold bind.
  destruct (Hb st s HI Hs) as [He Hle].
  destruct (body st s) as [[[[st'|a]|e]| |] s1] eqn:E1; cbn in *; try done.
  destruct (Hr st s st' s1 HI E1) as [HI' Hlt].
  destruct (IH st' s1) as [He' Hle']; [done|unfold enough in *; lia|lia|]. split; [done|lia].
Qed.

Lemma bounded_of {E A} (m : M W E A) :
  calm m -> respects (fun s s' => mu (world s') <= mu (world s))%nat m ->
  (forall s, enough s -> (m s).1 <> OutOfFuel) -> bounded m.
Proof.
  intros Hc Hr Hf s Hs. split; [|apply Hr]. specialize (Hc s). specialize (Hf s Hs).
  by destruct (m s).1.
Qed.
End Measure.

(** The measures: what remains of the clock and the interruptions; with the
    length of a listing, as long as nothing has been created. *)
Definition mu1 (w : W) : nat := (remaining w + listed w)%nat.
Definition mu2 (w : W) : nat := remaining w.

Lemma mu1_call c A (f : W -> A * W) w :
  kernel_call c A f -> c <> Creates -> (mu1 (f w).2 <= mu1 w)%nat.
Proof.
  intros Hf Hc. unfold mu1. pose proof (remaining_call c A f w Hf).
  pose proof (listed_call c A f w Hf Hc). lia.
Qed.

Lemma mu2_call c A (f : W -> A * W) w : kernel_call c A f -> (mu2 (f w).2 <= mu2 w)%nat.
Proof. apply remaining_call. Qed.

Lemma opening_plain fl : (O_CREAT ∉ fl) -> opening_kind fl <> Creates.
Proof. intros Hn. unfold opening_kind. by rewrite bool_decide_eq_false_2. Qed.

Ltac call_tac :=
  intros ?; first
    [ eapply mu1_call; [by auto with progress|discriminate]
    | eapply mu1_call; [by auto with progress|apply opening_plain; apply (bool_decide_unpack _); by compute]
    | eapply mu2_call; by auto with progress ].

Ltac bounded_step :=
  lazymatch goal with
  | |- bounded _ (bind _ _) => apply bounded_bind; [|intros ? ? ? _]
  | |- bounded _ (attempt _) => apply bounded_attempt
  | |- bounded _ (into _ _) => apply bounded_into
  | |- bounded _ (os _) => apply bounded_os
  | |- bounded _ (lift _) => apply bounded_done
  | |- bounded _ (ret _) => apply bounded_ret
  | |- bounded _ (throw _) => apply bounded_throw
  | |- bounded _ (prim _ _) => apply bounded_prim; call_tac
  | |- bounded _ (match ?x with _ => _ end) => destruct x
  | |- bounded _ (let _ := _ in _) => cbv zeta
  end.
Ltac bounded_tac := repeat bounded_step.

Lemma bounded_scoped {E A} f (m : M W E A) : bounded mu1 m -> bounded mu1 (scoped f m).
Proof. intros Hm. unfold scoped, close. bounded_tac. done. Qed.
Lemma bounded_owned {E A} f (m : M W E A) : bounded mu1 m -> bounded mu1 (owned f m).
Proof. intros Hm. unfold owned, close. bounded_tac. done. Qed.

Lemma ends_scoped {E A} mu f (m : M W E A) : halts mu m -> halts mu (scoped f m).
Proof.
  intros Hm. apply halts_then; [by apply halts_attempt|]. intros r s.
  unfold bind, close, prim, lift. by destruct (k_close f (world s)).
Qed.

(** ** Opening and reading files *)

Lemma bounded_validate file ro d p : bounded mu1 (validate file ro d p).
Proof. unfold validate, fstat. bounded_tac. Qed.

Lemma bounded_openat d n fl m : (O_CREAT ∉ fl) -> bounded mu1 (openat d n fl m).
Proof.
  intros Hn. unfold openat. apply bounded_os, bounded_prim. intros w.
  eapply mu1_call; [apply call_openat|by apply opening_plain].
Qed.

Lemma bounded_walk ns file ro d p : bounded mu1 (walk file ns ro d p).
Proof.
  revert file. induction ns as [|n ns IH]; intros file; cbn [walk]; cbv zeta.
  - apply bounded_bind; [apply bounded_owned, bounded_validate|intros ? ? ? _; apply bounded_ret].
  - apply bounded_bind; [apply bounded_owned, bounded_openat|intros ? f ? _].
    { unfold open_flags. case_match; by apply (bool_decide_unpack _). }
    apply bounded_bind; [unfold close; bounded_tac|intros ? ? ? _].
    apply bounded_bind; [apply bounded_owned, bounded_validate|intros ? ? ? _; apply IH].
Qed.

Lemma bounded_open path ro d p : bounded mu1 (open path ro d p).
Proof.
  unfold open, getcwd, sys_open. bounded_tac; try apply bounded_walk.
  all: apply bounded_owned, bounded_validate.
Qed.

(** A read or a write of a file, as the kernel answers it. *)
Lemma read_run f n (s : state W) :
  exists s', world s' = (k_read f n (world s)).2 /\
    read f n s = (Done (map_err Os (k_read f n (world s)).1), s').
Proof.
  unfold read, os, bind, prim, lift. destruct (k_read f n (world s)) as [r w]. eexists. by split; [|reflexivity].
Qed.
Lemma write_run f b (s : state W) :
  exists s', world s' = (k_write f b (world s)).2 /\
    write f b s = (Done (map_err Os (k_write f b (world s)).1), s').
Proof.
  unfold write, os, bind, prim, lift. destruct (k_write f b (world s)) as [r w]. eexists. by split; [|reflexivity].
Qed.

Lemma kind_interrupted e : kind (Os e) = Interrupted -> e = EINTR.
Proof. by destruct e. Qed.

Lemma bounded_take_read_to_end (f : File) limit :
  (limit <= slack)%nat -> bounded mu1 (take_read_to_end fuel f limit).
Proof.
  intros Hl s Hs. unfold take_read_to_end.
  apply (bounded_loop mu1 _ (fun st w => st.1 + mu1 w)%nat (fun st _ => (st.1 <= limit)%nat));
    [| |done|done|unfold enough in Hs; cbn; lia].
  - intros [rest acc] s0 Hle _. case_decide; [done|].
    unfold bind, attempt, read_, file_read.
    destruct (read_run (file_fd f) rest s0) as (s1 & Hw & ->). cbn.
    assert (forall w, mu1 (k_read (file_fd f) rest w).2 <= mu1 w)%nat as Hmu by call_tac.
    specialize (Hmu (world s0)). rewrite <- Hw in Hmu.
    pose proof (read_bounded (file_fd f) rest (world s0)) as Hb.
    destruct (k_read _ _ _).1 as [[|x b]|e]; cbn [map_err]; [done| |].
    + rewrite decide_True; [done|]. by apply Hb.
    + by case_decide.
  - intros [rest acc] s0 st s2 Hle HB. cbn [fst] in *. case_decide; [discriminate|].
    unfold bind at 1, attempt, read_, file_read in HB.
    destruct (read_run (file_fd f) rest s0) as (s1 & Hw & Hr). rewrite Hr in HB. cbn in HB.
    pose proof (remaining_call Plain _ (k_read (file_fd f) rest) (world s0)
      ltac:(by auto with progress)) as Hrem.
    pose proof (remaining_read (file_fd f) rest (world s0)) as Hint.
    pose proof (listed_call Plain _ (k_read (file_fd f) rest) (world s0)
      ltac:(by auto with progress) ltac:(done)) as Hlist.
    rewrite <- Hw in *. destruct (k_read _ _ _).1 as [[|x b]|e]; cbn [map_err] in HB.
    + discriminate.
    + case_decide; [|discriminate]. injection HB as <- <-. cbn. unfold mu1. lia.
    + case_decide as Hk; [|discriminate]. injection HB as <- <-. apply kind_interrupted in Hk as ->.
      specialize (Hint eq_refl). cbn. unfold mu1 in *. lia.
Qed.

Lemma bounded_take_read_to_string (f : File) limit :
  (limit <= slack)%nat -> bounded mu1 (take_read_to_string fuel f limit).
Proof.
  intros Hl. unfold take_read_to_string.
  apply bounded_bind; [by apply bounded_take_read_to_end|]. intros ? b ? _. bounded_tac.
Qed.

Lemma bounded_read_trusted_file path ro p : bounded mu1 (read_trusted_file fuel path ro p).
Proof.
  unfold read_trusted_file, fail. apply bounded_bind; [apply bounded_into, bounded_open|].
  intros ? f ? _. apply bounded_bind.
  - apply bounded_scoped, bounded_into. by apply bounded_take_read_to_string.
  - intros ? c ? _. bounded_tac.
Qed.

(** ** Keys and configuration *)

Section Loading.
Context `{Crypto} `{Hex} `{Toml}.

Lemma bounded_read_key_material path ro p : bounded mu1 (read_key_material fuel path ro p).
Proof.
  unfold read_key_material. apply bounded_bind; [apply bounded_read_trusted_file|].
  intros ? c ? _. bounded_tac.
Qed.

Lemma bounded_load_signing_key h f ro : bounded mu1 (load_signing_key fuel h f ro).
Proof. unfold load_signing_key, fail. bounded_tac. apply bounded_read_key_material. Qed.

Lemma bounded_load_public_key h f label ro : bounded mu1 (load_public_key fuel h f label ro).
Proof. unfold load_public_key, fail. bounded_tac; apply bounded_read_key_material. Qed.

Lemma bounded_load_helper_config path ro : bounded mu1 (load_helper_config fuel path ro).
Proof. unfold load_helper_config. bounded_tac. apply bounded_read_trusted_file. Qed.
End Loading.

(** ** Clocks and budget *)

Lemma bounded_unix_time_ms : bounded mu1 unix_time_ms.
Proof. unfold unix_time_ms, system_now. bounded_tac. Qed.

Lemma bounded_check_deadline d : bounded mu1 (check_deadline d).
Proof. unfold check_deadline, instant_now. bounded_tac. Qed.

Lemma bounded_operation_budget t now : bounded mu1 (operation_budget t now).
Proof. unfold operation_budget, fail, instant_now. bounded_tac. Qed.

Lemma ends_too_late d body skew now (s : state W) :
  (forall s, ends overflow_checks (now s).1) ->
  ends overflow_checks (too_late d body skew now s).1.
Proof.
  intros Hn. unfold too_late, check_deadline, instant_now, attempt, bind at 1 2 3, prim. cbn.
  destruct (k_instant_now (world s)) as [t w]. destruct (d <=? t); [done|]. cbn. unfold bind.
  match goal with |- context [now ?s1] => specialize (Hn s1); destruct (now s1) as [[[a|e]| |] s2] end;
    done.
Qed.

Lemma bounded_too_late d body skew now : bounded mu1 now -> bounded mu1 (too_late d body skew now).
Proof. intros Hn. unfold too_late. bounded_tac; [apply bounded_check_deadline|done]. Qed.

Lemma ends_unix_time_ms (s : state W) : ends overflow_checks (unix_time_ms s).1.
Proof.
  unfold unix_time_ms, system_now, bind, prim, lift. destruct (k_system_now (world s)) as [[ns|] w]; done.
Qed.

(** ** The replay cache *)

Definition kept (g : W -> nat) (s s' : state W) : Prop := (g (world s') <= g (world s))%nat.

#[local] Instance kept_preorder g : PreOrder (kept g).
Proof. split; unfold kept; repeat intro; lia. Qed.

Lemma kept_prim {E A} g (f : W -> A * W) ev :
  (forall w, g (f w).2 <= g w)%nat -> respects (kept g) (prim (E := E) f ev).
Proof. intros Hf s. unfold prim, kept. specialize (Hf (world s)). by destruct (f (world s)). Qed.

Ltac entries_tac := apply kept_prim; intros ?; apply entries_call; by auto with progress.

Lemma kept_cleanup_entry d dir now n :
  respects (kept (entries d)) (cleanup_entry fuel dir now n : M W _ _).
Proof.
  unfold cleanup_entry, read_marker, openat, unlinkat, take_read_to_string, take_read_to_end, read_,
    file_read, read, scoped, close, fstat.
  respects_tac; try entries_tac.
  apply kept_prim. intros w. apply entries_call. exact (call_openat (file_fd dir) n marker_flags 0).
Qed.

Lemma bounded_read_marker dir n : bounded mu1 (read_marker fuel dir n).
Proof.
  unfold read_marker. apply bounded_bind.
  { apply bounded_attempt, bounded_openat. by apply (bool_decide_unpack _). }
  intros ? [f|e] ? _; [|apply bounded_ret]. apply bounded_scoped. unfold fstat. bounded_tac.
  apply bounded_take_read_to_string. unfold slack, trusted_limit, MAX_FRAME_LEN. lia.
Qed.

Lemma bounded_cleanup_entry dir now n : bounded mu1 (cleanup_entry fuel dir now n).
Proof. unfold cleanup_entry, unlinkat. bounded_tac. apply bounded_read_marker. Qed.

Lemma bounded_cleanup_round dir d now : bounded mu1 (cleanup_round fuel dir d now).
Proof. unfold cleanup_round, readdir. bounded_tac. apply bounded_cleanup_entry. Qed.

(** A round that goes on took an entry off the listing. *)
Lemma cleanup_round_lowers dir d now (s s' : state W) u :
  cleanup_round fuel dir d now s = (Done (Ok (inl u)), s') ->
  (entries d (world s') < entries d (world s))%nat.
Proof.
  unfold cleanup_round. intros HR. apply bind_ok in HR as (e & s1 & (? & [= <-] & _ & Hr)%prim_done & HR).
  pose proof (entries_readdir d (world s)) as Hl. rewrite Hr in Hl. cbn in Hl.
  destruct e as [n|]; [|discriminate]. destruct Hl as [[=]|Hl].
  apply bind_ok in HR as (u' & s2 & HR & [= _ <-]).
  pose proof (kept_cleanup_entry d dir now n s1) as Hk. rewrite HR in Hk. unfold kept in Hk. cbn in Hk.
  lia.
Qed.

Lemma settles_cleanup_loop dir d now (s : state W) :
  enough mu1 s -> (entries d (world s) < fuel)%nat ->
  settles mu1 (loop fuel (fun _ : unit => cleanup_round fuel dir d now) tt) s.
Proof.
  intros Hs Hd. apply (bounded_loop mu1 _ (fun _ => entries d) (fun _ _ => True)); try done.
  - intros _ s2 _ Hs2. by apply bounded_cleanup_round.
  - intros _ s2 st s3 _ HR%cleanup_round_lowers. done.
Qed.

Lemma bounded_cleanup_markers dir now : bounded mu1 (cleanup_markers fuel dir now).
Proof.
  unfold cleanup_markers, dup_cloexec. apply bounded_bind; [bounded_tac|]. intros ? f ? _ s Hs.
  assert (bounded mu1 (owned f (fdopendir f))) as Hf.
  { apply bounded_owned. unfold fdopendir. bounded_tac. }
  apply settles_bind; [by apply Hf|]. intros d s1 Eo.
  pose proof (proj2 (Hf s Hs)) as Hle. rewrite Eo in Hle. cbn in Hle. apply owned_ok in Eo.
  assert (entries d (world s1) <= listed (world s))%nat as Hd.
  { revert Eo. unfold fdopendir, os, bind, prim, lift.
    pose proof (entries_fdopendir f (world s)) as He. destruct (k_fdopendir f (world s)) as [[d'|] w];
      [|done]. intros [= -> <-]. by apply He. }
  assert (settles mu1 (loop fuel (fun _ : unit => cleanup_round fuel dir d now) tt) s1) as Hl.
  { apply settles_cleanup_loop; unfold enough, mu1 in *; lia. }
  apply settles_bind; [done|]. intros u s2 El. apply proj2 in Hl. rewrite El in Hl. cbn in Hl.
  assert (bounded mu1 (do! closedir (E := io_error) d ;; ret tt)) as Hc by (unfold closedir; bounded_tac).
  apply Hc. unfold enough in *. lia.
Qed.

Lemma bounded_write_all (f : File) buf :
  (length buf <= slack)%nat -> bounded mu2 (write_all fuel f buf).
Proof.
  intros Hl s Hs. unfold write_all.
  apply (bounded_loop mu2 _ (fun buf w => length buf + mu2 w)%nat (fun buf _ => (length buf <= slack)%nat));
    [| |done|done|unfold enough in Hs; cbn; lia].
  - intros b s0 Hle _. case_decide; [done|].
    unfold bind, attempt, write_, file_write.
    destruct (write_run (file_fd f) b s0) as (s1 & Hw & ->). cbn.
    assert (forall w, mu2 (k_write (file_fd f) b w).2 <= mu2 w)%nat as Hmu by call_tac.
    specialize (Hmu (world s0)). rewrite <- Hw in Hmu.
    pose proof (write_bounded (file_fd f) b (world s0)) as Hb.
    destruct (k_write _ _ _).1 as [[|n]|e]; cbn [map_err]; [done| |].
    + rewrite decide_True; [done|]. by apply Hb.
    + by case_decide.
  - intros b s0 st s2 Hle HB. case_decide; [discriminate|].
    unfold bind at 1, attempt, write_, file_write in HB.
    destruct (write_run (file_fd f) b s0) as (s1 & Hw & Hr). rewrite Hr in HB. cbn in HB.
    assert (forall w, mu2 (k_write (file_fd f) b w).2 <= mu2 w)%nat as Hmu by call_tac.
    specialize (Hmu (world s0)). pose proof (remaining_write (file_fd f) b (world s0)) as Hint.
    rewrite <- Hw in *. destruct (k_write _ _ _).1 as [[|n]|e]; cbn [map_err] in HB.
    + discriminate.
    + case_decide; [|discriminate]. injection HB as <- <-. rewrite length_drop. lia.
    + case_decide as Hk; [|discriminate]. injection HB as <- <-. apply kind_interrupted in Hk as ->.
      specialize (Hint eq_refl). unfold mu2 in *. lia.
Qed.

Lemma bounded_write_fmt (f : File) pieces :
  Forall (fun p => (length p <= slack)%nat) pieces -> bounded mu2 (write_fmt fuel f pieces).
Proof.
  induction 1 as [|p ps Hp _ IH]; [apply bounded_ret|]. cbn [write_fmt].
  apply bounded_bind; [by apply bounded_write_all|done].
Qed.

Lemma marker_pieces_short expires_at_ms :
  expires_at_ms <= u64_max ->
  Forall (fun p => (length p <= slack)%nat) (marker_pieces expires_at_ms).
Proof.
  intros Hn%show_N_length. assert (65 <= slack)%nat as Hs by (unfold slack, trusted_limit, MAX_FRAME_LEN; lia).
  unfold marker_pieces. revert Hs. generalize slack. intros k Hs. rewrite !Forall_cons.
  split_and!; [cbn; lia|lia|cbn; lia|done].
Qed.

Lemma halts_weaken {E A} (m : M W E A) : halts mu2 m -> halts mu1 m.
Proof. intros Hm s Hs. apply Hm. unfold enough, mu1, mu2 in *. lia. Qed.

Lemma halts_record `{Crypto} `{Hex} dir r :
  AuthResponseBody.expires_at_ms (SignedAuthResponse.body r) <= u64_max ->
  halts mu1 (record_replay_marker fuel dir r).
Proof.
  intros He. unfold record_replay_marker.
  apply halts_bind; [apply bounded_unix_time_ms|]. intros ? now ? _.
  apply halts_bind; [apply bounded_into, bounded_cleanup_markers|]. intros ? ? ? _.
  apply halts_weaken. apply halts_bind; [unfold create_marker, openat; bounded_tac|].
  intros ? [f|e] ? _.
  - apply ends_scoped. apply bounded_halts. apply bounded_bind.
    + by apply bounded_into, bounded_write_fmt, marker_pieces_short.
    + intros ? ? ? _. apply bounded_ret.
  - apply bounded_halts. unfold fail. bounded_tac.
Qed.

(** ** The stream *)

(** The clock promises what [Transport] asks for, for every deadline within
    its range. *)
Definition progress_deadline (d : N) (Hd : d <= instant_max) : DeadlineProgress W d.
Proof.
  refine {| rank := remaining |}; intros; try (by eapply remaining_call; auto with progress).
  destruct (remaining_now w); [left; lia|by right].
Defined.

(** A successful transfer is that of the operation. *)
Lemma transfer_ok {T} self events (op : M W io_error T) (s : state W) v s' :
  transfer fuel self events op s = (Done (Ok v), s') ->
  exists s0 s1, op s0 = (Done (Ok v), s1).
Proof.
  intros HT.
  refine (loop_ok_ind _ (fun _ _ v _ => exists s0 s1, op s0 = (Done (Ok v), s1)) _ _ _ _ _ _ _ HT);
    [done|].
  clear. intros _ s v s' HB. unfold transfer_round in HB.
  apply bind_ok in HB as (u & s1 & _ & HB). apply bind_ok in HB as (r & s2 & Ha & HB).
  apply attempt_ok in Ha as (r' & Ha & [= ->]). destruct r' as [v'|e].
  - injection HB as -> _. by exists s1, s2.
  - case_decide; [discriminate|]. case_decide; [|discriminate].
    apply bind_ok in HB as (u2 & s3 & _ & [=]).
Qed.

Lemma calm_check_deadline d : calm (check_deadline d : M W _ _).
Proof. unfold check_deadline, instant_now. calm_tac. Qed.
Lemma calm_wait f ev d : calm (wait fuel f ev d : M W _ _).
Proof. unfold wait, wait_round, instant_now, poll. calm_tac. Qed.
Lemma calm_transfer {T} self ev (op : M W io_error T) : calm op -> calm (transfer fuel self ev op).
Proof.
  intros Hop. unfold transfer, transfer_round.
  calm_tac; first [apply calm_check_deadline|apply calm_wait].
Qed.

Lemma calm_connect path d : calm (connect fuel path d : M W _ _).
Proof.
  unfold connect, socket, set_cloexec, set_nonblocking, connect_round, sys_connect, finish_pending,
    take_error, backlog_pause, instant_now, sleep.
  calm_tac; first [apply calm_check_deadline|apply calm_wait].
Qed.

Section Stream.
Context (io : DeadlineIo) (Hio : io_fuel io = fuel).

Lemma deadline_read_bounded n (s : state W) b s' :
  read_ io n s = (Done (Ok b), s') -> (length b <= n)%nat.
Proof.
  unfold read_, deadline_io_read, deadline_read. rewrite Hio. intros (s0 & s1 & HR)%transfer_ok.
  destruct (read_run (stream (io_stream io)) n s0) as (s2 & _ & HR').
  rewrite HR in HR'. injection HR' as HR' _. symmetry in HR'. apply map_err_ok in HR'.
  by eapply read_bounded.
Qed.

Lemma deadline_write_bounded b (s : state W) n s' :
  write_ io b s = (Done (Ok n), s') -> (n <= length b)%nat.
Proof.
  unfold write_, deadline_io_write, deadline_write. rewrite Hio. intros (s0 & s1 & HR)%transfer_ok.
  destruct (write_run (stream (io_stream io)) b s0) as (s2 & _ & HR').
  rewrite HR in HR'. injection HR' as HR' _. symmetry in HR'. apply map_err_ok in HR'.
  by eapply write_bounded.
Qed.

Lemma calm_read_exact n : calm (read_exact fuel io n : M W _ _).
Proof.
  unfold read_exact. apply calm_loop. intros [need acc]. case_decide; [done|].
  apply calm_bind_post.
  - apply calm_attempt. unfold read_, deadline_io_read, deadline_read. rewrite Hio.
    apply calm_transfer. unfold read. calm_tac.
  - intros s r s' Ha. apply attempt_ok in Ha as (r' & Ha & [= ->]). destruct r' as [[|x b]|e]; [done| |].
    + rewrite decide_True; [done|]. by eapply deadline_read_bounded.
    + by case_decide.
Qed.

Lemma calm_write_all b : calm (write_all fuel io b : M W _ _).
Proof.
  unfold write_all. apply calm_loop. intros buf. case_decide; [done|].
  apply calm_bind_post.
  - apply calm_attempt. unfold write_, deadline_io_write, deadline_write. rewrite Hio.
    apply calm_transfer. unfold write. calm_tac.
  - intros s r s' Ha. apply attempt_ok in Ha as (r' & Ha & [= ->]). destruct r' as [[|n]|e]; [done| |].
    + rewrite decide_True; [done|]. by eapply deadline_write_bounded.
    + by case_decide.
Qed.
End Stream.

(** No call of the transport creates a name. *)
Ltac kept_tac := apply kept_prim; call_tac.

Lemma kept_connect path d : respects (kept mu1) (connect fuel path d : M W _ _).
Proof.
  unfold connect, owned, close, socket, set_cloexec, set_nonblocking, connect_round, sys_connect,
    finish_pending, take_error, backlog_pause, sleep, wait, wait_round, check_deadline, instant_now,
    poll.
  respects_tac; kept_tac.
Qed.

Lemma kept_read_exact (io : DeadlineIo) n : respects (kept mu1) (read_exact fuel io n : M W _ _).
Proof.
  unfold read_exact, read_, deadline_io_read, deadline_read, transfer, transfer_round,
    check_deadline, wait, wait_round, instant_now, poll, read.
  respects_tac; kept_tac.
Qed.

Lemma kept_write_all (io : DeadlineIo) b : respects (kept mu1) (write_all fuel io b : M W _ _).
Proof.
  unfold write_all, write_, deadline_io_write, deadline_write, transfer, transfer_round,
    check_deadline, wait, wait_round, instant_now, poll, write.
  respects_tac; kept_tac.
Qed.

Section Deadline.
Context (d : N) (Hd : d <= instant_max).

Lemma bounded_connect path : bounded mu1 (connect fuel path d).
Proof.
  apply bounded_of; [apply calm_connect|apply kept_connect|]. intros s Hs.
  apply (connect_total (DP := progress_deadline d Hd)). cbn. unfold enough, mu1 in Hs. lia.
Qed.

Lemma bounded_read_exact st n :
  deadline st = d -> bounded mu1 (read_exact fuel {| io_fuel := fuel; io_stream := st |} n).
Proof.
  intros Hst. apply bounded_of; [by apply calm_read_exact|apply kept_read_exact|]. intros s Hs.
  apply (read_exact_total (DP := progress_deadline d Hd)); [done|]. cbn.
  unfold enough, mu1 in Hs. lia.
Qed.

Lemma bounded_write_stream st b :
  deadline st = d -> bounded mu1 (write_all fuel {| io_fuel := fuel; io_stream := st |} b).
Proof.
  intros Hst. apply bounded_of; [by apply calm_write_all|apply kept_write_all|]. intros s Hs.
  apply (write_all_total (DP := progress_deadline d Hd)); [done|]. cbn.
  unfold enough, mu1 in Hs. lia.
Qed.

Lemma bounded_write_frame {T} `{SerdeJson T} st (v : T) :
  deadline st = d ->
  bounded mu1 (write_json_frame fuel {| io_fuel := fuel; io_stream := st |} v).
Proof. intros Hst. unfold write_json_frame. bounded_tac; by apply bounded_write_stream. Qed.

Lemma bounded_read_frame {T} `{SerdeJson T} st :
  deadline st = d ->
  bounded mu1 (read_json_frame (T := T) fuel {| io_fuel := fuel; io_stream := st |}).
Proof. intros Hst. unfold read_json_frame. bounded_tac; by apply bounded_read_exact. Qed.
End Deadline.

(** ** The subcommand *)

Lemma halts_or_return {E A} (code : E -> N) (m : M W E A) (k : A -> M W error N) :
  bounded mu1 m -> (forall s a s', m s = (Done (Ok a), s') -> halts mu1 (k a)) ->
  halts mu1 (or_return code m k).
Proof.
  intros Hm Hk. apply halts_bind; [by apply bounded_attempt|]. intros s r s' Ha.
  apply attempt_ok in Ha as (r' & Ha & [= ->]). destruct r' as [a|e]; [by eapply Hk|].
  apply bounded_halts, bounded_ret.
Qed.

Lemma halts_ret {E A} (a : A) : halts mu1 (ret (E := E) a).
Proof. apply bounded_halts, bounded_ret. Qed.

Section Subcommand.
Context `{Crypto} `{Hex} `{Toml}.
Context `{SerdeJson SignedAuthRequest.t} `{SerdeJson SignedAuthResponse.t}.

(** [serde_json] decodes an expiry into a [u64]. *)
Context (decoded_expiry : forall b r, from_slice b = Ok r ->
  AuthResponseBody.expires_at_ms (SignedAuthResponse.body r) <= u64_max).

Lemma halts_conclude pk d skew cache q r :
  AuthResponseBody.expires_at_ms (SignedAuthResponse.body r) <= u64_max ->
  halts mu1 (conclude fuel pk d skew cache q r).
Proof.
  intros Hr. unfold conclude. apply halts_or_return; [apply bounded_done|]. intros ? ? ? _.
  apply halts_bind; [apply bounded_unix_time_ms|]. intros ? now ? _.
  apply halts_bind; [apply bounded_too_late, bounded_ret|]. intros ? [] ? _; [apply halts_ret|].
  apply halts_or_return; [apply bounded_done|]. intros ? ? ? _.
  apply halts_then.
  - apply halts_attempt. destruct cache as [dir|]; [by apply halts_record|apply halts_ret].
  - intros [u|e] sf; [|done]. unfold bind at 1.
    pose proof (ends_too_late d (SignedAuthRequest.body q) skew unix_time_ms sf ends_unix_time_ms) as He.
    by destruct (too_late _ _ _ _ sf) as [[[[]|?]| |] ?].
Qed.

Lemma halts_exchange socket pk d skew cache q :
  d <= instant_max -> halts mu1 (exchange fuel socket pk d skew cache q).
Proof.
  intros Hd. unfold exchange. apply halts_or_return; [by apply bounded_connect|].
  intros s st s' Hst%connect_deadline. apply ends_scoped. cbv zeta.
  apply halts_or_return; [by eapply bounded_write_frame|]. intros ? ? ? _.
  apply halts_or_return; [by eapply bounded_read_frame|]. intros ? r ? HR.
  apply read_frame_wire in HR as (p & Hp & _). apply halts_conclude. by eapply decoded_expiry.
Qed.

Lemma bounded_build_request now ctx : bounded mu1 (build_request overflow_checks now ctx).
Proof.
  unfold build_request, fill_bytes, process_id. bounded_tac.
  unfold add_u64. case_match; [apply bounded_ret|]. destruct overflow_checks eqn:Ho; [|apply bounded_ret].
  intros ? _. by split.
Qed.

Lemma halts_send_request args sk pk socket k h n sv t skew cache :
  halts mu1 (send_request overflow_checks fuel args sk pk socket k h n sv t skew cache).
Proof.
  unfold send_request. apply halts_bind; [apply bounded_unix_time_ms|]. intros ? now ? _.
  apply halts_or_return; [apply bounded_operation_budget|]. intros st [d e] st' HB.
  apply operation_budget_ok in HB as (_ & _ & _ & t0 & w & _ & Hd & Hmax & _).
  case_match; [apply halts_ret|].
  apply halts_bind; [apply bounded_build_request|]. intros ? body ? _. cbv zeta.
  apply halts_bind; [apply bounded_done|]. intros ? q ? _. apply halts_exchange. lia.
Qed.

Lemma halts_run_request args : halts mu1 (run_request overflow_checks fuel args).
Proof.
  unfold run_request. apply halts_or_return; [apply bounded_load_helper_config|]. intros ? c ? _.
  cbv zeta. apply halts_or_return; [apply bounded_load_signing_key|]. intros ? sk ? _.
  apply halts_or_return; [apply bounded_load_public_key|]. intros ? pk ? _.
  destruct (or (socket_arg args) (socket_path c)); [|apply halts_ret].
  case_match; [apply halts_ret|].
  destruct (or (host_id_arg args) (host_id c)); [|apply halts_ret].
  destruct (or (hostname_arg args) (hostname c)); [|apply halts_ret].
  destruct (or (replay_cache_dir_arg args) (replay_cache_dir c)).
  - apply halts_or_return; [apply bounded_open|]. intros ? dir ? _.
    apply ends_scoped, halts_send_request.
  - apply halts_send_request.
Qed.
End Subcommand.
End Bounded.

(** C22: the subcommand returns.  Under a kernel that makes progress, with
    more fuel than the readings of the clock and the interruptions still to
    come, the length of a listing and the limit of a trusted file, every run
    ends with an exit code or an error, whatever the files, the agent and the
    scheduling are; it panics only when the build checks for overflow. *)
Theorem request_returns `{Progress W} `{Crypto} `{Hex} `{Toml}
  `{SerdeJson SignedAuthRequest.t} `{SerdeJson SignedAuthResponse.t} (overflow_checks : bool)
  (fuel : nat) (args : RequestArgs) (s : state W) :
  (forall b r, from_slice b = Ok r ->
     AuthResponseBody.expires_at_ms (SignedAuthResponse.body r) <= u64_max) ->
  (remaining (world s) + listed (world s) + trusted_limit < fuel)%nat ->
  exists s',
    (exists result, run_request overflow_checks fuel args s = (Done result, s')) \/
    overflow_checks = true /\ run_request overflow_checks fuel args s = (Panicked, s').
Proof.
  intros Hdec Hf. pose proof (halts_run_request overflow_checks fuel Hdec args s Hf) as He.
  destruct (run_request overflow_checks fuel args s) as [[r| |] s']; exists s'; cbn in He;
    [left; by exists r|by right|done].
Qed.

(** ** Witness: the computing kernel makes progress *)

Definition sim_listed (w : sim) : nat :=
  list_max (map (fun e => length (i_entries e.2)) (map_to_list (inodes w))).

Lemma sim_listed_le w n :
  (sim_listed w <= n)%nat <->
  forall i nd, inodes w !! i = Some nd -> (length (i_entries nd) <= n)%nat.
Proof.
  unfold sim_listed. rewrite list_max_le, List.Forall_map, List.Forall_forall. split.
  - intros Hf i nd Hi. apply (Hf (i, nd)). by apply list_elem_of_In, elem_of_map_to_list.
  - intros Hf [i nd] Hin. apply (Hf i). by apply elem_of_map_to_list, list_elem_of_In.
Qed.

Lemma sim_listed_entries w i nd :
  inodes w !! i = Some nd -> (length (i_entries nd) <= sim_listed w)%nat.
Proof. by apply sim_listed_le. Qed.

(** An inode that is replaced by one with no more entries. *)
Lemma sim_listed_insert w i nd nd' m :
  inodes w !! i = Some nd -> (length (i_entries nd') <= length (i_entries nd))%nat ->
  inodes m = <[i := nd']> (inodes w) -> (sim_listed m <= sim_listed w)%nat.
Proof.
  intros Hi Hle Hm. apply sim_listed_le. intros j nd2. rewrite Hm.
  rewrite lookup_insert_Some. intros [[<- <-]|[_ Hj]]; [|by eapply sim_listed_entries].
  etransitivity; [exact Hle|by eapply sim_listed_entries].
Qed.

Lemma sim_listed_same w m : inodes m = inodes w -> (sim_listed m <= sim_listed w)%nat.
Proof. unfold sim_listed. by intros ->. Qed.

Definition sim_entries (d : N) (w : sim) : nat :=
  match dirs w !! d with Some es => length es | None => 0%nat end.

Lemma open_in_frame i n fl m w :
  clock (open_in i n fl m w).2 = clock w /\ dirs (open_in i n fl m w).2 = dirs w /\
  ((O_CREAT ∉ fl) -> inodes (open_in i n fl m w).2 = inodes w).
Proof.
  unfold open_in, fresh_fd, has. repeat case_match; try done.
  split_and!; [done|done|]. intros Hn. by rewrite bool_decide_eq_false_2 in *.
Qed.

Lemma sim_open_frame p fl m w :
  clock (sim_open p fl m w).2 = clock w /\ dirs (sim_open p fl m w).2 = dirs w /\
  ((O_CREAT ∉ fl) -> inodes (sim_open p fl m w).2 = inodes w).
Proof. unfold sim_open. repeat case_match; try done. apply open_in_frame. Qed.

Lemma sim_openat_frame d n fl m w :
  clock (sim_openat d n fl m w).2 = clock w /\ dirs (sim_openat d n fl m w).2 = dirs w /\
  ((O_CREAT ∉ fl) -> inodes (sim_openat d n fl m w).2 = inodes w).
Proof. unfold sim_openat. repeat case_match; try done. apply open_in_frame. Qed.

Lemma opening_kind_plain fl : opening_kind fl <> Creates -> O_CREAT ∉ fl.
Proof. unfold opening_kind. case_bool_decide; done. Qed.

Lemma sim_read_frame f n w :
  dirs (sim_read f n w).2 = dirs w /\ inodes (sim_read f n w).2 = inodes w.
Proof. unfold sim_read. by repeat case_match. Qed.

Lemma sim_write_frame f b w :
  dirs (sim_write f b w).2 = dirs w /\ (sim_listed (sim_write f b w).2 <= sim_listed w)%nat.
Proof.
  unfold sim_write. repeat case_match; (split; [done|]); try by apply sim_listed_same.
  eapply sim_listed_insert; [eassumption| |done]. done.
Qed.

Lemma sim_unlinkat_frame d n w :
  clock (sim_unlinkat d n w).2 = clock w /\ dirs (sim_unlinkat d n w).2 = dirs w /\
  (sim_listed (sim_unlinkat d n w).2 <= sim_listed w)%nat.
Proof.
  unfold sim_unlinkat. repeat case_match; (split_and!; [done|done|]); try by apply sim_listed_same.
  eapply sim_listed_insert; [eassumption| |done]. cbn. apply List.filter_length_le.
Qed.

Lemma sim_readdir_frame d w :
  clock (sim_readdir d w).2 = clock w /\ inodes (sim_readdir d w).2 = inodes w /\
  (forall d', sim_entries d' (sim_readdir d w).2 <= sim_entries d' w)%nat.
Proof.
  unfold sim_readdir. destruct (dirs w !! d) as [[|e es]|] eqn:Ed; try done. split_and!; [done..|].
  intros d'. unfold sim_entries. cbn. destruct (decide (d' = d)) as [->|Hn].
  - rewrite lookup_insert_eq, Ed. cbn. lia.
  - by rewrite lookup_insert_ne.
Qed.

Lemma sim_fdopendir_frame f w :
  clock (sim_fdopendir f w).2 = clock w /\ inodes (sim_fdopendir f w).2 = inodes w.
Proof. unfold sim_fdopendir. by repeat case_match. Qed.

#[global] Instance sim_makes_progress : Progress sim.
Proof.
  refine {| remaining := fun w => N.to_nat (instant_max - clock w); listed := sim_listed;
            entries := sim_entries |}.
  - intros c A f w Hf.
    enough (clock w <= clock (f w).2) as Hc by lia.
    destruct Hf; cbn [snd k_open k_openat k_read k_write k_unlinkat k_fdopendir k_readdir sim_kernel];
      try (cbn; lia).
    + by rewrite sim_read_clock.
    + by rewrite sim_write_clock.
    + by rewrite (proj1 (sim_open_frame _ _ _ _)).
    + by rewrite (proj1 (sim_openat_frame _ _ _ _ _)).
    + by rewrite (proj1 (sim_unlinkat_frame _ _ _)).
    + by rewrite (proj1 (sim_fdopendir_frame _ _)).
    + by rewrite (proj1 (sim_readdir_frame _ _)).
  - intros c A f w Hf Hc.
    destruct Hf; try (by apply sim_listed_same); try done.
    + apply sim_listed_same, (proj2 (sim_read_frame _ _ _)).
    + apply (proj2 (sim_write_frame _ _ _)).
    + apply sim_listed_same. by apply (sim_open_frame p fl m w), opening_kind_plain.
    + apply sim_listed_same. by apply (sim_openat_frame d n fl m w), opening_kind_plain.
    + apply (sim_unlinkat_frame d n w).
    + apply sim_listed_same, (sim_fdopendir_frame f w).
    + apply sim_listed_same, (sim_readdir_frame d w).
  - intros d A f w Hf. remember Plain as c eqn:Hc.
    assert (forall w', dirs w' = dirs w -> (sim_entries d w' <= sim_entries d w)%nat) as Hsame
      by (unfold sim_entries; by intros w' ->).
    destruct Hf; try (by apply Hsame); try done.
    + apply Hsame, (sim_read_frame f n w).
    + apply Hsame, (sim_write_frame f b w).
    + apply Hsame, (sim_open_frame p fl m w).
    + apply Hsame, (sim_openat_frame d0 n fl m w).
    + apply Hsame, (sim_unlinkat_frame d0 n w).
    + apply (sim_readdir_frame d0 w).
  - intros w. cbn. lia.
  - intros f n w. cbn. unfold sim_read. by repeat case_match.
  - intros f b w. cbn. unfold sim_write. by repeat case_match.
  - intros f w d. cbn. unfold sim_fdopendir. destruct (fds w !! f) as [[i off]|]; [|done].
    destruct (inodes w !! i) as [nd|] eqn:Hi; [|done]. intros [= <-]. unfold sim_entries. cbn.
    rewrite lookup_insert_eq, length_map. by eapply sim_listed_entries.
  - intros d w. cbn. unfold sim_readdir, sim_entries. destruct (dirs w !! d) as [[|e es]|] eqn:Ed;
      [by left| |by left]. right. cbn. rewrite lookup_insert_eq. lia.
  - intros f n w b. cbn. unfold sim_read. repeat case_match; try done; intros [= <-];
      rewrite length_take; lia.
  - intros f b w n. cbn. unfold sim_write. repeat case_match; try done; intros [= <-];
      rewrite ?length_take; lia.
Defined.

#[local] Existing Instance sample_crypto.
#[local] Existing Instance sample_hex.
#[local] Existing Instance sample_toml.

(** More than a reading of the clock for every nanosecond of its range. *)
Definition long_fuel : nat := N.to_nat (instant_max + 2000000).

Lemma long_fuel_enough :
  (remaining (world (production_start Decision.Denied))
   + listed (world (production_start Decision.Denied)) + trusted_limit < long_fuel)%nat.
Proof.
  change (remaining (world (production_start Decision.Denied)))
    with (N.to_nat (instant_max - clock (world (production_start Decision.Denied)))).
  assert (listed (world (production_start Decision.Denied)) = 3%nat) as -> by (vm_compute; reflexivity).
  unfold long_fuel, trusted_limit, MAX_FRAME_LEN. lia.
Qed.

Lemma sample_decoded_expiry b r :
  from_slice (T := SignedAuthResponse.t) b = Ok r ->
  AuthResponseBody.expires_at_ms (SignedAuthResponse.body r) <= u64_max.
Proof.
  cbn. destruct (decode_response b) as [[q s]|]; [|done].
  destruct (N.leb_spec (AuthResponseBody.expires_at_ms q) u64_max); [|done]. by intros [= <-].
Qed.

Lemma request_returns_witness :
  exists s',
    (exists result, run_request true long_fuel production_args (production_start Decision.Denied)
       = (Done result, s')) \/
    true = true /\ run_request true long_fuel production_args (production_start Decision.Denied)
       = (Panicked, s').
Proof.
  exact (request_returns true long_fuel production_args (production_start Decision.Denied)
    sample_decoded_expiry long_fuel_enough).
Defined.
