(* ===== verification/FakeAgent.v ===== *)
(** * The fake agent ([run_fake_agent] of [src/crates/helper/src/main.rs])

    A development peer: it accepts connections, verifies each request, and
    answers with a signed response of the configured decision. *)

From Stdlib Require Import NArith ZArith Lia List Bool.
From Stdlib Require Import Strings.Byte Strings.String.
From stdpp Require Import base decidable list option strings.
From S2P Require Import Prelude RustStd Crypto Protocol Canonical Samples ProtocolProps Sys.
From S2P Require Import Ownership Io Transport Sim TransportProps Frame Trust Common Keys Config.
From S2P Require Import Replay Request Verdict RequestProps.

Open Scope N_scope.

Module CliDecision.
Inductive t : Type := Approved | Denied | Unavailable | Cancelled | Failed.

(** [impl From<CliDecision> for Decision] *)
Definition to_decision (value : t) : Decision.t :=
  match value with
  | Approved => Decision.Approved
  | Denied => Decision.Denied
  | Unavailable => Decision.Unavailable
  | Cancelled => Decision.Cancelled
  | Failed => Decision.Failed
  end.
End CliDecision.

Record HostPublicKeyInputArgs : Type := { host_pubkey_hex : option bytes; host_pubkey_file : option bytes }.
Record AgentKeyInputArgs : Type := { agent_key_hex : option bytes; agent_key_file : option bytes }.

Record FakeAgentArgs : Type := {
  fa_socket : bytes;
  host_pubkey_input : HostPublicKeyInputArgs;
  agent_key_input : AgentKeyInputArgs;
  fa_agent_key_id : bytes;
  fa_decision : CliDecision.t;
  fa_once : bool;
}.

Section FakeAgent.
Context `{Kernel W} `{Crypto} `{Hex}.
Context `{SerdeJson SignedAuthRequest.t} `{SerdeJson SignedAuthResponse.t}.
Context (overflow_checks : bool).

Definition remove_stale_socket (path : bytes) : M W error unit :=
  let! r := attempt (unlink path) in
  match r with
  | Ok _ => ret tt
  | Err error => if decide (kind error = NotFound) then ret tt else throw (EIo error)
  end.

(** [break] when only one request is to be served, [continue] otherwise. *)
Definition next_round (once : bool) : M W error (unit + unit) :=
  ret (if once then inr tt else inl tt).

(** The answer to a request that was verified. *)
Definition fake_response (args : FakeAgentArgs) (agent_key : SigningKey) (now : N)
  (request : SignedAuthRequest.t) : M W error SignedAuthResponse.t :=
  let decision := CliDecision.to_decision (fa_decision args) in
  let auth_method :=
    if decide (decision = Decision.Approved) then AuthMethod.BiometricOrWatch
    else AuthMethod.None_ in
  let! expires := add_u64 overflow_checks now 10000 in
  let! response := lift (map_err EProtocol (AuthResponseBody.for_request
    (SignedAuthRequest.body request) decision auth_method now expires (fa_agent_key_id args))) in
  lift (map_err EProtocol (SignedAuthResponse.sign response agent_key)).

(** The body of the loop, after [accept]. *)
Definition fake_round (fuel : nat) (args : FakeAgentArgs) (host_pubkey : bytes)
  (agent_key : SigningKey) (stream : UnixStream) : M W error (unit + unit) :=
  let! r := attempt (read_json_frame (T := SignedAuthRequest.t) fuel stream) in
  match r with
  | Err _ => next_round (fa_once args)
  | Ok request =>
      match SignedAuthRequest.verify request host_pubkey with
      | Err _ => next_round (fa_once args)
      | Ok _ =>
          let! now := unix_time_ms in
          match AuthRequestBody.verify_freshness (SignedAuthRequest.body request) now 30000 with
          | Err _ => next_round (fa_once args)
          | Ok _ =>
              let! response := fake_response args agent_key now request in
              let! _ := attempt (write_json_frame fuel stream response) in
              next_round (fa_once args)
          end
      end
  end.

Definition run_fake_agent (fuel : nat) (args : FakeAgentArgs) : M W error unit :=
  do! remove_stale_socket (fa_socket args) ;;
  let! listener := into EIo (sys_bind (fa_socket args)) in
  scoped listener (
    let! host_pubkey := load_required_public_key fuel (host_pubkey_hex (host_pubkey_input args))
                          (host_pubkey_file (host_pubkey_input args)) "host public key" in
    let! agent_key := load_required_signing_key fuel (agent_key_hex (agent_key_input args))
                        (agent_key_file (agent_key_input args)) in
    do! loop fuel (fun _ : unit =>
      let! f := into EIo (accept listener) in
      scoped f (fake_round fuel args host_pubkey agent_key {| raw_fd := f |})) tt ;;
    let! _ := attempt (unlink (fa_socket args)) in
    ret tt).
End FakeAgent.

(** ** What it answers *)

Section FakeAgentProps.
Context `{Kernel W} `{CL : CryptoLaws} `{Hex}.
Context `{SerdeJson SignedAuthRequest.t} `{SerdeJson SignedAuthResponse.t} (oc : bool).

Lemma neutral_raw_read (t : UnixStream) n : neutral (read_ (W := W) t n).
Proof. unfold read_, unix_stream_read, read. neutral_tac. Qed.
Lemma neutral_raw_write (t : UnixStream) b : neutral (write_ (W := W) t b).
Proof. unfold write_, unix_stream_write, write. neutral_tac. Qed.

Lemma neutral_fake_round fuel args pk sk st :
  neutral (fake_round (W := W) oc fuel args pk sk st).
Proof.
  unfold fake_round, next_round, fake_response, add_u64, read_json_frame, write_json_frame.
  neutral_tac; try apply neutral_unix_time_ms; try (apply neutral_read_exact, neutral_raw_read);
    apply neutral_write_all, neutral_raw_write.
Qed.

Lemma neutral_run_fake_agent fuel args : neutral (run_fake_agent (W := W) oc fuel args).
Proof.
  unfold run_fake_agent, remove_stale_socket, unlink, load_required_public_key,
    load_required_signing_key.
  apply neutral_bind; [neutral_tac|]. intros _.
  eapply owns_bind; [apply owns_into; by apply owns_open|cbv beta]. intros listener.
  apply neutral_scoped. apply neutral_bind; [apply neutral_load_public_key|]. intros pk.
  apply neutral_bind; [apply neutral_load_signing_key|]. intros sk.
  apply neutral_bind; [apply neutral_loop; intros _|intros _; neutral_tac].
  eapply owns_bind; [apply owns_into; by apply owns_open|cbv beta]. intros f.
  apply neutral_scoped, neutral_fake_round.
Qed.

Lemma fake_response_ok args sk now q r (s s' : state W) :
  fake_response oc args sk now q s = (Done (Ok r), s') ->
  s' = s /\ authentic (VerifyingKey_to_bytes (SigningKey_verifying_key sk)) (SignedAuthRequest.body q) r /\
  AuthResponseBody.decision (SignedAuthResponse.body r) = CliDecision.to_decision (fa_decision args) /\
  AuthResponseBody.created_at_ms (SignedAuthResponse.body r) = now.
Proof.
  unfold fake_response. cbv zeta. intros HF. apply bind_ok in HF as (e & s1 & He & HF).
  assert (s1 = s) as ->.
  { unfold add_u64 in He. destruct (now + 10000 <=? u64_max); [by injection He|].
    destruct oc; [discriminate|by injection He]. }
  apply bind_ok in HF as (p & s2 & (Hp & ->)%lift_done & (Hs & ->)%lift_done).
  symmetry in Hp, Hs. apply map_err_ok in Hp, Hs. split; [done|].
  pose proof (for_request_bound _ _ _ _ _ _ _ Hp) as Hb.
  unfold SignedAuthResponse.sign in Hs. res_inv Hs. subst r.
  unfold AuthResponseBody.for_request in Hp. res_inv Hp. subst p.
  split_and!; [|done..]. split; [|exact Hb]. eexists. split; [done|apply sign_holds].
Qed.

(** A request as it must be to be answered. *)
Definition answerable (pk : bytes) (q : SignedAuthRequest.t) (now : N) : Prop :=
  (exists m, AuthRequestBody.canonical_bytes (SignedAuthRequest.body q) = Ok m /\
     signature_holds pk m (SignedAuthRequest.signature q)) /\
  fresh_request (SignedAuthRequest.body q) now 30000.

Lemma request_verify_ok q pk :
  SignedAuthRequest.verify q pk = Ok tt <->
  exists m, AuthRequestBody.canonical_bytes (SignedAuthRequest.body q) = Ok m /\
    signature_holds pk m (SignedAuthRequest.signature q).
Proof.
  unfold SignedAuthRequest.verify. rewrite result_bind_ok. by setoid_rewrite verify_ed25519_ok.
Qed.
Definition hears (e : event) : Prop := match e with EvWrite _ _ _ => False | _ => True end.

Lemma hears_read_frame fuel (st : UnixStream) :
  emits hears (read_json_frame (T := SignedAuthRequest.t) fuel st : M W _ _).
Proof.
  unfold read_json_frame, read_exact, read_, unix_stream_read, read.
  respects_tac; by apply emits_prim.
Qed.

(** What a round heard and said. *)
Definition answered (fuel : nat) (args : FakeAgentArgs) (pk : bytes) (sk : SigningKey)
  (stream : UnixStream) (heard said : list event) (s s' : state W) : Prop :=
  exists q r ns wire reads result s1,
    heard = reads ++ [EvSystem (Some ns)] /\
    bytes_read (raw_fd stream) reads = frame wire /\ from_slice wire = Ok q /\
    answerable pk q (ns / 1000000) /\
    authentic (VerifyingKey_to_bytes (SigningKey_verifying_key sk)) (SignedAuthRequest.body q) r /\
    AuthResponseBody.decision (SignedAuthResponse.body r)
      = CliDecision.to_decision (fa_decision args) /\
    made s s1 heard /\ write_json_frame fuel stream r s1 = (Done result, s') /\ made s1 s' said.

Lemma fake_round_ok fuel args pk sk stream next (s s' : state W) :
  fake_round oc fuel args pk sk stream s = (Done (Ok next), s') ->
  next = (if fa_once args then inr tt else inl tt) /\
  exists heard said, made s s' (heard ++ said) /\ Forall hears heard /\
    (said = [] \/ answered fuel args pk sk stream heard said s s').
Proof.
  unfold fake_round. intros HF. apply bind_ok in HF as (r & s1 & Ha & HF).
  apply attempt_ok in Ha as (r' & Ha & [= ->]).
  pose proof (hears_read_frame fuel stream s) as (reads & M1 & Hh). rewrite Ha in M1. cbn [snd] in M1.
  assert (forall evs s2, made s1 s2 evs -> Forall hears evs ->
    next_round (fa_once args) s2 = (Done (Ok next), s') ->
    next = (if fa_once args then inr tt else inl tt) /\
    exists heard said, made s s' (heard ++ said) /\ Forall hears heard /\
      (said = [] \/ answered fuel args pk sk stream heard said s s')) as Hsilent.
  { intros evs s2 M2 Hev [= <- <-]. split; [done|]. exists (reads ++ evs), [].
    rewrite app_nil_r. split_and!; [by eapply made_app|by apply Forall_app|by left]. }
  destruct r' as [q|e]; [|by apply (Hsilent [] s1 (made_nil _))].
  destruct (SignedAuthRequest.verify q pk) as [[]|e] eqn:Hv; [|by apply (Hsilent [] s1 (made_nil _))].
  apply bind_ok in HF as (now & s2 & (_ & ns & -> & M2)%unix_time_ms_ok & HF).
  destruct (AuthRequestBody.verify_freshness _ _ _) as [[]|e] eqn:Hf;
    [|by apply (Hsilent _ s2 M2); [repeat constructor|]].
  apply bind_ok in HF as (r & s3 & (-> & Hau & Hd & _)%fake_response_ok & HF).
  apply bind_ok in HF as (w & s4 & Hw & [= <- <-]). apply attempt_ok in Hw as (result & Hw & [= ->]).
  assert (neutral (write_json_frame (W := W) fuel stream r)) as Hn.
  { unfold write_json_frame. neutral_tac; apply neutral_write_all, neutral_raw_write. }
  destruct (Hn _ _ _ Hw) as (said & M4 & _). apply request_verify_ok in Hv. apply fresh_request_ok in Hf.
  apply read_frame_wire in Ha as (wire & Hq & _ & reads' & M1' & Hr & _).
  rewrite (made_inj _ _ _ _ M1' M1) in Hr.
  assert (made s s2 (reads ++ [EvSystem (Some ns)])) as M12 by (by eapply made_app).
  split; [done|]. exists (reads ++ [EvSystem (Some ns)]), said. split_and!.
  - by eapply made_app.
  - apply Forall_app. split; [done|]. by repeat constructor.
  - right. exists q, r, ns, wire, reads, result, s2. by split_and!.
Qed.
End FakeAgentProps.

(** The fake agent keeps no descriptor; whenever it comes to write an
    answer, it had read a whole request, signed by the pinned host key and
    fresh, and the answer is one the helper finds authentic for that request
    under the agent's public key, with the configured decision. *)
Theorem fake_agent_answers `{Kernel W} `{CL : CryptoLaws} `{Hex}
  `{SerdeJson SignedAuthRequest.t} `{SerdeJson SignedAuthResponse.t} (overflow_checks : bool)
  (fuel : nat) (args : FakeAgentArgs) (pk : bytes) (sk : SigningKey) (stream : UnixStream)
  (next : unit + unit) (s s' : state W) :
  owns [] (fun _ => []) (run_fake_agent (W := W) overflow_checks fuel args) /\
  (fake_round overflow_checks fuel args pk sk stream s = (Done (Ok next), s') ->
   next = (if fa_once args then inr tt else inl tt) /\
   exists heard said, made s s' (heard ++ said) /\ Forall hears heard /\
     (said = [] \/ answered fuel args pk sk stream heard said s s')).
Proof. split; [apply neutral_run_fake_agent|apply fake_round_ok]. Qed.

(** ** An honest agent is never taken for an attacker *)

(** A response that an agent builds and signs for the request, and that
    stays fresh as long as the request does, counts as tampered with only
    when the replay cache refuses it: whatever the clocks say, the helper
    reports the agent's decision, or that the answer came too late. *)
Theorem honest_response_never_tampered `{Kernel W} `{CL : CryptoLaws} `{Hex} (fuel : nat)
  (sk : SigningKey) (d skew created expires n : N) (decision : Decision.t) (mt : AuthMethod.t)
  (key_id : bytes) (cache : option File) (q : SignedAuthRequest.t) (p : AuthResponseBody.t)
  (r : SignedAuthResponse.t) (s s' : state W) :
  AuthResponseBody.for_request (SignedAuthRequest.body q) decision mt created expires key_id = Ok p ->
  SignedAuthResponse.sign p sk = Ok r ->
  (forall now, fresh_request (SignedAuthRequest.body q) now skew -> fresh created expires now skew) ->
  conclude fuel (VerifyingKey_to_bytes (SigningKey_verifying_key sk)) d skew cache q r s
    = (Done (Ok n), s') ->
  n = exit_code_for_decision decision \/ n = EXIT_UNAVAILABLE \/
  (n = EXIT_TAMPER /\ exists dir s1 e, cache = Some dir /\
     in_time d skew (SignedAuthRequest.body q) r s s1 /\
     record_replay_marker fuel dir r s1 = (Done (Err e), s')).
Proof.
  intros Hp Hs Hfresh HC. pose proof (for_request_bound _ _ _ _ _ _ _ Hp) as Hb.
  assert (authentic (VerifyingKey_to_bytes (SigningKey_verifying_key sk)) (SignedAuthRequest.body q) r
    /\ SignedAuthResponse.body r = p) as [Ha Hr].
  { unfold SignedAuthResponse.sign in Hs. res_inv Hs. subst r. split; [|done].
    split; [|exact Hb]. eexists. split; [done|apply sign_holds]. }
  assert (AuthResponseBody.decision p = decision /\
    AuthResponseBody.created_at_ms p = created /\ AuthResponseBody.expires_at_ms p = expires)
    as (Hd & Hcr & Hex).
  { unfold AuthResponseBody.for_request in Hp. res_inv Hp. by subst p. }
  apply conclude_verdict in HC. destruct HC; try done; auto.
  - exfalso. match goal with Hs : ~ fresh_response _ _ _ |- _ => apply Hs end.
    unfold fresh_response. rewrite Hr, Hcr, Hex. by apply Hfresh.
  - right; right. split; [done|]. by eexists _, _, _.
  - left. by rewrite Hr, Hd.
Qed.

(** ** Witnesses *)

#[local] Existing Instance sample_crypto.
#[local] Existing Instance sample_crypto_laws.

Definition client_request : SignedAuthRequest.t :=
  SignedAuthRequest.mk vector_request (of_sized (sample_sign (sample_sk x07) vector_request_bytes)).
Definition client_frame : bytes := Eval vm_compute in
  match to_vec client_request with Ok b => frame b | Err _ => [] end.

Definition agent_args : FakeAgentArgs := {|
  fa_socket := B "/run/agent.sock"; host_pubkey_input := {| host_pubkey_hex := None; host_pubkey_file := None |};
  agent_key_input := {| agent_key_hex := None; agent_key_file := None |}; fa_agent_key_id := B "agent-key-1";
  fa_decision := CliDecision.Denied; fa_once := true |}.

Definition agent_start : state sim :=
  start (sim_peer 0 (B "/run/agent.sock") (fun _ => client_frame)).
Definition agent_end : state sim :=
  (fake_round false 400 agent_args (sample_key x07) (sample_sk x09) echo_stream agent_start).2.

Lemma agent_run :
  fake_round false 400 agent_args (sample_key x07) (sample_sk x09) echo_stream agent_start
  = (Done (Ok (inr tt)), agent_end).
Proof. run_here. Qed.

Lemma agent_said : existsb (fun e => match e with EvWrite _ _ _ => true | _ => false end) (log agent_end) = true.
Proof. vm_compute. reflexivity. Qed.

Lemma fake_agent_answers_witness :
  inr tt = (if fa_once agent_args then inr tt else inl tt) /\
  exists heard said, made agent_start agent_end (heard ++ said) /\ Forall hears heard /\
    (said = [] \/
     answered 400 agent_args (sample_key x07) (sample_sk x09) echo_stream heard said
       agent_start agent_end).
Proof.
  exact (proj2 (fake_agent_answers false 400 agent_args (sample_key x07) (sample_sk x09)
    echo_stream (inr tt) agent_start agent_end) agent_run).
Defined.

Definition long_response : AuthResponseBody.t := Eval vm_compute in
  match AuthResponseBody.for_request vector_request Decision.Cancelled AuthMethod.None_
          1700000000000 1700000030000 (B "agent-key-1") with
  | Ok p => p | Err _ => vector_response end.
Definition long_signed : SignedAuthResponse.t := Eval vm_compute in
  match SignedAuthResponse.sign long_response (sample_sk x09) with
  | Ok r => r | Err _ => vector_signed_response end.
Definition cancelled_end : state sim :=
  (conclude 400 (sample_key x09) 5000000000 30000 None client_request long_signed (start sim0)).2.

Lemma cancelled_run :
  conclude 400 (sample_key x09) 5000000000 30000 None client_request long_signed (start sim0)
  = (Done (Ok EXIT_CANCELLED), cancelled_end).
Proof. run_here. Qed.

Lemma long_response_built :
  AuthResponseBody.for_request vector_request Decision.Cancelled AuthMethod.None_
    1700000000000 1700000030000 (B "agent-key-1") = Ok long_response.
Proof. vm_compute. reflexivity. Qed.

Lemma long_response_signed : SignedAuthResponse.sign long_response (sample_sk x09) = Ok long_signed.
Proof. vm_compute. reflexivity. Qed.

Lemma honest_response_never_tampered_witness :
  EXIT_CANCELLED = exit_code_for_decision Decision.Cancelled \/
  EXIT_CANCELLED = EXIT_UNAVAILABLE \/
  (EXIT_CANCELLED = EXIT_TAMPER /\ exists dir s1 e, None = Some dir /\
     in_time 5000000000 30000 vector_request long_signed (start sim0) s1 /\
     record_replay_marker 400 dir long_signed s1 = (Done (Err e), cancelled_end)).
Proof.
  exact (honest_response_never_tampered 400 (sample_sk x09) 5000000000 30000 1700000000000
    1700000030000 EXIT_CANCELLED Decision.Cancelled AuthMethod.None_ (B "agent-key-1") None
    client_request long_response long_signed (start sim0) cancelled_end long_response_built
    long_response_signed (fun now Hq => Hq) cancelled_run).
Defined.
