(* ===== verification/Main.v ===== *)
(** * Commands and the exit status ([run] and [main] of [src/crates/helper/src/main.rs])

    [clap] turns the arguments into a [Command]; the pretty-printed JSON of
    [serde_json] is the class [SerdePretty].  Diagnostics on standard error
    are not modelled; the lines printed on standard output are. *)

From Stdlib Require Import NArith ZArith Lia List Bool.
From Stdlib Require Import Strings.Byte Strings.String.
From stdpp Require Import base decidable list option strings.
From S2P Require Import Prelude RustStd Crypto Protocol Canonical Samples ProtocolProps Sys.
From S2P Require Import Ownership Io Transport Sim TransportProps Frame Trust Common Keys Config.
From S2P Require Import Replay Request Verdict RequestProps FakeAgent.

Open Scope N_scope.

Inductive ConfigKey : Type := Host | Agent.

Record OptionalKeyInputArgs : Type := { optional_key_hex : option bytes; optional_key_file : option bytes }.

Record RequestFixtureArgs : Type := {
  fx_key_input : OptionalKeyInputArgs;
  fx_key_id : bytes;
  fx_host_id : bytes;
  fx_hostname : bytes;
  fx_service : bytes;
  fx_user : bytes;
  fx_ruser : option bytes;
  fx_rhost : option bytes;
  fx_tty : option bytes;
  fx_sudo_command : option bytes;
}.

(** [RequestFixtureArgs::into_context] *)
Definition into_context (args : RequestFixtureArgs) : RequestContext := {|
  ctx_key_id := fx_key_id args;
  ctx_host_id := fx_host_id args;
  ctx_hostname := fx_hostname args;
  ctx_service := fx_service args;
  ctx_user := fx_user args;
  ctx_ruser := fx_ruser args;
  ctx_rhost := fx_rhost args;
  ctx_tty := fx_tty args;
  ctx_sudo_command := fx_sudo_command args |}.

Inductive Command : Type :=
| GenKey (private_key_file public_key_file : option bytes)
| Pubkey (args : KeyInputArgs)
| SampleRequest (args : RequestFixtureArgs)
| SampleResponse
| TestVector
| Request (args : RequestArgs)
| FakeAgent (args : FakeAgentArgs)
| PrepareConfig (args : PrepareConfigArgs)
| ConfigKeyPath (config : bytes) (key : ConfigKey).

(** The values that [serde_json::json!] is given. *)
Inductive json_field : Type :=
| JString (s : bytes)
| JRequest (r : SignedAuthRequest.t)
| JResponse (r : SignedAuthResponse.t).

Class SerdePretty := {
  pretty_request : SignedAuthRequest.t -> result bytes string;
  pretty_object : list (bytes * json_field) -> result bytes string;
}.

Section Main.
Context `{Kernel W} `{Crypto} `{Hex} `{Toml} `{SerdePretty}.
Context `{SerdeJson SignedAuthRequest.t} `{SerdeJson SignedAuthResponse.t}.
Context (overflow_checks : bool).

(** [println!] *)
Definition println (line : bytes) : M W error unit := stdout (line ++ [nl]).

Definition public_hex (key : SigningKey) : bytes :=
  hex_encode (VerifyingKey_to_bytes (SigningKey_verifying_key key)).
Definition private_hex (key : SigningKey) : bytes := hex_encode (SigningKey_to_bytes key).

Definition print_keypair (signing_key : SigningKey) : M W error unit :=
  do! println (B "private_key_hex=" ++ private_hex signing_key) ;;
  println (B "public_key_hex=" ++ public_hex signing_key).

Definition gen_key (fuel : nat) (private_key_file public_key_file : option bytes) : M W error unit :=
  let! signing_key := generate_key in
  do! match private_key_file with
      | Some path => write_private_key_file fuel path (private_hex signing_key)
      | None => ret tt
      end ;;
  do! match public_key_file with
      | Some path => write_public_key_file fuel path (public_hex signing_key)
      | None => ret tt
      end ;;
  print_keypair signing_key.

Definition sample_request (fuel : nat) (args : RequestFixtureArgs) : M W error unit :=
  let! signing_key := load_optional_signing_key fuel (optional_key_hex (fx_key_input args))
    (optional_key_file (fx_key_input args)) in
  let! now := unix_time_ms in
  let! request := build_request overflow_checks now (into_context args) in
  let! signed := lift (map_err EProtocol (SignedAuthRequest.sign request signing_key)) in
  let! text := lift (map_err EJson (pretty_request signed)) in
  println text.

Definition sample_response : M W error unit :=
  let! host_key := generate_key in
  let! agent_key := generate_key in
  let! now := unix_time_ms in
  let! body := build_request overflow_checks now RequestContext_sample in
  let! request := lift (map_err EProtocol (SignedAuthRequest.sign body host_key)) in
  let! created := add_u64 overflow_checks now 1000 in
  let! expires := add_u64 overflow_checks now 11000 in
  let! response := lift (map_err EProtocol (
    let? p := AuthResponseBody.for_request (SignedAuthRequest.body request) Decision.Approved
                AuthMethod.BiometricOrWatch created expires (B "agent-key-1") in
    SignedAuthResponse.sign p agent_key)) in
  let! text := lift (map_err EJson (pretty_object
    [(B "host_public_key_hex", JString (public_hex host_key));
     (B "agent_public_key_hex", JString (public_hex agent_key));
     (B "request", JRequest request); (B "response", JResponse response)])) in
  println text.

(** [build_test_vector]: the fields of the vector. *)
Definition build_test_vector : result (list (bytes * json_field)) ProtocolError :=
  let host_key := SigningKey_from_bytes (replicate 32 x07) in
  let agent_key := SigningKey_from_bytes (replicate 32 x09) in
  let? signed_request := SignedAuthRequest.sign vector_request host_key in
  let? response := AuthResponseBody.for_request (SignedAuthRequest.body signed_request)
    Decision.Approved AuthMethod.BiometricOrWatch 1700000001000 1700000011000 (B "agent-key-1") in
  let? hash := AuthRequestBody.sha256 (SignedAuthRequest.body signed_request) in
  let? signed_response := SignedAuthResponse.sign response agent_key in
  Ok [(B "name", JString (B "macos-auth protocol v1 deterministic approval vector"));
      (B "host_private_key_hex", JString (private_hex host_key));
      (B "host_public_key_hex", JString (public_hex host_key));
      (B "agent_private_key_hex", JString (private_hex agent_key));
      (B "agent_public_key_hex", JString (public_hex agent_key));
      (B "request_hash_hex", JString (hex_encode hash));
      (B "request", JRequest signed_request);
      (B "response", JResponse signed_response)].

Definition config_key_path (fuel : nat) (path : bytes) (key : ConfigKey) : M W error unit :=
  let! config := load_helper_config fuel (Some path) false in
  do! validate_config_fields config ;;
  let! host := lift (ok_or (host_key_file config) (EMsg (B "host_key_file is required"))) in
  let! agent := lift (ok_or (agent_pubkey_file config) (EMsg (B "agent_pubkey_file is required"))) in
  do! load_signing_key fuel None (Some host) false ;;
  do! load_public_key fuel None (Some agent) "agent public key" false ;;
  let path := match key with Host => host | Agent => agent end in
  let! text := lift (path_to_str path) in
  println text.

(** [run], after [Cli::parse]. *)
Definition run (fuel : nat) (command : Command) : M W error (option N) :=
  match command with
  | GenKey private_key_file public_key_file =>
      do! gen_key fuel private_key_file public_key_file ;; ret None
  | Pubkey args =>
      let! signing_key := load_required_signing_key fuel (key_hex args) (key_file args) in
      do! println (B "public_key_hex=" ++ public_hex signing_key) ;; ret None
  | SampleRequest args => do! sample_request fuel args ;; ret None
  | SampleResponse => do! sample_response ;; ret None
  | TestVector =>
      let! vector := lift (map_err EProtocol build_test_vector) in
      let! text := lift (map_err EJson (pretty_object vector)) in
      do! println text ;; ret None
  | Request args => let! code := run_request overflow_checks fuel args in ret (Some code)
  | FakeAgent args => do! run_fake_agent overflow_checks fuel args ;; ret None
  | PrepareConfig args => let! text := prepare_config fuel args in do! println text ;; ret None
  | ConfigKeyPath config key => do! config_key_path fuel config key ;; ret None
  end.

(** The exit status of the process. *)
Definition main (fuel : nat) (command : Command) (s : state W) : outcome N * state W :=
  match run fuel command s with
  | (Done (Ok (Some exit_code)), s') => (Done exit_code, s')
  | (Done (Ok None), s') => (Done 0, s')
  | (Done (Err _), s') => (Done 1, s')
  | (Panicked, s') => (Panicked, s')
  | (OutOfFuel, s') => (OutOfFuel, s')
  end.
End Main.

(** ** Generated keys *)

Section GenKey.
Context `{Kernel W} `{CL : CryptoLaws} `{HL : HexLaws}.

Lemma gen_key_ok fuel p1 p2 (s s' : state W) :
  gen_key fuel (Some p1) (Some p2) s = (Done (Ok tt), s') ->
  exists random sk c1 c2 s1 s2 s3,
    made s s1 [EvRandom random] /\
    sk = SigningKey_generate (take SigningKey_generate_len
           (random ++ replicate SigningKey_generate_len x00)) /\
    created p1 0x180 c1 s1 s2 /\ created p2 0x1A4 c2 s2 s3 /\
    key_text c1 (private_hex sk) /\ key_text c2 (public_hex sk) /\
    made s3 s' [EvStdout (B "private_key_hex=" ++ private_hex sk ++ [nl]);
                EvStdout (B "public_key_hex=" ++ public_hex sk ++ [nl])].
Proof.
  unfold gen_key, generate_key. intros HG. apply bind_ok in HG as (sk & s1 & Hs & HG).
  apply bind_ok in Hs as (seed & s0 & (random & M1 & ->)%fill_bytes_ok & [= <- <-]).
  apply bind_ok in HG as ([] & s2 & Hw1%write_private_key_file_ok & HG).
  apply bind_ok in HG as ([] & s3 & Hw2%write_public_key_file_ok & HG).
  apply bind_ok in HG as ([] & s4 & (? & _ & M4 & _)%prim_done & (? & _ & M5 & _)%prim_done).
  eexists random, _, _, _, s0, s2, s3.
  split_and!; [exact M1|done|exact Hw1|exact Hw2|apply private_key_text|apply public_key_text|].
  - apply VerifyingKey_to_bytes_length.
  - pose proof (made_app s3 s4 s' [_] [_] M4 M5) as M. by rewrite <- !app_assoc in M.
Qed.
End GenKey.

(** Generating a key pair into two files draws one seed, creates both
    files exclusively, the private one for its owner alone, and leaves texts
    from which the two loaders read back that key and its public half; the
    same two values are printed, nothing else. *)
Theorem generated_keys_load `{Kernel W} `{CL : CryptoLaws} `{HL : HexLaws} (fuel : nat)
  (p1 p2 : bytes) (label : string) (s s' : state W) :
  gen_key fuel (Some p1) (Some p2) s = (Done (Ok tt), s') ->
  exists random sk c1 c2 s1 s2 s3 sk' m1 m2,
    made s s1 [EvRandom random] /\
    sk = SigningKey_generate (take SigningKey_generate_len
           (random ++ replicate SigningKey_generate_len x00)) /\
    created p1 0x180 c1 s1 s2 /\ created p2 0x1A4 c2 s2 s3 /\
    key_text c1 m1 /\ signing_key_from_hex m1 = Ok sk' /\
    SigningKey_to_bytes sk' = SigningKey_to_bytes sk /\
    key_text c2 m2 /\
    public_key_from_hex m2 label = Ok (VerifyingKey_to_bytes (SigningKey_verifying_key sk)) /\
    made s3 s' [EvStdout (B "private_key_hex=" ++ m1 ++ [nl]);
                EvStdout (B "public_key_hex=" ++ m2 ++ [nl])].
Proof.
  intros (random & sk & c1 & c2 & s1 & s2 & s3 & M1 & Hsk & W1 & W2 & K1 & K2 & M2)%gen_key_ok.
  destruct (signing_key_from_encoded sk) as (sk' & ? & ?).
  exists random, sk, c1, c2, s1, s2, s3, sk', (private_hex sk), (public_hex sk).
  split_and!; try done. apply public_key_from_encoded, VerifyingKey_to_bytes_length.
Qed.

(** ** The test vector *)

Section Vector.
Context `{CL : CryptoLaws} `{Hex}.

Lemma response_encodes q d mt c e k m :
  AuthRequestBody.canonical_bytes q = Ok m -> c < e -> fits k = true ->
  exists p b, AuthResponseBody.for_request q d mt c e k = Ok p /\
    AuthResponseBody.canonical_bytes p = Ok b.
Proof.
  intros Hm Hce Hk. unfold AuthResponseBody.for_request, AuthRequestBody.sha256. rewrite Hm.
  eexists _, _. split; [done|]. rewrite response_canonical_spec.
  apply request_canonical_ok in Hm as (Hv & Hs & _). apply request_validate_ok in Hv as (Hver & Hn & _).
  rewrite (proj2 (response_validate_ok _)) by (cbn; by split_and!).
  cbn [result_bind]. rewrite (proj2 (oversized_none _)); [done|].
  apply oversized_none in Hs. unfold request_texts in Hs. rewrite !Forall_cons in Hs.
  unfold response_texts. rewrite !Forall_cons, Forall_nil. cbn [snd opt_fits] in *. cbn.
  assert (fits (Sha256_digest m) = true) as Hh by (unfold fits; by rewrite Sha256_digest_length).
  tauto.
Qed.
End Vector.

(** The deterministic test vector exists for every implementation of the
    primitives, and it is consistent: its request verifies under its host
    key, its response is authentic for that request under its agent key, and
    its hash is that of the canonical bytes of the request. *)
Theorem test_vector_verifies `{CL : CryptoLaws} `{Hex} :
  exists fields q r m,
    build_test_vector = Ok fields /\
    In (B "request", JRequest q) fields /\ In (B "response", JResponse r) fields /\
    In (B "request_hash_hex", JString (hex_encode (Sha256_digest m))) fields /\
    SignedAuthRequest.body q = vector_request /\
    AuthRequestBody.canonical_bytes vector_request = Ok m /\
    SignedAuthRequest.verify q (VerifyingKey_to_bytes (SigningKey_verifying_key
      (SigningKey_from_bytes (replicate 32 x07)))) = Ok tt /\
    authentic (VerifyingKey_to_bytes (SigningKey_verifying_key
      (SigningKey_from_bytes (replicate 32 x09)))) vector_request r /\
    AuthResponseBody.decision (SignedAuthResponse.body r) = Decision.Approved.
Proof.
  pose proof vector_request_canonical as Hm.
  destruct (response_encodes vector_request Decision.Approved AuthMethod.BiometricOrWatch
    1700000001000 1700000011000 (B "agent-key-1") vector_request_bytes Hm) as (p & b & Hp & Hb);
    [done|done|].
  unfold build_test_vector, SignedAuthRequest.sign. rewrite Hm. cbn [result_bind SignedAuthRequest.body].
  rewrite Hp. cbn [result_bind]. unfold AuthRequestBody.sha256. rewrite Hm. cbn [result_bind].
  unfold SignedAuthResponse.sign. rewrite Hb. cbn [result_bind].
  eexists _, _, _, vector_request_bytes. split; [done|].
  split; [cbn; tauto|]. split; [cbn; tauto|]. split; [cbn; tauto|]. split; [done|].
  split; [done|]. split; [|split].
  - apply request_verify_ok. eexists. split; [exact Hm|apply sign_holds].
  - split; [|by eapply for_request_bound]. exists b. split; [exact Hb|apply sign_holds].
  - unfold AuthResponseBody.for_request in Hp. res_inv Hp. by subst p.
Qed.

(** A status other than that of an error is the code of the run. *)
Lemma main_request_ok `{Kernel W} `{Crypto} `{Hex} `{Toml} `{SerdePretty}
  `{SerdeJson SignedAuthRequest.t} `{SerdeJson SignedAuthResponse.t} (overflow_checks : bool)
  (fuel : nat) (args : RequestArgs) (status : N) (s s' : state W) :
  main overflow_checks fuel (Request args) s = (Done status, s') -> status <> 1 ->
  run_request overflow_checks fuel args s = (Done (Ok status), s').
Proof.
  unfold main, run. intros HM Hne.
  destruct (bind _ _ s) as [[[[code|]|e]| |] s1] eqn:HB; try discriminate; injection HM as <- <-; [|..|done].
  - by apply bind_ok in HB as (code' & s2 & HR & [= -> ->]).
  - by apply bind_ok in HB as (code' & s2 & HR & [=]).
Qed.

(** The exit status, and what zero means. *)
Lemma request_status `{Kernel W} `{Crypto} `{Hex} `{Toml} `{SerdePretty}
  `{SerdeJson SignedAuthRequest.t} `{SerdeJson SignedAuthResponse.t} (overflow_checks : bool)
  (fuel : nat) (args : RequestArgs) (status : N) (s s' : state W) :
  main overflow_checks fuel (Request args) s = (Done status, s') ->
  In status [EXIT_APPROVED; 1; EXIT_UNAVAILABLE; EXIT_CANCELLED; EXIT_FAILED; EXIT_DENIED;
             EXIT_TAMPER; EXIT_UNSAFE_CONFIG; EXIT_PROTOCOL] /\
  (status = 0 -> exists r, decided fuel args r s s' /\
     AuthResponseBody.decision (SignedAuthResponse.body r) = Decision.Approved).
Proof.
  unfold main, run. intros HM.
  destruct (bind _ _ s) as [[[[code|]|e]| |] s1] eqn:HB; try discriminate; injection HM as <- <-.
  - apply bind_ok in HB as (code' & s2 & HR & [= -> ->]). split.
    + pose proof (run_codes _ _ _ _ _ _ HR) as Hc. cbn in Hc |- *. tauto.
    + intros ->. apply decision_run in HR as (r & Hr & Hd); [|by left].
      exists r. split; [done|]. by destruct (AuthResponseBody.decision (SignedAuthResponse.body r)).
  - apply bind_ok in HB as (code' & s2 & HR & [=]).
  - split; [cbn; tauto|done].
Qed.

(** The exit status of the request command: one on an error, the code of
    the run otherwise; zero, which the PAM module takes for success, means an
    approval: a run with [decided], that is, an authentic and fresh response
    under the pinned key to the request that this run signed for its user and
    sent to the configured socket, with the decision [Approved]. *)
Theorem request_status_zero_is_approval `{Kernel W} `{Crypto} `{Hex} `{Toml} `{SerdePretty}
  `{SerdeJson SignedAuthRequest.t} `{SerdeJson SignedAuthResponse.t} (overflow_checks : bool)
  (fuel : nat) (args : RequestArgs) (status : N) (s s' : state W) :
  main overflow_checks fuel (Request args) s = (Done status, s') ->
  In status [EXIT_APPROVED; 1; EXIT_UNAVAILABLE; EXIT_CANCELLED; EXIT_FAILED; EXIT_DENIED;
             EXIT_TAMPER; EXIT_UNSAFE_CONFIG; EXIT_PROTOCOL] /\
  (status = 0 -> exists r, decided fuel args r s s' /\
     AuthResponseBody.decision (SignedAuthResponse.body r) = Decision.Approved).
Proof. apply request_status. Qed.

(** ** Witnesses *)

#[local] Existing Instance sample_crypto.
#[local] Existing Instance sample_crypto_laws.
#[local] Existing Instance sample_hex_laws.

#[global] Instance sample_pretty : SerdePretty := {|
  pretty_request := to_vec;
  pretty_object fields := Ok (flat_map (fun f => f.1 ++ [nl]) fields) |}.

Lemma test_vector_verifies_witness :
  exists fields q r m,
    build_test_vector = Ok fields /\
    In (B "request", JRequest q) fields /\ In (B "response", JResponse r) fields /\
    In (B "request_hash_hex", JString (hex_encode (Sha256_digest m))) fields /\
    SignedAuthRequest.body q = vector_request /\
    AuthRequestBody.canonical_bytes vector_request = Ok m /\
    SignedAuthRequest.verify q (VerifyingKey_to_bytes (SigningKey_verifying_key
      (SigningKey_from_bytes (replicate 32 x07)))) = Ok tt /\
    authentic (VerifyingKey_to_bytes (SigningKey_verifying_key
      (SigningKey_from_bytes (replicate 32 x09)))) vector_request r /\
    AuthResponseBody.decision (SignedAuthResponse.body r) = Decision.Approved.
Proof. exact test_vector_verifies. Defined.

Definition generated : state sim :=
  (gen_key 400 (Some (B "/host.key")) (Some (B "/host.pub")) (start sim0)).2.

Lemma generate_run :
  gen_key 400 (Some (B "/host.key")) (Some (B "/host.pub")) (start sim0) = (Done (Ok tt), generated).
Proof. run_here. Qed.

Lemma generated_keys_load_witness :
  exists random sk c1 c2 s1 s2 s3 sk' m1 m2,
    made (start sim0) s1 [EvRandom random] /\
    sk = SigningKey_generate (take SigningKey_generate_len
           (random ++ replicate SigningKey_generate_len x00)) /\
    created (B "/host.key") 0x180 c1 s1 s2 /\ created (B "/host.pub") 0x1A4 c2 s2 s3 /\
    key_text c1 m1 /\ signing_key_from_hex m1 = Ok sk' /\
    SigningKey_to_bytes sk' = SigningKey_to_bytes sk /\
    key_text c2 m2 /\
    public_key_from_hex m2 "host public key"
      = Ok (VerifyingKey_to_bytes (SigningKey_verifying_key sk)) /\
    made s3 generated [EvStdout (B "private_key_hex=" ++ m1 ++ [nl]);
                       EvStdout (B "public_key_hex=" ++ m2 ++ [nl])].
Proof.
  exact (generated_keys_load 400 (B "/host.key") (B "/host.pub") "host public key" (start sim0)
    generated generate_run).
Defined.

Lemma approved_status :
  main false 4000 (Request production_args) (production_start Decision.Approved)
  = (Done 0, production_end Decision.Approved).
Proof. unfold main, run, bind. rewrite approved_run. reflexivity. Qed.

Lemma request_status_zero_is_approval_witness :
  In 0 [EXIT_APPROVED; 1; EXIT_UNAVAILABLE; EXIT_CANCELLED; EXIT_FAILED; EXIT_DENIED;
        EXIT_TAMPER; EXIT_UNSAFE_CONFIG; EXIT_PROTOCOL] /\
  (0 = 0 -> exists r, decided 4000 production_args r (production_start Decision.Approved)
       (production_end Decision.Approved) /\
     AuthResponseBody.decision (SignedAuthResponse.body r) = Decision.Approved).
Proof.
  exact (request_status_zero_is_approval false 4000 production_args 0
    (production_start Decision.Approved) (production_end Decision.Approved) approved_status).
Defined.
