(* ===== verification/Fuel.v ===== *)
(** * The fuel is only a bound

    [approx m1 m2]: [m1] runs out of fuel or does what [m2] does.  Sequencing,
    catching and loops are monotone for this order, so a run that does not
    run out of fuel has the result and the calls of every run with more: the
    fuel argument of the model decides nothing but when to give up. *)

From Stdlib Require Import NArith ZArith Lia List Bool.
From Stdlib Require Import Strings.Byte Strings.String.
From stdpp Require Import base decidable list option strings.
From S2P Require Import Prelude RustStd Crypto Protocol Canonical Samples ProtocolProps Sys.
From S2P Require Import Ownership Io Transport Sim TransportProps Frame Trust Common Keys Config.
From S2P Require Import Replay Request Verdict RequestProps Termination FakeAgent Main.

Open Scope N_scope.

Definition approx {W E A} (m1 m2 : M W E A) : Prop :=
  forall s, (m1 s).1 = OutOfFuel \/ m1 s = m2 s.

Section Approx.
Context {W : Type}.

#[export] Instance approx_preorder {E A} : PreOrder (approx (W := W) (E := E) (A := A)).
Proof.
  split; [by right|]. intros m1 m2 m3 H1 H2 s. destruct (H1 s) as [?|Hs]; [by left|].
  rewrite Hs. apply H2.
Qed.

#[export] Instance bind_approx {E A B} :
  Proper (approx ==> pointwise_relation A approx ==> approx) (bind (W := W) (E := E) (B := B)).
Proof.
  intros m1 m2 Hm k1 k2 Hk s. unfold bind. destruct (Hm s) as [Ho|<-].
  - left. destruct (m1 s) as [[[a|e]| |] s1]; done.
  - destruct (m1 s) as [[[a|e]| |] s1]; [apply Hk|by right..].
Qed.

#[export] Instance attempt_approx {E F A} :
  Proper (approx ==> approx) (attempt (W := W) (E := E) (F := F) (A := A)).
Proof.
  intros m1 m2 Hm s. unfold attempt. destruct (Hm s) as [Ho|<-]; [left|by right].
  destruct (m1 s) as [[r| |] s1]; done.
Qed.

#[export] Instance into_approx {E F A} (f : E -> F) :
  Proper (approx ==> approx) (into (W := W) (A := A) f).
Proof.
  intros m1 m2 Hm s. unfold into. destruct (Hm s) as [Ho|<-]; [left|by right].
  destruct (m1 s) as [[r| |] s1]; done.
Qed.

#[export] Instance loop_approx {E S A} :
  Proper (le ==> pointwise_relation S approx ==> pointwise_relation S approx)
    (loop (W := W) (E := E) (A := A)).
Proof.
  intros f1 f2 Hf b1 b2 Hb. revert f2 Hf. induction f1 as [|f1 IH]; intros f2 Hf st.
  - by left.
  - destruct f2 as [|f2]; [lia|]. cbn. apply bind_approx; [apply Hb|].
    intros [st'|a]; [apply IH; lia|reflexivity].
Qed.

#[export] Instance scoped_approx `{Kernel W} {E A} f :
  Proper (approx ==> approx) (scoped (E := E) (A := A) f).
Proof. intros m1 m2 Hm. apply bind_approx; [by apply attempt_approx|]. by intros r. Qed.

#[export] Instance owned_approx `{Kernel W} {E A} f :
  Proper (approx ==> approx) (owned (E := E) (A := A) f).
Proof. intros m1 m2 Hm. apply bind_approx; [by apply attempt_approx|]. by intros r. Qed.

#[export] Instance or_return_approx {E A} (code : E -> N) :
  Proper (approx ==> pointwise_relation A approx ==> approx) (or_return (W := W) code).
Proof.
  intros m1 m2 Hm k1 k2 Hk. apply bind_approx; [by apply attempt_approx|].
  intros [a|e]; [apply Hk|reflexivity].
Qed.
End Approx.

(** Goes through the two handlers together; what differs only in its fuel is
    left, unless a lemma of the database has it. *)
Create HintDb approx discriminated.

Ltac approx_step :=
  lazymatch goal with
  | |- approx (or_return _ _ _) _ => apply or_return_approx; [|intros ?]
  | |- approx (bind _ _) _ => apply bind_approx; [|intros ?]
  | |- approx (attempt _) _ => apply attempt_approx
  | |- approx (into _ _) _ => apply into_approx
  | |- approx (scoped _ _) _ => apply scoped_approx
  | |- approx (owned _ _) _ => apply owned_approx
  | |- approx (loop _ _ _) _ => apply loop_approx; [assumption|intros ?]
  | |- approx (match ?x with _ => _ end) _ => destruct x
  | |- approx (let _ := _ in _) _ => cbv zeta
  end.
Ltac approx_tac := repeat first [solve [auto with approx nocore] | approx_step | reflexivity].

Section Monotone.
Context `{Kernel W} (f1 f2 : nat) (Hf : (f1 <= f2)%nat).

(** ** Streams and files *)

Section Streams.
Context {T : Type}.

Lemma read_exact_approx `{Read W T} (t1 t2 : T) len :
  (forall n, approx (read_ t1 n) (read_ t2 n)) ->
  approx (read_exact f1 t1 len) (read_exact f2 t2 len).
Proof. intros Ht. unfold read_exact. approx_tac. Qed.

Lemma write_all_approx `{Write W T} (t1 t2 : T) buf :
  (forall b, approx (write_ t1 b) (write_ t2 b)) ->
  approx (write_all f1 t1 buf) (write_all f2 t2 buf).
Proof. intros Ht. unfold write_all. approx_tac. Qed.

Lemma write_fmt_approx `{Write W T} (t : T) pieces :
  approx (write_fmt f1 t pieces) (write_fmt f2 t pieces).
Proof.
  induction pieces as [|p ps IH]; [reflexivity|]. cbn [write_fmt].
  apply bind_approx; [by apply write_all_approx|by intros ?].
Qed.

Lemma take_read_to_string_approx `{Read W T} (t : T) limit :
  approx (take_read_to_string f1 t limit) (take_read_to_string f2 t limit).
Proof. unfold take_read_to_string, take_read_to_end. approx_tac. Qed.

Lemma write_json_frame_approx {V} `{SerdeJson V} `{Write W T} (t1 t2 : T) (v : V) :
  (forall b, approx (write_ t1 b) (write_ t2 b)) ->
  approx (write_json_frame f1 t1 v) (write_json_frame f2 t2 v).
Proof. intros Ht. unfold write_json_frame. approx_tac; by apply write_all_approx. Qed.

Lemma read_json_frame_approx {V} `{SerdeJson V} `{Read W T} (t1 t2 : T) :
  (forall n, approx (read_ t1 n) (read_ t2 n)) ->
  approx (read_json_frame (T := V) f1 t1) (read_json_frame f2 t2).
Proof. intros Ht. unfold read_json_frame. approx_tac; by apply read_exact_approx. Qed.
End Streams.

Lemma wait_approx f ev d : approx (wait f1 f ev d) (wait f2 f ev d).
Proof. unfold wait. approx_tac. Qed.
#[local] Hint Resolve wait_approx : approx.

Lemma connect_approx path d : approx (connect f1 path d) (connect f2 path d).
Proof. unfold connect, connect_round, finish_pending. approx_tac. Qed.

Lemma transfer_approx {T} self ev (op : M W io_error T) :
  approx (transfer f1 self ev op) (transfer f2 self ev op).
Proof. unfold transfer, transfer_round. approx_tac. Qed.

Lemma deadline_read_approx st n :
  approx (read_ {| io_fuel := f1; io_stream := st |} n) (read_ {| io_fuel := f2; io_stream := st |} n).
Proof. apply transfer_approx. Qed.
Lemma deadline_write_approx st b :
  approx (write_ {| io_fuel := f1; io_stream := st |} b) (write_ {| io_fuel := f2; io_stream := st |} b).
Proof. apply transfer_approx. Qed.
#[local] Hint Resolve write_fmt_approx take_read_to_string_approx connect_approx : approx.

(** ** Trusted files, the cache, keys and configuration *)

Lemma cleanup_markers_approx dir now :
  approx (cleanup_markers f1 dir now) (cleanup_markers f2 dir now).
Proof. unfold cleanup_markers, cleanup_round, cleanup_entry, read_marker. approx_tac. Qed.

Section Components.
Context `{Crypto} `{Hex} `{Toml} `{SerdePretty}.
Context `{SerdeJson SignedAuthRequest.t} `{SerdeJson SignedAuthResponse.t} (oc : bool).

Lemma record_approx dir r : approx (record_replay_marker f1 dir r) (record_replay_marker f2 dir r).
Proof. unfold record_replay_marker. approx_tac. apply cleanup_markers_approx. Qed.

Lemma read_trusted_file_approx path ro p :
  approx (read_trusted_file f1 path ro p) (read_trusted_file f2 path ro p).
Proof. unfold read_trusted_file. approx_tac. Qed.
#[local] Hint Resolve record_approx read_trusted_file_approx : approx.

Lemma load_signing_key_approx h f ro :
  approx (load_signing_key f1 h f ro) (load_signing_key f2 h f ro).
Proof. unfold load_signing_key, read_key_material. approx_tac. Qed.
Lemma load_public_key_approx h f label ro :
  approx (load_public_key f1 h f label ro) (load_public_key f2 h f label ro).
Proof. unfold load_public_key, read_key_material. approx_tac. Qed.
Lemma load_helper_config_approx path ro :
  approx (load_helper_config f1 path ro) (load_helper_config f2 path ro).
Proof. unfold load_helper_config. approx_tac. Qed.
#[local] Hint Resolve load_signing_key_approx load_public_key_approx load_helper_config_approx : approx.

(** ** The commands *)

Lemma conclude_approx pk d skew cache q r :
  approx (conclude f1 pk d skew cache q r) (conclude f2 pk d skew cache q r).
Proof. unfold conclude. approx_tac. Qed.

Lemma exchange_approx socket pk d skew cache q :
  approx (exchange f1 socket pk d skew cache q) (exchange f2 socket pk d skew cache q).
Proof.
  unfold exchange. approx_tac.
  - apply write_json_frame_approx, deadline_write_approx.
  - apply read_json_frame_approx, deadline_read_approx.
  - apply conclude_approx.
Qed.

Lemma run_request_approx args : approx (run_request oc f1 args) (run_request oc f2 args).
Proof. unfold run_request, send_request. approx_tac; apply exchange_approx. Qed.

Lemma run_fake_agent_approx args :
  approx (run_fake_agent oc f1 args) (run_fake_agent oc f2 args).
Proof.
  unfold run_fake_agent, load_required_public_key, load_required_signing_key, fake_round. approx_tac.
  - by apply read_json_frame_approx.
  - by apply write_json_frame_approx.
Qed.

Lemma run_approx command : approx (run oc f1 command) (run oc f2 command).
Proof.
  destruct command; unfold run, gen_key, write_private_key_file, write_public_key_file,
    load_required_signing_key, sample_request, load_optional_signing_key, signing_key_from_file,
    read_key_material, config_key_path, prepare_config; approx_tac.
  - apply run_request_approx.
  - apply run_fake_agent_approx.
Qed.
End Components.
End Monotone.

(** The fuel of the model is only a bound on the loops: a command that
    ends with some fuel ends in the same way, with the same exit status, the
    same world and the same calls, with any larger fuel. *)
Theorem fuel_irrelevant `{Kernel W} `{Crypto} `{Hex} `{Toml} `{SerdePretty}
  `{SerdeJson SignedAuthRequest.t} `{SerdeJson SignedAuthResponse.t} (overflow_checks : bool)
  (fuel more : nat) (command : Command) (s s' : state W) (o : outcome N) :
  main overflow_checks fuel command s = (o, s') -> o <> OutOfFuel ->
  main overflow_checks (fuel + more) command s = (o, s').
Proof.
  unfold main. intros HM Ho.
  destruct (run_approx fuel (fuel + more) ltac:(lia) overflow_checks command s) as [Hr|<-]; [|done].
  destruct (run overflow_checks fuel command s) as [[r| |] s1]; try discriminate Hr. congruence.
Qed.

#[local] Existing Instance sample_crypto.
#[local] Existing Instance sample_hex.
#[local] Existing Instance sample_toml.

Lemma fuel_irrelevant_witness :
  main false (4000 + N.to_nat 1000000) (Request production_args) (production_start Decision.Approved)
  = (Done 0, production_end Decision.Approved).
Proof.
  exact (fuel_irrelevant false 4000 (N.to_nat 1000000) (Request production_args)
    (production_start Decision.Approved) (production_end Decision.Approved) (Done 0) approved_status
    ltac:(discriminate)).
Defined.
