(* ===== verification/CacheSpec.v ===== *)
(** * Abstract specification of the replay cache

    What the cache promises to the helpers that share it, without files: a
    set of markers and a clock.  A marker is accepted only when it is absent,
    and it goes away only after its expiry.  So nothing is accepted twice
    before its expiry, however the helpers are interleaved. *)

From Stdlib Require Import NArith ZArith Lia List Bool.
From Stdlib Require Import Strings.Byte Strings.String.
From stdpp Require Import base decidable list option gmap.
From S2P Require Import Prelude RustStd.

Open Scope N_scope.

#[export] Instance byte_countable : Countable byte.
Proof.
  refine (inj_countable' byte_val byte_of _). intros b. apply byte_of_val.
Defined.

(** The markers there are, and the furthest reading of the clock, in
    milliseconds. *)
Record cache : Type := Cache { present : gset bytes; time : N }.

Inductive label : Type :=
| Tick (t : N)
| Accept (n : bytes)
| Refuse (n : bytes)
| Expire (n : bytes).

Section Spec.
Context (expiry_of : bytes -> N).

Inductive cache_step : cache -> label -> cache -> Prop :=
| step_tick c t : cache_step c (Tick t) (Cache (present c) (N.max (time c) t))
| step_accept c n :
    n ∉ present c -> cache_step c (Accept n) (Cache ({[n]} ∪ present c) (time c))
| step_refuse c n : n ∈ present c -> cache_step c (Refuse n) c
| step_expire c n :
    expiry_of n < time c -> cache_step c (Expire n) (Cache (present c ∖ {[n]}) (time c)).

Inductive cache_steps : cache -> list label -> cache -> Prop :=
| steps_nil c : cache_steps c [] c
| steps_cons c1 l c2 ls c3 :
    cache_step c1 l c2 -> cache_steps c2 ls c3 -> cache_steps c1 (l :: ls) c3.

Lemma cache_steps_app c1 c2 c3 l1 l2 :
  cache_steps c1 l1 c2 -> cache_steps c2 l2 c3 -> cache_steps c1 (l1 ++ l2) c3.
Proof. induction 1; cbn; [done|]. intros H'. econstructor; eauto. Qed.

Lemma cache_steps_app_inv c1 c3 l1 l2 :
  cache_steps c1 (l1 ++ l2) c3 -> exists c2, cache_steps c1 l1 c2 /\ cache_steps c2 l2 c3.
Proof.
  revert c1. induction l1 as [|l l1 IH]; cbn; intros c1 HS; [by exists c1; split; [constructor|]|].
  inversion HS as [|? ? c2 ? ? H1 H2]; subst. apply IH in H2 as (c & ? & ?).
  exists c. split; [by econstructor|done].
Qed.

(** Once accepted, a marker is there until its expiry has passed. *)
Definition remembered (n : bytes) (c : cache) : Prop := n ∈ present c \/ expiry_of n < time c.

Lemma remembered_step n c l c' : cache_step c l c' -> remembered n c -> remembered n c'.
Proof.
  unfold remembered. intros HS [Hn|Hn]; destruct HS as [c t|c m Hm|c m Hm|c m Hm]; cbn;
    try (by right; lia); try (by left); [left; set_solver|].
  destruct (decide (n = m)) as [->|]; [by right|left; set_solver].
Qed.

Lemma remembered_steps n c ls c' : cache_steps c ls c' -> remembered n c -> remembered n c'.
Proof. induction 1; [done|]. intros Hr. eauto using remembered_step. Qed.

Lemma accepted_once n c1 ls c2 c3 :
  cache_steps c1 (Accept n :: ls) c2 -> cache_step c2 (Accept n) c3 -> expiry_of n < time c2.
Proof.
  intros HS HA. inversion HS as [|? ? c ? ? H1 H2]; subst. inversion H1; subst.
  apply (remembered_steps n) in H2; [|left; set_solver].
  inversion HA as [|? ? Hn| |]; subst. by destruct H2.
Qed.

(** The clock shows the start or a tick. *)
Lemma time_ticked c ls c' :
  cache_steps c ls c' -> time c' = time c \/ In (Tick (time c')) ls.
Proof.
  induction 1 as [|c1 l c2 ls c3 HS _ IH]; [by left|].
  destruct IH as [IH|IH]; [|by right; right].
  destruct HS as [c t| | |]; cbn in *; [|by left..].
  destruct (N.max_spec (time c) t) as [[_ E]|[_ E]]; rewrite E in IH; [right; left; congruence|by left].
Qed.
End Spec.
