(* ===== verification/Automaton.v ===== *)
(** * Computations that keep to an automaton

    A protocol over system calls is an automaton: a state and a partial step
    for each call.  [follows c m Q]: from the state [c] every call that [m]
    makes is a step, however its run ends, and a run that ends in a result
    leaves a state with [Q].  The rules go through a computation one call at a
    time. *)

From Stdlib Require Import NArith ZArith Lia List Bool.
From stdpp Require Import base decidable list option.
From S2P Require Import Prelude RustStd Sys.

Open Scope N_scope.

Section Automaton.
Context {C : Type} (step : C -> event -> option C).

Fixpoint run_steps (c : C) (evs : list event) : option C :=
  match evs with
  | [] => Some c
  | e :: evs => match step c e with Some c => run_steps c evs | None => None end
  end.

Lemma run_steps_app c e1 e2 :
  run_steps c (e1 ++ e2) = match run_steps c e1 with Some c' => run_steps c' e2 | None => None end.
Proof. revert c. induction e1 as [|e e1 IH]; intros c; [done|]. cbn. by destruct (step c e). Qed.

Context `{Kernel W}.

(** From [c], the calls of [m] are steps of the automaton; a run that ends
    in a result leaves it as [Q] says. *)
Definition follows {E A} (c : C) (m : M W E A) (Q : result A E -> C -> Prop) : Prop :=
  forall s, exists evs c', made s (m s).2 evs /\ run_steps c evs = Some c' /\
    match (m s).1 with Done x => Q x c' | _ => True end.

Lemma follows_mono {E A} c (m : M W E A) (P Q : result A E -> C -> Prop) :
  follows c m P -> (forall x c', P x c' -> Q x c') -> follows c m Q.
Proof.
  intros Hm HPQ s. destruct (Hm s) as (evs & c' & ? & ? & HP). exists evs, c'.
  split_and!; [done..|]. destruct (m s).1; auto.
Qed.

Lemma follows_done {E A} c (x : result A E) (Q : result A E -> C -> Prop) :
  Q x c -> follows c (lift (W := W) x) Q.
Proof. intros HQ s. exists [], c. split_and!; [apply made_nil|done|done]. Qed.

Lemma follows_ret {E A} c (a : A) (Q : result A E -> C -> Prop) :
  Q (Ok a) c -> follows c (ret (W := W) a) Q.
Proof. apply follows_done. Qed.

Lemma follows_throw {E A} c (e : E) (Q : result A E -> C -> Prop) :
  Q (Err e) c -> follows c (throw (W := W) e) Q.
Proof. apply follows_done. Qed.

Lemma follows_stop {E A} c (o : outcome (result A E)) (Q : result A E -> C -> Prop) :
  match o with Done _ => False | _ => True end -> follows c (fun s : state W => (o, s)) Q.
Proof. intros Ho s. exists [], c. split_and!; [apply made_nil|done|]. by destruct o. Qed.

Lemma follows_bind {E A B} c (m : M W E A) (k : A -> M W E B) (Q : result B E -> C -> Prop) :
  follows c m (fun x c' => match x with Ok a => follows c' (k a) Q | Err e => Q (Err e) c' end) ->
  follows c (bind m k) Q.
Proof.
  intros Hm s. destruct (Hm s) as (e1 & c1 & M1 & R1 & P1). unfold bind.
  destruct (m s) as [[[a|e]| |] s1]; cbn [fst snd] in *; try (by exists e1, c1).
  destruct (P1 s1) as (e2 & c2 & M2 & R2 & P2). exists (e1 ++ e2), c2.
  rewrite run_steps_app, R1. split_and!; [by eapply made_app|done|done].
Qed.

Lemma follows_attempt {E F A} c (m : M W E A) (Q : result (result A E) F -> C -> Prop) :
  follows c m (fun x c' => Q (Ok x) c') -> follows c (attempt m) Q.
Proof.
  intros Hm s. destruct (Hm s) as (e1 & c1 & M1 & R1 & P1). exists e1, c1. unfold attempt.
  by destruct (m s) as [[x| |] s1].
Qed.

Lemma follows_into {E F A} c (f : E -> F) (m : M W E A) (Q : result A F -> C -> Prop) :
  follows c m (fun x c' => Q (map_err f x) c') -> follows c (into f m) Q.
Proof.
  intros Hm s. destruct (Hm s) as (e1 & c1 & M1 & R1 & P1). exists e1, c1. unfold into.
  by destruct (m s) as [[x| |] s1].
Qed.

Lemma follows_prim {E A} c (f : W -> A * W) ev (Q : result A E -> C -> Prop) :
  (forall a, exists c', step c (ev a) = Some c' /\ Q (Ok a) c') -> follows c (prim f ev) Q.
Proof.
  intros HQ s. unfold prim. destruct (f (world s)) as [a w]. cbn.
  destruct (HQ a) as (c' & Hs & Hq). exists [ev a], c'. cbn. rewrite Hs. split_and!; done.
Qed.

Lemma follows_os {A} c (f : W -> result A errno * W) ev (Q : result A io_error -> C -> Prop) :
  (forall x, exists c', step c (ev x) = Some c' /\ Q (map_err Os x) c') ->
  follows c (os (prim f ev)) Q.
Proof.
  intros HQ. apply follows_bind, follows_prim. intros x. destruct (HQ x) as (c' & Hs & Hq).
  exists c'. split; [done|]. by apply follows_done.
Qed.

Lemma follows_loop {E S A} fuel (body : S -> M W E (S + A)) (I : S -> C -> Prop)
  (Q : result A E -> C -> Prop) :
  (forall st c, I st c -> follows c (body st) (fun x c' =>
     match x with Ok (inl st') => I st' c' | Ok (inr a) => Q (Ok a) c' | Err e => Q (Err e) c' end)) ->
  forall st c, I st c -> follows c (loop fuel body st) Q.
Proof.
  intros Hb. induction fuel as [|fuel IH]; intros st c HI; [by apply follows_stop|].
  cbn. apply follows_bind. eapply follows_mono; [by apply Hb|].
  intros [[st'|a]|e] c' HQ; [by apply IH|by apply follows_ret|done].
Qed.

Lemma follows_scoped {E A} c f (m : M W E A) (Q : result A E -> C -> Prop) :
  follows c m (fun x c' => exists c'', step c' (EvClose f) = Some c'' /\ Q x c'') ->
  follows c (scoped f m) Q.
Proof.
  intros Hm. apply follows_bind, follows_attempt. eapply follows_mono; [exact Hm|].
  intros x c' (c'' & Hs & Hq). apply follows_bind, follows_prim. intros _. exists c''.
  split; [done|]. by apply follows_done.
Qed.

Lemma follows_owned {E A} c f (m : M W E A) (Q : result A E -> C -> Prop) :
  follows c m (fun x c' =>
    match x with Ok _ => Q x c' | Err _ => exists c'', step c' (EvClose f) = Some c'' /\ Q x c'' end) ->
  follows c (owned f m) Q.
Proof.
  intros Hm. apply follows_bind, follows_attempt. eapply follows_mono; [exact Hm|].
  intros [a|e] c'; [intros Hq; by apply follows_ret|]. intros (c'' & Hs & Hq).
  apply follows_bind, follows_prim. intros _. exists c''. split; [done|]. by apply follows_throw.
Qed.
End Automaton.
