(* ===== verification/AgentServer.v ===== *)
(** * The fake agent as a server

    [run_fake_agent] serves one connection after the other until it is
    stopped.  The server it implements is an automaton over its calls: what a
    connection is answered is a function ([answer]) of the bytes heard on it
    and of the clock, and nothing is written but that answer.  Every run of
    the agent, wherever it is cut short, keeps to the automaton. *)

From Stdlib Require Import NArith ZArith Lia List Bool.
From Stdlib Require Import Strings.Byte Strings.String.
From stdpp Require Import base decidable list option strings.
From S2P Require Import Prelude RustStd Crypto Protocol Samples ProtocolProps Sys Ownership Io Transport Sim.
From S2P Require Import Frame FrameDecode Trust Common Keys Request Verdict RequestProps FakeAgent Automaton.

Open Scope N_scope.

(** ** The server *)

(** Listening; hearing a request, with the bytes read so far; writing the rest
    of an answer; done with a connection; the listener is closed. *)
Inductive post : Type :=
| Listening
| Hearing (f : fd) (heard : bytes)
| Answering (f : fd) (rest : bytes)
| Silent (f : fd)
| Stopped.

Section Server.
Context `{Crypto} `{SerdeJson SignedAuthRequest.t} `{SerdeJson SignedAuthResponse.t}.
Context (oc : bool) (args : FakeAgentArgs) (listener : fd) (pk : bytes) (sk : SigningKey).

(** The response to [q] at the time [now], if the agent comes to one. *)
Definition respond (q : SignedAuthRequest.t) (now : N) : option SignedAuthResponse.t :=
  match (fake_response (W := unit) oc args sk now q (St tt [])).1 with
  | Done (Ok r) => Some r
  | _ => None
  end.

(** The frame that a client is sent who has sent [heard]: one whole frame with
    a request that the pinned host key signed and that is fresh. *)
Definition answer (heard : bytes) (now : N) : option bytes :=
  match decode_frame (T := SignedAuthRequest.t) heard with
  | (Ok q, []) =>
      if bool_decide (SignedAuthRequest.verify q pk = Ok tt)
         && bool_decide (AuthRequestBody.verify_freshness (SignedAuthRequest.body q) now 30000 = Ok tt)
      then
        match respond q now with
        | Some r =>
            match to_vec r with
            | Ok text => if MAX_FRAME_LEN <? N.of_nat (length text) then None else Some (frame text)
            | Err _ => None
            end
        | None => None
        end
      else None
  | _ => None
  end.

(** The post when the clock was read; [None] is a clock before the epoch. *)
Definition consider (f : fd) (heard : bytes) (t : option N) : post :=
  match t with
  | Some ns => match answer heard (ns / 1000000) with Some text => Answering f text | None => Silent f end
  | None => Silent f
  end.

Definition server_step (p : post) (e : event) : option post :=
  match p, e with
  | Listening, EvAccept l r =>
      if decide (l = listener) then Some (match r with Ok f => Hearing f [] | Err _ => Listening end)
      else None
  | Listening, EvUnlink path _ => if decide (path = fa_socket args) then Some Listening else None
  | Listening, EvClose l => if decide (l = listener) then Some Stopped else None
  | Hearing f heard, EvRead g _ r =>
      if decide (g = f) then Some (Hearing f (match r with Ok b => heard ++ b | Err _ => heard end)) else None
  | Hearing f heard, EvSystem t => Some (consider f heard t)
  | Answering f rest, EvWrite g b r =>
      if decide (g = f /\ b `prefix_of` rest) then
        Some (Answering f (match r with Ok k => drop (Nat.min k (length b)) rest | Err _ => rest end))
      else None
  | (Hearing f _ | Answering f _ | Silent f), EvClose g => if decide (g = f) then Some Listening else None
  | _, _ => None
  end.
End Server.

(** What is answered is authentic: for the request that was heard, under the
    agent's key, with the decision it was given. *)
Lemma answer_authentic_for `{CL : CryptoLaws} `{SerdeJson SignedAuthRequest.t} `{SerdeJson SignedAuthResponse.t}
  oc args pk sk heard now said : answer oc args pk sk heard now = Some said ->
  exists q wire r text,
    decode_frame heard = (Ok q, []) /\ heard = frame wire /\ from_slice wire = Ok q /\
    answerable pk q now /\ said = frame text /\ to_vec r = Ok text /\
    authentic (VerifyingKey_to_bytes (SigningKey_verifying_key sk)) (SignedAuthRequest.body q) r /\
    AuthResponseBody.decision (SignedAuthResponse.body r) = CliDecision.to_decision (fa_decision args).
Proof.
  unfold answer. destruct (decode_frame heard) as [[q|e] [|? ?]] eqn:Ed; try done.
  destruct (bool_decide _ && bool_decide _) eqn:Ev; [|done].
  apply andb_true_iff in Ev as [Hv%bool_decide_eq_true Hf%bool_decide_eq_true].
  unfold respond. destruct (fake_response oc args sk now q (St tt [])) as [[[r|]| |] s] eqn:Er; try done.
  cbn [fst]. destruct (to_vec r) as [text|] eqn:Et; [|done]. destruct (_ <? _); [done|]. intros [= <-].
  apply fake_response_ok in Er as (_ & Hau & Hd & _).
  destruct (decode_frame_ok _ _ _ Ed) as (wire & -> & Hw & _). rewrite app_nil_r in *.
  exists q, wire, r, text. split_and!; try done.
  split; [by apply request_verify_ok|by apply fresh_request_ok].
Qed.

(** ** The agent follows the server *)

Section Follows.
Context `{Kernel W} `{Crypto} `{SerdeJson SignedAuthRequest.t} `{SerdeJson SignedAuthResponse.t}.
Context (oc : bool) (fuel : nat) (args : FakeAgentArgs) (listener : fd) (pk : bytes) (sk : SigningKey).

#[local] Abbreviation step := (server_step oc args listener pk sk).
#[local] Abbreviation follows := (Automaton.follows step).

(** A connection is being served. *)
Definition busy (f : fd) (p : post) : Prop :=
  match p with Hearing g _ | Answering g _ | Silent g => g = f | _ => False end.

Lemma follows_read_exact f acc l :
  follows (Hearing f acc) (read_exact fuel {| raw_fd := f |} l : M W _ _)
    (fun x p => exists got, p = Hearing f (acc ++ got) /\ forall b, x = Ok b -> got = b /\ length b = l).
Proof.
  unfold read_exact.
  refine (follows_loop _ _ _ (fun st p => p = Hearing f (acc ++ st.2) /\ (st.1 + length st.2 = l)%nat) _ _ _ _ _).
  2: { cbn. rewrite app_nil_r. split; [done|lia]. }
  intros [need got] p [-> Hl]. cbn [fst snd] in *.
  destruct (decide (need = 0%nat)) as [->|].
  { apply follows_ret. exists got. split; [done|]. by intros b [= <-]. }
  apply follows_bind, follows_attempt, follows_os. intros r. cbn. rewrite decide_True by done.
  eexists. split; [reflexivity|]. destruct r as [[|x b]|e]; cbn [map_err].
  - apply follows_throw. rewrite app_nil_r. by exists got.
  - destruct (decide (length (x :: b) <= need)%nat) as [Hb|]; [|by apply follows_stop].
    apply follows_ret. cbn [fst snd]. rewrite <- app_assoc, length_app. split; [done|lia].
  - destruct (decide (kind (Os e) = Interrupted)); [by apply follows_ret|].
    apply follows_throw. by exists got.
Qed.

(** A request that was read is what the bytes heard decode to. *)
Lemma follows_read_frame f :
  follows (Hearing f []) (read_json_frame (T := SignedAuthRequest.t) fuel {| raw_fd := f |} : M W _ _)
    (fun x p => exists heard, p = Hearing f heard /\ forall q, x = Ok q -> decode_frame heard = (Ok q, [])).
Proof.
  unfold read_json_frame. apply follows_bind, follows_into. eapply follows_mono; [apply follows_read_exact|].
  intros [len_bytes|e] p (heard & -> & Hl); cbn [map_err]; [|by exists heard].
  destruct (Hl _ eq_refl) as [-> H4]. cbn [app].
  destruct (N.ltb_spec MAX_FRAME_LEN (from_be_bytes len_bytes)) as [|Hm]; [apply follows_throw; by exists len_bytes|].
  apply follows_bind, follows_into. eapply follows_mono; [apply follows_read_exact|].
  intros [payload|e] p (got & -> & Hp); cbn [map_err]; [|by eexists].
  destruct (Hp _ eq_refl) as [-> Hlen]. apply follows_done. eexists. split; [reflexivity|].
  intros q Hq. rewrite decode_parts by done. by rewrite Hq.
Qed.

Lemma follows_say f b rest :
  follows (Answering f (b ++ rest)) (write_all fuel {| raw_fd := f |} b : M W _ _)
    (fun x p => match x with Ok _ => p = Answering f rest | Err _ => busy f p end).
Proof.
  unfold write_all.
  refine (follows_loop _ _ _ (fun b p => p = Answering f (b ++ rest)) _ _ _ _ _); [|done].
  clear b. intros b p ->. destruct (decide (b = [])) as [->|Hb]; [by apply follows_ret|].
  apply follows_bind, follows_attempt, follows_os. intros r. cbn -[Nat.min].
  rewrite decide_True by (split; [done|by exists rest]). eexists. split; [reflexivity|].
  destruct r as [[|k]|e]; cbn [map_err].
  - by apply follows_throw.
  - destruct (decide (S k <= length b)%nat); [|by apply follows_stop]. apply follows_ret.
    rewrite Nat.min_l by done. by rewrite drop_app_le by done.
  - destruct (decide (kind (Os e) = Interrupted)); [by apply follows_ret|by apply follows_throw].
Qed.

(** [fake_response] makes no call. *)
Lemma fake_response_run q now (s : state W) :
  fake_response oc args sk now q s = ((fake_response (W := unit) oc args sk now q (St tt [])).1, s).
Proof.
  unfold fake_response, add_u64, bind, lift, map_err, ret, panic. cbv zeta.
  destruct (now + 10000 <=? u64_max); [|destruct oc; [done|]];
    (destruct (AuthResponseBody.for_request _ _ _ _ _ _); [|done]); by destruct (SignedAuthResponse.sign _ _).
Qed.

(** The answer is written, unless it does not fit a frame. *)
Lemma follows_write_answer f r :
  follows (match to_vec r with
           | Ok text => if MAX_FRAME_LEN <? N.of_nat (length text) then Silent f else Answering f (frame text)
           | Err _ => Silent f
           end)
    (write_json_frame fuel {| raw_fd := f |} (r : SignedAuthResponse.t) : M W _ _) (fun _ p => busy f p).
Proof.
  unfold write_json_frame. apply follows_bind, follows_done.
  destruct (to_vec r) as [text|e]; cbn [map_err]; [|done].
  destruct (N.ltb_spec MAX_FRAME_LEN (N.of_nat (length text))) as [|Hm]; [by apply follows_throw|]. cbv zeta.
  rewrite N.mod_small by (unfold MAX_FRAME_LEN in Hm; lia).
  apply follows_bind, follows_into. eapply follows_mono; [apply follows_say|].
  intros [[]|e] p; [|done]. intros ->. cbn [map_err].
  apply follows_bind, follows_into. rewrite <- (app_nil_r text) at 1.
  eapply follows_mono; [apply follows_say|]. intros [[]|e] p; [|done]. intros ->. by apply follows_ret.
Qed.

Lemma follows_next_round p (Q : result (unit + unit) error -> post -> Prop) :
  (forall x, Q (Ok x) p) -> follows p (next_round (W := W) (fa_once args)) Q.
Proof. intros HQ. by apply follows_ret. Qed.

Lemma follows_fake_round f :
  follows (Hearing f []) (fake_round oc fuel args pk sk {| raw_fd := f |} : M W _ _) (fun _ p => busy f p).
Proof.
  unfold fake_round. apply follows_bind, follows_attempt. eapply follows_mono; [apply follows_read_frame|].
  intros [q|e] p (heard & -> & Hq); [|by apply follows_next_round]. specialize (Hq q eq_refl).
  destruct (SignedAuthRequest.verify q pk) as [[]|e] eqn:Hv; [|by apply follows_next_round].
  apply follows_bind, follows_bind, follows_prim. intros t. eexists. split; [reflexivity|].
  apply follows_bind, follows_done.
  assert (busy f (consider oc args pk sk f heard t)) as Hb.
  { unfold consider. destruct t as [ns|]; [|done]. by destruct (answer _ _ _ _ _ _). }
  destruct t as [ns|]; cbn [ok_or]; [|done]. apply follows_done. unfold millis_of.
  destruct (ns / 1000000 <=? u64_max); [|done].
  destruct (AuthRequestBody.verify_freshness _ _ _) as [[]|e] eqn:Hf; [|by apply follows_next_round].
  apply follows_bind. intros s. rewrite fake_response_run.
  destruct (fake_response oc args sk (ns / 1000000) q (St tt [])) as [[[r|e]| |] s0] eqn:Er; cbn [fst snd].
  2-4: by eexists [], _; split_and!; [apply made_nil|reflexivity|].
  eexists [], _. split_and!; [apply made_nil|reflexivity|].
  apply follows_bind, follows_attempt. unfold consider, answer, respond. rewrite Hq, Hv, Hf, Er.
  rewrite !bool_decide_true by done. cbn [andb fst].
  eapply follows_mono; [|intros x p Hp; apply follows_ret; exact Hp].
  replace (match _ with Some text => Answering f text | None => Silent f end)
    with (match to_vec r with
          | Ok text => if MAX_FRAME_LEN <? N.of_nat (length text) then Silent f else Answering f (frame text)
          | Err _ => Silent f end) by (destruct (to_vec r); [by destruct (_ <? _)|done]).
  apply follows_write_answer.
Qed.

(** The loop, one connection after the other. *)
Lemma follows_serve :
  follows Listening
    (loop fuel (fun _ : unit =>
       let! f := into EIo (accept listener) in
       scoped f (fake_round oc fuel args pk sk {| raw_fd := f |})) tt : M W error unit)
    (fun _ p => p = Listening).
Proof.
  refine (follows_loop _ _ _ (fun _ p => p = Listening) _ _ _ _ _); [|done]. intros _ p ->.
  apply follows_bind, follows_into, follows_os. intros r. cbn. rewrite decide_True by done.
  eexists. split; [reflexivity|]. destruct r as [f|e]; cbn [map_err]; [|done].
  apply follows_scoped. eapply follows_mono; [apply follows_fake_round|]. intros x p Hp. exists Listening.
  split; [|by destruct x as [[[]|[]]|]]. destruct p; try done; cbn in *; subst; by rewrite decide_True.
Qed.
End Follows.

(** ** The whole run *)

(** Calls before the agent listens: no connection is accepted and nothing is
    written. *)
Definition unheard (e : event) : Prop :=
  match e with EvAccept _ _ | EvWrite _ _ _ => False | _ => True end.

Lemma offline_unheard e : offline e -> unheard e.
Proof. by destruct e. Qed.

Section Run.
Context `{Kernel W} `{Crypto} `{Hex} `{SerdeJson SignedAuthRequest.t} `{SerdeJson SignedAuthResponse.t}.

Context (oc : bool) (fuel : nat) (args : FakeAgentArgs) (s0 : state W).

(** The calls [evs] of a run from [s0] that listens and serves, with the keys
    that it loaded; the server is left in [p]. *)
Definition serves (listener : fd) (evs : list event) (p : post) : Prop :=
  exists pk sk s1 s2 s3 before after,
    evs = before ++ after /\ Forall unheard before /\ emitted unheard s0 s1 /\ made s0 s3 before /\
    load_required_public_key fuel (host_pubkey_hex (host_pubkey_input args))
      (host_pubkey_file (host_pubkey_input args)) "host public key" s1 = (Done (Ok pk), s2) /\
    load_required_signing_key fuel (agent_key_hex (agent_key_input args))
      (agent_key_file (agent_key_input args)) s2 = (Done (Ok sk), s3) /\
    run_steps (server_step oc args listener pk sk) Listening after = Some p.

(** Serving what is left to do from [s]: nothing heard, or the server. *)
Definition goes (listener : fd) {A} (m : M W error A) (s : state W) : Prop :=
  exists evs, made s0 (m s).2 evs /\
    (Forall unheard evs \/
     exists p, serves listener evs p /\ match (m s).1 with Done _ => p = Listening | _ => True end).

Lemma goes_bind l {A B} (m : M W error A) (k : A -> M W error B) (s : state W) :
  emits unheard m -> emitted unheard s0 s ->
  (forall a s', m s = (Done (Ok a), s') -> emitted unheard s0 s' -> goes l (k a) s') -> goes l (bind m k) s.
Proof.
  intros Hm Hs Hk. pose proof (Hm s) as Hs'. unfold goes, bind. destruct (m s) as [[[a|e]| |] s'] eqn:E; cbn [snd] in Hs'.
  all: assert (emitted unheard s0 s') as Hs1 by (etransitivity; eassumption).
  1: by apply (Hk a s' eq_refl).
  all: destruct Hs1 as (evs & ? & ?); exists evs; split; [done|by left].
Qed.

(** The agent after its keys were loaded. *)
Lemma goes_serve l pk sk s1 s2 s3 :
  emitted unheard s0 s1 -> emitted unheard s0 s3 ->
  load_required_public_key fuel (host_pubkey_hex (host_pubkey_input args))
    (host_pubkey_file (host_pubkey_input args)) "host public key" s1 = (Done (Ok pk), s2) ->
  load_required_signing_key fuel (agent_key_hex (agent_key_input args))
    (agent_key_file (agent_key_input args)) s2 = (Done (Ok sk), s3) ->
  goes l (do! loop fuel (fun _ : unit =>
      let! f := into EIo (accept l) in
      scoped f (fake_round oc fuel args pk sk {| raw_fd := f |})) tt ;;
    let! _ := attempt (unlink (fa_socket args)) in ret tt) s3.
Proof.
  intros Hs1 (before & M3 & Q3) Hpk Hsk.
  assert (Automaton.follows (server_step oc args l pk sk) Listening
    (do! loop fuel (fun _ : unit =>
        let! f := into EIo (accept l) in
        scoped f (fake_round oc fuel args pk sk {| raw_fd := f |})) tt ;;
      let! _ := attempt (unlink (fa_socket args)) in ret tt : M W error unit) (fun _ p => p = Listening)) as Hf.
  { apply follows_bind. eapply follows_mono; [apply follows_serve|]. intros [[]|e] p ->; [|done].
    apply follows_bind, follows_attempt, follows_os. intros r. cbn. rewrite decide_True by done.
    eexists. split; [reflexivity|]. by apply follows_ret. }
  destruct (Hf s3) as (after & p & M & R & HQ). exists (before ++ after). split; [by eapply made_app|].
  right. exists p. split; [|exact HQ]. by exists pk, sk, s1, s2, s3, before, after.
Qed.

Lemma goes_scoped l {A} (m : M W error A) (s : state W) : goes l m s ->
  exists evs, made s0 (scoped l m s).2 evs /\ (Forall unheard evs \/ exists p, serves l evs p).
Proof.
  intros (evs & M1 & P1). unfold scoped, bind, attempt, lift.
  destruct (m s) as [[x| |] s']; cbn [fst snd] in *.
  2-3: exists evs; split; [done|]; destruct P1 as [?|(p & ? & _)]; [by left|right; by exists p].
  unfold close, prim. destruct (k_close l (world s')) as [[] w]. exists (evs ++ [EvClose l]).
  split; [by eapply made_app|]. destruct P1 as [P1|(p & P1 & ->)].
  - left. apply Forall_app. by repeat constructor.
  - right. exists Stopped. destruct P1 as (pk & sk & s1 & s2 & s3 & before & after & -> & ? & ? & ? & ? & ? & R).
    exists pk, sk, s1, s2, s3, before, (after ++ [EvClose l]). rewrite <- app_assoc. split_and!; try done.
    rewrite run_steps_app, R. cbn. by rewrite decide_True.
Qed.
End Run.

(** C27: the fake agent is the server: whatever it is sent, and wherever its
    run is cut short, it hears nobody before its keys are loaded, and from
    then on every call is a step of the automaton: it takes one connection at
    a time, writes to it nothing but the answer to the one request it has
    read from it, at the time it read the clock, and closes it before the
    next.  A client that is answered has sent a fresh request that the pinned
    key signed ([answer_authentic_for]). *)
Theorem fake_agent_is_server `{Kernel W} `{Crypto} `{Hex} `{SerdeJson SignedAuthRequest.t}
  `{SerdeJson SignedAuthResponse.t} (overflow_checks : bool) (fuel : nat) (args : FakeAgentArgs)
  (s : state W) :
  exists evs, made s (run_fake_agent overflow_checks fuel args s).2 evs /\
    (Forall unheard evs \/ exists listener p, serves overflow_checks fuel args s listener evs p).
Proof.
  unfold run_fake_agent, bind at 1.
  assert (emits unheard (remove_stale_socket (fa_socket args) : M W _ _)) as Hrm
    by (unfold remove_stale_socket, unlink; respects_tac; by apply emits_prim).
  specialize (Hrm s). destruct (remove_stale_socket (fa_socket args) s) as [[[[]|e]| |] s1]; cbn [snd] in Hrm.
  2-4: destruct Hrm as (evs & ? & ?); exists evs; split; [done|by left].
  assert (emits unheard (into EIo (sys_bind (fa_socket args)) : M W _ _)) as Hbind
    by (unfold sys_bind; respects_tac; by apply emits_prim).
  specialize (Hbind s1). unfold bind at 1. destruct (into EIo (sys_bind _) s1) as [[[l|e]| |] s2]; cbn [snd] in Hbind.
  all: assert (emitted unheard s s2) as Hs2 by (etransitivity; eassumption).
  2-4: destruct Hs2 as (evs & ? & ?); exists evs; split; [done|by left].
  match goal with |- context [scoped l ?m] =>
    destruct (goes_scoped overflow_checks fuel args s l m s2) as (evs & M1 & P1); [|exists evs; split; [exact M1|]]
  end.
  2: { destruct P1 as [?|[p ?]]; [by left|right; by exists l, p]. }
  apply goes_bind; [eapply emits_mono; [apply offline_unheard|apply offline_load_public_key]|done|].
  intros pk s3 Hpk Hs3.
  apply goes_bind; [eapply emits_mono; [apply offline_unheard|apply offline_load_signing_key]|done|].
  intros sk s4 Hsk Hs4. by apply (goes_serve _ _ _ _ l pk sk s2 s3 s4).
Qed.
