(* ===== verification/ReplayClient.v ===== *)
(** * What one helper does to the replay cache

    The protocol that every helper follows in the cache directory, as an
    automaton over its calls: it looks at entries, removes the one it just
    read and found expired, and creates the marker of its own response and
    writes its text.  Every run of [conclude], and so of everything that
    leads to it, stays within the automaton, wherever it is cut short. *)

From Stdlib Require Import NArith ZArith Lia List Bool.
From Stdlib Require Import Strings.Byte Strings.String.
From stdpp Require Import base decidable list option strings.
From S2P Require Import Prelude RustStd Crypto Protocol Sys Io Transport TransportProps Frame Trust Common.
From S2P Require Import Replay Request Verdict RequestProps Automaton.

Open Scope N_scope.

Inductive phase : Type :=
| Idle
| Reading (n : bytes) (f : fd) (acc : bytes)
| Ended (n : bytes) (f : fd) (acc : bytes)
| Parsed (n : bytes) (expiry : N)
| Writing (f : fd) (rest : list bytes).

(** The latest reading of the clock in milliseconds, and what is going on. *)
Record client : Type := Client { latest : option N; doing : phase }.

Definition become (x : phase) (c : client) : client := Client (latest c) x.

Definition closed (n : bytes) (text : bytes) : phase :=
  match parse_expires_at_ms text with Some expiry => Parsed n expiry | None => Idle end.

Definition client0 : client := Client None Idle.

Definition expiry_in (r : SignedAuthResponse.t) : N :=
  AuthResponseBody.expires_at_ms (SignedAuthResponse.body r).

Section Client.
Context `{Crypto} `{Hex} (d : fd) (r : SignedAuthResponse.t).

Definition client_open (n : bytes) (flags : list open_flag) (f : result fd errno)
  : option phase :=
  if decide (flags = create_flags) then
    if decide (n = marker_name r) then
      Some (match f with Ok f => Writing f (marker_pieces (expiry_in r)) | Err _ => Idle end)
    else None
  else if decide (flags = marker_flags) then
    Some (match f with Ok f => Reading n f [] | Err _ => Idle end)
  else None.

Definition client_read (n : bytes) (f : fd) (acc : bytes) (len : nat) (b : bytes) : phase :=
  if decide (b = [] /\ len <> 0%nat \/ 128 <= length (acc ++ b))%nat then Ended n f (acc ++ b)
  else Reading n f (acc ++ b).

Definition client_write (f : fd) (rest : list bytes) (b : bytes) (k : nat) : option phase :=
  match rest with
  | p :: ps =>
      if decide (p = b) then
        Some (Writing f (if decide (k = length b) then ps else drop k p :: ps))
      else None
  | [] => None
  end.

Definition client_step (c : client) (e : event) : option client :=
  match e, doing c with
  | EvSystem (Some ns), _ => Some (Client (Some (ns / 1000000)) (doing c))
  | EvOpenat d' n flags _ f, (Idle | Parsed _ _) =>
      if decide (d' = d) then (fun x => become x c) <$> client_open n flags f else None
  | EvOpenat _ _ _ _ _, _ => None
  | EvRead g len (Ok b), Reading n f acc =>
      if decide (g = f) then Some (become (client_read n f acc len b) c) else None
  | EvRead _ _ (Ok _), (Ended _ _ _ | Writing _ _) => None
  | EvWrite g b (Ok k), Writing f rest =>
      if decide (g = f) then (fun x => become x c) <$> client_write f rest b k else None
  | EvWrite _ _ (Ok _), (Reading _ _ _ | Ended _ _ _) => None
  | EvClose g, Reading _ f _ => if decide (g = f) then Some (become Idle c) else None
  | EvClose g, Ended n f acc => if decide (g = f) then Some (become (closed n acc) c) else None
  | EvClose g, Writing f _ => if decide (g = f) then Some (become Idle c) else None
  | EvUnlinkat d' n _, Parsed n' expiry =>
      match latest c with
      | Some now =>
          if decide (d' = d /\ n' = n /\ expiry < now) then Some (become Idle c) else None
      | None => None
      end
  | EvUnlinkat _ _ _, _ => None
  | _, _ => Some c
  end.

(** Nothing is open in the cache directory. *)
Definition ready (c : client) : Prop :=
  match doing c with Idle | Parsed _ _ => True | _ => False end.

End Client.

Abbreviation client_run d r := (run_steps (client_step d r)).

Lemma follows_or_return `{Kernel W} {C E A} (step : C -> event -> option C) c (code : E -> N) (m : M W E A)
  (k : A -> M W error N) (Q : result N error -> C -> Prop) :
  follows step c m (fun x c' => match x with Ok a => follows step c' (k a) Q | Err e => Q (Ok (code e)) c' end) ->
  follows step c (or_return code m k) Q.
Proof.
  intros Hm. apply follows_bind, follows_attempt. eapply follows_mono; [exact Hm|].
  intros [a|e] c' Hq; [done|]. by apply follows_ret.
Qed.

(** ** The recording follows the automaton *)

Section Record.
Context `{Kernel W} `{Crypto} `{Hex} (fuel : nat) (dir : File) (r : SignedAuthResponse.t).

#[local] Abbreviation follows := (Automaton.follows (client_step (file_fd dir) r)).

Lemma become_become x y c : become x (become y c) = become x c.
Proof. done. Qed.

Lemma ready_become c x : ready (become x c) <-> match x with Idle | Parsed _ _ => True | _ => False end.
Proof. done. Qed.

Lemma closed_ready n text c : ready (become (closed n text) c).
Proof. unfold closed. by destruct (parse_expires_at_ms text). Qed.

(** [take_read_to_string] reads up to the end of the entry. *)
Lemma follows_take_read n f c0 :
  follows (become (Reading n f []) c0)
    (take_read_to_string fuel {| file_fd := f |} 128 : M W _ _)
    (fun x c => match x with
     | Ok text => c = become (Ended n f text) c0
     | Err _ => exists acc, c = become (Reading n f acc) c0 \/ c = become (Ended n f acc) c0
     end).
Proof.
  apply follows_bind.
  eapply (follows_mono _ _ _ (fun x c => match x with
     | Ok text => c = become (Ended n f text) c0
     | Err _ => exists acc, c = become (Reading n f acc) c0 end)).
  - refine (follows_loop _ _ _ (fun st c => (st.1 + length st.2 = 128)%nat /\
      c = become ((if decide (st.1 = 0)%nat then Ended n f st.2 else Reading n f st.2)) c0) _ _ _ _ _);
      [|done].
    intros [rest acc] c [Hl ->]. cbn [fst snd] in *.
    destruct (decide (rest = 0%nat)) as [->|Hr]; [by apply follows_ret|].
    apply follows_bind, follows_attempt, follows_os. intros [[|x b]|e]; cbn -[length Nat.add].
    + rewrite decide_True by done. eexists. split; [done|]. apply follows_ret.
      unfold client_read. rewrite decide_True by (left; split; [done|lia]). by rewrite app_nil_r.
    + rewrite decide_True by done. eexists. split; [done|]. case_decide as Hb; [|by apply follows_stop].
      apply follows_ret. cbn [fst snd]. rewrite length_app. cbn [length] in *. split; [lia|].
      unfold client_read. rewrite length_app. cbn [length].
      destruct (decide (rest - S (length b) = 0)%nat).
      * rewrite decide_True by (right; lia). done.
      * rewrite decide_False by (intros [[? _]|?]; [done|lia]). done.
    + eexists. split; [done|]. case_decide.
      * apply follows_ret. cbn [fst snd]. split; [done|]. by rewrite decide_False.
      * apply follows_throw. by exists acc.
  - intros [text|e] c.
    + intros ->. destruct (utf8_valid text); [by apply follows_ret|]. apply follows_throw.
      exists text. by right.
    + intros [acc ->]. exists acc. by left.
Qed.

(** A marker whose text was returned was parsed when it was closed. *)
Lemma follows_read_marker n c0 : ready c0 ->
  follows c0 (read_marker fuel dir n : M W _ _) (fun x c =>
    match x with Ok (Some text) => c = become (closed n text) c0 | _ => ready c /\ latest c = latest c0 end).
Proof.
  intros Hc0. unfold read_marker. apply follows_bind, follows_attempt, follows_os. intros x.
  assert (client_step (file_fd dir) r c0 (EvOpenat (file_fd dir) n marker_flags 0 x) =
    Some (become (match x with Ok f => Reading n f [] | Err _ => Idle end) c0)) as ->.
  { unfold client_step, ready in *. destruct (doing c0); try done; by rewrite decide_True by done. }
  eexists. split; [done|]. destruct x as [f|e]; cbn [map_err]; [|by apply follows_ret].
  apply follows_scoped, follows_bind, follows_attempt, follows_os. intros m.
  eexists. split; [done|].
  assert (forall acc c, c = become (Reading n f acc) c0 \/ c = become (Ended n f acc) c0 ->
    exists c'', client_step (file_fd dir) r c (EvClose f) = Some c'' /\
      ready c'' /\ latest c'' = latest c0) as Hclose.
  { intros acc c [->| ->]; cbn; rewrite decide_True by done; eexists; (split; [done|]); [done|].
    split; [apply closed_ready|done]. }
  destruct m as [m|e]; cbn [map_err]; [|apply follows_ret; eapply Hclose; by left].
  destruct (is_file m); [|apply follows_ret; eapply Hclose; by left].
  apply follows_bind, follows_attempt. eapply follows_mono; [apply follows_take_read|].
  intros [text|e] c.
  - intros ->. apply follows_ret. cbn. rewrite decide_True by done. by eexists.
  - intros [acc Hc]. apply follows_ret. by eapply Hclose.
Qed.

Lemma follows_cleanup_entry now n c0 : ready c0 -> latest c0 = Some now ->
  follows c0 (cleanup_entry fuel dir now n : M W _ _) (fun x c => ready c /\ latest c = Some now).
Proof.
  intros Hc0 Hn. unfold cleanup_entry. case_match; [by apply follows_ret|].
  apply follows_bind. eapply follows_mono; [by apply follows_read_marker|].
  intros [[text|]|e] c.
  - intros ->. unfold closed. destruct (parse_expires_at_ms text) as [expiry|]; [|by apply follows_ret].
    destruct (N.ltb_spec expiry now) as [Hlt|]; [|by apply follows_ret].
    apply follows_bind, follows_prim. intros x. eexists. split.
    + cbn. rewrite Hn. by rewrite decide_True.
    + by apply follows_ret.
  - intros [? E]. apply follows_ret. by rewrite E.
  - intros [? E]. by rewrite E.
Qed.

(** Calls that leave a helper with nothing open where it is. *)
Lemma ready_step c e : ready c ->
  match e with
  | EvOpenat _ _ _ _ _ | EvUnlinkat _ _ _ | EvSystem _ => False | _ => True
  end -> client_step (file_fd dir) r c e = Some c.
Proof.
  intros Hc He. unfold client_step, ready in *.
  destruct e as [| | | | | | | | | | | | |? ? []|? ? []| | | | | | | | | | | | | |]; destruct (doing c); done.
Qed.

Lemma follows_cleanup_markers now c0 : ready c0 -> latest c0 = Some now ->
  follows c0 (cleanup_markers fuel dir now : M W _ _) (fun x c => ready c /\ latest c = Some now).
Proof.
  intros Hc0 Hn. unfold cleanup_markers.
  apply follows_bind, follows_os. intros x. exists c0. split; [by apply ready_step|].
  destruct x as [f|e]; cbn [map_err]; [|done].
  apply follows_bind, follows_owned, follows_os. intros x. exists c0. split; [by apply ready_step|].
  destruct x as [d'|e]; cbn [map_err].
  2: { exists c0. split; [by apply ready_step|done]. }
  apply follows_bind.
  refine (follows_loop _ _ _ (fun _ c => ready c /\ latest c = Some now) _ _ _ _ _); [|done].
  - intros _ c [Hc Hl]. unfold cleanup_round. apply follows_bind, follows_prim.
    intros [n|]; (exists c; split; [by apply ready_step|]); [|apply follows_ret]; cbn.
    + apply follows_bind. eapply follows_mono; [by apply follows_cleanup_entry|].
      intros [[]|e] c' ?; [by apply follows_ret|done].
    + apply follows_bind, follows_prim. intros _. exists c. split; [by apply ready_step|].
      by apply follows_ret.
Qed.

Lemma follows_write_all p ps f c0 : p <> [] ->
  follows (become (Writing f (p :: ps)) c0) (write_all fuel {| file_fd := f |} p : M W _ _)
    (fun x c => exists rest, c = become (Writing f rest) c0 /\ (x = Ok tt -> rest = ps)).
Proof.
  intros Hp.
  refine (follows_loop _ _ _ (fun buf c =>
    c = become (Writing f (if decide (buf = []) then ps else buf :: ps)) c0) _ _ _ _ _);
    [|by rewrite decide_False].
  intros buf c ->. destruct (decide (buf = [])) as [->|Hb]; [apply follows_ret; by exists ps|].
  apply follows_bind, follows_attempt, follows_os. intros [k|e]; cbn -[client_write].
  2: { eexists. split; [done|]. case_decide; [apply follows_ret; by rewrite decide_False|].
       apply follows_throw. by eexists. }
  rewrite decide_True by done. unfold client_write. rewrite decide_True by done. cbn.
  eexists. split; [done|]. destruct k as [|k].
  { apply follows_throw. rewrite decide_False by (by destruct buf). by eexists. }
  destruct (decide (S k <= length buf)%nat) as [Hk|]; [|by apply follows_stop].
  apply follows_ret. rewrite become_become. do 2 f_equal.
  destruct (decide (S k = length buf)) as [E|Hne].
  - by rewrite E, drop_all, decide_True.
  - rewrite decide_False; [done|]. intros E%(f_equal length). rewrite length_drop in E. cbn in E. lia.
Qed.

Lemma follows_write_fmt ps f c0 : Forall (fun p => p <> []) ps ->
  follows (become (Writing f ps) c0) (write_fmt fuel {| file_fd := f |} ps : M W _ _)
    (fun _ c => exists rest, c = become (Writing f rest) c0).
Proof.
  intros Hps. revert Hps. induction ps as [|p ps IH]; intros Hps.
  - apply follows_ret. by exists [].
  - inversion_clear Hps. apply follows_bind. eapply follows_mono; [by apply follows_write_all|].
    intros [[]|e] c (rest & -> & Hr); [|by exists rest]. rewrite Hr by done. by apply IH.
Qed.

Lemma show_digits_nonempty k n acc : acc <> [] \/ k <> O -> show_digits k n acc <> [].
Proof.
  revert n acc. induction k as [|k IH]; intros n acc [Ha|Hk]; cbn; try done;
    (destruct (n / 10 =? 0); [done|]; apply IH; by left).
Qed.

Lemma marker_pieces_nonempty e : Forall (fun p => p <> []) (marker_pieces e).
Proof. repeat constructor; [done|apply show_digits_nonempty; by right|done]. Qed.

Lemma follows_unix_time_ms c : ready c ->
  follows c (unix_time_ms : M W _ _) (fun x c' => ready c' /\ forall now, x = Ok now -> latest c' = Some now).
Proof.
  intros Hc. apply follows_bind, follows_prim. intros [ns|]; cbn.
  - eexists. split; [done|]. apply follows_bind, follows_done. cbn. apply follows_done.
    split; [done|]. intros now. unfold millis_of. destruct (_ <=? _); [|done]. by intros [= ->].
  - eexists. split; [done|]. by apply follows_bind, follows_done.
Qed.

Lemma follows_record c : ready c ->
  follows c (record_replay_marker fuel dir r : M W _ _) (fun _ c' => ready c').
Proof.
  intros Hc. unfold record_replay_marker. apply follows_bind.
  eapply follows_mono; [by apply follows_unix_time_ms|]. intros [now|e] c1 [Hc1 Hn]; [|done].
  apply follows_bind, follows_into.
  eapply follows_mono; [apply follows_cleanup_markers; [done|by apply Hn]|].
  intros [[]|e] c2 [Hc2 _]; cbn [map_err]; [|done].
  apply follows_bind, follows_attempt, follows_bind, follows_done. unfold name.
  case_bool_decide; cbn [file_fd].
  { case_decide; [|]; by apply follows_throw. }
  apply follows_bind, follows_os. intros x.
  assert (client_step (file_fd dir) r c2 (EvOpenat (file_fd dir) (marker_name r) create_flags 384 x) =
    Some (become (match x with Ok f => Writing f (marker_pieces (expiry_in r)) | Err _ => Idle end) c2)) as ->.
  { unfold client_step, ready in *. destruct (doing c2); try done; rewrite decide_True by done;
      unfold client_open; by rewrite !decide_True by done. }
  eexists. split; [done|]. destruct x as [f|e]; cbn [map_err].
  2: { by case_decide; apply follows_throw. }
  apply follows_ret, follows_scoped, follows_bind, follows_into.
  eapply follows_mono; [apply follows_write_fmt, marker_pieces_nonempty|].
  assert (forall rest, exists c'',
    client_step (file_fd dir) r (become (Writing f rest) c2) (EvClose f) = Some c'' /\ ready c'') as Hclose.
  { intros rest. cbn. rewrite decide_True by done. by eexists. }
  intros [[]|e] c3 (rest & ->); cbn [map_err]; [apply follows_ret|]; by apply Hclose.
Qed.

Lemma follows_too_late d body skew m c : ready c ->
  follows c m (fun _ c' => ready c') ->
  follows c (too_late d body skew m : M W _ _) (fun _ c' => ready c').
Proof.
  intros Hc Hm. apply follows_bind, follows_attempt, follows_bind, follows_prim. intros t.
  exists c. split; [by apply ready_step|]. destruct (d <=? t).
  - by apply follows_throw, follows_ret.
  - apply follows_ret, follows_bind. eapply follows_mono; [exact Hm|].
    intros [now|e] c' Hc'; [by apply follows_ret|done].
Qed.

(** Everything that [conclude] does, whether or not it ends. *)
Lemma follows_conclude pk d skew q c : ready c ->
  follows c (conclude fuel pk d skew (Some dir) q r : M W _ _) (fun _ c' => ready c').
Proof.
  intros Hc. unfold conclude. apply follows_or_return, follows_done. case_match; [|done].
  apply follows_bind. eapply follows_mono; [by apply follows_unix_time_ms|].
  intros [now|e] c1 [Hc1 _]; [|done]. apply follows_bind.
  eapply follows_mono; [by apply follows_too_late, follows_ret|].
  intros [[]|e] c2 Hc2; [by apply follows_ret| |done].
  apply follows_or_return, follows_done. case_match; [|done]. apply follows_or_return.
  eapply follows_mono; [by apply follows_record|]. intros [[]|e] c3 Hc3; [|done].
  apply follows_bind. eapply follows_mono.
  { apply follows_too_late; [done|]. eapply follows_mono; [by apply follows_unix_time_ms|].
    by intros ? ? [? _]. }
  intros [[]|e] c4 Hc4; [by apply follows_ret..|done].
Qed.
End Record.

(** ** The whole request follows the automaton of the response it received *)

(** Calls that have nothing to do with a directory. *)
Definition quiet (e : event) : Prop :=
  match e with EvOpenat _ _ _ _ _ | EvUnlinkat _ _ _ => False | _ => True end.

Section Helper.
Context `{Kernel W} `{Crypto} `{Hex}.
Context `{SerdeJson SignedAuthRequest.t} `{SerdeJson SignedAuthResponse.t} (dir : File) (pk : bytes).

(** Calls of a run that concludes on the response [r]: [conclude], which
    verified it, between calls that have nothing to do with a directory;
    [ended] says whether it came to a result. *)
Definition concludes (ended : bool) (r : SignedAuthResponse.t) (evs : list event) : Prop :=
  exists fuel d skew q (s : state W) before during after,
    evs = before ++ during ++ after /\ Forall quiet before /\ Forall quiet after /\
    made s (conclude fuel pk d skew (Some dir) q r s).2 during /\
    SignedAuthResponse.verify_for_request r (SignedAuthRequest.body q) pk = Ok tt /\
    if ended then exists x, (conclude fuel pk d skew (Some dir) q r s).1 = Done x else after = [].

(** They are what the automaton allows. *)
Lemma quiet_client_run r c evs : ready c -> Forall quiet evs ->
  exists c', client_run (file_fd dir) r c evs = Some c' /\ ready c'.
Proof.
  intros Hc Hq. revert c Hc. induction Hq as [|e evs He _ IH]; intros c Hc; [by exists c|].
  assert (exists c1, client_step (file_fd dir) r c e = Some c1 /\ ready c1) as (c1 & Hs & Hc1).
  { destruct e as [|[ns|]| | | | | | | | | | | | | | | | | | | | | | | | | | |]; try done;
      try (exists c; split; [by apply ready_step|done]); eexists; (split; [reflexivity|]); done. }
  cbn. rewrite Hs. by apply IH.
Qed.

Lemma concludes_follows ended r c evs : ready c -> concludes ended r evs ->
  exists c', client_run (file_fd dir) r c evs = Some c'.
Proof.
  intros Hc (fuel & d & skew & q & s & e1 & e2 & e3 & -> & Q1 & Q3 & M2 & _ & Hend).
  destruct (quiet_client_run r c e1) as (c1 & R1 & Hc1); [done..|].
  destruct (follows_conclude fuel dir r pk d skew q c1 Hc1 s) as (evs2 & c2 & M2' & R2 & Hc2).
  rewrite (made_inj _ _ _ _ M2' M2) in R2. rewrite !run_steps_app, R1, run_steps_app, R2.
  destruct ended; [|subst e3; by eexists]. destruct Hend as [x Hx]. rewrite Hx in Hc2.
  destruct (quiet_client_run r c2 e3) as (c3 & R3 & _); [done..|]. rewrite R3. by eexists.
Qed.

(** What a run of a helper looks like to the others: it leaves the cache
    directory alone, or it concludes on one response. *)
Definition behaves {E A} (m : M W E A) : Prop :=
  forall s, exists evs, made s (m s).2 evs /\
    (Forall quiet evs \/
     exists r, concludes (match (m s).1 with Done _ => true | _ => false end) r evs).

Lemma behaves_quiet {E A} (m : M W E A) : emits quiet m -> behaves m.
Proof. intros Hm s. destruct (Hm s) as (evs & ? & ?). exists evs. by split; [|left]. Qed.

Lemma behaves_bind {E A B} (m : M W E A) (k : A -> M W E B) :
  emits quiet m -> (forall a, behaves (k a)) -> behaves (bind m k).
Proof.
  intros Hm Hk s. destruct (Hm s) as (e1 & M1 & Q1). unfold bind.
  destruct (m s) as [[[a|e]| |] s1]; try (by exists e1; split; [|left]).
  destruct (Hk a s1) as (e2 & M2 & P2). exists (e1 ++ e2). split; [by eapply made_app|].
  destruct P2 as [Q2|(r & fuel & d & skew & q & s2 & b & du & af & -> & Qb & P2)];
    [left; by apply Forall_app|right].
  exists r, fuel, d, skew, q, s2, (e1 ++ b), du, af. rewrite <- app_assoc.
  split; [done|]. split; [by apply Forall_app|done].
Qed.

Lemma behaves_or_return {E A} code (m : M W E A) (k : A -> M W error N) :
  emits quiet m -> (forall a, behaves (k a)) -> behaves (or_return code m k).
Proof.
  intros Hm Hk. apply behaves_bind; [by apply respects_attempt|]. intros [a|e]; [apply Hk|].
  apply behaves_quiet, respects_ret; apply _.
Qed.

Lemma behaves_scoped {E A} f (m : M W E A) : behaves m -> behaves (scoped f m).
Proof.
  intros Hm s. destruct (Hm s) as (e1 & M1 & P1). unfold scoped, bind, attempt, lift.
  destruct (m s) as [[x| |] s1]; [|by exists e1..]. unfold close, prim. cbn in *.
  destruct (k_close f (world s1)) as [[] w]. exists (e1 ++ [EvClose f]).
  split; [by eapply made_app|].
  destruct P1 as [Q1|(r & fuel & d & skew & q & s2 & b & du & af & -> & Qb & Qa & P1)].
  - left. apply Forall_app. by repeat constructor.
  - right. exists r, fuel, d, skew, q, s2, b, du, (af ++ [EvClose f]). rewrite <- !app_assoc.
    do 2 (split; [done|]). split; [|exact P1]. apply Forall_app. by repeat constructor.
Qed.

Lemma behaves_conclude fuel d skew q r :
  behaves (conclude (W := W) fuel pk d skew (Some dir) q r).
Proof.
  intros s. destruct (follows_conclude fuel dir r pk d skew q client0 ltac:(done) s) as (evs & _ & M1 & _).
  exists evs. split; [done|].
  destruct (SignedAuthResponse.verify_for_request r (SignedAuthRequest.body q) pk) as [[]|e] eqn:Ev.
  - right. exists r, fuel, d, skew, q, s, [], evs, []. rewrite app_nil_r. split_and!; [done..|].
    destruct (conclude _ _ _ _ _ _ _ s).1; [by eexists|done..].
  - left. unfold conclude in M1. rewrite (or_return_run _ _ _ s (Err e) s) in M1 by (unfold lift; by rewrite Ev).
    rewrite (made_inj _ _ _ _ M1 (made_nil s)). constructor.
Qed.

Lemma quiet_connect fuel path d : emits quiet (connect fuel path d : M W _ _).
Proof.
  assert (forall x p e, dials x p e -> quiet e) as Hq by (by intros ? ? []).
  unfold connect, socket, check_deadline, instant_now. respects_tac; try by apply emits_prim.
  apply emits_owned; [|done]. unfold set_cloexec, set_nonblocking, check_deadline, instant_now.
  respects_tac; try by apply emits_prim. eapply emits_mono; [apply Hq|apply dials_connect_round].
Qed.

Lemma quiet_transfer {T} fuel io ev (op : M W io_error T) : emits quiet op -> emits quiet (transfer fuel io ev op).
Proof.
  intros Ho. unfold transfer, transfer_round, wait, wait_round, check_deadline, instant_now, poll.
  respects_tac; first [done|by apply emits_prim].
Qed.

Lemma quiet_write_frame fuel (io : DeadlineIo) (v : SignedAuthRequest.t) :
  emits quiet (write_json_frame fuel io v : M W _ _).
Proof.
  unfold write_json_frame, write_all, write_, deadline_io_write. respects_tac; apply quiet_transfer;
    unfold write; respects_tac; by apply emits_prim.
Qed.

Lemma quiet_read_frame fuel (io : DeadlineIo) :
  emits quiet (read_json_frame (T := SignedAuthResponse.t) fuel io : M W _ _).
Proof.
  unfold read_json_frame, read_exact, read_, deadline_io_read. respects_tac; apply quiet_transfer;
    unfold read; respects_tac; by apply emits_prim.
Qed.

Lemma behaves_exchange fuel socket d skew q :
  behaves (exchange (W := W) fuel socket pk d skew (Some dir) q).
Proof.
  unfold exchange. apply behaves_or_return; [apply quiet_connect|]. intros st.
  apply behaves_scoped. cbv zeta. apply behaves_or_return; [apply quiet_write_frame|]. intros _.
  apply behaves_or_return; [apply quiet_read_frame|]. intros r. apply behaves_conclude.
Qed.

(** Everything that happens once the inputs were loaded. *)
Lemma behaves_send_request oc fuel args sk socket k h n sv t skew :
  behaves (send_request (W := W) oc fuel args sk pk socket k h n sv t skew (Some dir)).
Proof.
  unfold send_request, unix_time_ms, system_now. apply behaves_bind; [respects_tac; by apply emits_prim|].
  intros now. apply behaves_or_return.
  { unfold operation_budget, fail, instant_now. respects_tac. by apply emits_prim. }
  intros [d e]. case_match; [apply behaves_quiet, respects_ret; apply _|].
  apply behaves_bind.
  { unfold build_request, fill_bytes, process_id, add_u64. respects_tac; by apply emits_prim. }
  intros body. cbv zeta. apply behaves_bind; [apply respects_lift; apply _|]. intros q.
  apply behaves_exchange.
Qed.
End Helper.

(** C10: once its inputs are loaded, a run of a helper that is given a replay
    cache either leaves the directory alone, or concludes on one response
    that it has verified, with nothing else in the directory before and
    after; and then it keeps to the protocol of the cache from its first call
    to its last, however the run ends: it removes only the entry that it just
    read through to the end and found expired, and it creates at most the
    marker of that response, and writes nothing to it but the text of its
    expiry. *)
Theorem helper_keeps_protocol `{Kernel W} `{Crypto} `{Hex} `{Toml} `{SerdeJson SignedAuthRequest.t}
  `{SerdeJson SignedAuthResponse.t} (overflow_checks : bool) (fuel : nat) (args : RequestArgs)
  (sk : SigningKey) (pk socket key_id host_id hostname service : bytes) (timeout skew : N)
  (dir : File) (s : state W) :
  exists evs,
    made s (send_request overflow_checks fuel args sk pk socket key_id host_id hostname service
              timeout skew (Some dir) s).2 evs /\
    (Forall quiet evs \/
     exists r ended c', concludes (W := W) dir pk ended r evs /\
       client_run (file_fd dir) r client0 evs = Some c').
Proof.
  destruct (behaves_send_request dir pk overflow_checks fuel args sk socket key_id host_id hostname service
    timeout skew s) as (evs & M1 & P1). exists evs. split; [done|].
  destruct P1 as [Q1|[r Hr]]; [by left|right]. pose proof Hr as Hc.
  apply (concludes_follows dir pk _ r client0) in Hc as [c' Hc]; [|done]. by eexists r, _, c'.
Qed.
