(* ===== verification/ReplaySystem.v ===== *)
(** * Helpers that share one replay cache

    Any number of helpers use the directory at the same time; their calls are
    merged in any order.  The directory is what the file system documents of
    one: exclusive creation, names that lead to files, reads at an offset
    that end at the end of the file, writes to a regular file that take all
    or nothing.  Under these laws the helpers implement the abstract cache of
    [CacheSpec]. *)

From Stdlib Require Import NArith ZArith Lia List Bool.
From Stdlib Require Import Strings.Byte Strings.String.
From stdpp Require Import base decidable list option strings gmap fin_maps.
From S2P Require Import Prelude RustStd Crypto Protocol Samples Sys Io Sim Frame Trust Common Keys.
From S2P Require Import Replay Request Verdict CacheSpec Automaton ReplayClient.

Open Scope N_scope.

(** ** The shared directory *)

(** A file remembers the name and the helper that created it. *)
Record file : Type := MkFile { born : bytes; creator : N; text : bytes }.

Record store : Type := Store {
  names : gmap bytes N;
  files : gmap N file;
  handles : gmap (N * fd) (N * nat);
  furthest : N;
  next_file : N;
}.

Section Store.
(** Where each helper holds the directory open. *)
Context (dir : N -> fd).

Definition store_create (p : N) (n : bytes) (f : fd) (st : store) : option store :=
  match names st !! n with
  | Some _ => None
  | None =>
      let i := next_file st in
      Some (Store (<[n := i]> (names st)) (<[i := MkFile n p []]> (files st))
             (<[(p, f) := (i, 0%nat)]> (handles st)) (furthest st) (i + 1))
  end.

Definition store_open (p : N) (n : bytes) (f : fd) (st : store) : option store :=
  match names st !! n with
  | Some i => Some (Store (names st) (files st) (<[(p, f) := (i, 0%nat)]> (handles st)) (furthest st) (next_file st))
  | None => None
  end.

(** What is at a descriptor: the file and the offset, outside the directory
    nothing. *)
Definition at_handle (p : N) (f : fd) (st : store) : option (N * file * nat) :=
  match handles st !! (p, f) with
  | Some (i, off) => (fun fl => (i, fl, off)) <$> files st !! i
  | None => None
  end.

Definition store_step (st : store) (p : N) (e : event) : option store :=
  match e with
  | EvSystem (Some ns) =>
      Some (Store (names st) (files st) (handles st) (N.max (furthest st) (ns / 1000000)) (next_file st))
  | EvOpenat d n flags _ r =>
      if decide (d = dir p) then
        match r with
        | Ok f => if decide (O_EXCL ∈ flags) then store_create p n f st else store_open p n f st
        | Err e =>
            if decide (e = EEXIST /\ O_EXCL ∈ flags) then
              (fun _ => st) <$> names st !! n
            else Some st
        end
      else Some st
  | EvRead f len (Ok b) =>
      match at_handle p f st with
      | Some (i, fl, off) =>
          if decide (b `prefix_of` drop off (text fl) /\
                     (b = [] -> len <> 0%nat -> length (text fl) <= off)%nat) then
            Some (Store (names st) (files st)
              (<[(p, f) := (i, (off + length b)%nat)]> (handles st)) (furthest st) (next_file st))
          else None
      | None => Some st
      end
  | EvWrite f b (Ok k) =>
      match at_handle p f st with
      | Some (i, fl, off) =>
          if decide (k = length b) then
            Some (Store (names st)
              (<[i := MkFile (born fl) (creator fl)
                   (take off (text fl) ++ b ++ drop (off + length b) (text fl))]> (files st))
              (<[(p, f) := (i, (off + length b)%nat)]> (handles st)) (furthest st) (next_file st))
          else None
      | None => Some st
      end
  | EvClose f => Some (Store (names st) (files st) (delete (p, f) (handles st)) (furthest st) (next_file st))
  | EvUnlinkat d n (Ok tt) =>
      if decide (d = dir p) then
        match names st !! n with
        | Some _ => Some (Store (delete n (names st)) (files st) (handles st) (furthest st) (next_file st))
        | None => None
        end
      else Some st
  | _ => Some st
  end.

Fixpoint store_run (st : store) (evs : list (N * event)) : option store :=
  match evs with
  | [] => Some st
  | (p, e) :: evs => match store_step st p e with Some st => store_run st evs | None => None end
  end.

(** The calls as steps of the abstract cache. *)
Definition label_of (pe : N * event) : list label :=
  match pe.2 with
  | EvSystem (Some ns) => [Tick (ns / 1000000)]
  | EvOpenat d n flags _ r =>
      if decide (d = dir pe.1 /\ O_EXCL ∈ flags) then
        match r with
        | Ok _ => [Accept n]
        | Err EEXIST => [Refuse n]
        | Err _ => []
        end
      else []
  | EvUnlinkat d n (Ok tt) => if decide (d = dir pe.1) then [Expire n] else []
  | _ => []
  end.

Definition labels (evs : list (N * event)) : list label := flat_map label_of evs.
Definition view (st : store) : cache := Cache (dom (names st)) (furthest st).
End Store.

(** The calls of one helper. *)
Definition calls_of (p : N) (evs : list (N * event)) : list event :=
  map snd (List.filter (fun pe => pe.1 =? p) evs).

(** ** The invariant *)

Section Invariant.
Context (expiry_of : bytes -> N).

(** The text of a marker is written piece by piece. *)
Definition staged (n t : bytes) : Prop :=
  exists k, t = concat (take k (marker_pieces (expiry_of n))).

Definition no_handle_but (st : store) (p : N) (f : option fd) : Prop :=
  forall g, Some g <> f -> handles st !! (p, g) = None.

Definition client_ok (st : store) (p : N) (c : client) : Prop :=
  (forall now, latest c = Some now -> now <= furthest st) /\
  match doing c with
  | Idle => no_handle_but st p None
  | Parsed n e => no_handle_but st p None /\ e = expiry_of n
  | Reading n f acc => no_handle_but st p (Some f) /\
      exists i fl, handles st !! (p, f) = Some (i, length acc) /\ files st !! i = Some fl /\
        born fl = n /\ acc `prefix_of` text fl
  | Ended n f acc => no_handle_but st p (Some f) /\ staged n acc
  | Writing f rest => no_handle_but st p (Some f) /\
      exists i fl k, handles st !! (p, f) = Some (i, length (text fl)) /\ files st !! i = Some fl /\
        creator fl = p /\ text fl = concat (take k (marker_pieces (expiry_of (born fl)))) /\
        rest = drop k (marker_pieces (expiry_of (born fl)))
  end.

Record sound (st : store) : Prop := {
  sound_names n i : names st !! n = Some i -> exists fl, files st !! i = Some fl /\ born fl = n;
  sound_files i fl : files st !! i = Some fl -> staged (born fl) (text fl) /\ i < next_file st;
}.

(** What the steps of the others leave to [p]. *)
Record grows (p : N) (st st' : store) : Prop := {
  grows_clock : furthest st <= furthest st';
  grows_handles f : handles st' !! (p, f) = handles st !! (p, f);
  grows_files i fl : files st !! i = Some fl -> exists fl', files st' !! i = Some fl' /\
    born fl' = born fl /\ creator fl' = creator fl /\ text fl `prefix_of` text fl' /\
    (creator fl = p -> text fl' = text fl);
}.

Lemma client_ok_grows p st st' c : grows p st st' -> client_ok st p c -> client_ok st' p c.
Proof.
  intros [Ht Hh Hf] [Hl Hc]. split; [intros now ?; etransitivity; [by apply Hl|done]|].
  assert (forall o, no_handle_but st p o -> no_handle_but st' p o) as Hn.
  { intros o Hn g Hg. rewrite Hh. by apply Hn. }
  destruct (doing c) as [|n f acc|n f acc|n e|f rest];
    [by apply Hn| |destruct Hc; by split; [apply Hn|]..|].
  - destruct Hc as (? & i & fl & Hi & Hfl & <- & Hp). split; [by apply Hn|].
    apply Hf in Hfl as (fl' & ? & ? & ? & ? & _). exists i, fl'. rewrite Hh.
    split_and!; [done..|by etransitivity].
  - destruct Hc as (? & i & fl & k & Hi & Hfl & Hcr & Hk & Hr). split; [by apply Hn|].
    apply Hf in Hfl as (fl' & Hfl' & Hb & Hc' & _ & Ht'). exists i, fl', k. rewrite Hh, Ht', Hb by done.
    split_and!; [done..|congruence|done|done].
Qed.

(** The text of a marker parses to its expiry or, half written, to nothing. *)
Lemma staged_parse n t e :
  expiry_of n <= u64_max -> staged n t -> parse_expires_at_ms t = Some e -> e = expiry_of n.
Proof.
  intros Hmax [k ->]. destruct k as [|[|[|k]]].
  - done.
  - by vm_compute.
  - cbn [take marker_pieces concat]. rewrite app_nil_r. unfold parse_expires_at_ms.
    assert (forallb is_graphic (B "expires_at_ms=" ++ show_N (expiry_of n)) = true) as Hg
      by by rewrite forallb_app, show_N_graphic.
    rewrite (lines_graphic (B "expires_at_ms=" ++ _)) by done. rewrite trim_graphic, strip_prefix_app by done.
    rewrite parse_show_u64 by done. by intros [= <-].
  - rewrite take_ge by (cbn; lia). rewrite marker_text by done. by intros [= <-].
Qed.

Lemma staged_length n t : expiry_of n <= u64_max -> staged n t -> (length t < 128)%nat.
Proof.
  intros Hmax [k ->]. pose proof (show_N_length _ Hmax) as Hl.
  assert (length (B "expires_at_ms=") = 14%nat) as H14 by done.
  destruct k as [|[|[|k]]]; cbn [take marker_pieces concat];
    rewrite ?take_nil, ?length_app, ?H14; cbn [length concat]; lia.
Qed.

Lemma no_handle_insert st p f h i t x0 g :
  no_handle_but st p None -> no_handle_but (Store h i (<[(p, f) := g]> (handles st)) t x0) p (Some f).
Proof.
  intros Hn x Hx. cbn. rewrite lookup_insert_ne by congruence. by apply Hn.
Qed.

Lemma no_handle_keep st p f h i t x0 g :
  no_handle_but st p (Some f) -> no_handle_but (Store h i (<[(p, f) := g]> (handles st)) t x0) p (Some f).
Proof.
  intros Hn x Hx. cbn. rewrite lookup_insert_ne by congruence. by apply Hn.
Qed.

Lemma no_handle_delete st p f h i t x0 :
  no_handle_but st p (Some f) -> no_handle_but (Store h i (delete (p, f) (handles st)) t x0) p None.
Proof.
  intros Hn x Hx. cbn. destruct (decide (x = f)) as [->|Hne]; [by rewrite lookup_delete_eq|].
  rewrite lookup_delete_ne by congruence. apply Hn. congruence.
Qed.

Section Step.
Context `{Crypto} `{Hex} (dir : N -> fd) (p : N) (r : SignedAuthResponse.t).
Context (Hmax : forall n, expiry_of n <= u64_max) (Hr : expiry_in r = expiry_of (marker_name r)).

(** A step of [p] keeps the invariant, disturbs nobody, and is a step of the
    abstract cache. *)
Definition step_ok (st : store) (c' : client) (st' : store) (ls : list label) : Prop :=
  sound st' /\ client_ok st' p c' /\ (forall q, q <> p -> grows q st st') /\
  cache_steps expiry_of (view st) ls (view st').

Lemma grows_same q n t h x st :
  furthest st <= t -> (forall f, h !! (q, f) = handles st !! (q, f)) -> grows q st (Store n (files st) h t x).
Proof. intros Ht Hh. split; [done|exact Hh|]. intros i fl Hfl. by exists fl. Qed.

Lemma step_same st c : sound st -> client_ok st p c -> step_ok st c st [].
Proof.
  intros Hs Hc. split_and!; [done|done| |constructor].
  intros q _. destruct st. by apply (grows_same q names0 furthest0 handles0 next_file0).
Qed.

Lemma steps_one c l c' : cache_step expiry_of c l c' -> cache_steps expiry_of c [l] c'.
Proof. intros Hs. econstructor; [exact Hs|constructor]. Qed.

Lemma step_tick st c ns : sound st -> client_ok st p c ->
  step_ok st (Client (Some (ns / 1000000)) (doing c))
    (Store (names st) (files st) (handles st) (N.max (furthest st) (ns / 1000000)) (next_file st))
    [Tick (ns / 1000000)].
Proof.
  intros [Hn Hf] Hc. split_and!; [by split| | |].
  - assert (client_ok (Store (names st) (files st) (handles st) (N.max (furthest st) (ns / 1000000)) (next_file st)) p c)
      as [_ Hd] by (eapply client_ok_grows; [apply grows_same; [lia|done]|done]).
    split; [|exact Hd]. cbn. intros now [= <-]. lia.
  - intros q _. apply grows_same; [lia|done].
  - apply steps_one. apply (step_tick _ (view st)).
Qed.

Lemma excl_create : O_EXCL ∈ create_flags.
Proof. by apply (bool_decide_unpack _). Qed.
Lemma excl_marker : ~ O_EXCL ∈ marker_flags.
Proof. by apply (bool_decide_unpack _). Qed.

(** The new file has no other handle and no text. *)
Lemma create_ok st c n f st' : sound st -> no_handle_but st p None ->
  (forall now, latest c = Some now -> now <= furthest st) -> n = marker_name r ->
  store_create p n f st = Some st' ->
  step_ok st (become (Writing f (marker_pieces (expiry_in r))) c) st' [Accept n].
Proof.
  intros [Sn Sf] Hh Hl Hn. unfold store_create. destruct (names st !! n) eqn:En; [done|]. intros [= <-].
  set (i := next_file st). assert (files st !! i = None) as Hi.
  { destruct (files st !! i) as [fl|] eqn:E; [|done]. apply Sf in E as [_ E]. subst i. lia. }
  split_and!.
  - split; cbn; intros *; rewrite lookup_insert_Some.
    + intros [[<- <-]|[Hne Hni]]; [exists (MkFile n p []); by rewrite lookup_insert_eq|].
      apply Sn in Hni as (fl & Hfl & Hb). exists fl. rewrite lookup_insert_ne by congruence. done.
    + intros [[<- <-]|[Hne Hfl]]; [split; [by exists 0%nat|lia]|].
      apply Sf in Hfl as [? ?]. split; [done|lia].
  - split; [exact Hl|]. split; [by apply no_handle_insert|].
    exists i, (MkFile n p []), 0%nat. cbn. rewrite !lookup_insert_eq. rewrite Hr, <- Hn. done.
  - intros q Hq. split; cbn; [lia|intros g; apply lookup_insert_ne; congruence|].
    intros j fl Hfl. exists fl. rewrite lookup_insert_ne by congruence. done.
  - apply steps_one. unfold view. cbn. rewrite dom_insert_L. apply step_accept. cbn.
    by apply not_elem_of_dom.
Qed.

Lemma look_ok st c n f st' : sound st -> no_handle_but st p None ->
  (forall now, latest c = Some now -> now <= furthest st) ->
  store_open p n f st = Some st' -> step_ok st (become (Reading n f []) c) st' [].
Proof.
  intros [Sn Sf] Hh Hl. unfold store_open. destruct (names st !! n) as [i|] eqn:En; [|done]. intros [= <-].
  split_and!; [by split| |intros q Hq; apply grows_same; [done|]|constructor].
  - split; [exact Hl|]. split; [by apply no_handle_insert|].
    destruct (Sn n i En) as (fl & Hfl & Hb). exists i, fl. cbn. rewrite lookup_insert_eq.
    split_and!; [done..|apply prefix_nil].
  - intros g. apply lookup_insert_ne. congruence.
Qed.

Lemma ready_ok st c : client_ok st p c -> ready c -> no_handle_but st p None.
Proof. unfold ready. intros [_ Hc]. by destruct (doing c); [..|destruct Hc|]. Qed.

Lemma step_open st c n flags m f x st' : sound st -> client_ok st p c -> ready c ->
  client_open r n flags f = Some x -> store_step dir st p (EvOpenat (dir p) n flags m f) = Some st' ->
  step_ok st (become x c) st' (label_of dir (p, EvOpenat (dir p) n flags m f)).
Proof.
  intros Hs Hc Hready Hx Hst. pose proof (ready_ok _ _ Hc Hready) as Hh. destruct Hc as [Hl _].
  cbn in Hst |- *. rewrite decide_True in Hst by done. unfold client_open in Hx.
  assert (step_ok st (become Idle c) st []) as Hidle by by apply step_same.
  destruct (decide (flags = create_flags)) as [->|_].
  - rewrite decide_True by (split; [done|apply excl_create]).
    destruct (decide (n = marker_name r)) as [Hn|]; [|done]. destruct f as [f|e]; injection Hx as <-.
    + rewrite decide_True in Hst by apply excl_create. by apply create_ok.
    + destruct (decide (e = EEXIST /\ _)) as [[-> _]|He].
      * apply fmap_Some in Hst as (i & Hi & ->). split_and!; [apply Hidle..|].
        apply steps_one, step_refuse. apply elem_of_dom. by exists i.
      * injection Hst as <-. destruct e; try done. destruct He. split; [done|apply excl_create].
  - destruct (decide (flags = marker_flags)) as [->|]; [|done].
    rewrite decide_False by (intros [_ Hx']; by apply excl_marker).
    destruct f as [f|e]; injection Hx as <-.
    + rewrite decide_False in Hst by apply excl_marker. by apply look_ok.
    + rewrite decide_False in Hst by (intros [_ Hx']; by apply excl_marker). by injection Hst as <-.
Qed.

(** Reading on. *)
Lemma step_read st c n f acc len b st' : sound st -> client_ok st p c -> doing c = Reading n f acc ->
  store_step dir st p (EvRead f len (Ok b)) = Some st' ->
  step_ok st (become (client_read n f acc len b) c) st' [].
Proof.
  intros [Sn Sf] [Hl Hc] Hd. rewrite Hd in Hc. destruct Hc as (Hh & i & fl & Hi & Hfl & Hb & [sfx Hp]).
  cbn. unfold at_handle. rewrite Hi, Hfl. cbn.
  assert (drop (length acc) (text fl) = sfx) as Hdrop by (by rewrite Hp, drop_app_length).
  case_decide as Hcond; [|done]. destruct Hcond as [[sfx' Hb'] Heof]. intros [= <-].
  rewrite Hdrop in Hb'. split_and!; [by split| |intros q Hq; apply grows_same; [done|]|constructor].
  - split; [exact Hl|]. unfold client_read. cbn. rewrite <- length_app.
    destruct (decide _) as [Hend|]; cbn; (split; [by apply no_handle_keep|]).
    + rewrite <- Hb. destruct Hend as [[-> Hlen]|Hend].
      * rewrite app_nil_r. apply Sf in Hfl as [Hfl _]. specialize (Heof eq_refl Hlen).
        rewrite Hp, length_app in Heof. destruct sfx; [|cbn in Heof; lia].
        by rewrite Hp, app_nil_r in Hfl.
      * exfalso. apply Sf in Hfl as [Hfl%staged_length _]; [|done].
        rewrite Hp, Hb', app_assoc, length_app in Hfl. lia.
    + exists i, fl. cbn. rewrite lookup_insert_eq. split_and!; [done..|].
      exists sfx'. by rewrite <- app_assoc, <- Hb'.
  - intros g. apply lookup_insert_ne. congruence.
Qed.

Lemma drop_cons_inv {A} k (l : list A) x ys :
  drop k l = x :: ys -> take (S k) l = take k l ++ [x] /\ drop (S k) l = ys.
Proof.
  intros E. split; [|by rewrite <- Nat.add_1_r, <- drop_drop, E].
  apply take_S_r. by rewrite <- (Nat.add_0_r k), <- lookup_drop, E.
Qed.

(** Writing on: a piece at a time. *)
Lemma step_write st c f rest b k x st' : sound st -> client_ok st p c -> doing c = Writing f rest ->
  client_write f rest b k = Some x -> store_step dir st p (EvWrite f b (Ok k)) = Some st' ->
  step_ok st (become x c) st' [].
Proof.
  intros [Sn Sf] [Hl Hc] Hd Hx. rewrite Hd in Hc. destruct Hc as (Hh & i & fl & j & Hi & Hfl & Hcr & Ht & ->).
  cbn. unfold at_handle. rewrite Hi, Hfl. cbn. case_decide as Hk; [|done]. intros [= <-].
  unfold client_write in Hx. destruct (drop j _) as [|b' ps] eqn:Ej; [done|].
  case_decide as Hb; [|done]. subst b'. rewrite decide_True in Hx by done. injection Hx as <-.
  apply drop_cons_inv in Ej as [Etake Edrop].
  rewrite firstn_all, drop_ge, app_nil_r by lia.
  assert (text fl ++ b = concat (take (S j) (marker_pieces (expiry_of (born fl))))) as Ht'
    by by rewrite Etake, concat_app, Ht; cbn; rewrite app_nil_r.
  split_and!.
  - split; cbn.
    + intros n i' Hni. apply Sn in Hni as (fl' & Hfl' & Hb').
      destruct (decide (i' = i)) as [->|]; [|exists fl'; by rewrite lookup_insert_ne].
      eexists. rewrite lookup_insert_eq. split; [done|]. cbn. congruence.
    + intros i' fl'. rewrite lookup_insert_Some. intros [[<- <-]|[_ Hfl']]; [|by eapply Sf].
      split; [by exists (S j)|by apply (Sf i fl)].
  - split; [exact Hl|]. cbn. split; [by apply no_handle_keep|].
    exists i, (MkFile (born fl) (creator fl) (text fl ++ b)), (S j). rewrite !lookup_insert_eq. cbn. rewrite length_app. by split_and!.
  - intros q Hq. split; cbn; [lia|intros g; apply lookup_insert_ne; congruence|].
    intros i' fl' Hfl'. destruct (decide (i' = i)) as [->|]; [|exists fl'; by rewrite lookup_insert_ne].
    rewrite Hfl in Hfl'. injection Hfl' as <-. eexists. rewrite lookup_insert_eq. split; [done|]. cbn.
    split_and!; [done|done|by eexists|congruence].
  - constructor.
Qed.

Lemma step_close st c f c' st' : sound st -> client_ok st p c ->
  client_step (dir p) r c (EvClose f) = Some c' -> store_step dir st p (EvClose f) = Some st' ->
  step_ok st c' st' [].
Proof.
  intros [Sn Sf] [Hl Hc] Hcs [= <-].
  assert (forall q, q <> p -> grows q st (Store (names st) (files st) (delete (p, f) (handles st)) (furthest st) (next_file st)))
    as Hg.
  { intros q Hq. apply grows_same; [done|]. intros g. apply lookup_delete_ne. congruence. }
  assert (no_handle_but st p None ->
    no_handle_but (Store (names st) (files st) (delete (p, f) (handles st)) (furthest st) (next_file st)) p None) as Hnone.
  { intros Hn g _. cbn. apply lookup_delete_None. right. by apply Hn. }
  destruct c as [now ph]. cbn in Hcs, Hl, Hc.
  destruct ph as [|n g acc|n g acc|n e|g rest]; try (case_decide as Hfg; [subst g|done]);
    injection Hcs as <-; (split_and!; [by split| |exact Hg|constructor]);
    (split; [exact Hl|]); cbn.
  - by apply Hnone.
  - apply no_handle_delete, Hc.
  - destruct Hc as [Hn Ht]. unfold closed. destruct (parse_expires_at_ms acc) eqn:Ep.
    + split; [by apply no_handle_delete|]. by eapply staged_parse.
    + by apply no_handle_delete.
  - destruct Hc as [Hn He]. split; [by apply Hnone|done].
  - apply no_handle_delete, Hc.
Qed.

Lemma step_unlink st c n e now x st' : sound st -> client_ok st p c -> doing c = Parsed n e ->
  latest c = Some now -> e < now -> store_step dir st p (EvUnlinkat (dir p) n x) = Some st' ->
  step_ok st (become Idle c) st' (label_of dir (p, EvUnlinkat (dir p) n x)).
Proof.
  intros [Sn Sf] [Hl Hc] Hd Hnow Hlt. rewrite Hd in Hc. destruct Hc as [Hn ->]. cbn.
  destruct x as [[]|er]; [|intros [= <-]; by apply step_same].
  rewrite !decide_True by done. destruct (names st !! n) eqn:En; [|done]. intros [= <-]. split_and!.
  - split; cbn; [|done]. intros n' i' Hni. apply lookup_delete_Some in Hni as [_ Hni]. by apply Sn.
  - split; [exact Hl|done].
  - intros q _. by apply grows_same.
  - apply steps_one. unfold view. cbn. rewrite dom_delete_L. apply step_expire. cbn.
    specialize (Hl now Hnow). lia.
Qed.

Lemma at_handle_none st f : no_handle_but st p None -> at_handle p f st = None.
Proof. intros Hn. unfold at_handle. by rewrite Hn. Qed.

Lemma step_sim st c e c' st' : sound st -> client_ok st p c ->
  client_step (dir p) r c e = Some c' -> store_step dir st p e = Some st' ->
  step_ok st c' st' (label_of dir (p, e)).
Proof.
  intros Hs Hc. pose proof (step_same st c Hs Hc) as Hsame.
  assert (ready c -> forall f, at_handle p f st = None) as Hno.
  { intros Hr' f. by eapply at_handle_none, ready_ok. }
  destruct e as [|[ns|]| | | | | | | | | | | |f len [b|]|f b [k|]| |d n flags m f| | | |d n x| |f| | | | | |];
    try (intros [= <-] [= <-]; exact Hsame).
  - intros [= <-] [= <-]. by apply step_tick.
  - unfold client_step. destruct (doing c) as [|n g acc| |n e|] eqn:Ed; try done.
    2: { case_decide as Hf; [subst g|done]. intros [= <-] Hst. by eapply step_read. }
    all: intros [= <-]; cbn; rewrite Hno by (unfold ready; by rewrite Ed); by intros [= <-].
  - unfold client_step. destruct (doing c) as [|n g acc| |n e|g rest] eqn:Ed; try done.
    3: { case_decide as Hf; [subst g|done]. intros (x & Hx & ->)%fmap_Some Hst. by eapply step_write. }
    all: intros [= <-]; cbn; rewrite Hno by (unfold ready; by rewrite Ed); by intros [= <-].
  - intros Hcs Hst. assert (d = dir p /\ ready c /\ exists x, client_open r n flags f = Some x /\ c' = become x c)
      as (-> & Hready & x & Hx & ->).
    { unfold client_step, ready in *. destruct (doing c); try done;
        (case_decide as Hd; [subst d|done]); apply fmap_Some in Hcs as (x & ? & ->); eauto. }
    by eapply step_open.
  - unfold client_step. destruct (doing c) as [| | |n' e|] eqn:Ed; try done.
    destruct (latest c) as [now|] eqn:El; [|done]. case_decide as Hcond; [|done].
    destruct Hcond as (-> & -> & Hlt). intros [= <-] Hst. by eapply step_unlink.
  - intros Hcs Hst. by eapply step_close.
Qed.
End Step.
End Invariant.

(** ** The system *)

Section System.
Context `{Kernel W} `{Crypto} `{Hex}.

(** The calls of a helper, complete or cut short anywhere, that concludes on
    the response [r] with the cache [dir] ([helper_keeps_protocol] says what
    else it may do: nothing). *)
Definition concluding (pk : bytes) (dir : File) (r : SignedAuthResponse.t) (evs : list event) : Prop :=
  exists ended full, evs `prefix_of` full /\ concludes (W := W) dir pk ended r full.

Lemma concluding_follows pk dir r evs :
  concluding pk dir r evs -> is_Some (client_run (file_fd dir) r client0 evs).
Proof.
  intros (ended & full & [more ->] & Hc). apply concludes_follows with (c := client0) in Hc as [c Hrun]; [|done].
  rewrite run_steps_app in Hrun. destruct (client_run _ _ _ evs); [by eexists|done].
Qed.

Context (expiry_of : bytes -> N) (dir : N -> fd) (response : N -> SignedAuthResponse.t).
Context (Hmax : forall n, expiry_of n <= u64_max).
Context (Hresponse : forall p, expiry_in (response p) = expiry_of (marker_name (response p))).

Lemma calls_of_cons p q e evs :
  calls_of p ((q, e) :: evs) = if q =? p then e :: calls_of p evs else calls_of p evs.
Proof. unfold calls_of. cbn. by destruct (q =? p). Qed.

Lemma system_steps evs (cs : N -> client) st st' :
  sound expiry_of st -> (forall p, client_ok expiry_of st p (cs p)) ->
  (forall p, is_Some (client_run (dir p) (response p) (cs p) (calls_of p evs))) ->
  store_run dir st evs = Some st' ->
  cache_steps expiry_of (view st) (labels dir evs) (view st').
Proof.
  revert cs st. induction evs as [|[p e] evs IH]; intros cs st Hs Hc Hrun; cbn.
  { intros [= <-]. constructor. }
  destruct (store_step dir st p e) as [st1|] eqn:Est; [|done]. intros Hst.
  pose proof (Hrun p) as Hp. rewrite calls_of_cons, N.eqb_refl in Hp. cbn in Hp.
  destruct (client_step (dir p) (response p) (cs p) e) as [c1|] eqn:Ecs; [|by destruct Hp].
  destruct (step_sim expiry_of dir p (response p) Hmax (Hresponse p) st (cs p) e c1 st1) as (Hs1 & Hc1 & Hg & Hsteps);
    [done..|].
  eapply cache_steps_app; [exact Hsteps|].
  apply (IH (fun q => if q =? p then c1 else cs q)); [done| | |done]; intros q;
    destruct (N.eqb_spec q p) as [->|Hq]; try done.
  - by eapply client_ok_grows; [apply Hg|].
  - specialize (Hrun q). rewrite calls_of_cons in Hrun. by destruct (N.eqb_spec p q).
Qed.
End System.

(** Helpers [p] that each conclude on a response, with the directory open at
    [dir p], on a directory in a state that earlier helpers may have left.
    [expiry_of] is the expiry of the responses with one signature. *)
Record shared `{Kernel W} `{Crypto} `{Hex} (expiry_of : bytes -> N) (pk : N -> bytes)
  (dir : N -> File) (response : N -> SignedAuthResponse.t) (st : store) (evs : list (N * event))
  (st' : store) : Prop := {
  shared_u64 : forall n, expiry_of n <= u64_max;
  shared_expiry : forall p, expiry_in (response p) = expiry_of (marker_name (response p));
  shared_helpers : forall p, concluding (W := W) (pk p) (dir p) (response p) (calls_of p evs);
  shared_sound : sound expiry_of st;
  shared_closed : handles st = ∅;
  shared_run : store_run (fun p => file_fd (dir p)) st evs = Some st';
}.

Lemma shared_steps `{Kernel W} `{Crypto} `{Hex} expiry_of pk dir response st evs st' :
  shared (W := W) expiry_of pk dir response st evs st' ->
  cache_steps expiry_of (view st) (labels (fun p => file_fd (dir p)) evs) (view st').
Proof.
  intros [Hmax Hr Hruns Hs Hh Hst].
  apply (system_steps _ _ response Hmax Hr _ (fun _ => client0)); [done| | |done].
  - intros p. split; [done|]. intros g _. rewrite Hh. apply lookup_empty.
  - intros p. by eapply concluding_follows.
Qed.


Lemma labels_app dir e1 e2 : labels dir (e1 ++ e2) = labels dir e1 ++ labels dir e2.
Proof. apply flat_map_app. Qed.

Lemma label_create dir p n a f :
  label_of dir (p, EvOpenat (dir p) n create_flags a (Ok f)) = [Accept n].
Proof. cbn. rewrite decide_True; [done|]. split; [done|apply excl_create]. Qed.

Lemma labels_tick dir evs t : In (Tick t) (labels dir evs) ->
  exists h ns, In (h, EvSystem (Some ns)) evs /\ t = ns / 1000000.
Proof.
  intros ([h e] & Hin & Hl)%in_flat_map. exists h.
  destruct e as [|[ns|]| | | | | | | | | | | | | | |d n flags m x| | | |d n [[]|]| | | | | | | |];
    cbn in Hl; try done.
  - destruct Hl as [[= <-]|[]]. by exists ns.
  - case_decide; [|done]. by destruct x as [|[]]; try destruct Hl as [Hl|[]].
  - case_decide; [|done]. by destruct Hl as [Hl|[]].
Qed.


(** ** Witnesses: the first helper records a response, the second is given
    the same one while the first is at work, the third comes twenty seconds
    later with another one *)

#[local] Existing Instance sample_crypto.
#[local] Existing Instance sample_hex.

Definition later_request : SignedAuthRequest.t :=
  SignedAuthRequest.mk
    (AuthRequestBody.mk PROTOCOL_VERSION (B "req-later") (replicate NONCE_LEN x43) 1700000020000
       1700000050000 (B "host-abc") (B "linux.example.com") (B "sudo") (B "alice") None None None None
       None (B "host-key-1") Ed25519) [].

Definition later_response : SignedAuthResponse.t :=
  Eval vm_compute in
  match (let? body := AuthResponseBody.for_request (SignedAuthRequest.body later_request) Decision.Approved
                        AuthMethod.BiometricOrWatch 1700000020000 1700000040000 (B "agent-key-1") in
         SignedAuthResponse.sign body (sample_sk x09)) with
  | Ok r => r
  | Err _ => vector_signed_response
  end.

Definition helper_run (q : SignedAuthRequest.t) (r : SignedAuthResponse.t) (w : sim)
  : outcome (result N error) * state sim :=
  conclude 400 (sample_key x09) 50000000000 30000 (Some Replay.cache) q r (start w).

Definition first_helper := helper_run vector_signed_request vector_signed_response (world cache_opened.2).
Definition second_helper :=
  helper_run vector_signed_request vector_signed_response (world first_helper.2).
Definition third_helper :=
  helper_run later_request later_response (set_clock 20000000000 (world first_helper.2)).

Example helper_codes :
  (first_helper.1, second_helper.1, third_helper.1)
  = (Done (Ok EXIT_APPROVED), Done (Ok EXIT_TAMPER), Done (Ok EXIT_APPROVED)).
Proof. vm_compute. reflexivity. Qed.

Definition tag (p : N) (evs : list event) : list (N * event) := map (pair p) evs.

Definition first_log : list event := Eval vm_compute in log first_helper.2.
Definition second_log : list event := Eval vm_compute in log second_helper.2.
Definition third_log : list event := Eval vm_compute in log third_helper.2.

(** [l] is the log of a run of a helper on [r] that came to a result. *)
Definition helper_log (r : SignedAuthResponse.t) (l : list event) : Prop :=
  exists q w x, SignedAuthResponse.verify_for_request r (SignedAuthRequest.body q) (sample_key x09) = Ok tt /\
    l = log (helper_run q r w).2 /\ (helper_run q r w).1 = Done x.

Lemma first_log_run : helper_log vector_signed_response first_log.
Proof.
  exists vector_signed_request, (world cache_opened.2), (Ok EXIT_APPROVED).
  split_and!; vm_compute; reflexivity.
Qed.
Lemma second_log_run : helper_log vector_signed_response second_log.
Proof.
  exists vector_signed_request, (world first_helper.2), (Ok EXIT_TAMPER).
  split_and!; vm_compute; reflexivity.
Qed.
Lemma third_log_run : helper_log later_response third_log.
Proof.
  exists later_request, (set_clock 20000000000 (world first_helper.2)), (Ok EXIT_APPROVED).
  split_and!; vm_compute; reflexivity.
Qed.

(** The second helper starts before the first creates its marker; the fourth
    has a clock that is twenty seconds behind that of the third. *)
Definition before_first : list (N * event) := tag 1 (take 7 first_log) ++ tag 2 (take 5 second_log).
Definition before_fourth : list (N * event) :=
  tag 1 (drop 8 first_log) ++ tag 2 (drop 5 second_log) ++ tag 3 third_log ++ tag 4 (take 7 first_log).
Definition after_fourth : list (N * event) := tag 4 (drop 8 first_log).
Definition merged : list (N * event) :=
  tag 1 (take 7 first_log) ++ tag 2 (take 5 second_log) ++ tag 1 (drop 7 first_log)
  ++ tag 2 (drop 5 second_log) ++ tag 3 third_log ++ tag 4 first_log.

Definition helper_response (p : N) : SignedAuthResponse.t :=
  if p =? 3 then later_response else vector_signed_response.
Definition sample_expiry (n : bytes) : N :=
  if bool_decide (n = marker_name later_response) then 1700000040000 else 1700000011000.

Definition empty_store : store := Store ∅ ∅ ∅ 0 0.
Definition merged_end : store := default empty_store (store_run (fun _ => 101) empty_store merged).

Lemma default_some {A} (o : option A) (a : A) :
  (if o is Some _ then true else false) = true -> o = Some (default a o).
Proof. by destruct o. Qed.

Lemma merged_run : store_run (fun _ => 101) empty_store merged = Some merged_end.
Proof. apply default_some. vm_compute. reflexivity. Qed.

Lemma calls_of_tag p q l evs :
  calls_of p (tag q l ++ evs) = if q =? p then l ++ calls_of p evs else calls_of p evs.
Proof.
  unfold tag. induction l as [|e l IH]; cbn [map app]; [by destruct (q =? p)|].
  rewrite calls_of_cons, IH. by destruct (q =? p).
Qed.

Lemma helper_concluding r l evs :
  helper_log r l -> evs `prefix_of` l -> concluding (W := sim) (sample_key x09) Replay.cache r evs.
Proof.
  intros (q & w & x & Hv & -> & Hx) He. exists true, (log (helper_run q r w).2). split; [done|].
  exists 400%nat, 50000000000, 30000, q, (start w), [], (log (helper_run q r w).2), [].
  split_and!; [by rewrite app_nil_r|done..|by exists x].
Qed.

Lemma calls_of_interleaving p l1 l2 l3 :
  calls_of p (tag 1 (take 7 l1) ++ tag 2 (take 5 l2) ++ tag 1 (drop 7 l1) ++ tag 2 (drop 5 l2)
    ++ tag 3 l3 ++ tag 4 l1)
  = if p =? 1 then l1 else if p =? 2 then l2 else if p =? 3 then l3 else if p =? 4 then l1 else [].
Proof.
  rewrite <- (app_nil_r (tag 4 l1)), !calls_of_tag, !(N.eqb_sym _ p).
  destruct (N.eqb_spec p 1) as [->|]; [by cbn; rewrite app_nil_r, take_drop|].
  destruct (N.eqb_spec p 2) as [->|]; [by cbn; rewrite app_nil_r, take_drop|].
  destruct (N.eqb_spec p 3) as [->|]; [by cbn; rewrite app_nil_r|].
  destruct (N.eqb_spec p 4) as [->|]; [by cbn; rewrite app_nil_r|done].
Qed.

Lemma merged_helpers p :
  concluding (W := sim) (sample_key x09) Replay.cache (helper_response p) (calls_of p merged).
Proof.
  unfold merged. rewrite calls_of_interleaving. unfold helper_response.
  destruct (N.eqb_spec p 3) as [->|]; [exact (helper_concluding _ _ _ third_log_run (reflexivity _))|].
  destruct (p =? 1); [exact (helper_concluding _ _ _ first_log_run (reflexivity _))|].
  destruct (p =? 2); [exact (helper_concluding _ _ _ second_log_run (reflexivity _))|].
  destruct (p =? 4); [exact (helper_concluding _ _ _ first_log_run (reflexivity _))|].
  exact (helper_concluding _ _ _ first_log_run (prefix_nil _)).
Qed.

Lemma merged_shared :
  shared (W := sim) sample_expiry (fun _ => sample_key x09) (fun _ => Replay.cache) helper_response
    empty_store merged merged_end.
Proof.
  split.
  - intros n. unfold sample_expiry. by case_bool_decide.
  - intros p. unfold helper_response. by destruct (p =? 3); vm_compute.
  - exact merged_helpers.
  - split; done.
  - done.
  - exact merged_run.
Qed.


Lemma merged_split :
  merged = before_first
    ++ (1, EvOpenat 101 (marker_name vector_signed_response) create_flags 0x180 (Ok 104))
    :: before_fourth
    ++ (4, EvOpenat 101 (marker_name vector_signed_response) create_flags 0x180 (Ok 104))
    :: after_fourth.
Proof. vm_compute. reflexivity. Qed.

