(* ===== verification/Live.v ===== *)
(** * What a prompt peer brings about

    The safety theorems hold against every kernel and every peer.  This file
    is about the good case: a kernel whose clocks stay within the budget for
    a number of calls, a socket that connects and moves at least a byte at a
    time, a directory that works, and a peer that answers.  Calls may still be
    interrupted, block, or take only a part of what they are given; [stalls]
    bounds how often.

    [achieves sit m Q]: started in such a situation, [m] comes to a result,
    and leaves the situation that [Q] describes.  [calls] counts the calls
    that are left besides an allowance for each stall. *)

From Stdlib Require Import NArith ZArith Lia List Bool.
From Stdlib Require Import Strings.Byte Strings.String.
From stdpp Require Import base decidable list option strings.
From S2P Require Import Prelude RustStd Sys Io Transport Frame Trust.

Open Scope N_scope.

(** The errors of a call that may be tried again. *)
Definition transient (blocking : bool) (e : errno) : Prop :=
  e = EINTR \/ blocking = false /\ e = EAGAIN.

(** [prompt n p out k w]: from the world [w], for [n] calls of which at most
    [p] stall, the clocks are between [base] and [d], and [lo] and [hi]; the
    peer behind the socket [f] has got [out] and of its answer [k] bytes were
    read; files other than the socket answer anything that a file may. *)
Class Prompt (W : Type) `{Kernel W} (f : fd) (path : bytes) (answer : bytes -> bytes)
  (blocking : bool) (base d lo hi : N) := {
  prompt : N -> N -> bytes -> nat -> W -> Prop;
  prompt_less n m p o k w : m <= n -> prompt n p o k w -> prompt m p o k w;
  prompt_instant n p o k w : 0 < n -> prompt n p o k w ->
    (base <= (k_instant_now w).1 /\ (k_instant_now w).1 < d) /\
      prompt (n - 1) p o k (k_instant_now w).2;
  prompt_system n p o k w : 0 < n -> prompt n p o k w ->
    exists ns w', k_system_now w = (Some ns, w') /\ lo <= ns / 1000000 <= hi /\ prompt (n - 1) p o k w';
  prompt_process_id n p o k w : 0 < n -> prompt n p o k w -> prompt (n - 1) p o k (k_process_id w).2;
  prompt_random n p o k w l : 0 < n -> prompt n p o k w -> prompt (n - 1) p o k (k_random l w).2;
  prompt_sleep n p o k w t : 0 < n -> prompt n p o k w -> prompt (n - 1) p o k (k_sleep t w).2;
  prompt_close n p o k w g : 0 < n -> prompt n p o k w -> prompt (n - 1) p o k (k_close g w).2;
  (** The socket. *)
  prompt_path : (x00 ∉ path) /\ (length path < k_sun_path_len)%nat;
  prompt_socket n p o k w : 0 < n -> prompt n p o k w ->
    exists w', k_socket w = (Ok f, w') /\ prompt (n - 1) p o k w';
  prompt_set_cloexec n p o k w : 0 < n -> prompt n p o k w ->
    exists w', k_set_cloexec f w = (Ok tt, w') /\ prompt (n - 1) p o k w';
  prompt_set_nonblocking n p o k w : 0 < n -> prompt n p o k w ->
    exists w', k_set_nonblocking f w = (Ok tt, w') /\ prompt (n - 1) p o k w';
  prompt_connect n p o k w : 0 < n -> prompt n p o k w ->
    exists r w', k_connect f path w = (r, w') /\
      ((r = Ok tt \/ r = Err EINPROGRESS) /\ prompt (n - 1) p o k w' \/
       (r = Err EINTR \/ r = Err EAGAIN) /\ 0 < p /\ prompt (n - 1) (p - 1) o k w');
  prompt_take_error n p o k w : 0 < n -> prompt n p o k w ->
    exists w', k_take_error f w = (Ok None, w') /\ prompt (n - 1) p o k w';
  prompt_poll n p o k w ev t : 0 < n -> prompt n p o k w ->
    exists r w', k_poll f ev t w = (r, w') /\
      ((0 < poll_result r)%Z /\ N.land (revents r) POLLNVAL = 0 /\ prompt (n - 1) p o k w' \/
       (poll_result r <= 0)%Z /\ poll_errno r = EINTR /\ 0 < p /\ prompt (n - 1) (p - 1) o k w');
  prompt_write n p o k w b : 0 < n -> b <> [] -> prompt n p o k w ->
    exists r w', k_write f b w = (r, w') /\
      ((exists j, r = Ok j /\ (0 < j <= length b)%nat /\ prompt (n - 1) p (o ++ take j b) k w') \/
       (exists e, r = Err e /\ transient blocking e /\ 0 < p /\ prompt (n - 1) (p - 1) o k w'));
  prompt_read n p o k w l : 0 < n -> (0 < l)%nat -> (k < length (answer o))%nat -> prompt n p o k w ->
    exists r w', k_read f l w = (r, w') /\
      ((exists b, r = Ok b /\ b <> [] /\ (length b <= l)%nat /\ b `prefix_of` drop k (answer o) /\
          prompt (n - 1) p o (k + length b) w') \/
       (exists e, r = Err e /\ transient blocking e /\ 0 < p /\ prompt (n - 1) (p - 1) o k w'));
  (** Files and directories. *)
  prompt_dup n p o k w g : 0 < n -> prompt n p o k w ->
    exists h w', k_dup_cloexec g w = (Ok h, w') /\ prompt (n - 1) p o k w';
  prompt_fdopendir n p o k w g : 0 < n -> prompt n p o k w ->
    exists h w', k_fdopendir g w = (Ok h, w') /\ prompt (n - 1) p o k w';
  prompt_readdir n p o k w h : 0 < n -> prompt n p o k w ->
    exists r w', k_readdir h w = (r, w') /\
      (r = None /\ prompt (n - 1) p o k w' \/
       (exists e, r = Some e) /\ 0 < p /\ prompt (n - 1) (p - 1) o k w');
  prompt_closedir n p o k w h : 0 < n -> prompt n p o k w -> prompt (n - 1) p o k (k_closedir h w).2;
  prompt_openat n p o k w g name flags m : 0 < n -> prompt n p o k w ->
    exists r w', k_openat g name flags m w = (r, w') /\ prompt (n - 1) p o k w' /\ r <> Ok f /\
      (flags = create_flags -> exists h, r = Ok h);
  prompt_fstat n p o k w g : 0 < n -> prompt n p o k w -> prompt (n - 1) p o k (k_fstat g w).2;
  prompt_unlinkat n p o k w g name : 0 < n -> prompt n p o k w ->
    prompt (n - 1) p o k (k_unlinkat g name w).2;
  prompt_file_read n p o k w g l : 0 < n -> g <> f -> prompt n p o k w ->
    exists r w', k_read g l w = (r, w') /\
      ((forall b, r = Ok b -> (length b <= l)%nat) /\ r <> Err EINTR /\ prompt (n - 1) p o k w' \/
       r = Err EINTR /\ 0 < p /\ prompt (n - 1) (p - 1) o k w');
  prompt_file_write n p o k w g b : 0 < n -> g <> f -> b <> [] -> prompt n p o k w ->
    exists r w', k_write g b w = (r, w') /\
      ((exists j, r = Ok j /\ (0 < j <= length b)%nat /\ prompt (n - 1) p o k w') \/
       r = Err EINTR /\ 0 < p /\ prompt (n - 1) (p - 1) o k w');
}.

(** The calls that are left besides [allowance] for each stall that is left,
    what was sent, and how much of the answer was received. *)
Record situation : Type := Sit { calls : N; stalls : N; outgoing : bytes; received : nat }.

Definition allowance : N := 256.

Definition spend (j : N) (σ : situation) : situation :=
  Sit (calls σ - j) (stalls σ) (outgoing σ) (received σ).

(** A call that stalled gives its allowance back. *)
Definition stall (σ : situation) : situation :=
  Sit (calls σ + (allowance - 1)) (stalls σ - 1) (outgoing σ) (received σ).

(** At least [n] calls are left, and at most [p] stalls. *)
Definition left (n p : N) (o : bytes) (k : nat) (σ : situation) : Prop :=
  n <= calls σ /\ stalls σ <= p /\ outgoing σ = o /\ received σ = k.

Lemma left_less n n' p p' o k σ : n' <= n -> p <= p' -> left n p o k σ -> left n' p' o k σ.
Proof. unfold left. intros ?? (? & ? & ? & ?). split_and!; [lia..|done|done]. Qed.

Ltac left_tac Hl := eapply left_less; [..|exact Hl]; unfold allowance in *; lia.

Lemma left_spend n p o k σ : left (n + 1) p o k σ -> left n p o k (spend 1 σ) /\ 0 < calls σ.
Proof. unfold left, spend. cbn. intros (? & ? & ? & ?). split_and!; [lia..|done|done|lia]. Qed.

Lemma left_stall n p o k σ : 0 < stalls σ -> left n p o k σ ->
  left (n + (allowance - 1)) (p - 1) o k (stall σ) /\ 0 < p.
Proof. unfold left, stall. cbn -[allowance]. intros ? (? & ? & ? & ?). split_and!; [lia..|done|done|lia]. Qed.

(** What a transfer over the socket sends and receives. *)
Definition sends (o : bytes) (b : bytes) (k : nat) (j : nat) (o' : bytes) (k' : nat) : Prop :=
  (0 < j <= length b)%nat /\ o' = o ++ take j b /\ k' = k.

Definition receives (answer : bytes -> bytes) (o : bytes) (k : nat) (l : nat) (b : bytes) (o' : bytes) (k' : nat) : Prop :=
  b <> [] /\ (length b <= l)%nat /\ b `prefix_of` drop k (answer o) /\ o' = o /\ k' = (k + length b)%nat.

Section Achieves.
Context `{Hprompt : Prompt W f path answer blocking base d lo hi}.

Definition holds (σ : situation) (w : W) : Prop :=
  prompt (calls σ + allowance * stalls σ) (stalls σ) (outgoing σ) (received σ) w.

Definition achieves {E A} (σ : situation) (m : M W E A) (Q : result A E -> situation -> Prop) : Prop :=
  forall s, holds σ (world s) ->
  exists x s' σ', m s = (Done x, s') /\ holds σ' (world s') /\ Q x σ'.

Lemma holds_less σ n w : n <= calls σ -> holds σ w ->
  holds (Sit n (stalls σ) (outgoing σ) (received σ)) w.
Proof. intros Hn. apply prompt_less. cbn. lia. Qed.

Lemma achieves_mono {E A} σ (m : M W E A) (P Q : result A E -> situation -> Prop) :
  achieves σ m P -> (forall x σ', P x σ' -> Q x σ') -> achieves σ m Q.
Proof. intros Hm HPQ s Hs. destruct (Hm s Hs) as (x & s' & σ' & ? & ? & ?). exists x, s', σ'. auto. Qed.

(** Fewer calls are enough. *)
Lemma achieves_with {E A} σ n (m : M W E A) (Q : result A E -> situation -> Prop) :
  n <= calls σ -> achieves (Sit n (stalls σ) (outgoing σ) (received σ)) m Q -> achieves σ m Q.
Proof. intros Hn Hm s Hs. apply Hm. by apply holds_less. Qed.

Lemma achieves_lift {E A} σ (x : result A E) (Q : result A E -> situation -> Prop) :
  Q x σ -> achieves σ (lift x) Q.
Proof. intros HQ s Hs. by exists x, s, σ. Qed.

Lemma achieves_ret {E A} σ (a : A) (Q : result A E -> situation -> Prop) :
  Q (Ok a) σ -> achieves σ (ret a) Q.
Proof. apply achieves_lift. Qed.

Lemma achieves_throw {E A} σ (e : E) (Q : result A E -> situation -> Prop) :
  Q (Err e) σ -> achieves σ (throw e) Q.
Proof. apply achieves_lift. Qed.

Lemma achieves_bind {E A B} σ (m : M W E A) (k : A -> M W E B) (Q : result B E -> situation -> Prop) :
  achieves σ m (fun x σ' => match x with Ok a => achieves σ' (k a) Q | Err e => Q (Err e) σ' end) ->
  achieves σ (bind m k) Q.
Proof.
  intros Hm s Hs. destruct (Hm s Hs) as (x & s1 & σ1 & E1 & H1 & HQ). unfold bind. rewrite E1.
  destruct x as [a|e]; [by apply HQ|by exists (Err e), s1, σ1].
Qed.

Lemma achieves_attempt {E F A} σ (m : M W E A) (Q : result (result A E) F -> situation -> Prop) :
  achieves σ m (fun x σ' => Q (Ok x) σ') -> achieves σ (attempt m) Q.
Proof.
  intros Hm s Hs. destruct (Hm s Hs) as (x & s1 & σ1 & E1 & H1 & HQ). unfold attempt. rewrite E1.
  by exists (Ok x), s1, σ1.
Qed.

Lemma achieves_into {E F A} σ (g : E -> F) (m : M W E A) (Q : result A F -> situation -> Prop) :
  achieves σ m (fun x σ' => Q (map_err g x) σ') -> achieves σ (into g m) Q.
Proof.
  intros Hm s Hs. destruct (Hm s Hs) as (x & s1 & σ1 & E1 & H1 & HQ). unfold into. rewrite E1.
  by exists (map_err g x), s1, σ1.
Qed.

Lemma achieves_prim {E A} σ (g : W -> A * W) ev (Q : result A E -> situation -> Prop) :
  (forall w, holds σ w -> exists σ', holds σ' (g w).2 /\ Q (Ok (g w).1) σ') ->
  achieves σ (prim g ev) Q.
Proof.
  intros HQ s Hs. destruct (HQ _ Hs) as (σ' & Hh & Hq). unfold prim.
  destruct (g (world s)) as [a w]. by exists (Ok a), (St w (log s ++ [ev a])), σ'.
Qed.

Lemma achieves_os {A} σ (g : W -> result A errno * W) ev (Q : result A io_error -> situation -> Prop) :
  (forall w, holds σ w -> exists σ', holds σ' (g w).2 /\ Q (map_err Os (g w).1) σ') ->
  achieves σ (os (prim g ev)) Q.
Proof.
  intros HQ. apply achieves_bind, achieves_prim. intros w Hw. destruct (HQ w Hw) as (σ' & Hh & Hq).
  exists σ'. split; [done|]. by apply achieves_lift.
Qed.

Lemma achieves_loop_step {E S A} σ fuel (body : S -> M W E (S + A)) st (Q : result A E -> situation -> Prop) :
  achieves σ (body st) (fun x σ' =>
    match x with
    | Ok (inl st') => achieves σ' (loop fuel body st') Q
    | Ok (inr a) => Q (Ok a) σ'
    | Err e => Q (Err e) σ'
    end) -> achieves σ (loop (Datatypes.S fuel) body st) Q.
Proof.
  intros Hb. cbn. apply achieves_bind. eapply achieves_mono; [exact Hb|].
  intros [[st'|a]|e] σ' HQ; [done|by apply achieves_ret|done].
Qed.

(** One call, one less. *)
Lemma holds_spend σ (w w' : W) : 0 < calls σ ->
  (forall n, 0 < n -> prompt n (stalls σ) (outgoing σ) (received σ) w ->
     prompt (n - 1) (stalls σ) (outgoing σ) (received σ) w') ->
  holds σ w -> holds (spend 1 σ) w'.
Proof.
  intros Hn Hs Hw. apply Hs in Hw; [|lia]. unfold holds. cbn.
  by replace (calls σ - 1 + allowance * stalls σ) with (calls σ + allowance * stalls σ - 1) by lia.
Qed.

Lemma holds_stall σ (w' : W) :
  0 < stalls σ ->
  prompt (calls σ + allowance * stalls σ - 1) (stalls σ - 1) (outgoing σ) (received σ) w' ->
  holds (stall σ) w'.
Proof.
  intros Hp Hw. unfold holds. cbn -[allowance].
  replace (calls σ + (allowance - 1) + allowance * (stalls σ - 1))
    with (calls σ + allowance * stalls σ - 1); [done|]. unfold allowance. lia.
Qed.

(** ** The calls *)

Lemma holds_left n p o k σ w : left n p o k σ -> holds σ w ->
  prompt (calls σ + allowance * stalls σ) (stalls σ) o k w.
Proof. unfold left, holds. by intros (_ & _ & -> & ->). Qed.

(** A call that always goes well. *)
Lemma achieves_call {E A} n p o k σ (g : W -> A * W) ev (R : A -> Prop) :
  left (n + 1) p o k σ ->
  (forall n p o k w, 0 < n -> prompt n p o k w ->
     exists a w', g w = (a, w') /\ R a /\ prompt (n - 1) p o k w') ->
  achieves σ (prim (E := E) g ev) (fun x σ' => (exists a, x = Ok a /\ R a) /\ left n p o k σ').
Proof.
  intros Hl Hg. apply achieves_prim. intros w Hw. pose proof (left_spend _ _ _ _ _ Hl) as [Hl' Hc].
  exists (spend 1 σ). destruct (Hg (calls σ + allowance * stalls σ) _ _ _ w ltac:(lia) Hw) as (a & w' & E1 & HP & Hp).
  rewrite E1. cbn.
  split; [|by split; [exists a|]]. eapply holds_spend; [done| |exact Hw]. intros m Hm Hw'.
  destruct (Hg _ _ _ _ w Hm Hw') as (a2 & w2 & E2 & _ & Hp2). rewrite E1 in E2. by injection E2 as <- <-.
Qed.

Lemma achieves_os_call {A} n p o k σ (g : W -> result A errno * W) ev (R : A -> Prop) :
  left (n + 1) p o k σ ->
  (forall n p o k w, 0 < n -> prompt n p o k w ->
     exists a w', g w = (Ok a, w') /\ R a /\ prompt (n - 1) p o k w') ->
  achieves σ (os (prim g ev)) (fun x σ' => (exists a, x = Ok a /\ R a) /\ left n p o k σ').
Proof.
  intros Hl Hg. apply achieves_bind. eapply achieves_mono.
  - apply (achieves_call n p o k σ g ev (fun r => exists a, r = Ok a /\ R a) Hl).
    intros m q o' k' w Hm Hw. destruct (Hg _ _ _ _ w Hm Hw) as (a & w' & E1 & HP & Hp).
    exists (Ok a), w'. split_and!; [done|by exists a|done].
  - intros x σ' [(r & -> & a & -> & HP) Hl']. apply achieves_lift. split; [by exists a|done].
Qed.

Lemma achieves_instant_now {E} n p o k σ : left (n + 1) p o k σ ->
  achieves σ (instant_now (E := E)) (fun x σ' => (exists t, x = Ok t /\ base <= t /\ t < d) /\ left n p o k σ').
Proof.
  intros Hl. apply achieves_call; [done|]. intros m q o' k' w Hm Hw.
  destruct (prompt_instant _ _ _ _ _ Hm Hw) as [Ht Hp].
  exists (k_instant_now w).1, (k_instant_now w).2. by rewrite <- surjective_pairing.
Qed.

Lemma achieves_check_deadline n p o k σ dl : d <= dl -> left (n + 1) p o k σ ->
  achieves σ (check_deadline dl) (fun x σ' => x = Ok tt /\ left n p o k σ').
Proof.
  intros Hd Hl. apply achieves_bind. eapply achieves_mono; [by apply achieves_instant_now|].
  intros x σ' [(t & -> & _ & Ht) Hl']. rewrite (proj2 (N.leb_gt dl t)) by lia. by apply achieves_ret.
Qed.

(** A call that goes well or stalls; when it goes well it may send or
    receive. *)
Lemma achieves_stalling {E A} n p o k σ (g : W -> A * W) ev (R T : A -> Prop) (o' : A -> bytes)
  (k' : A -> nat) :
  left (n + 1) p o k σ ->
  (forall n p w, 0 < n -> prompt n p o k w ->
     exists a w', g w = (a, w') /\
       (R a /\ prompt (n - 1) p (o' a) (k' a) w' \/ T a /\ 0 < p /\ prompt (n - 1) (p - 1) o k w')) ->
  achieves σ (prim (E := E) g ev) (fun x σ' => exists a, x = Ok a /\
    (R a /\ left n p (o' a) (k' a) σ' \/ T a /\ 0 < p /\ left (n + allowance) (p - 1) o k σ')).
Proof.
  intros Hl Hg. apply achieves_prim. intros w Hw. apply (holds_left _ _ _ _ _ _ Hl) in Hw.
  pose proof Hl as (Hc & Hs & Ho & Hk).
  destruct (Hg (calls σ + allowance * stalls σ) (stalls σ) w ltac:(lia) Hw) as (a & w' & E1 & Ha).
  rewrite E1. cbn [fst snd]. destruct Ha as [[Ha Hp]|(Ha & Hp & Hw')].
  - exists (Sit (calls σ - 1) (stalls σ) (o' a) (k' a)). split.
    + unfold holds. cbn [calls stalls outgoing received].
      by replace (calls σ - 1 + allowance * stalls σ) with (calls σ + allowance * stalls σ - 1) by lia.
    + exists a. split; [done|]. left. split; [done|]. unfold left. cbn. split_and!; [lia..|done|done].
  - exists (stall σ). split; [apply holds_stall; [done|by rewrite Ho, Hk]|].
    exists a. split; [done|]. right. destruct (left_stall _ _ _ _ _ Hp Hl) as [Hl' Hp'].
    split_and!; [done|done|]. left_tac Hl'.
Qed.

Lemma achieves_wait fuel n p o k σ ev dl : d <= dl -> (N.to_nat p < fuel)%nat -> left (n + 2) p o k σ ->
  achieves σ (wait fuel f ev dl) (fun x σ' => x = Ok tt /\ left n p o k σ').
Proof.
  intros Hd. unfold wait. revert p σ. induction fuel as [|fuel IH]; intros p σ Hf Hl; [lia|].
  apply achieves_loop_step. unfold wait_round. apply achieves_bind.
  eapply achieves_mono; [eapply (achieves_instant_now (n + 1) p); left_tac Hl|].
  intros x σ1 [(t & -> & _ & Ht) Hl1]. unfold remaining_until.
  rewrite (proj2 (N.leb_le t dl)), (proj2 (N.eqb_neq (dl - t) 0)) by lia.
  apply achieves_bind, achieves_lift. cbv zeta. apply achieves_bind.
  eapply achieves_mono.
  { apply (achieves_stalling n p o k σ1 _ _
      (fun r => (0 < poll_result r)%Z /\ N.land (revents r) POLLNVAL = 0)
      (fun r => (poll_result r <= 0)%Z /\ poll_errno r = EINTR) (fun _ => o) (fun _ => k) Hl1).
    intros m q w Hm Hw. destruct (prompt_poll _ _ _ _ _ ev (poll_timeout (dl - t)) Hm Hw) as (r & w' & E1 & Hr).
    exists r, w'. naive_solver. }
  intros x σ2 (r & -> & [[[Hr Hev] Hl2]|([Hr He] & Hp & Hl2)]).
  - rewrite (proj2 (Z.ltb_lt _ _) Hr), Hev. cbn. by apply achieves_ret.
  - assert ((0 <? poll_result r)%Z = false) as -> by lia.
    assert (achieves σ2 (loop fuel (fun _ : unit => wait_round f ev dl) tt)
      (fun x σ' => x = Ok tt /\ left n p o k σ')) as Hnext.
    { eapply achieves_mono; [apply (IH (p - 1)); [lia|]; left_tac Hl2|].
      intros y σ3 [-> Hl3]. split; [done|]. left_tac Hl3. }
    destruct (poll_result r <? 0)%Z; [|by apply achieves_ret].
    cbv zeta. rewrite He. cbn. by apply achieves_ret.
Qed.

(** What one call of a stream does: it transfers something ([R] relates the
    value to what is then sent and received), or asks to be tried again. *)
Definition moves {A} (n p : N) (o : bytes) (k : nat) (again : io_error -> Prop)
  (R : A -> bytes -> nat -> Prop) (x : result A io_error) (σ' : situation) : Prop :=
  (exists a o' k', x = Ok a /\ R a o' k' /\ left n p o' k' σ') \/
  (exists e, x = Err e /\ again e /\ 0 < p /\ left (n + allowance) (p - 1) o k σ').

Definition retried (e : io_error) : Prop := exists c, e = Os c /\ transient blocking c.

Lemma achieves_transfer {A} fuel n p o k σ self ev (op : M W io_error A) (R : A -> bytes -> nat -> Prop) :
  d <= deadline self -> stream self = f -> (N.to_nat p < fuel)%nat ->
  (forall n p σ, left (n + 1) p o k σ -> achieves σ op (moves n p o k retried R)) ->
  left (n + 2) p o k σ ->
  achieves σ (transfer fuel self ev op)
    (fun x σ' => exists a o' k', x = Ok a /\ R a o' k' /\ left n p o' k' σ').
Proof.
  destruct self as [st dl]. cbn [stream deadline]. intros Hd -> Hfuel Hop. unfold transfer.
  assert (forall g, (N.to_nat p < g)%nat -> left (n + 2) p o k σ ->
    achieves σ (loop g (fun _ : unit => transfer_round fuel {| stream := f; deadline := dl |} ev op) tt)
      (fun x σ' => exists a o' k', x = Ok a /\ R a o' k' /\ left n p o' k' σ')) as Hg; [|by apply Hg].
  intros g. revert p σ Hfuel. induction g as [|g IH]; intros p σ Hfuel Hg Hl; [lia|].
  assert (0 < p -> forall σ', left (n + 2) (p - 1) o k σ' ->
    achieves σ' (loop g (fun _ : unit => transfer_round fuel {| stream := f; deadline := dl |} ev op) tt)
      (fun x σ' => exists a o' k', x = Ok a /\ R a o' k' /\ left n p o' k' σ')) as Hnext.
  { intros Hp σ' Hl'. eapply achieves_mono; [apply (IH (p - 1)); [lia..|done]|].
    intros y σ3 (a & o' & k' & -> & Ha & Hl3). exists a, o', k'. split_and!; [done..|left_tac Hl3]. }
  apply achieves_loop_step. unfold transfer_round. apply achieves_bind, achieves_into.
  eapply achieves_mono; [eapply (achieves_check_deadline (n + 1) p); [done|left_tac Hl]|].
  intros x σ1 [-> Hl1]. cbn [map_err]. apply achieves_bind, achieves_attempt.
  eapply achieves_mono; [by apply Hop|].
  intros x σ2 [(a & o' & k' & -> & Ha & Hl2)|(e & -> & (c & -> & Hc) & Hp & Hl2)].
  - apply achieves_ret. eauto 10.
  - destruct Hc as [->|[_ ->]]; cbn [kind].
    + rewrite decide_True by done. apply achieves_ret, Hnext; [done|left_tac Hl2].
    + rewrite decide_False, decide_True by done. apply achieves_bind.
      eapply achieves_mono; [eapply (achieves_wait fuel (n + 2) (p - 1)); [done|lia|left_tac Hl2]|].
      intros x σ3 [-> Hl3]. apply achieves_ret. by apply Hnext.
Qed.

(** ** Streams *)

Lemma achieves_write n p o k σ b : b <> [] -> left (n + 1) p o k σ ->
  achieves σ (write f b) (moves n p o k retried (sends o b k)).
Proof.
  intros Hb Hl. apply achieves_bind. eapply achieves_mono.
  { apply (achieves_stalling n p o k σ _ _ (fun r => exists j, r = Ok j /\ (0 < j <= length b)%nat)
      (fun r => exists e, r = Err e /\ transient blocking e)
      (fun r => match r with Ok j => o ++ take j b | Err _ => o end) (fun _ => k) Hl).
    intros m q w Hm Hw. destruct (prompt_write _ _ _ _ _ b Hm Hb Hw) as (r & w' & E1 & Hr).
    exists r, w'. split; [done|]. destruct Hr as [(j & -> & ? & ?)|(e & -> & ? & ? & ?)]; eauto 10. }
  intros x σ1 (r & -> & [[(j & -> & Hj) Hl1]|((e & -> & He) & Hp & Hl1)]); apply achieves_lift; cbn.
  - left. exists j, (o ++ take j b), k. done.
  - right. exists (Os e). split_and!; [done|by exists e|done|done].
Qed.

Lemma achieves_read n p o k σ l : (0 < l)%nat -> (k < length (answer o))%nat -> left (n + 1) p o k σ ->
  achieves σ (read f l) (moves n p o k retried (receives answer o k l)).
Proof.
  intros Hl0 Hk Hl. apply achieves_bind. eapply achieves_mono.
  { apply (achieves_stalling n p o k σ _ _
      (fun r => exists b, r = Ok b /\ b <> [] /\ (length b <= l)%nat /\ b `prefix_of` drop k (answer o))
      (fun r => exists e, r = Err e /\ transient blocking e)
      (fun _ => o) (fun r => match r with Ok b => (k + length b)%nat | Err _ => k end) Hl).
    intros m q w Hm Hw. destruct (prompt_read _ _ _ _ _ l Hm Hl0 Hk Hw) as (r & w' & E1 & Hr).
    exists r, w'. split; [done|].
    destruct Hr as [(b & -> & ? & ? & ? & ?)|(e & -> & ? & ? & ?)]; [left|right]; eauto 10. }
  intros x σ1 (r & -> & [[(b & -> & Hb) Hl1]|((e & -> & He) & Hp & Hl1)]); apply achieves_lift; cbn.
  - left. exists b, o, (k + length b)%nat. destruct Hb as (? & ? & ?). by split_and!.
  - right. exists (Os e). split_and!; [done|by exists e|done|done].
Qed.
End Achieves.

(** Streams over the socket that take at most [cost] calls for a transfer,
    and otherwise fail with [Interrupted], as long as at most [patience]
    calls stall. *)
Definition interrupted (e : io_error) : Prop := kind e = Interrupted.

Class LiveWrite {W T} `{Prompt W f path answer blocking base d lo hi} `{Write W T} (t : T) (cost patience : N) := {
  live_write_cost : cost <= allowance;
  live_write n p o k σ b : p <= patience -> b <> [] -> left (n + cost) p o k σ ->
    achieves σ (write_ t b) (moves n p o k interrupted (sends o b k));
}.

Class LiveRead {W T} `{Prompt W f path answer blocking base d lo hi} `{Read W T} (t : T) (cost patience : N) := {
  live_read_cost : cost <= allowance;
  live_read n p o k σ l : p <= patience -> (0 < l)%nat -> (k < length (answer o))%nat ->
    left (n + cost) p o k σ ->
    achieves σ (read_ t l) (moves n p o k interrupted (receives answer o k l));
}.

Section Streams.
Context {W : Type} `{Hprompt : Prompt W f path answer blocking base d lo hi}.

Lemma moves_interrupted {A} n p o k (R : A -> bytes -> nat -> Prop) x σ' : blocking = true ->
  moves n p o k (retried (blocking := blocking)) R x σ' -> moves n p o k interrupted R x σ'.
Proof.
  intros Hb [?|(e & -> & (c & -> & [->|[Hb' _]]) & ?)]; [by left|right; by exists (Os EINTR)|congruence].
Qed.

#[export] Instance live_write_deadline (t : DeadlineIo) (patience : N) :
  d <= deadline (io_stream t) -> stream (io_stream t) = f -> (N.to_nat patience < io_fuel t)%nat ->
  LiveWrite t 2 patience.
Proof.
  intros Hd Hf Hfuel. split; [done|]. intros n p o k σ b Hp Hb Hl.
  eapply achieves_mono.
  - apply (achieves_transfer (io_fuel t) n p o k σ (io_stream t) POLLOUT _ (sends o b k)); [done|done|lia| |done].
    intros m q τ Hτ. rewrite Hf. by apply achieves_write.
  - intros x σ' Hx. by left.
Qed.

#[export] Instance live_read_deadline (t : DeadlineIo) (patience : N) :
  d <= deadline (io_stream t) -> stream (io_stream t) = f -> (N.to_nat patience < io_fuel t)%nat ->
  LiveRead t 2 patience.
Proof.
  intros Hd Hf Hfuel. split; [done|]. intros n p o k σ l Hp Hb Hk Hl.
  eapply achieves_mono.
  - apply (achieves_transfer (io_fuel t) n p o k σ (io_stream t) POLLIN _ (receives answer o k l)); [done|done|lia| |done].
    intros m q τ Hτ. rewrite Hf. by apply achieves_read.
  - intros x σ' Hx. by left.
Qed.

#[export] Instance live_write_raw (t : UnixStream) (patience : N) :
  blocking = true -> raw_fd t = f -> LiveWrite t 1 patience.
Proof.
  intros Hb <-. split; [done|]. intros n p o k σ b _ Hb' Hl.
  eapply achieves_mono; [by apply achieves_write|]. intros x σ'. by apply moves_interrupted.
Qed.

#[export] Instance live_read_raw (t : UnixStream) (patience : N) :
  blocking = true -> raw_fd t = f -> LiveRead t 1 patience.
Proof.
  intros Hb <-. split; [done|]. intros n p o k σ l _ Hb' Hk Hl.
  eapply achieves_mono; [by apply achieves_read|]. intros x σ'. by apply moves_interrupted.
Qed.

Lemma achieves_write_all {T} `{!Write W T} (t : T) cost patience `{!LiveWrite t cost patience} fuel n p o k σ b :
  p <= patience -> (length b + N.to_nat p < fuel)%nat -> left (n + cost * N.of_nat (length b)) p o k σ ->
  achieves σ (write_all fuel t b) (fun x σ' => x = Ok tt /\ left n p (o ++ b) k σ').
Proof.
  pose proof (live_write_cost (t := t)) as Hcost. unfold write_all. revert p o σ b. induction fuel as [|fuel IH]; intros p o σ b Hp Hf Hl; [lia|].
  apply achieves_loop_step. destruct (decide (b = [])) as [->|Hb].
  { apply achieves_ret. rewrite app_nil_r. split; [done|left_tac Hl]. }
  assert (exists m, N.of_nat (length b) = m + 1) as [m Hm]
    by (exists (N.of_nat (length b) - 1); destruct b; [done|cbn [length]; lia]).
  apply achieves_bind, achieves_attempt. eapply achieves_mono.
  { eapply (live_write (t := t) (n + cost * m) p); [done|done|]. rewrite Hm in Hl. left_tac Hl. }
  intros x σ1 [(j & o' & k' & -> & (Hj & -> & ->) & Hl1)|(e & -> & He & Hp0 & Hl1)].
  - destruct j as [|j]; [lia|]. rewrite decide_True by lia. apply achieves_ret.
    assert (cost * N.of_nat (length (drop (S j) b)) <= cost * m) as Hle
      by (apply N.mul_le_mono_l; rewrite length_drop; lia).
    eapply achieves_mono; [apply (IH p (o ++ take (S j) b)); [done| |left_tac Hl1]|].
    + rewrite length_drop. lia.
    + intros y σ2 [-> Hl2]. split; [done|]. by rewrite <- app_assoc, take_drop in Hl2.
  - rewrite decide_True by done. apply achieves_ret.
    assert (cost * N.of_nat (length b) <= cost * m + cost) as Hle by (rewrite Hm; lia).
    eapply achieves_mono; [apply (IH (p - 1) o); [lia|lia|]|].
    + left_tac Hl1.
    + intros y σ2 [-> Hl2]. split; [done|left_tac Hl2].
Qed.

Lemma achieves_read_exact {T} `{!Read W T} (t : T) cost patience `{!LiveRead t cost patience} fuel n p o k σ l :
  p <= patience -> (l + N.to_nat p < fuel)%nat -> (k + l <= length (answer o))%nat ->
  left (n + cost * N.of_nat l) p o k σ ->
  achieves σ (read_exact fuel t l)
    (fun x σ' => x = Ok (take l (drop k (answer o))) /\ left n p o (k + l) σ').
Proof.
  pose proof (live_read_cost (t := t)) as Hcost. unfold read_exact.
  assert (forall acc, p <= patience -> (l + N.to_nat p < fuel)%nat -> (k + l <= length (answer o))%nat ->
    left (n + cost * N.of_nat l) p o k σ ->
    achieves σ (loop fuel (fun '(need, acc) =>
      if decide (need = 0%nat) then ret (inr acc) else
      let! r := attempt (read_ t need) in
      match r with
      | Ok [] => throw (Custom UnexpectedEof "failed to fill whole buffer")
      | Ok b => if decide (length b <= need)%nat then ret (inl ((need - length b)%nat, acc ++ b)) else panic
      | Err e => if decide (kind e = Interrupted) then ret (inl (need, acc)) else throw e
      end) (l, acc))
    (fun x σ' => x = Ok (acc ++ take l (drop k (answer o))) /\ left n p o (k + l) σ')) as Hacc;
    [|by apply (Hacc [])].
  revert p k l σ. induction fuel as [|fuel IH]; intros p k l σ acc Hp Hf Hk Hl; [lia|].
  apply achieves_loop_step. destruct (decide (l = 0%nat)) as [->|Hl0].
  { apply achieves_ret. rewrite Nat.add_0_r. cbn [take]. rewrite app_nil_r. split; [done|left_tac Hl]. }
  assert (exists m, N.of_nat l = m + 1) as [m Hm] by (exists (N.of_nat l - 1); lia).
  apply achieves_bind, achieves_attempt. eapply achieves_mono.
  { eapply (live_read (t := t) (n + cost * m) p o k σ l); [done|lia|lia|]. rewrite Hm in Hl. left_tac Hl. }
  intros x σ1 [(b & o' & k' & -> & (Hb & Hbl & Hpre & -> & ->) & Hl1)|(e & -> & He & Hp0 & Hl1)].
  - assert (1 <= length b)%nat as Hb1 by (destruct b; [done|cbn; lia]).
    assert (cost * N.of_nat (l - length b) <= cost * m) as Hle by (apply N.mul_le_mono_l; lia).
    destruct b as [|x b]; [done|]. set (xb := x :: b) in *. rewrite decide_True by done. apply achieves_ret.
    eapply achieves_mono; [apply (IH p (k + length xb)%nat (l - length xb)%nat); [done|lia|lia|left_tac Hl1]|].
    intros y σ2 [-> Hl2]. replace (k + length xb + (l - length xb))%nat with (k + l)%nat in Hl2 by lia.
    split; [|done]. destruct Hpre as [sfx Hpre]. rewrite <- drop_drop, Hpre, drop_app_length, <- app_assoc.
    do 2 f_equal. by rewrite take_app_ge by lia.
  - rewrite decide_True by done. apply achieves_ret.
    assert (cost * N.of_nat l <= cost * m + cost) as Hle by (rewrite Hm; lia).
    eapply achieves_mono; [apply (IH (p - 1) k l); [lia|lia|done|left_tac Hl1]|].
    intros y σ2 [-> Hl2]. split; [done|left_tac Hl2].
Qed.

(** ** Frames *)

Lemma achieves_write_frame {S T : Type} `{!Write W S} (t : S) cost patience `{!LiveWrite t cost patience}
  `{SerdeJson T} fuel n p o k σ (v : T) q :
  to_vec v = Ok q -> N.of_nat (length q) <= MAX_FRAME_LEN -> p <= patience ->
  (length q + 4 + N.to_nat p < fuel)%nat -> left (n + cost * N.of_nat (length (frame q))) p o k σ ->
  achieves σ (write_json_frame fuel t v) (fun x σ' => x = Ok tt /\ left n p (o ++ frame q) k σ').
Proof.
  intros Hv Hq Hp Hf Hl. unfold write_json_frame. rewrite Hv. apply achieves_bind, achieves_lift. cbn [map_err].
  rewrite (proj2 (N.ltb_ge _ _) Hq). cbv zeta.
  rewrite N.mod_small by (unfold MAX_FRAME_LEN in Hq; lia). unfold frame in Hl.
  rewrite length_app, to_be_bytes_length in Hl.
  apply achieves_bind, achieves_into. eapply achieves_mono.
  { eapply (achieves_write_all t cost patience fuel (n + cost * N.of_nat (length q)) p); [done| |];
      rewrite to_be_bytes_length; [lia|left_tac Hl]. }
  intros x σ1 [-> Hl1]. cbn [map_err]. apply achieves_bind, achieves_into. eapply achieves_mono.
  { eapply (achieves_write_all t cost patience fuel n p); [done|lia|exact Hl1]. }
  intros x σ2 [-> Hl2]. apply achieves_ret. split; [done|]. by rewrite <- app_assoc in Hl2.
Qed.

Lemma achieves_read_frame {S T : Type} `{!Read W S} (t : S) cost patience `{!LiveRead t cost patience}
  `{SerdeJson T} fuel n p o k σ a rest (v : T) :
  drop k (answer o) = frame a ++ rest -> from_slice a = Ok v ->
  N.of_nat (length a) <= MAX_FRAME_LEN -> p <= patience ->
  (length a + 4 + N.to_nat p < fuel)%nat -> left (n + cost * N.of_nat (length (frame a))) p o k σ ->
  achieves σ (read_json_frame (T := T) fuel t)
    (fun x σ' => x = Ok v /\ left n p o (k + length (frame a)) σ').
Proof.
  intros Ho Hv Hq Hp Hf Hl. unfold read_json_frame.
  assert (k + length (frame a) <= length (answer o))%nat as Hlen.
  { pose proof (f_equal length Ho) as E. rewrite length_drop, length_app in E.
    unfold frame in *. rewrite length_app, to_be_bytes_length in *. lia. }
  unfold frame in Hl, Hlen. rewrite length_app, to_be_bytes_length in Hl, Hlen.
  apply achieves_bind, achieves_into. eapply achieves_mono.
  { eapply (achieves_read_exact t cost patience fuel (n + cost * N.of_nat (length a)) p o k _ 4);
      [done|lia|lia|left_tac Hl]. }
  assert (from_be_bytes (take 4 (drop k (answer o))) = N.of_nat (length a)) as Hprefix.
  { rewrite Ho. unfold frame. rewrite <- app_assoc.
    rewrite (take_app_length' (to_be_bytes 4 _)) by (by rewrite to_be_bytes_length).
    apply from_to_be_bytes_small. cbn. unfold MAX_FRAME_LEN in Hq. lia. }
  intros x σ1 [-> Hl1]. cbn [map_err]. cbv zeta. rewrite Hprefix, (proj2 (N.ltb_ge _ _) Hq), Nat2N.id.
  apply achieves_bind, achieves_into. eapply achieves_mono.
  { eapply (achieves_read_exact t cost patience fuel n p o (k + 4) _ (length a)); [done|lia|lia|exact Hl1]. }
  intros x σ2 [-> Hl2]. cbn [map_err]. rewrite <- drop_drop, Ho. unfold frame at 1. rewrite <- app_assoc.
  rewrite (drop_app_length' (to_be_bytes 4 _)) by (by rewrite to_be_bytes_length).
  rewrite take_app_length. apply achieves_lift. rewrite Hv. split; [done|].
  unfold frame. rewrite length_app, to_be_bytes_length. by rewrite Nat.add_assoc.
Qed.
End Streams.
