(* ===== verification/LiveRequest.v ===== *)
(** * A prompt agent is heard

    In a situation of [Live], the replay cache records the marker, the
    socket connects, the request goes out, the answer comes in, and the
    helper reports the agent's decision; and the fake agent answers the
    request that it finds on its socket. *)

From Stdlib Require Import NArith ZArith Lia List Bool.
From Stdlib Require Import Strings.Byte Strings.String.
From stdpp Require Import base decidable list option strings.
From S2P Require Import Prelude RustStd Crypto Protocol Canonical Sys Io Transport Frame Trust Common Keys.
From S2P Require Import Replay Request Verdict FakeAgent Live.

Open Scope N_scope.

Section Calls.
Context {W : Type} `{Hprompt : Prompt W f path answer blocking base d lo hi}.

Lemma achieves_owned {E A} σ g (m : M W E A) (Q : result A E -> situation -> Prop) :
  achieves σ m (fun x σ' => (exists a, x = Ok a) /\ Q x σ') -> achieves σ (owned g m) Q.
Proof.
  intros Hm. apply achieves_bind, achieves_attempt. eapply achieves_mono; [exact Hm|].
  intros x σ' [[a ->] HQ]. by apply achieves_ret.
Qed.

Lemma achieves_close {E} n p o k σ g : left (n + 1) p o k σ ->
  achieves σ (close (E := E) g) (fun x σ' => x = Ok tt /\ left n p o k σ').
Proof.
  intros Hl. eapply achieves_mono.
  - apply (achieves_call n p o k σ _ _ (fun _ => True) Hl). intros m q o' k' w Hm Hw.
    apply (prompt_close _ _ _ _ _ g) in Hw; [|done]. destruct (k_close g w) as [[] w'] eqn:E1.
    by exists tt, w'.
  - intros x σ' [([] & -> & _) Hl']. done.
Qed.

Lemma achieves_scoped {E A} σ g (m : M W E A) (Q : result A E -> situation -> Prop) :
  achieves σ m (fun x σ' => exists n p o k, left (n + 1) p o k σ' /\
    forall σ'', left n p o k σ'' -> Q x σ'') ->
  achieves σ (scoped g m) Q.
Proof.
  intros Hm. apply achieves_bind, achieves_attempt. eapply achieves_mono; [exact Hm|].
  intros x σ' (n & p & o & k & Hl & HQ). apply achieves_bind.
  eapply achieves_mono; [by apply achieves_close|]. intros y σ2 [-> Hl2].
  apply achieves_lift. by apply HQ.
Qed.

Lemma achieves_or_return {E A} σ code (m : M W E A) (k : A -> M W error N)
  (Q : result N error -> situation -> Prop) :
  achieves σ m (fun x σ' => exists a, x = Ok a /\ achieves σ' (k a) Q) ->
  achieves σ (or_return code m k) Q.
Proof.
  intros Hm. apply achieves_bind, achieves_attempt. eapply achieves_mono; [exact Hm|].
  intros x σ' (a & -> & HQ). done.
Qed.

Lemma achieves_unix_time_ms n p o k σ : hi <= u64_max -> left (n + 1) p o k σ ->
  achieves σ unix_time_ms (fun x σ' => (exists now, x = Ok now /\ lo <= now /\ now <= hi) /\ left n p o k σ').
Proof.
  intros Hhi Hl. apply achieves_bind. eapply achieves_mono.
  - apply (achieves_call n p o k σ _ _
      (fun a => exists ns, a = Some ns /\ lo <= ns / 1000000 /\ ns / 1000000 <= hi) Hl).
    intros m q o' k' w Hm Hw. destruct (prompt_system _ _ _ _ _ Hm Hw) as (ns & w' & E1 & Ht & Hp).
    exists (Some ns), w'. split_and!; [done|by exists ns|done].
  - intros x σ' [(a & -> & ns & -> & Ht) Hl']. apply achieves_bind, achieves_lift. cbn [ok_or].
    apply achieves_lift. unfold millis_of. rewrite (proj2 (N.leb_le _ _)) by lia.
    split; [by exists (ns / 1000000)|done].
Qed.

(** ** The connection *)

Lemma achieves_connect_loop fuel g n p o k σ dl : d <= dl -> (N.to_nat p < fuel)%nat -> (N.to_nat p < g)%nat ->
  left (n + 5) p o k σ ->
  achieves σ (loop g (fun _ : unit => connect_round fuel f path dl) tt)
    (fun x σ' => x = Ok tt /\ left n p o k σ').
Proof.
  intros Hd. revert p σ. induction g as [|g IH]; intros p σ Hf Hg Hl; [lia|].
  assert (0 < p -> forall σ', left (n + 5) (p - 1) o k σ' ->
    achieves σ' (loop g (fun _ : unit => connect_round fuel f path dl) tt)
      (fun x σ' => x = Ok tt /\ left n p o k σ')) as Hnext.
  { intros Hp σ' Hl'. eapply achieves_mono; [apply (IH (p - 1)); [lia|lia|done]|].
    intros y σ3 [-> Hl3]. split; [done|left_tac Hl3]. }
  apply achieves_loop_step. unfold connect_round. apply achieves_bind.
  eapply achieves_mono; [eapply (achieves_check_deadline (n + 4) p); [done|left_tac Hl]|].
  intros x σ1 [-> Hl1]. apply achieves_bind. eapply achieves_mono.
  { eapply (achieves_stalling (n + 3) p o k σ1 _ _ (fun r => r = Ok tt \/ r = Err EINPROGRESS)
      (fun r => r = Err EINTR \/ r = Err EAGAIN) (fun _ => o) (fun _ => k)); [left_tac Hl1|].
    intros m q w Hm Hw. destruct (prompt_connect _ _ _ _ _ Hm Hw) as (r & w' & E1 & Hr).
    exists r, w'. split; [done|]. destruct Hr as [[? ?]|(? & ? & ?)]; auto. }
  intros x σ2 (r & -> & [[[->| ->] Hl2]|([->| ->] & Hp & Hl2)]).
  - apply achieves_ret. split; [done|left_tac Hl2].
  - unfold finish_pending. apply achieves_bind, achieves_into.
    eapply achieves_mono; [eapply (achieves_wait fuel (n + 1) p); [done|lia|left_tac Hl2]|].
    intros x σ3 [-> Hl3]. cbn [map_err]. apply achieves_bind, achieves_into. eapply achieves_mono.
    { apply (achieves_os_call n p o k σ3 _ _ (fun a => a = None) Hl3). intros m q o' k' w Hm Hw.
      destruct (prompt_take_error _ _ _ _ _ Hm Hw) as (w' & E1 & Hp). by exists None, w'. }
    intros x σ4 [(a & -> & ->) Hl4]. cbn [map_err]. by apply achieves_ret.
  - apply achieves_ret, Hnext; [done|left_tac Hl2].
  - unfold backlog_pause. apply achieves_bind.
    eapply achieves_mono; [eapply (achieves_instant_now (n + 6) (p - 1)); left_tac Hl2|].
    intros x σ3 [(t & -> & _) Hl3]. apply achieves_bind. eapply achieves_mono.
    { eapply (achieves_call (n + 5) (p - 1) o k σ3 _ _ (fun _ => True)); [left_tac Hl3|].
      intros m q o' k' w Hm Hw.
      apply (prompt_sleep _ _ _ _ _ (N.min (dl - t) ns_per_ms)) in Hw; [|done].
      destruct (k_sleep _ w) as [[] w'] eqn:E1. by exists tt, w'. }
    intros x σ4 [([] & -> & _) Hl4]. apply achieves_ret. by apply Hnext.
Qed.

Lemma achieves_connect fuel n p o k σ dl : d <= dl -> (N.to_nat p < fuel)%nat -> left (n + 10) p o k σ ->
  achieves σ (connect fuel path dl)
    (fun x σ' => x = Ok {| stream := f; deadline := dl |} /\ left n p o k σ').
Proof.
  intros Hd Hf Hl. unfold connect. apply achieves_bind.
  eapply achieves_mono; [eapply (achieves_check_deadline (n + 9) p); [done|left_tac Hl]|].
  intros x σ1 [-> Hl1]. destruct prompt_path as [Hz Hlen].
  rewrite bool_decide_false by done. rewrite (proj2 (Nat.leb_gt _ _) Hlen). cbn [orb].
  apply achieves_bind, achieves_into. eapply achieves_mono.
  { eapply (achieves_os_call (n + 8) p o k σ1 _ _ (fun a => a = f)); [left_tac Hl1|].
    intros m q o' k' w Hm Hw. destruct (prompt_socket _ _ _ _ _ Hm Hw) as (w' & E1 & Hp). by exists f, w'. }
  intros x σ2 [(a & -> & ->) Hl2]. cbn [map_err]. apply achieves_owned.
  apply achieves_bind, achieves_into. eapply achieves_mono.
  { eapply (achieves_os_call (n + 7) p o k σ2 _ _ (fun a => a = tt)); [left_tac Hl2|].
    intros m q o' k' w Hm Hw. destruct (prompt_set_cloexec _ _ _ _ _ Hm Hw) as (w' & E1 & Hp). by exists tt, w'. }
  intros x σ3 [(a & -> & ->) Hl3]. cbn [map_err]. apply achieves_bind, achieves_into. eapply achieves_mono.
  { eapply (achieves_os_call (n + 6) p o k σ3 _ _ (fun a => a = tt)); [left_tac Hl3|].
    intros m q o' k' w Hm Hw. destruct (prompt_set_nonblocking _ _ _ _ _ Hm Hw) as (w' & E1 & Hp). by exists tt, w'. }
  intros x σ4 [(a & -> & ->) Hl4]. cbn [map_err]. apply achieves_bind.
  eapply achieves_mono; [eapply (achieves_connect_loop fuel fuel (n + 1) p); [done|lia|lia|left_tac Hl4]|].
  intros x σ5 [-> Hl5]. apply achieves_bind.
  eapply achieves_mono; [by eapply (achieves_check_deadline n p)|].
  intros x σ6 [-> Hl6]. apply achieves_ret. split; [by eexists|done].
Qed.

(** ** Files *)

(** Reading any file ends, whatever it holds. *)
Lemma achieves_take_read fuel n p o k σ g limit : g <> f -> (limit + N.to_nat p < fuel)%nat ->
  left (n + N.of_nat limit) p o k σ ->
  achieves σ (take_read_to_string fuel {| file_fd := g |} limit) (fun x σ' => left n p o k σ').
Proof.
  intros Hg Hf Hl. unfold take_read_to_string, take_read_to_end. apply achieves_bind.
  eapply achieves_mono with (P := fun x σ' => left n p o k σ').
  2: { intros [b|e] σ' Hl'; [|done]. destruct (utf8_valid b); [by apply achieves_ret|by apply achieves_throw]. }
  generalize (@nil byte). revert p σ limit Hf Hl.
  induction fuel as [|fuel IH]; intros p σ rest Hf Hl acc; [lia|].
  apply achieves_loop_step. destruct (decide (rest = 0%nat)) as [->|Hr]; [apply achieves_ret; left_tac Hl|].
  apply achieves_bind, achieves_attempt, achieves_bind. eapply achieves_mono.
  { eapply (achieves_stalling (n + (N.of_nat rest - 1)) p o k σ _ _
      (fun r => (forall b, r = Ok b -> (length b <= rest)%nat) /\ r <> Err EINTR) (fun r => r = Err EINTR)
      (fun _ => o) (fun _ => k)); [left_tac Hl|].
    intros m q w Hm Hw. destruct (prompt_file_read _ _ _ _ _ _ rest Hm Hg Hw) as (r & w' & E1 & Hr').
    exists r, w'. split; [done|]. destruct Hr' as [(? & ? & ?)|(? & ? & ?)]; auto. }
  intros x σ1 (r & -> & [[[Hb Hne] Hl1]|(-> & Hp & Hl1)]); apply achieves_lift.
  - destruct r as [[|y b]|e]; cbn [map_err].
    + apply achieves_ret. left_tac Hl1.
    + specialize (Hb _ eq_refl). rewrite decide_True by done. apply achieves_ret.
      cbn [length] in *. apply (IH p); [lia|left_tac Hl1].
    + rewrite decide_False by (destruct e; cbn; congruence). apply achieves_throw. left_tac Hl1.
  - cbn [map_err kind]. rewrite decide_True by done. apply achieves_ret.
    eapply achieves_mono; [apply (IH (p - 1)); [lia|left_tac Hl1]|]. intros y σ2 Hl2. left_tac Hl2.
Qed.

Lemma achieves_read_marker fuel n p o k σ dir name : (128 + N.to_nat p < fuel)%nat -> left (n + 131) p o k σ ->
  achieves σ (read_marker fuel dir name) (fun x σ' => (exists c, x = Ok c) /\ left n p o k σ').
Proof.
  intros Hf Hl. unfold read_marker. apply achieves_bind, achieves_attempt, achieves_bind.
  eapply achieves_mono.
  { eapply (achieves_call (n + 130) p o k σ _ _ (fun r => r <> Ok f)); [left_tac Hl|].
    intros m q o' k' w Hm Hw.
    destruct (prompt_openat _ _ _ _ _ (file_fd dir) name marker_flags 0 Hm Hw) as (r & w' & E1 & Hp & Hne & _).
    by exists r, w'. }
  intros x σ1 [(r & -> & Hne) Hl1]. apply achieves_lift. destruct r as [g|e]; cbn [map_err].
  2: { apply achieves_ret. split; [by eexists|left_tac Hl1]. }
  assert (g <> f) as Hg by congruence.
  apply achieves_scoped, achieves_bind, achieves_attempt, achieves_bind. eapply achieves_mono.
  { eapply (achieves_call (n + 129) p o k σ1 _ _ (fun _ => True)); [left_tac Hl1|].
    intros m q o' k' w Hm Hw. apply (prompt_fstat _ _ _ _ _ g) in Hw; [|done].
    destruct (k_fstat g w) as [r w'] eqn:E1. by exists r, w'. }
  intros x σ2 [(r & -> & _) Hl2]. apply achieves_lift.
  assert (forall (c : option bytes) σ', left (n + 1) p o k σ' -> exists n' p' o' k', left (n' + 1) p' o' k' σ' /\
    forall σ'', left n' p' o' k' σ'' -> (exists c', Ok (E := io_error) c = Ok c') /\ left n p o k σ'') as Hend.
  { intros c σ' Hl'. exists n, p, o, k. split; [done|]. intros σ'' Hl''. split; [by eexists|done]. }
  destruct r as [m|e]; cbn [map_err]; [|apply achieves_ret, Hend; left_tac Hl2].
  destruct (is_file m); [|apply achieves_ret, Hend; left_tac Hl2].
  apply achieves_bind, achieves_attempt. eapply achieves_mono.
  { eapply (achieves_take_read fuel (n + 1) p o k σ2 g 128); [done|lia|left_tac Hl2]. }
  intros x σ3 Hl3. apply achieves_ret. destruct x; by apply Hend.
Qed.

Lemma achieves_cleanup_entry fuel n p o k σ dir now name : (128 + N.to_nat p < fuel)%nat ->
  left (n + 132) p o k σ ->
  achieves σ (cleanup_entry fuel dir now name) (fun x σ' => x = Ok tt /\ left n p o k σ').
Proof.
  intros Hf Hl. unfold cleanup_entry. case_match; [apply achieves_ret; split; [done|left_tac Hl]|].
  apply achieves_bind. eapply achieves_mono.
  { eapply (achieves_read_marker fuel (n + 1) p); [done|left_tac Hl]. }
  intros x σ1 [([c|] & ->) Hl1]; [|apply achieves_ret; split; [done|left_tac Hl1]].
  destruct (parse_expires_at_ms c) as [e|]; [|apply achieves_ret; split; [done|left_tac Hl1]].
  destruct (e <? now); [|apply achieves_ret; split; [done|left_tac Hl1]].
  apply achieves_bind. eapply achieves_mono.
  { apply (achieves_call n p o k σ1 _ _ (fun _ => True) Hl1). intros m q o' k' w Hm Hw.
    apply (prompt_unlinkat _ _ _ _ _ (file_fd dir) name) in Hw; [|done].
    destruct (k_unlinkat _ _ w) as [r w'] eqn:E1. by exists r, w'. }
  intros x σ2 [(r & -> & _) Hl2]. by apply achieves_ret.
Qed.

Lemma achieves_cleanup_markers fuel n p o k σ dir now : (128 + N.to_nat p < fuel)%nat ->
  left (n + 4) p o k σ ->
  achieves σ (cleanup_markers fuel dir now) (fun x σ' => x = Ok tt /\ left n p o k σ').
Proof.
  intros Hf Hl. unfold cleanup_markers. apply achieves_bind. eapply achieves_mono.
  { eapply (achieves_os_call (n + 3) p o k σ _ _ (fun _ => True)); [left_tac Hl|].
    intros m q o' k' w Hm Hw. destruct (prompt_dup _ _ _ _ _ (file_fd dir) Hm Hw) as (h & w' & E1 & Hp).
    by exists h, w'. }
  intros x σ1 [(g & -> & _) Hl1]. apply achieves_bind, achieves_owned. eapply achieves_mono.
  { eapply (achieves_os_call (n + 2) p o k σ1 _ _ (fun _ => True)); [left_tac Hl1|].
    intros m q o' k' w Hm Hw. destruct (prompt_fdopendir _ _ _ _ _ g Hm Hw) as (h & w' & E1 & Hp).
    by exists h, w'. }
  intros x σ2 [(h & -> & _) Hl2]. split; [by eexists|]. apply achieves_bind.
  eapply achieves_mono with (P := fun x σ' => x = Ok tt /\ left (n + 1) p o k σ').
  2: { intros x σ3 [-> Hl3]. apply achieves_bind. eapply achieves_mono.
       - apply (achieves_call n p o k σ3 _ _ (fun _ => True) Hl3). intros m q o' k' w Hm Hw.
         apply (prompt_closedir _ _ _ _ _ h) in Hw; [|done].
         destruct (k_closedir h w) as [[] w'] eqn:E1. by exists tt, w'.
       - intros x σ4 [([] & -> & _) Hl4]. by apply achieves_ret. }
  assert (forall g, (N.to_nat p < g)%nat -> achieves σ2 (loop g (fun _ : unit => cleanup_round fuel dir h now) tt)
    (fun x σ' => x = Ok tt /\ left (n + 1) p o k σ')) as Hloop; [|apply Hloop; lia].
  intros g'. clear Hl Hl1. revert p σ2 Hf Hl2. induction g' as [|g' IH]; intros p σ2 Hf Hl2 Hg; [lia|].
  apply achieves_loop_step. unfold cleanup_round. apply achieves_bind. eapply achieves_mono.
  { eapply (achieves_stalling (n + 1) p o k σ2 _ _ (fun r => r = None) (fun r => exists e, r = Some e)
      (fun _ => o) (fun _ => k)); [left_tac Hl2|].
    intros m q w Hm Hw. destruct (prompt_readdir _ _ _ _ _ h Hm Hw) as (r & w' & E1 & Hr).
    exists r, w'. split; [done|]. destruct Hr as [[? ?]|(? & ? & ?)]; auto. }
  intros x σ3 (r & -> & [[-> Hl3]|([name ->] & Hp & Hl3)]); [by apply achieves_ret|].
  apply achieves_bind. eapply achieves_mono.
  { eapply (achieves_cleanup_entry fuel (n + 2) (p - 1)); [lia|left_tac Hl3]. }
  intros x σ4 [-> Hl4]. apply achieves_ret. eapply achieves_mono.
  - apply (IH (p - 1) σ4); [lia|done|lia].
  - intros y σ5 [-> Hl5]. split; [done|left_tac Hl5].
Qed.

Lemma achieves_file_write_all fuel n p o k σ g b : g <> f -> (length b + N.to_nat p < fuel)%nat ->
  left (n + N.of_nat (length b)) p o k σ ->
  achieves σ (write_all fuel {| file_fd := g |} b) (fun x σ' => x = Ok tt /\ left n p o k σ').
Proof.
  intros Hg. unfold write_all. revert p σ b. induction fuel as [|fuel IH]; intros p σ b Hf Hl; [lia|].
  apply achieves_loop_step. destruct (decide (b = [])) as [->|Hb].
  { apply achieves_ret. split; [done|left_tac Hl]. }
  assert (0 < length b)%nat as Hlen by (destruct b; [done|cbn; lia]).
  apply achieves_bind, achieves_attempt, achieves_bind. eapply achieves_mono.
  { eapply (achieves_stalling (n + (N.of_nat (length b) - 1)) p o k σ _ _
      (fun r => exists j, r = Ok j /\ (0 < j <= length b)%nat) (fun r => r = Err EINTR)
      (fun _ => o) (fun _ => k)); [left_tac Hl|].
    intros m q w Hm Hw. destruct (prompt_file_write _ _ _ _ _ g b Hm Hg Hb Hw) as (r & w' & E1 & Hr).
    exists r, w'. split; [done|]. destruct Hr as [(j & -> & ? & ?)|(? & ? & ?)]; eauto 10. }
  intros x σ1 (r & -> & [[(j & -> & Hj) Hl1]|(-> & Hp & Hl1)]); apply achieves_lift; cbn [map_err].
  - destruct j as [|j]; [lia|]. rewrite decide_True by lia. apply achieves_ret.
    apply IH; rewrite length_drop; [lia|left_tac Hl1].
  - cbn [kind]. rewrite decide_True by done. apply achieves_ret. eapply achieves_mono.
    + apply (IH (p - 1)); [lia|left_tac Hl1].
    + intros y σ2 [-> Hl2]. split; [done|left_tac Hl2].
Qed.

Lemma achieves_file_write_fmt fuel n p o k σ g ps : g <> f ->
  (length (concat ps) + N.to_nat p < fuel)%nat -> left (n + N.of_nat (length (concat ps))) p o k σ ->
  achieves σ (write_fmt fuel {| file_fd := g |} ps) (fun x σ' => x = Ok tt /\ left n p o k σ').
Proof.
  intros Hg. revert σ. induction ps as [|b ps IH]; intros σ Hf Hl; cbn [write_fmt concat] in *.
  { apply achieves_ret. split; [done|left_tac Hl]. }
  rewrite length_app in Hf, Hl. apply achieves_bind. eapply achieves_mono.
  { eapply (achieves_file_write_all fuel (n + N.of_nat (length (concat ps))) p); [done|lia|left_tac Hl]. }
  intros x σ1 [-> Hl1]. apply IH; [lia|done].
Qed.
End Calls.

(** ** The helper *)

Lemma marker_length e : e <= u64_max -> (length (concat (marker_pieces e)) <= 80)%nat.
Proof.
  intros He. unfold marker_pieces. cbn [concat]. rewrite app_nil_r, !length_app.
  pose proof (show_N_length _ He). change (length (B "expires_at_ms=")) with 14%nat.
  change (length [nl]) with 1%nat. lia.
Qed.

Section Helper.
Context {W : Type} `{Hprompt : Prompt W f path answer blocking base d lo hi}.
Context `{Crypto} `{HL : HexLaws}.

Lemma achieves_record fuel n p o k σ dir r : hi <= u64_max ->
  AuthResponseBody.expires_at_ms (SignedAuthResponse.body r) <= u64_max ->
  (128 + N.to_nat p < fuel)%nat -> left (n + 87) p o k σ ->
  achieves σ (record_replay_marker fuel dir r) (fun x σ' => x = Ok tt /\ left n p o k σ').
Proof.
  intros Hhi Hexp Hf Hl. pose proof (marker_length _ Hexp) as Hlen.
  unfold record_replay_marker. apply achieves_bind. eapply achieves_mono.
  { eapply (achieves_unix_time_ms (n + 86) p); [done|left_tac Hl]. }
  intros x σ1 [(now & -> & _) Hl1]. apply achieves_bind, achieves_into. eapply achieves_mono.
  { eapply (achieves_cleanup_markers fuel (n + 82) p); [done|left_tac Hl1]. }
  intros x σ2 [-> Hl2]. cbn [map_err]. apply achieves_bind, achieves_attempt.
  unfold create_marker. apply achieves_bind, achieves_lift. unfold name.
  rewrite bool_decide_false.
  2: { intros Hin. pose proof (hex_encode_digits (Sha256_digest (SignedAuthResponse.signature r))) as Hd.
       rewrite forallb_forall in Hd. apply list_elem_of_In in Hin. by apply Hd in Hin. }
  apply achieves_bind. eapply achieves_mono.
  { eapply (achieves_os_call (n + 81) p o k σ2 _ _ (fun h => h <> f)); [left_tac Hl2|].
    intros m q o' k' w Hm Hw.
    destruct (prompt_openat _ _ _ _ _ (file_fd dir) (marker_name r) create_flags 0x180 Hm Hw)
      as (x & w' & E1 & Hp & Hne & Hc).
    destruct (Hc eq_refl) as [h ->]. exists h, w'. split_and!; [done|congruence|done]. }
  intros x σ3 [(h & -> & Hh) Hl3]. apply achieves_ret, achieves_scoped, achieves_bind, achieves_into.
  eapply achieves_mono.
  { eapply (achieves_file_write_fmt fuel (n + 1) p); [exact Hh|lia|left_tac Hl3]. }
  intros x σ4 [-> Hl4]. cbn [map_err]. apply achieves_ret. by exists n, p, o, k.
Qed.

Lemma achieves_too_late n p o k σ dl body skew (m : M W error N) :
  d <= dl -> (forall now, lo <= now -> now <= hi -> fresh_request body now skew) ->
  left (n + 2) p o k σ ->
  (forall σ', left (n + 1) p o k σ' -> achieves σ' m (fun x σ'' =>
     (exists now, x = Ok now /\ lo <= now /\ now <= hi) /\ left n p o k σ'')) ->
  achieves σ (too_late dl body skew m) (fun x σ' => x = Ok false /\ left n p o k σ').
Proof.
  intros Hd Hfresh Hl Hm. unfold too_late. apply achieves_bind, achieves_attempt. eapply achieves_mono.
  { eapply (achieves_check_deadline (n + 1) p); [done|left_tac Hl]. }
  intros x σ1 [-> Hl1]. apply achieves_bind. eapply achieves_mono; [by apply Hm|].
  intros x σ2 [(now & -> & Hlo & Hhi) Hl2]. apply achieves_ret. split; [|done]. do 2 f_equal.
  apply is_err_false, fresh_request_ok. by apply Hfresh.
Qed.

(** A response that is authentic and fresh is reported. *)
Lemma achieves_conclude fuel n p o k σ pk dl skew cache q r : hi <= u64_max -> d <= dl ->
  AuthResponseBody.expires_at_ms (SignedAuthResponse.body r) <= u64_max ->
  authentic pk (SignedAuthRequest.body q) r ->
  (forall now, lo <= now -> now <= hi -> fresh_request (SignedAuthRequest.body q) now skew) ->
  (forall now, lo <= now -> now <= hi -> fresh_response r now skew) ->
  (128 + N.to_nat p < fuel)%nat -> left (n + 92) p o k σ ->
  achieves σ (conclude fuel pk dl skew cache q r) (fun x σ' =>
    x = Ok (exit_code_for_decision (AuthResponseBody.decision (SignedAuthResponse.body r))) /\
    left n p o k σ').
Proof.
  intros Hhi Hd Hexp Hau Hq Hr Hf Hl. unfold conclude. apply authentic_ok in Hau.
  apply achieves_or_return, achieves_lift. exists tt. split; [done|].
  apply achieves_bind. eapply achieves_mono.
  { eapply (achieves_unix_time_ms (n + 91) p); [done|left_tac Hl]. }
  intros x σ1 [(now & -> & Hnow1 & Hnow2) Hl1]. apply achieves_bind. eapply achieves_mono.
  { eapply (achieves_too_late (n + 89) p); [exact Hd|exact Hq|left_tac Hl1|].
    intros σ' Hl'. apply achieves_ret. split; [by exists now|left_tac Hl']. }
  intros x σ2 [-> Hl2]. apply achieves_or_return, achieves_lift. exists tt.
  split; [by apply fresh_response_ok, Hr|]. apply achieves_or_return.
  assert (achieves σ2 match cache with Some dir => record_replay_marker fuel dir r | None => ret tt end
    (fun x σ' => x = Ok tt /\ left (n + 2) p o k σ')) as Hrec.
  { destruct cache as [dir|]; [|apply achieves_ret; split; [done|left_tac Hl2]].
    eapply achieves_record; [done|done|done|left_tac Hl2]. }
  eapply achieves_mono; [exact Hrec|]. intros x σ3 [-> Hl3]. exists tt. split; [done|].
  apply achieves_bind. eapply achieves_mono.
  { eapply (achieves_too_late n p); [exact Hd|exact Hq|left_tac Hl3|].
    intros σ' Hl'. by apply achieves_unix_time_ms. }
  intros x σ4 [-> Hl4]. by apply achieves_ret.
Qed.

Context `{SerdeJson SignedAuthRequest.t} `{SerdeJson SignedAuthResponse.t}.

Lemma achieves_exchange fuel n p σ pk dl skew cache q r question a rest : hi <= u64_max -> d <= dl ->
  to_vec q = Ok question -> N.of_nat (length question) <= MAX_FRAME_LEN ->
  answer (frame question) = frame a ++ rest -> from_slice a = Ok r -> N.of_nat (length a) <= MAX_FRAME_LEN ->
  AuthResponseBody.expires_at_ms (SignedAuthResponse.body r) <= u64_max ->
  authentic pk (SignedAuthRequest.body q) r ->
  (forall now, lo <= now -> now <= hi -> fresh_request (SignedAuthRequest.body q) now skew) ->
  (forall now, lo <= now -> now <= hi -> fresh_response r now skew) ->
  (length question + length a + 132 + N.to_nat p < fuel)%nat ->
  left (n + 103 + 2 * N.of_nat (length (frame question) + length (frame a))) p [] 0 σ ->
  achieves σ (exchange fuel path pk dl skew cache q) (fun x σ' =>
    x = Ok (exit_code_for_decision (AuthResponseBody.decision (SignedAuthResponse.body r))) /\
    left n p (frame question) (length (frame a)) σ').
Proof.
  intros Hhi Hd Hq Hql Ha Hr Hal Hexp Hau Hfq Hfr Hf Hl. rewrite Nat2N.inj_add in Hl. unfold exchange.
  apply achieves_or_return. eapply achieves_mono.
  { eapply (achieves_connect fuel (n + 93 + 2 * N.of_nat (length (frame a)) + 2 * N.of_nat (length (frame question))) p);
      [exact Hd|lia|left_tac Hl]. }
  intros x σ1 [-> Hl1]. eexists. split; [done|]. cbn [stream].
  apply achieves_scoped. cbv zeta. set (io := {| io_fuel := fuel; io_stream := _ |}).
  assert (LiveWrite io 2 p) by (apply live_write_deadline; [exact Hd|done|cbn; lia]).
  assert (LiveRead io 2 p) by (apply live_read_deadline; [exact Hd|done|cbn; lia]).
  apply achieves_or_return. eapply achieves_mono.
  { eapply (achieves_write_frame io 2 p fuel (n + 93 + 2 * N.of_nat (length (frame a))) p);
      [exact Hq|exact Hql|done|lia|left_tac Hl1]. }
  intros x σ2 [-> Hl2]. eexists. split; [done|].
  apply achieves_or_return. eapply achieves_mono.
  { eapply (achieves_read_frame io 2 p fuel (n + 93) p _ 0 _ a rest);
      [exact Ha|exact Hr|exact Hal|done|lia|left_tac Hl2]. }
  intros x σ3 [-> Hl3]. eexists. split; [done|]. eapply achieves_mono.
  { eapply (achieves_conclude fuel (n + 1) p); [done|exact Hd|exact Hexp|exact Hau|exact Hfq|exact Hfr|lia|left_tac Hl3]. }
  intros x σ4 [-> Hl4]. exists n, p, (frame question), (length (frame a)). split; [exact Hl4|]. done.
Qed.
End Helper.

(** ** The agent *)

(** The answer of the fake agent at the time [now]. *)
Definition answer_at `{Crypto} (args : FakeAgentArgs) (sk : SigningKey) (q : SignedAuthRequest.t) (now : N)
  (r : SignedAuthResponse.t) : Prop :=
  exists body,
    AuthResponseBody.for_request (SignedAuthRequest.body q) (CliDecision.to_decision (fa_decision args))
      (if decide (CliDecision.to_decision (fa_decision args) = Decision.Approved)
       then AuthMethod.BiometricOrWatch else AuthMethod.None_)
      now (now + 10000) (fa_agent_key_id args) = Ok body /\
    SignedAuthResponse.sign body sk = Ok r.

Section Agent.
Context {W : Type} `{Hprompt : Prompt W f path answer true base d lo hi}.
Context `{Crypto} `{SerdeJson SignedAuthRequest.t} `{SerdeJson SignedAuthResponse.t}.

Lemma achieves_fake_round oc fuel n p σ args pk sk stream q question rest size :
  raw_fd stream = f -> hi + 10000 <= u64_max ->
  answer [] = frame question ++ rest -> from_slice question = Ok q ->
  N.of_nat (length question) <= MAX_FRAME_LEN ->
  SignedAuthRequest.verify q pk = Ok tt ->
  (forall now, lo <= now -> now <= hi -> fresh_request (SignedAuthRequest.body q) now 30000) ->
  (forall now, lo <= now -> now <= hi -> exists r a, answer_at args sk q now r /\ to_vec r = Ok a /\
     (length a <= size)%nat) ->
  N.of_nat size <= MAX_FRAME_LEN -> (length question + size + 4 + N.to_nat p < fuel)%nat ->
  left (n + 5 + N.of_nat (length (frame question) + size)) p [] 0 σ ->
  achieves σ (fake_round oc fuel args pk sk stream) (fun x σ' =>
    x = Ok (if fa_once args then inr tt else inl tt) /\
    exists now r a, lo <= now /\ now <= hi /\ answer_at args sk q now r /\ to_vec r = Ok a /\
      left n p (frame a) (length (frame question)) σ').
Proof.
  intros Hst Hhi Ho Hq Hql Hv Hfresh Hans Hsize Hf Hl. rewrite Nat2N.inj_add in Hl.
  pose proof (live_read_raw stream p eq_refl Hst) as Hread.
  pose proof (live_write_raw stream p eq_refl Hst) as Hwrite.
  unfold fake_round. apply achieves_bind, achieves_attempt. eapply achieves_mono.
  { eapply (achieves_read_frame stream 1 p fuel (n + 5 + N.of_nat size) p [] 0 _ question rest);
      [exact Ho|exact Hq|exact Hql|done|lia|left_tac Hl]. }
  intros x σ1 [-> Hl1]. rewrite Hv. apply achieves_bind. eapply achieves_mono.
  { eapply (achieves_unix_time_ms (n + 4 + N.of_nat size) p); [lia|left_tac Hl1]. }
  intros x σ2 [(now & -> & Hnow1 & Hnow2) Hl2].
  rewrite (proj2 (fresh_request_ok _ _ _) (Hfresh now Hnow1 Hnow2)).
  destruct (Hans now Hnow1 Hnow2) as (r & a & (body & Hbody & Hsign) & Ha & Hal).
  assert (fake_response oc args sk now q = (fun s : state W => (Done (Ok r), s))) as Hresp.
  { unfold fake_response, add_u64. rewrite (proj2 (N.leb_le _ _)) by lia.
    unfold bind, ret, lift. rewrite Hbody. cbn [map_err]. by rewrite Hsign. }
  rewrite Hresp. apply achieves_bind, (achieves_ret (E := error) σ2 r).
  apply achieves_bind, achieves_attempt. eapply achieves_mono.
  { eapply (achieves_write_frame stream 1 p fuel n p _ _ σ2 r a); [done|lia|done|lia|].
    unfold frame. rewrite length_app, to_be_bytes_length. left_tac Hl2. }
  intros x σ3 [-> Hl3]. apply achieves_ret. split; [done|]. exists now, r, a. do 2 (split; [done|]). split; [by exists body|]. split; [done|exact Hl3].
Qed.
End Agent.
