(* ===== verification/EndToEnd.v ===== *)
(** * From the helper to the agent and back

    The liveness theorems: a helper that is in time hears the answer of an
    agent that is in time; and the two programs of this repository, the
    helper and the fake agent, agree with each other over a socket.  The
    instance of [Prompt] at the end shows that the situation can be. *)

From Stdlib Require Import NArith ZArith Lia List Bool.
From Stdlib Require Import Strings.Byte Strings.String.
From stdpp Require Import base decidable list option strings.
From S2P Require Import Prelude RustStd Crypto Protocol Canonical Samples ProtocolProps Sys Io Transport.
From S2P Require Import Sim Frame Trust Common Keys Replay Request Verdict RequestProps FakeAgent Live LiveRequest.

Open Scope N_scope.

(** The request [q] has the text [question], which fits a frame, and is
    fresh throughout the time of the helper and that of the agent. *)
Record askable `{SerdeJson SignedAuthRequest.t} (q : SignedAuthRequest.t) (question : bytes)
  (fresh_for : N -> N -> Prop) : Prop := {
  askable_text : to_vec q = Ok question;
  askable_fits : N.of_nat (length question) <= MAX_FRAME_LEN;
  askable_fresh now skew : fresh_for now skew -> fresh_request (SignedAuthRequest.body q) now skew;
}.

(** The calls that an exchange takes: some for the connection, the clocks
    and the marker, and two for each byte. *)
Definition exchange_calls (question a : bytes) : N :=
  103 + 2 * N.of_nat (length (frame question) + length (frame a)).

(** C20: a prompt agent is heard.  If, for as many calls as the exchange
    takes and an allowance for each call that is interrupted or blocks, the
    clocks stay before the deadline and within the lifetimes, the socket
    connects and moves at least a byte at a time, and the directory of the
    replay cache takes the marker, then an authentic and fresh response that
    the agent sends is received, recorded and reported: the exchange ends, in
    the exit code of its decision. *)
Theorem prompt_agent_is_heard {W : Type}
  `{Prompt W f path answer blocking base d lo hi} `{Crypto} `{HL : HexLaws}
  `{SerdeJson SignedAuthRequest.t} `{SerdeJson SignedAuthResponse.t}
  (fuel : nat) (pk : bytes) (dl skew p : N) (cache : option File) (q : SignedAuthRequest.t)
  (r : SignedAuthResponse.t) (question a rest : bytes) (s : state W) :
  hi <= u64_max -> d <= dl ->
  askable q question (fun now k => lo <= now /\ now <= hi /\ k = skew) ->
  answer (frame question) = frame a ++ rest -> from_slice a = Ok r ->
  N.of_nat (length a) <= MAX_FRAME_LEN ->
  AuthResponseBody.expires_at_ms (SignedAuthResponse.body r) <= u64_max ->
  authentic pk (SignedAuthRequest.body q) r ->
  (forall now, lo <= now -> now <= hi -> fresh_response r now skew) ->
  (length question + length a + 132 + N.to_nat p < fuel)%nat ->
  prompt (exchange_calls question a + allowance * p) p [] 0 (world s) ->
  exists s', exchange fuel path pk dl skew cache q s
    = (Done (Ok (exit_code_for_decision (AuthResponseBody.decision (SignedAuthResponse.body r)))), s').
Proof.
  intros Hhi Hd [Hq Hql Hfq] Ha Hr Hal Hexp Hau Hfr Hf Hs.
  edestruct (achieves_exchange fuel 0 p (Sit (exchange_calls question a) p [] 0) pk dl skew cache q r
    question a rest Hhi Hd Hq Hql Ha Hr Hal Hexp Hau) as (x & s' & σ' & E1 & _ & -> & _);
    [|exact Hfr|exact Hf| |exact Hs|by exists s'].
  - intros now ? ?. by apply Hfq.
  - unfold left, exchange_calls. cbn [calls stalls outgoing received]. split_and!; [lia|done|done|done].
Qed.

Lemma answer_authentic `{CL : CryptoLaws} args sk q now r : answer_at args sk q now r ->
  authentic (VerifyingKey_to_bytes (SigningKey_verifying_key sk)) (SignedAuthRequest.body q) r /\
  AuthResponseBody.decision (SignedAuthResponse.body r) = CliDecision.to_decision (fa_decision args) /\
  AuthResponseBody.created_at_ms (SignedAuthResponse.body r) = now /\
  AuthResponseBody.expires_at_ms (SignedAuthResponse.body r) = now + 10000.
Proof.
  intros (body & Hp & Hs). pose proof (for_request_bound _ _ _ _ _ _ _ Hp) as Hb.
  unfold SignedAuthResponse.sign in Hs. res_inv Hs. subst r.
  unfold AuthResponseBody.for_request in Hp. res_inv Hp. subst body.
  split_and!; [|done..]. split; [|exact Hb]. eexists. split; [done|apply sign_holds].
Qed.

(** C8: the helper and the fake agent understand each other.  A request that
    the agent's operator trusts, put in a frame on the agent's socket, is
    answered with one frame; and when a helper whose peer gives that frame
    to this very request asks it, it ends in the exit code of the decision the agent was
    configured with.  The two run on their own kernels, in prompt situations
    with clocks that agree up to the lifetimes. *)
Theorem helper_hears_fake_agent {W1 W2 : Type} `{K1 : Kernel W1} `{K2 : Kernel W2}
  `{CL : CryptoLaws} `{HL : HexLaws} `{JQ : SerdeJsonLaws SignedAuthRequest.t}
  `{JR : SerdeJsonLaws SignedAuthResponse.t}
  (f1 f2 : fd) (path path2 question : bytes) (blocking : bool) (base1 d1 lo1 hi1 base2 d2 lo2 hi2 : N)
  (reply : bytes -> bytes -> bytes)
  (helper : forall a, Prompt W1 f1 path (reply a) blocking base1 d1 lo1 hi1)
  (agent : Prompt W2 f2 path2 (fun _ => frame question) true base2 d2 lo2 hi2)
  (oc : bool) (fuel1 fuel2 size : nat) (args : FakeAgentArgs) (host_pk : bytes) (sk : SigningKey)
  (q : SignedAuthRequest.t) (dl skew p1 p2 : N) (cache : option File) (s2 : state W2) :
  (forall a, reply a (frame question) = frame a) ->
  askable q question (fun now k => lo1 <= now /\ now <= hi1 /\ k = skew \/ lo2 <= now /\ now <= hi2 /\ k = 30000) ->
  SignedAuthRequest.verify q host_pk = Ok tt ->
  (forall now, lo2 <= now -> now <= hi2 -> exists r a, answer_at args sk q now r /\ to_vec r = Ok a /\
     (length a <= size)%nat) ->
  N.of_nat size <= MAX_FRAME_LEN ->
  hi1 <= u64_max -> hi2 + 10000 <= u64_max -> hi1 <= lo2 + 10000 -> hi2 <= lo1 + skew -> d1 <= dl ->
  (length question + size + 132 + N.to_nat p1 < fuel1)%nat ->
  (length question + size + 4 + N.to_nat p2 < fuel2)%nat ->
  prompt (5 + N.of_nat (length (frame question) + size) + allowance * p2) p2 [] 0 (world s2) ->
  exists a s2',
    fake_round oc fuel2 args host_pk sk {| raw_fd := f2 |} s2
      = (Done (Ok (if fa_once args then inr tt else inl tt)), s2') /\
    (exists n p k, prompt n p (frame a) k (world s2')) /\
    forall s1 : state W1,
      prompt (Prompt := helper a) (exchange_calls question a + allowance * p1) p1 [] 0 (world s1) ->
      exists s1', exchange fuel1 path (VerifyingKey_to_bytes (SigningKey_verifying_key sk)) dl skew cache q s1
        = (Done (Ok (exit_code_for_decision (CliDecision.to_decision (fa_decision args)))), s1').
Proof.
  intros Hreply Hask Hv Hans Hsize Hhi1 Hhi2 H12 H21 Hd Hf1 Hf2 Hs2.
  destruct Hask as [Hq Hql Hfq].
  edestruct (achieves_fake_round (Hprompt := agent) oc fuel2 0 p2
    (Sit (5 + N.of_nat (length (frame question) + size)) p2 [] 0) args host_pk sk {| raw_fd := f2 |} q
    question [] size) as (x & s2' & σ' & E2 & Hh & -> & now2 & r & a & Hlo & Hhi & Hr & Ha & Hl);
    [done|done|by rewrite app_nil_r|by apply json_round_trip|done|done| |exact Hans|done|done| |exact Hs2|].
  { intros now ? ?. apply Hfq. by right. }
  { unfold left. cbn [calls stalls outgoing received]. split_and!; [lia|done|done|done]. }
  exists a, s2'. split; [exact E2|]. split.
  { destruct Hl as (_ & _ & Ho & Hk). unfold holds in Hh. rewrite Ho, Hk in Hh. by eexists _, _, _. }
  destruct (Hans now2 Hlo Hhi) as (r' & a' & (body & Hb & Hsig) & Ha' & Hlen).
  assert (r' = r) as ->.
  { destruct Hr as (body' & Hb' & Hsig'). congruence. }
  assert (a' = a) as -> by congruence. clear body Hb Hsig Ha'.
  destruct (answer_authentic _ _ _ _ _ Hr) as (Hau & Hdec & Hcr & Hex).
  intros s1 Hs1. rewrite <- Hdec.
  eapply (prompt_agent_is_heard (H0 := helper a)) with (r := r) (a := a) (rest := []) (question := question) (p := p1);
    [exact Hhi1|exact Hd| |by rewrite app_nil_r, Hreply|by apply json_round_trip|lia|lia|exact Hau| |lia|exact Hs1].
  - split; [done|done|]. intros now k (? & ? & ->). apply Hfq. by left.
  - intros now Hn1 Hn2. unfold fresh_response, fresh, saturating_add_u64. rewrite Hcr, Hex. lia.
Qed.

(** ** Witnesses: a kernel that interrupts now and then *)

(** A world in which each call takes a nanosecond; [moods] calls on the
    socket are still to be interrupted, after which it moves up to a thousand
    bytes at a time; other files are empty. *)
Record ideal : Type := Ideal {
  elapsed : N; moods : N; told : bytes; heard : nat; says : bytes -> bytes;
}.

Definition pass (w : ideal) : ideal := Ideal (elapsed w + 1) (moods w) (told w) (heard w) (says w).
Definition cheer (w : ideal) : ideal := Ideal (elapsed w + 1) (moods w - 1) (told w) (heard w) (says w).

Definition ideal_fd : fd := 3.

Definition ideal_read (g : fd) (l : nat) (w : ideal) : result bytes errno * ideal :=
  if g =? ideal_fd then
    if 0 <? moods w then (Err EINTR, cheer w)
    else
      let b := take (Nat.min l 1000) (drop (heard w) (says w (told w))) in
      (Ok b, Ideal (elapsed w + 1) (moods w) (told w) (heard w + length b) (says w))
  else (Ok [], pass w).

Definition ideal_write (g : fd) (b : bytes) (w : ideal) : result nat errno * ideal :=
  if g =? ideal_fd then
    if 0 <? moods w then (Err EINTR, cheer w)
    else
      let b := take 1000 b in
      (Ok (length b), Ideal (elapsed w + 1) (moods w) (told w ++ b) (heard w) (says w))
  else (Ok (length b), pass w).

#[local] Instance ideal_kernel : Kernel ideal := {|
  k_instant_now w := (elapsed w, pass w);
  k_system_now w := (Some (1700000001000000000 + elapsed w), pass w);
  k_process_id w := (4242, pass w);
  k_random n w := (replicate n x5a, pass w);
  k_sleep _ w := (tt, pass w);
  k_sun_path_len := 108;
  k_socket w := (Ok ideal_fd, pass w);
  k_set_cloexec _ w := (Ok tt, pass w);
  k_set_nonblocking _ w := (Ok tt, pass w);
  k_connect _ _ w := (Ok tt, pass w);
  k_take_error _ w := (Ok None, pass w);
  k_poll _ ev _ w := ({| poll_result := 1; revents := 0; poll_errno := EINTR |}, pass w);
  k_bind _ w := (Ok 7, pass w);
  k_accept _ w := (Ok ideal_fd, pass w);
  k_read := ideal_read;
  k_write := ideal_write;
  k_open _ _ _ w := (Ok 8, pass w);
  k_openat _ _ _ _ w := (Ok 9, pass w);
  k_fstat _ w := (Err EBADF, pass w);
  k_getcwd w := (Ok (B "/"), pass w);
  k_unlink _ w := (Ok tt, pass w);
  k_unlinkat _ _ w := (Ok tt, pass w);
  k_dup_cloexec _ w := (Ok 10, pass w);
  k_close _ w := (tt, pass w);
  k_fdopendir _ w := (Ok 11, pass w);
  k_readdir _ w := (None, pass w);
  k_closedir _ w := (tt, pass w);
  k_stdout _ w := (tt, pass w);
|}.

(** The calls that are left fit before the end of the first millisecond. *)
Definition ideal_prompt (answer : bytes -> bytes) (n p : N) (o : bytes) (k : nat) (w : ideal) : Prop :=
  elapsed w + n < 1000000 /\ moods w <= p /\ told w = o /\ heard w = k /\ says w = answer.

Lemma pass_prompt answer n p o k w : 0 < n -> ideal_prompt answer n p o k w ->
  ideal_prompt answer (n - 1) p o k (pass w).
Proof. unfold ideal_prompt. cbn. intros ? (? & ? & ? & ? & ?). split_and!; [lia|done..]. Qed.

Lemma cheer_prompt answer n p o k w : 0 < n -> 0 < moods w -> ideal_prompt answer n p o k w ->
  0 < p /\ ideal_prompt answer (n - 1) (p - 1) o k (cheer w).
Proof. unfold ideal_prompt. cbn. intros ? ? (? & ? & ? & ? & ?). split_and!; [lia..|done|done|done]. Qed.

Lemma ideal_clock answer n p o k w : 0 < n -> ideal_prompt answer n p o k w ->
  1700000001000 <= (1700000001000000000 + elapsed w) / 1000000 /\
  (1700000001000000000 + elapsed w) / 1000000 <= 1700000001000.
Proof.
  unfold ideal_prompt. intros Hn (He & _). split.
  - apply N.div_le_lower_bound; lia.
  - assert ((1700000001000000000 + elapsed w) / 1000000 < 1700000001001); [|lia].
    apply N.Div0.div_lt_upper_bound. lia.
Qed.

Lemma ideal_write_prompt (blocking : bool) answer n p o k w b : 0 < n -> b <> [] -> ideal_prompt answer n p o k w ->
  exists r w', ideal_write ideal_fd b w = (r, w') /\
    ((exists j, r = Ok j /\ (0 < j <= length b)%nat /\ ideal_prompt answer (n - 1) p (o ++ take j b) k w') \/
     (exists e, r = Err e /\ transient blocking e /\ 0 < p /\ ideal_prompt answer (n - 1) (p - 1) o k w')).
Proof.
  intros Hn Hb Hw. unfold ideal_write. cbn [N.eqb ideal_fd Pos.eqb].
  destruct (N.ltb_spec 0 (moods w)) as [Hm|Hm]; eexists _, _; (split; [reflexivity|]).
  + right. exists EINTR. destruct (cheer_prompt _ _ _ _ _ _ Hn Hm Hw). by split_and!; [|left|..].
  + left. exists (length (take 1000 b)). split; [done|]. rewrite length_take.
    assert (0 < length b)%nat by (destruct b; [done|cbn; lia]).
    split; [lia|]. destruct Hw as (? & ? & <- & ? & ?). unfold ideal_prompt. cbn [elapsed moods told heard says].
    split_and!; [lia|done| |done|done]. f_equal.
    destruct (Nat.le_gt_cases (length b) 1000) as [Hle|Hgt].
    * rewrite Nat.min_r by done. by rewrite !take_ge by lia.
    * by rewrite Nat.min_l by lia.
Qed.

Lemma ideal_read_prompt (blocking : bool) answer n p o k w l :
  0 < n -> (0 < l)%nat -> (k < length (answer o))%nat -> ideal_prompt answer n p o k w ->
  exists r w', ideal_read ideal_fd l w = (r, w') /\
    ((exists b, r = Ok b /\ b <> [] /\ (length b <= l)%nat /\ b `prefix_of` drop k (answer o) /\
        ideal_prompt answer (n - 1) p o (k + length b) w') \/
     (exists e, r = Err e /\ transient blocking e /\ 0 < p /\ ideal_prompt answer (n - 1) (p - 1) o k w')).
Proof.
  intros Hn Hl Hk Hw. unfold ideal_read. cbn [N.eqb ideal_fd Pos.eqb].
  destruct (N.ltb_spec 0 (moods w)) as [Hm|Hm]; eexists _, _; (split; [reflexivity|]).
  + right. exists EINTR. destruct (cheer_prompt _ _ _ _ _ _ Hn Hm Hw). by split_and!; [|left|..].
  + left. destruct Hw as (? & ? & <- & <- & <-). eexists. split; [reflexivity|]. split_and!.
    * intros E%(f_equal length). rewrite length_take, length_drop in E. cbn [length] in E. lia.
    * rewrite length_take. lia.
    * exists (drop (Nat.min l 1000) (drop (heard w) (says w (told w)))). by rewrite take_drop.
    * unfold ideal_prompt. cbn [elapsed moods told heard says]. split_and!; [lia|done..].
Qed.

#[local] Instance ideal_is_prompt (answer : bytes -> bytes) (blocking : bool) :
  Prompt ideal ideal_fd (B "/run/agent.sock") answer blocking 0 1000000 1700000001000 1700000001000.
Proof.
  refine {| prompt := ideal_prompt answer |}.
  - intros n m p o k w Hm (? & ? & ? & ? & ?). unfold ideal_prompt. split_and!; [lia|done..].
  - intros n p o k w Hn Hw. split; [|by apply pass_prompt]. destruct Hw as [He _]. cbn. lia.
  - intros n p o k w Hn Hw. eexists _, _. split; [reflexivity|].
    split; [by eapply ideal_clock|by apply pass_prompt].
  - intros. by apply pass_prompt.
  - intros. by apply pass_prompt.
  - intros. by apply pass_prompt.
  - intros. by apply pass_prompt.
  - split; [by apply (bool_decide_unpack _)|cbn; lia].
  - intros. eexists. split; [reflexivity|by apply pass_prompt].
  - intros. eexists. split; [reflexivity|by apply pass_prompt].
  - intros. eexists. split; [reflexivity|by apply pass_prompt].
  - intros. eexists _, _. split; [reflexivity|]. left. split; [by left|by apply pass_prompt].
  - intros. eexists. split; [reflexivity|by apply pass_prompt].
  - intros. eexists _, _. split; [reflexivity|]. left. split_and!; [done|done|by apply pass_prompt].
  - intros. by apply ideal_write_prompt.
  - intros. by apply ideal_read_prompt.
  - intros. eexists _, _. split; [reflexivity|by apply pass_prompt].
  - intros. eexists _, _. split; [reflexivity|by apply pass_prompt].
  - intros. eexists _, _. split; [reflexivity|]. left. split; [done|by apply pass_prompt].
  - intros. by apply pass_prompt.
  - intros. eexists _, _. split; [reflexivity|]. split_and!; [by apply pass_prompt|done|by eexists].
  - intros. by apply pass_prompt.
  - intros. by apply pass_prompt.
  - intros n p o k w g l Hn Hg Hw. cbn. unfold ideal_read. rewrite (proj2 (N.eqb_neq _ _) Hg).
    eexists _, _. split; [reflexivity|]. left. split_and!; [|done|by apply pass_prompt].
    intros b [= <-]. cbn. lia.
  - intros n p o k w g b Hn Hg Hb Hw. cbn. unfold ideal_write. rewrite (proj2 (N.eqb_neq _ _) Hg).
    eexists _, _. split; [reflexivity|]. left. exists (length b).
    assert (0 < length b)%nat by (destruct b; [done|cbn; lia]).
    split_and!; [done|lia|lia|by apply pass_prompt].
Defined.

#[local] Existing Instance sample_crypto.
#[local] Existing Instance sample_crypto_laws.
#[local] Existing Instance sample_hex_laws.

(** A stand-in for the JSON texts that keeps the law: the canonical bytes of
    a well-typed body, then the signature. *)
#[local] Instance request_wf_decision q : Decision (AuthRequestBody.wf q).
Proof. unfold AuthRequestBody.wf. destruct (AuthRequestBody.client_pid q); apply _. Defined.
#[local] Instance response_wf_decision r : Decision (AuthResponseBody.wf r).
Proof. unfold AuthResponseBody.wf. apply _. Defined.

#[local] Instance typed_request_json : SerdeJson SignedAuthRequest.t := {|
  to_vec v :=
    if decide (AuthRequestBody.wf (SignedAuthRequest.body v)) then
      to_vec (SerdeJson := sample_request_json) v
    else Err "request"%string;
  from_slice := from_slice (SerdeJson := sample_request_json) |}.

#[local] Instance typed_response_json : SerdeJson SignedAuthResponse.t := {|
  to_vec v :=
    if decide (AuthResponseBody.wf (SignedAuthResponse.body v)) then
      to_vec (SerdeJson := sample_response_json) v
    else Err "response"%string;
  from_slice := from_slice (SerdeJson := sample_response_json) |}.

#[local] Instance typed_request_json_laws : SerdeJsonLaws SignedAuthRequest.t.
Proof.
  split. intros [body sig] b. cbn. destruct (decide (AuthRequestBody.wf body)) as [Hw|]; [|done].
  intros Hb. apply result_bind_ok in Hb as (m & Hm%map_err_ok & [= <-]).
  apply request_canonical_ok in Hm as (_ & Hs & ->).
  by rewrite decode_request_enc by by apply request_tuple_valid.
Qed.

#[local] Instance typed_response_json_laws : SerdeJsonLaws SignedAuthResponse.t.
Proof.
  split. intros [body sig] b. cbn. destruct (decide (AuthResponseBody.wf body)) as [Hw|]; [|done].
  intros Hb. apply result_bind_ok in Hb as (m & Hm%map_err_ok & [= <-]).
  apply response_canonical_ok in Hm as (_ & Hs & ->).
  rewrite decode_response_enc by by apply response_tuple_valid.
  destruct Hw as (_ & _ & Hexp). by rewrite (proj2 (N.leb_le _ _) Hexp).
Qed.

Definition asked_text : bytes := Eval vm_compute in
  match to_vec client_request with Ok b => b | Err _ => [] end.
Definition answer_text : bytes := Eval vm_compute in
  match to_vec vector_signed_response with Ok b => b | Err _ => [] end.

Lemma asked_text_of : to_vec client_request = Ok asked_text.
Proof. vm_compute. reflexivity. Qed.
Lemma answer_text_of : to_vec vector_signed_response = Ok answer_text.
Proof. vm_compute. reflexivity. Qed.

Lemma client_request_fresh now skew : now <= 1700000030000 -> 1700000000000 <= now ->
  fresh_request (SignedAuthRequest.body client_request) now skew.
Proof.
  intros ? ?. unfold fresh_request, fresh, saturating_add_u64.
  change (AuthRequestBody.expires_at_ms _) with 1700000030000.
  change (AuthRequestBody.created_at_ms _) with 1700000000000. unfold u64_max. lia.
Qed.

(** The peer answers once the whole request has come. *)
Definition ideal_answer (a o : bytes) : bytes := if decide (o = frame asked_text) then frame a else [].
Definition ideal_start (moods : N) (answer : bytes -> bytes) : state ideal :=
  St (Ideal 0 moods [] 0 answer) [].

Lemma ideal_prompt_start answer n p : n < 1000000 -> ideal_prompt answer n p [] 0 (world (ideal_start p answer)).
Proof. intros Hn. unfold ideal_prompt. cbn. split_and!; [lia|lia|done..]. Qed.

(** The exchange of the test vector, three calls of which are interrupted. *)
Lemma prompt_agent_is_heard_witness :
  exists s', exchange 4000 (B "/run/agent.sock") (sample_key x09) 15000000000 30000 (Some Replay.cache)
    client_request (ideal_start 3 (ideal_answer answer_text)) = (Done (Ok EXIT_APPROVED), s').
Proof.
  apply (prompt_agent_is_heard (H0 := ideal_is_prompt (ideal_answer answer_text) false)) with
    (p := 3) (r := vector_signed_response) (question := asked_text) (a := answer_text) (rest := []).
  - by vm_compute.
  - by vm_compute.
  - split; [exact asked_text_of|by vm_compute|].
    intros now skew (? & ? & ->). apply client_request_fresh; lia.
  - unfold ideal_answer. rewrite decide_True by done. by rewrite app_nil_r.
  - apply json_round_trip. exact answer_text_of.
  - by vm_compute.
  - by vm_compute.
  - apply authentic_ok. vm_compute. reflexivity.
  - intros now ? ?. assert (now = 1700000001000) as -> by lia. apply fresh_response_ok. vm_compute. reflexivity.
  - apply (bool_decide_unpack _). vm_compute. exact I.
  - apply ideal_prompt_start. by vm_compute.
Defined.

(** What the agent of the arguments denies, as a frame's content. *)
Definition denial : AuthResponseBody.t := Eval vm_compute in
  match AuthResponseBody.for_request (SignedAuthRequest.body client_request) Decision.Denied AuthMethod.None_
          1700000001000 1700000011000 (B "agent-key-1") with
  | Ok p => p | Err _ => vector_response end.
Definition signed_denial : SignedAuthResponse.t := Eval vm_compute in
  match SignedAuthResponse.sign denial (sample_sk x09) with
  | Ok r => r | Err _ => vector_signed_response end.
Definition denial_text : bytes := Eval vm_compute in
  match to_vec signed_denial with Ok b => b | Err _ => [] end.

Lemma denial_answers : answer_at agent_args (sample_sk x09) client_request 1700000001000 signed_denial.
Proof. exists denial. split; vm_compute; reflexivity. Qed.

Lemma denial_text_of : to_vec signed_denial = Ok denial_text.
Proof. vm_compute. reflexivity. Qed.

(** The agent denies the request; two calls of the agent and three of the
    helper are interrupted. *)
Lemma helper_hears_fake_agent_witness :
  exists a s2',
    fake_round false 4000 agent_args (sample_key x07) (sample_sk x09) {| raw_fd := ideal_fd |}
      (ideal_start 2 (fun _ => frame asked_text)) = (Done (Ok (inr tt)), s2') /\
    (exists n p k, ideal_prompt (fun _ => frame asked_text) n p (frame a) k (world s2')) /\
    forall s1 : state ideal,
      ideal_prompt (ideal_answer a) (exchange_calls asked_text a + allowance * 3) 3 [] 0 (world s1) ->
      exists s1', exchange 4000 (B "/run/agent.sock") (sample_key x09) 15000000000 30000 (Some Replay.cache)
        client_request s1 = (Done (Ok EXIT_DENIED), s1').
Proof.
  apply (helper_hears_fake_agent (CL := sample_crypto_laws) ideal_fd ideal_fd (B "/run/agent.sock") (B "/run/agent.sock") asked_text false
    0 1000000 1700000001000 1700000001000 0 1000000 1700000001000 1700000001000 ideal_answer
    (fun a => ideal_is_prompt (ideal_answer a) false) (ideal_is_prompt (fun _ => frame asked_text) true)
    false 4000 4000 (length denial_text) agent_args (sample_key x07) (sample_sk x09) client_request
    15000000000 30000 3 2 (Some Replay.cache)).
  - intros a. unfold ideal_answer. by rewrite decide_True.
  - split; [exact asked_text_of|by vm_compute|].
    intros now skew [(? & ? & _)|(? & ? & _)]; apply client_request_fresh; lia.
  - by vm_compute.
  - intros now ? ?. assert (now = 1700000001000) as -> by lia. exists signed_denial, denial_text.
    split_and!; [exact denial_answers|exact denial_text_of|done].
  - by vm_compute.
  - by vm_compute.
  - by vm_compute.
  - by vm_compute.
  - by vm_compute.
  - by vm_compute.
  - apply (bool_decide_unpack _). vm_compute. exact I.
  - apply (bool_decide_unpack _). vm_compute. exact I.
  - apply ideal_prompt_start. by vm_compute.
Defined.
