(* ===== verification/ProtocolTests.v ===== *)
(** * The tests of the protocol crate, and the fuzz targets

    [mod tests] of [src/crates/protocol/src/lib.rs] and the two targets of
    [src/fuzz/fuzz_targets] as functions: [None] is a panic, that is, a test
    that fails.  The texts of the test vectors are arguments.  The theorems
    say that the tests pass for every implementation of the primitives that
    keeps their laws, which of them rests on the signature scheme, that the
    vector of the command [test-vector] passes them, and what a table of
    responses that passes must be. *)

From Stdlib Require Import NArith Lia List Bool.
From Stdlib Require Import Strings.Byte Strings.String.
From stdpp Require Import base decidable list option strings.
From S2P Require Import Prelude RustStd Crypto Protocol Canonical Samples ProtocolProps Sys Frame.
From S2P Require Import Common Keys Request Verdict RequestProps FakeAgent Main EndToEnd.

Open Scope N_scope.

(** ** Assertions *)

Definition unwrap {A E} (r : result A E) : option A :=
  match r with Ok a => Some a | Err _ => None end.
Definition assert (b : bool) : option unit := if b then Some tt else None.
Fixpoint for_each {A} (l : list A) (body : A -> option unit) : option unit :=
  match l with
  | [] => Some tt
  | a :: l => body a ≫= fun _ => for_each l body
  end.

(** ** The tests on fixed values *)

Definition sample_request : AuthRequestBody.t := {|
  AuthRequestBody.protocol_version := PROTOCOL_VERSION;
  AuthRequestBody.request_id := B "req-123";
  AuthRequestBody.nonce := replicate NONCE_LEN x42;
  AuthRequestBody.created_at_ms := 1700000000000;
  AuthRequestBody.expires_at_ms := 1700000030000;
  AuthRequestBody.linux_host_id := B "host-abc";
  AuthRequestBody.linux_hostname := B "linux.example.com";
  AuthRequestBody.pam_service := B "sudo";
  AuthRequestBody.pam_user := B "alice";
  AuthRequestBody.pam_ruser := Some (B "alice");
  AuthRequestBody.pam_rhost := None;
  AuthRequestBody.pam_tty := Some (B "pts/3");
  AuthRequestBody.sudo_command := None;
  AuthRequestBody.client_pid := Some 12345;
  AuthRequestBody.key_id := B "host-key-1";
  AuthRequestBody.alg := Ed25519
|}.

(** [request.body.pam_user = ...] and [other_request.request_id = ...] *)
Definition with_pam_user (q : AuthRequestBody.t) (user : bytes) : AuthRequestBody.t :=
  let 'AuthRequestBody.mk v id n c e hi ho s _ ru rh t sc p k a := q in
  AuthRequestBody.mk v id n c e hi ho s user ru rh t sc p k a.
Definition with_request_id (q : AuthRequestBody.t) (id : bytes) : AuthRequestBody.t :=
  let 'AuthRequestBody.mk v _ n c e hi ho s u ru rh t sc p k a := q in
  AuthRequestBody.mk v id n c e hi ho s u ru rh t sc p k a.
(** [expected.decision = ...; expected.auth_method = ...] *)
Definition with_verdict (p : AuthResponseBody.t) (d : Decision.t) (m : AuthMethod.t) : AuthResponseBody.t :=
  let 'AuthResponseBody.mk v id n h hi s u _ _ c e k a ec em := p in
  AuthResponseBody.mk v id n h hi s u d m c e k a ec em.

Definition request_canonical_bytes_are_deterministic : option unit :=
  let request := sample_request in
  bytes_a ← unwrap (AuthRequestBody.canonical_bytes request);
  bytes_b ← unwrap (AuthRequestBody.canonical_bytes request);
  _ ← assert (bool_decide (bytes_a = bytes_b));
  assert (starts_with bytes_a (to_be_bytes 4 (N.of_nat (length REQUEST_DOMAIN) mod 4294967296))).

Definition request_freshness_accepts_valid_time : option unit :=
  let request := sample_request in
  unwrap (AuthRequestBody.verify_freshness request 1700000001000 30000).

Definition request_freshness_accepts_exact_expiry_boundary : option unit :=
  let request := sample_request in
  unwrap (AuthRequestBody.verify_freshness request (AuthRequestBody.expires_at_ms request) 30000).

Definition request_freshness_rejects_expired : option unit :=
  let request := sample_request in
  assert (bool_decide (AuthRequestBody.verify_freshness request
    (AuthRequestBody.expires_at_ms request + 1) 30000 = Err Expired)).

Definition request_freshness_accepts_future_within_skew : option unit :=
  let request := sample_request in
  unwrap (AuthRequestBody.verify_freshness request (AuthRequestBody.created_at_ms request - 30000) 30000).

Definition request_freshness_rejects_future_beyond_skew : option unit :=
  let request := sample_request in
  assert (bool_decide (AuthRequestBody.verify_freshness request
    (AuthRequestBody.created_at_ms request - 30001) 30000 = Err CreatedInFuture)).

Section Tests.
Context `{Crypto}.

Definition signing_key (b : byte) : SigningKey := SigningKey_from_bytes (replicate 32 b).

(** The response that the tests below start from. *)
Definition approval (request : AuthRequestBody.t) : option AuthResponseBody.t :=
  unwrap (AuthResponseBody.for_request request Decision.Approved AuthMethod.BiometricOrWatch
    1700000001000 1700000011000 (B "agent-key-1")).

Definition response_freshness_accepts_valid_time : option unit :=
  let request := sample_request in
  response ← approval request;
  unwrap (AuthResponseBody.verify_freshness response 1700000002000 30000).

Definition response_freshness_accepts_exact_expiry_boundary : option unit :=
  let request := sample_request in
  response ← approval request;
  unwrap (AuthResponseBody.verify_freshness response (AuthResponseBody.expires_at_ms response) 30000).

Definition response_freshness_rejects_expired : option unit :=
  let request := sample_request in
  response ← approval request;
  assert (bool_decide (AuthResponseBody.verify_freshness response
    (AuthResponseBody.expires_at_ms response + 1) 30000 = Err Expired)).

Definition response_freshness_rejects_future_beyond_skew : option unit :=
  let request := sample_request in
  response ← approval request;
  assert (bool_decide (AuthResponseBody.verify_freshness response
    (AuthResponseBody.created_at_ms response - 30001) 30000 = Err CreatedInFuture)).

Definition request_signature_verifies : option unit :=
  let key := signing_key x07 in
  request ← unwrap (SignedAuthRequest.sign sample_request key);
  unwrap (SignedAuthRequest.verify request (VerifyingKey_to_bytes (SigningKey_verifying_key key))).

Definition request_signature_rejects_tampering : option unit :=
  let key := signing_key x07 in
  request ← unwrap (SignedAuthRequest.sign sample_request key);
  let request := SignedAuthRequest.mk (with_pam_user (SignedAuthRequest.body request) (B "mallory"))
                   (SignedAuthRequest.signature request) in
  assert (bool_decide (SignedAuthRequest.verify request
    (VerifyingKey_to_bytes (SigningKey_verifying_key key)) = Err SignatureVerificationFailed)).

Definition response_binds_to_request : option unit :=
  let agent_key := signing_key x09 in
  let request := sample_request in
  response ← approval request;
  response ← unwrap (SignedAuthResponse.sign response agent_key);
  unwrap (SignedAuthResponse.verify_for_request response request
    (VerifyingKey_to_bytes (SigningKey_verifying_key agent_key))).

Definition response_rejects_wrong_request : option unit :=
  let agent_key := signing_key x09 in
  let request := sample_request in
  let other_request := with_request_id sample_request (B "req-other") in
  response ← approval request;
  response ← unwrap (SignedAuthResponse.sign response agent_key);
  assert (bool_decide (SignedAuthResponse.verify_for_request response other_request
    (VerifyingKey_to_bytes (SigningKey_verifying_key agent_key)) = Err ResponseBindingMismatch)).

Definition protocol_tests : list (option unit) :=
  [request_canonical_bytes_are_deterministic; request_freshness_accepts_valid_time;
   request_freshness_accepts_exact_expiry_boundary; request_freshness_rejects_expired;
   request_freshness_accepts_future_within_skew; request_freshness_rejects_future_beyond_skew;
   response_freshness_accepts_valid_time; response_freshness_accepts_exact_expiry_boundary;
   response_freshness_rejects_expired; response_freshness_rejects_future_beyond_skew;
   request_signature_verifies; response_binds_to_request; response_rejects_wrong_request].
End Tests.

(** ** The tests on the vectors *)

(** The [Vector] of [test_vector_v1_approval_verifies]. *)
Module ApprovalVector.
Record t : Type := mk {
  host_public_key_hex : bytes;
  agent_public_key_hex : bytes;
  request_hash_hex : bytes;
  request : SignedAuthRequest.t;
  response : SignedAuthResponse.t;
}.
End ApprovalVector.

(** The [Vector] of [test_vector_v1_response_enum_matrix_verifies]. *)
Module EnumVector.
Record t : Type := mk {
  agent_private_key_hex : bytes;
  agent_public_key_hex : bytes;
  request : SignedAuthRequest.t;
  response : SignedAuthResponse.t;
}.
End EnumVector.

Section Vectors.
Context `{Crypto} `{Hex} `{SerdeJson ApprovalVector.t} `{SerdeJson EnumVector.t}.
Context `{SerdeJson SignedAuthResponse.t} `{SerdeJson (list SignedAuthResponse.t)}.

Definition test_vector_v1_approval_verifies (approval_json : bytes) : option unit :=
  vector ← unwrap (from_slice (T := ApprovalVector.t) approval_json);
  host_public_key ← unwrap (hex_decode (ApprovalVector.host_public_key_hex vector));
  agent_public_key ← unwrap (hex_decode (ApprovalVector.agent_public_key_hex vector));
  _ ← unwrap (SignedAuthRequest.verify (ApprovalVector.request vector) host_public_key);
  hash ← unwrap (AuthRequestBody.sha256 (SignedAuthRequest.body (ApprovalVector.request vector)));
  _ ← assert (bool_decide (hex_encode hash = ApprovalVector.request_hash_hex vector));
  unwrap (SignedAuthResponse.verify_for_request (ApprovalVector.response vector)
    (SignedAuthRequest.body (ApprovalVector.request vector)) agent_public_key).

Definition has_verdict (d : Decision.t) (m : AuthMethod.t) (r : SignedAuthResponse.t) : bool :=
  bool_decide (AuthResponseBody.decision (SignedAuthResponse.body r) = d)
  && bool_decide (AuthResponseBody.auth_method (SignedAuthResponse.body r) = m).

(** The body of the two loops. *)
Definition check_verdict (vector : EnumVector.t) (responses : list SignedAuthResponse.t)
  (public_key : bytes) (signing_key : SigningKey) (decision : Decision.t) (method : AuthMethod.t)
  : option unit :=
  let matches := List.filter (has_verdict decision method) responses in
  _ ← assert (bool_decide (length matches = 1%nat));
  response ← head matches;
  _ ← unwrap (SignedAuthResponse.verify_for_request response
        (SignedAuthRequest.body (EnumVector.request vector)) public_key);
  let expected := with_verdict (SignedAuthResponse.body (EnumVector.response vector)) decision method in
  a ← unwrap (AuthResponseBody.canonical_bytes expected);
  b ← unwrap (AuthResponseBody.canonical_bytes (SignedAuthResponse.body response));
  _ ← assert (bool_decide (a = b));
  resigned ← unwrap (SignedAuthResponse.sign expected signing_key);
  _ ← assert (bool_decide (SignedAuthResponse.body resigned = SignedAuthResponse.body response));
  _ ← unwrap (SignedAuthResponse.verify_for_request resigned
        (SignedAuthRequest.body (EnumVector.request vector)) public_key);
  text ← unwrap (to_vec response);
  round_trip ← unwrap (from_slice text);
  assert (bool_decide (round_trip = response)).

Definition decisions : list Decision.t :=
  [Decision.Approved; Decision.Denied; Decision.Unavailable; Decision.Cancelled; Decision.Failed].
Definition methods : list AuthMethod.t :=
  [AuthMethod.Watch; AuthMethod.TouchId; AuthMethod.BiometricOrWatch; AuthMethod.Unknown; AuthMethod.None_].

Definition test_vector_v1_response_enum_matrix_verifies (approval_json response_enums_json : bytes)
  : option unit :=
  vector ← unwrap (from_slice (T := EnumVector.t) approval_json);
  responses ← unwrap (from_slice (T := list SignedAuthResponse.t) response_enums_json);
  public_key ← unwrap (hex_decode (EnumVector.agent_public_key_hex vector));
  private_key ← unwrap (hex_decode (EnumVector.agent_private_key_hex vector));
  _ ← assert (bool_decide (length private_key = 32%nat));
  let signing_key := SigningKey_from_bytes private_key in
  _ ← assert (bool_decide (length responses = 25%nat));
  for_each decisions (fun decision => for_each methods (fun method =>
    check_verdict vector responses public_key signing_key decision method)).
End Vectors.

(** ** The fuzz targets: what they compute from the data and drop *)

Definition fuzz_signed_request_json `{SerdeJson SignedAuthRequest.t} (data : bytes)
  : option (result bytes ProtocolError) :=
  match from_slice (T := SignedAuthRequest.t) data with
  | Ok request => Some (AuthRequestBody.canonical_bytes (SignedAuthRequest.body request))
  | Err _ => None
  end.

Definition fuzz_signed_response_json `{SerdeJson SignedAuthResponse.t} (data : bytes)
  : option (result bytes ProtocolError) :=
  match from_slice (T := SignedAuthResponse.t) data with
  | Ok response => Some (AuthResponseBody.canonical_bytes (SignedAuthResponse.body response))
  | Err _ => None
  end.

(** Two inputs that parse to values of the fields' types and are encoded
    alike hold the same body. *)
Lemma fuzzed_requests_identified `{SerdeJson SignedAuthRequest.t} data1 data2 q1 q2 m :
  from_slice data1 = Ok q1 -> from_slice data2 = Ok q2 ->
  AuthRequestBody.wf (SignedAuthRequest.body q1) -> AuthRequestBody.wf (SignedAuthRequest.body q2) ->
  fuzz_signed_request_json data1 = Some (Ok m) -> fuzz_signed_request_json data2 = Some (Ok m) ->
  SignedAuthRequest.body q1 = SignedAuthRequest.body q2.
Proof.
  unfold fuzz_signed_request_json. intros -> -> W1 W2 [= E1] [= E2]. by eapply request_canonical_inj.
Qed.

Lemma fuzzed_responses_identified `{SerdeJson SignedAuthResponse.t} data1 data2 r1 r2 m :
  from_slice data1 = Ok r1 -> from_slice data2 = Ok r2 ->
  AuthResponseBody.wf (SignedAuthResponse.body r1) -> AuthResponseBody.wf (SignedAuthResponse.body r2) ->
  fuzz_signed_response_json data1 = Some (Ok m) -> fuzz_signed_response_json data2 = Some (Ok m) ->
  SignedAuthResponse.body r1 = SignedAuthResponse.body r2.
Proof.
  unfold fuzz_signed_response_json. intros -> -> W1 W2 [= E1] [= E2]. by eapply response_canonical_inj.
Qed.

(** ** Every test passes *)

Lemma unwrap_some {A E} (r : result A E) a : unwrap r = Some a <-> r = Ok a.
Proof. destruct r; cbn; split; congruence. Qed.
Lemma unwrap_ok {A E} (r : result A E) a : r = Ok a -> unwrap r = Some a.
Proof. apply unwrap_some. Qed.
Lemma assert_some b u : assert b = Some u <-> b = true.
Proof. destruct u, b; cbn; split; congruence. Qed.
Lemma assert_decide P `{Decision P} : P -> assert (bool_decide P) = Some tt.
Proof. intros HP. by rewrite bool_decide_true. Qed.

Lemma for_each_some {A} (l : list A) body :
  for_each l body = Some tt <-> Forall (fun a => body a = Some tt) l.
Proof.
  induction l as [|a l IH]; cbn; [by rewrite Forall_nil|]. rewrite Forall_cons, <- IH.
  destruct (body a) as [[]|]; cbn; intuition congruence.
Qed.

Definition sample_request_bytes : bytes := Eval vm_compute in ok_bytes (AuthRequestBody.canonical_bytes sample_request).
Lemma sample_request_canonical : AuthRequestBody.canonical_bytes sample_request = Ok sample_request_bytes.
Proof. vm_compute. reflexivity. Qed.

Section Pass.
Context `{CL : CryptoLaws}.

Lemma approval_some : exists p b, approval sample_request = Some p /\
  AuthResponseBody.for_request sample_request Decision.Approved AuthMethod.BiometricOrWatch
    1700000001000 1700000011000 (B "agent-key-1") = Ok p /\
  AuthResponseBody.canonical_bytes p = Ok b /\
  AuthResponseBody.created_at_ms p = 1700000001000 /\ AuthResponseBody.expires_at_ms p = 1700000011000.
Proof.
  destruct (response_encodes sample_request Decision.Approved AuthMethod.BiometricOrWatch
    1700000001000 1700000011000 (B "agent-key-1") sample_request_bytes) as (p & b & Hp & Hb);
    [exact sample_request_canonical|done|done|].
  exists p, b. split_and!; [by apply unwrap_ok|done|done|..];
    unfold AuthResponseBody.for_request in Hp; res_inv Hp; by subst p.
Qed.

Lemma signed_authentic p q b sk : AuthResponseBody.canonical_bytes p = Ok b -> bound_to p q ->
  exists r, SignedAuthResponse.sign p sk = Ok r /\ SignedAuthResponse.body r = p /\
    authentic (VerifyingKey_to_bytes (SigningKey_verifying_key sk)) q r.
Proof.
  intros Hb Hq. unfold SignedAuthResponse.sign. rewrite Hb. eexists. split; [done|]. split; [done|].
  split; [|exact Hq]. exists b. split; [exact Hb|apply sign_holds].
Qed.

Lemma wrong_request_rejected :
  response_rejects_wrong_request = Some tt.
Proof.
  destruct approval_some as (p & b & E & Hp & Hb & _).
  destruct (signed_authentic p sample_request b (signing_key x09)) as (r & Hr & Hbody & Hau);
    [done|by eapply for_request_bound|].
  unfold response_rejects_wrong_request. rewrite E. cbn [mbind option_bind]. rewrite Hr. cbn [unwrap mbind option_bind].
  apply assert_decide. apply binding_checked_after_signature.
  split; [apply response_verify_ok, Hau|]. split.
  - intros [Hid _]. destruct Hau as [_ [Hid' _]]. rewrite Hid in Hid'. discriminate.
  - eexists. vm_compute. reflexivity.
Qed.

Lemma freshness_of_approval : Forall (fun t => t = Some tt)
  [response_freshness_accepts_valid_time; response_freshness_accepts_exact_expiry_boundary;
   response_freshness_rejects_expired; response_freshness_rejects_future_beyond_skew].
Proof.
  destruct approval_some as (p & b & E & _ & _ & Hc & Hx).
  unfold response_freshness_accepts_valid_time, response_freshness_accepts_exact_expiry_boundary,
    response_freshness_rejects_expired, response_freshness_rejects_future_beyond_skew.
  rewrite E. cbn [mbind option_bind]. unfold AuthResponseBody.verify_freshness. rewrite Hc, Hx.
  repeat constructor.
Qed.

(** What the test on tampering checks. *)
Definition tampered_bytes : bytes := Eval vm_compute in
  ok_bytes (AuthRequestBody.canonical_bytes (with_pam_user sample_request (B "mallory"))).

(** The tests of the crate pass, for every implementation of the
    primitives that keeps their laws, and the one on a tampered request
    passes if and only if the signature scheme tells the two messages apart. *)
Theorem protocol_tests_pass :
  Forall (fun t => t = Some tt) protocol_tests /\
  (request_signature_rejects_tampering = Some tt <->
   VerifyingKey_verify (SigningKey_verifying_key (signing_key x07)) tampered_bytes
     (SigningKey_sign (signing_key x07) sample_request_bytes) = false).
Proof.
  pose proof freshness_of_approval as Hf. rewrite !Forall_cons in Hf. destruct Hf as (R1 & R2 & R3 & R4 & _).
  split.
  - unfold protocol_tests. rewrite !Forall_cons. split_and!; try assumption; try reflexivity.
    + unfold request_signature_verifies, SignedAuthRequest.sign. rewrite sample_request_canonical.
      apply unwrap_ok, request_verify_ok. eexists. split; [exact sample_request_canonical|apply sign_holds].
    + destruct approval_some as (p & b & E & Hp & Hb & _).
      destruct (signed_authentic p sample_request b (signing_key x09)) as (r & Hr & _ & Hau);
        [done|by eapply for_request_bound|].
      unfold response_binds_to_request. rewrite E. cbn [mbind option_bind]. rewrite Hr.
      by apply unwrap_ok, authentic_ok.
    + exact wrong_request_rejected.
    + by apply Forall_nil.
  - unfold request_signature_rejects_tampering, SignedAuthRequest.sign. rewrite sample_request_canonical.
    cbn [result_bind unwrap mbind option_bind]. rewrite assert_some, bool_decide_eq_true.
    unfold SignedAuthRequest.verify. cbn [SignedAuthRequest.body SignedAuthRequest.signature].
    replace (AuthRequestBody.canonical_bytes (with_pam_user sample_request (B "mallory")))
      with (Ok (E := ProtocolError) tampered_bytes) by (vm_compute; reflexivity).
    cbn [result_bind]. unfold verify_ed25519.
    rewrite bool_decide_true by apply VerifyingKey_to_bytes_length.
    rewrite VerifyingKey_bytes_id, Signature_bytes_id. cbn [ok_or result_bind].
    by destruct (VerifyingKey_verify _ _ _).
Qed.
End Pass.

(** ** A table of responses that passes *)

Definition verdicts : list (Decision.t * AuthMethod.t) :=
  flat_map (fun d => map (fun m => (d, m)) methods) decisions.
Definition verdict_of (r : SignedAuthResponse.t) : Decision.t * AuthMethod.t :=
  (AuthResponseBody.decision (SignedAuthResponse.body r), AuthResponseBody.auth_method (SignedAuthResponse.body r)).

Lemma in_verdicts v : v ∈ verdicts.
Proof. destruct v as [[] []]; apply (bool_decide_unpack _); vm_compute; exact I. Qed.

Lemma NoDup_verdicts : NoDup verdicts.
Proof. apply (bool_decide_unpack _). vm_compute. exact I. Qed.

Lemma has_verdict_true d m r : has_verdict d m r = true <-> verdict_of r = (d, m).
Proof.
  unfold has_verdict, verdict_of. rewrite andb_true_iff, !bool_decide_eq_true. split; [by intros [-> ->]|].
  by intros [= -> ->].
Qed.

Lemma verdict_of_with p d m s : verdict_of (SignedAuthResponse.mk (with_verdict p d m) s) = (d, m).
Proof. by destruct p. Qed.

Lemma with_own_verdict p :
  with_verdict p (AuthResponseBody.decision p) (AuthResponseBody.auth_method p) = p.
Proof. by destruct p. Qed.

(** A list in which each verdict is found once. *)
Lemma found_once (l : list SignedAuthResponse.t) :
  (forall d m, length (List.filter (has_verdict d m) l) = 1%nat) -> map verdict_of l ≡ₚ verdicts.
Proof.
  intros Hl. apply NoDup_Permutation; [|apply NoDup_verdicts|].
  - assert (forall d m, (length (List.filter (has_verdict d m) l) <= 1)%nat) as Hle
      by (intros d m; by rewrite Hl). clear Hl.
    induction l as [|r l IH]; cbn [map]; constructor.
    + intros (r' & Hr' & Hin)%list_elem_of_fmap.
      specialize (Hle (verdict_of r).1 (verdict_of r).2). cbn [List.filter] in Hle.
      rewrite (proj2 (has_verdict_true _ _ r)) in Hle by apply surjective_pairing.
      assert (In r' (List.filter (has_verdict (verdict_of r).1 (verdict_of r).2) l)) as Hf.
      { apply filter_In. split; [by apply list_elem_of_In|]. apply has_verdict_true. rewrite <- Hr'. apply surjective_pairing. }
      destruct (List.filter (has_verdict (verdict_of r).1 (verdict_of r).2) l); [done|cbn in Hle; lia].
    + apply IH. intros d m. specialize (Hle d m). cbn [List.filter] in Hle.
      destruct (has_verdict d m r); cbn [length] in Hle; lia.
  - intros [d m]. split; [intros _; apply in_verdicts|]. intros _. specialize (Hl d m).
    destruct (List.filter (has_verdict d m) l) as [|r k] eqn:E; [done|].
    assert (In r (List.filter (has_verdict d m) l)) as [Hin Hv]%filter_In by (rewrite E; by left).
    apply list_elem_of_fmap. exists r. split; [by apply has_verdict_true in Hv|by apply list_elem_of_In].
Qed.

Section Vectors.
Context `{CL : CryptoLaws} `{HL : HexLaws} `{SerdeJson ApprovalVector.t} `{SerdeJson EnumVector.t}.
Context `{SerdeJson SignedAuthResponse.t} `{SerdeJson (list SignedAuthResponse.t)}.

(** What a pass of the loops' body shows. *)
Definition checked (vector : EnumVector.t) (pk : bytes) (d : Decision.t) (m : AuthMethod.t)
  (r : SignedAuthResponse.t) : Prop :=
  SignedAuthResponse.body r = with_verdict (SignedAuthResponse.body (EnumVector.response vector)) d m /\
  authentic pk (SignedAuthRequest.body (EnumVector.request vector)) r /\
  exists text, to_vec r = Ok text /\ from_slice text = Ok r.

Lemma check_verdict_some vector responses pk sk d m :
  check_verdict vector responses pk sk d m = Some tt ->
  exists r, List.filter (has_verdict d m) responses = [r] /\ checked vector pk d m r.
Proof.
  unfold check_verdict. intros E.
  destruct (List.filter _ responses) as [|r [|? ?]] eqn:Ef; [discriminate| |discriminate].
  exists r. split; [done|]. cbn [head] in E.
  apply bind_Some in E as (_ & _ & E). apply bind_Some in E as (_ & [= <-] & E).
  apply bind_Some in E as ([] & Hv%unwrap_some & E).
  apply bind_Some in E as (a & _ & E). apply bind_Some in E as (b & _ & E).
  apply bind_Some in E as (_ & _ & E). apply bind_Some in E as (resigned & Hs%unwrap_some & E).
  apply bind_Some in E as ([] & Hb%assert_some%bool_decide_eq_true & E).
  apply bind_Some in E as (_ & _ & E). apply bind_Some in E as (text & Ht%unwrap_some & E).
  apply bind_Some in E as (back & Hr%unwrap_some & E).
  apply assert_some, bool_decide_eq_true in E as ->.
  unfold SignedAuthResponse.sign in Hs. apply result_bind_ok in Hs as (? & _ & [= <-]).
  split_and!; [by symmetry|by apply authentic_ok|by exists text].
Qed.

(** The table that the matrix test accepts is the whole matrix: the
    decisions and methods of the responses are the 25 combinations, each
    exactly once, and every response of the file is authentic for the
    vector's request under the agent's key, differs from the vector's
    response in nothing but the decision and the method, and survives the
    round trip through JSON. *)
Theorem enum_matrix_complete (approval_json response_enums_json : bytes) :
  test_vector_v1_response_enum_matrix_verifies approval_json response_enums_json = Some tt ->
  exists vector responses pk,
    from_slice approval_json = Ok vector /\ from_slice response_enums_json = Ok responses /\
    hex_decode (EnumVector.agent_public_key_hex vector) = Ok pk /\
    map verdict_of responses ≡ₚ verdicts /\
    Forall (fun r => checked vector pk (verdict_of r).1 (verdict_of r).2 r) responses.
Proof.
  unfold test_vector_v1_response_enum_matrix_verifies. intros E.
  apply bind_Some in E as (vector & Hv%unwrap_some & E).
  apply bind_Some in E as (responses & Hr%unwrap_some & E).
  apply bind_Some in E as (pk & Hpk%unwrap_some & E).
  apply bind_Some in E as (private & _ & E). apply bind_Some in E as (_ & _ & E).
  apply bind_Some in E as (_ & _ & E). rewrite for_each_some, Forall_forall in E.
  exists vector, responses, pk. split_and!; try done.
  all: assert (forall d m, exists r, List.filter (has_verdict d m) responses = [r] /\ checked vector pk d m r) as Hc.
  1, 3: intros d m; assert (d ∈ decisions) as Hd by (by destruct d; repeat constructor);
    specialize (E d Hd); rewrite for_each_some, Forall_forall in E;
    eapply check_verdict_some, E; by destruct m; repeat constructor.
  - apply found_once. intros d m. by destruct (Hc d m) as (r & -> & _).
  - apply Forall_forall. intros r Hin. destruct (Hc (verdict_of r).1 (verdict_of r).2) as (r' & Hf & Hck).
    assert (In r (List.filter (has_verdict (verdict_of r).1 (verdict_of r).2) responses)) as Hi.
    { apply filter_In. split; [by apply list_elem_of_In|]. apply has_verdict_true, surjective_pairing. }
    rewrite Hf in Hi. destruct Hi as [<-|[]]. exact Hck.
Qed.
End Vectors.

(** ** The vector that the helper generates *)

(** The member of a JSON object. *)
Fixpoint member (name : bytes) (fields : list (bytes * json_field)) : option json_field :=
  match fields with
  | [] => None
  | (n, v) :: fields => if decide (n = name) then Some v else member name fields
  end.

(** The structures of the two tests are read from the members with the
    names of their fields. *)
Record approval_of (fields : list (bytes * json_field)) (v : ApprovalVector.t) : Prop := {
  approval_host : member (B "host_public_key_hex") fields = Some (JString (ApprovalVector.host_public_key_hex v));
  approval_agent : member (B "agent_public_key_hex") fields = Some (JString (ApprovalVector.agent_public_key_hex v));
  approval_hash : member (B "request_hash_hex") fields = Some (JString (ApprovalVector.request_hash_hex v));
  approval_request : member (B "request") fields = Some (JRequest (ApprovalVector.request v));
  approval_response : member (B "response") fields = Some (JResponse (ApprovalVector.response v));
}.

Record enum_of (fields : list (bytes * json_field)) (v : EnumVector.t) : Prop := {
  enum_private : member (B "agent_private_key_hex") fields = Some (JString (EnumVector.agent_private_key_hex v));
  enum_agent : member (B "agent_public_key_hex") fields = Some (JString (EnumVector.agent_public_key_hex v));
  enum_request : member (B "request") fields = Some (JRequest (EnumVector.request v));
  enum_response : member (B "response") fields = Some (JResponse (EnumVector.response v));
}.

Lemma with_verdict_encodes p d m b : AuthResponseBody.canonical_bytes p = Ok b ->
  exists b', AuthResponseBody.canonical_bytes (with_verdict p d m) = Ok b'.
Proof.
  intros (Hv & Hs & _)%response_canonical_ok. eexists. rewrite response_canonical_spec.
  replace (AuthResponseBody.validate (with_verdict p d m)) with (Ok (E := ProtocolError) tt)
    by (rewrite <- Hv; by destruct p).
  replace (response_texts (with_verdict p d m)) with (response_texts p) by (by destruct p).
  cbn [result_bind]. by rewrite Hs.
Qed.

Lemma filter_absent vs (rs : list SignedAuthResponse.t) d m :
  Forall2 (fun v r => verdict_of r = v) vs rs -> (d, m) ∉ vs -> List.filter (has_verdict d m) rs = [].
Proof.
  intros Hf Hn. induction Hf as [|v r vs rs Hv Hf IH]; [done|]. rewrite not_elem_of_cons in Hn. cbn [List.filter].
  destruct (has_verdict d m r) eqn:E; [|naive_solver]. apply has_verdict_true in E. naive_solver congruence.
Qed.

Lemma filter_found vs (rs : list SignedAuthResponse.t) d m :
  Forall2 (fun v r => verdict_of r = v) vs rs -> NoDup vs -> (d, m) ∈ vs ->
  exists r, List.filter (has_verdict d m) rs = [r] /\ r ∈ rs /\ verdict_of r = (d, m).
Proof.
  intros Hf. induction Hf as [|v r vs rs Hv Hf IH]; intros Hn Hin; [by apply elem_of_nil in Hin|].
  apply NoDup_cons in Hn as [Hv' Hn]. cbn [List.filter]. apply elem_of_cons in Hin as [<-|Hin].
  - rewrite (proj2 (has_verdict_true _ _ r)) by done. exists r. rewrite (filter_absent vs) by done.
    split_and!; [done|left|done].
  - destruct (IH Hn Hin) as (r' & -> & Hr' & Hd). exists r'. split_and!; [|by right|done].
    destruct (has_verdict d m r) eqn:E; [|done]. apply has_verdict_true in E. naive_solver congruence.
Qed.

Section Generated.
Context `{CL : CryptoLaws} `{HL : HexLaws} `{SerdeJson ApprovalVector.t} `{SerdeJson EnumVector.t}.
Context `{JR : SerdeJsonLaws SignedAuthResponse.t} `{SerdeJson (list SignedAuthResponse.t)}.

Lemma check_verdict_pass vector responses vs sk p b d m :
  SignedAuthResponse.body (EnumVector.response vector) = p ->
  AuthResponseBody.canonical_bytes p = Ok b -> bound_to p (SignedAuthRequest.body (EnumVector.request vector)) ->
  Forall2 (fun v r => SignedAuthResponse.sign (with_verdict p v.1 v.2) sk = Ok r) vs responses ->
  Forall (fun r => exists text, to_vec r = Ok text) responses -> NoDup vs -> (d, m) ∈ vs ->
  check_verdict vector responses (VerifyingKey_to_bytes (SigningKey_verifying_key sk)) sk d m = Some tt.
Proof.
  intros Hp Hb Hbound Hsigned Htext Hn Hin. unfold check_verdict.
  assert (Forall2 (fun v r => verdict_of r = v) vs responses) as Hv.
  { eapply Forall2_impl; [exact Hsigned|]. intros [d' m'] r Hs. unfold SignedAuthResponse.sign in Hs.
    apply result_bind_ok in Hs as (? & _ & [= <-]). apply verdict_of_with. }
  destruct (filter_found _ _ _ _ Hv Hn Hin) as (r & -> & Hr & Hd).
  apply Forall2_flip in Hsigned. rewrite Forall_forall in Htext. destruct (Htext r Hr) as [text Ht].
  apply list_elem_of_lookup in Hr as [i Hi].
  eapply Forall2_lookup_l in Hsigned as ([d' m'] & Hl & Hs); [|exact Hi]. unfold flip in Hs. cbn [fst snd] in Hs.
  destruct (with_verdict_encodes p d' m' b Hb) as [b' Hb'].
  assert (bound_to (with_verdict p d' m') (SignedAuthRequest.body (EnumVector.request vector))) as Hbound'
    by (by destruct p).
  destruct (signed_authentic _ _ _ sk Hb' Hbound') as (r' & Hs' & Hbody & Hau).
  assert (r' = r) as -> by (cbn beta in Hs; congruence).
  assert ((d', m') = (d, m)) as [= -> ->].
  { rewrite <- Hd. unfold verdict_of. rewrite Hbody. by destruct p. }
  apply authentic_ok in Hau. rewrite Hp. cbn [head length].
  rewrite (assert_decide (1%nat = 1%nat)) by done. cbn [mbind option_bind].
  rewrite Hau, Hbody, Hb', Hs'. cbn [unwrap mbind option_bind].
  rewrite (assert_decide (b' = b')), Hbody by done. cbn [mbind option_bind].
  rewrite assert_decide by done. cbn [mbind option_bind]. rewrite Hau, Ht. cbn [unwrap mbind option_bind].
  rewrite (json_round_trip _ _ Ht). cbn [unwrap mbind option_bind]. by apply assert_decide.
Qed.

(** What the command [test-vector] prints passes the tests that the
    protocol crate makes on its vectors: if the file is read as the fields
    that [build_test_vector] gives, the approval test passes, and with a
    table of the vector's response for each decision and method, in any
    order, signed with the vector's agent key, the matrix test passes. *)
Theorem generated_vector_passes (approval_json enums_json : bytes) fields (v1 : ApprovalVector.t)
  (v2 : EnumVector.t) vs (responses : list SignedAuthResponse.t) :
  build_test_vector = Ok fields ->
  from_slice approval_json = Ok v1 -> approval_of fields v1 ->
  from_slice approval_json = Ok v2 -> enum_of fields v2 ->
  from_slice enums_json = Ok responses -> vs ≡ₚ verdicts ->
  Forall2 (fun v r => SignedAuthResponse.sign
      (with_verdict (SignedAuthResponse.body (EnumVector.response v2)) v.1 v.2) (signing_key x09) = Ok r)
    vs responses ->
  Forall (fun r => exists text, to_vec r = Ok text) responses ->
  test_vector_v1_approval_verifies approval_json = Some tt /\
  test_vector_v1_response_enum_matrix_verifies approval_json enums_json = Some tt.
Proof.
  intros Hf E1 A1 E2 A2 Er Hvs Hsigned Htext.
  assert (NoDup vs) as Hn by (rewrite Hvs; apply NoDup_verdicts).
  assert (length responses = 25%nat) as Hlen by (by rewrite <- (Forall2_length _ _ _ Hsigned), Hvs).
  unfold build_test_vector, SignedAuthRequest.sign in Hf. rewrite vector_request_canonical in Hf.
  cbn [result_bind SignedAuthRequest.body] in Hf.
  apply result_bind_ok in Hf as (p & Hp & Hf). pose proof (for_request_bound _ _ _ _ _ _ _ Hp) as Hbound.
  apply result_bind_ok in Hf as (h & Hh & Hf). apply result_bind_ok in Hf as (r & Hr & [= <-]).
  destruct A1 as [[= Hhost] [= Hagent] [= Hhash] [= Hq1] [= Hr1]].
  destruct A2 as [[= Hprivate] [= Hagent2] [= Hq2] [= Hr2]].
  unfold SignedAuthResponse.sign in Hr. apply result_bind_ok in Hr as (b & Hb & [= <-]).
  split.
  - unfold test_vector_v1_approval_verifies. rewrite E1. cbn [unwrap mbind option_bind].
    rewrite <- Hhost, <- Hagent, <- Hhash, <- Hq1, <- Hr1. unfold public_hex. rewrite !hex_round_trip.
    cbn [unwrap mbind option_bind SignedAuthRequest.body]. rewrite Hh.
    rewrite (proj2 (request_verify_ok _ _)).
    2: { eexists. split; [exact vector_request_canonical|apply sign_holds]. }
    cbn [unwrap mbind option_bind]. rewrite assert_decide by done. cbn [mbind option_bind].
    apply unwrap_ok, authentic_ok. split; [|exact Hbound]. exists b. split; [exact Hb|apply sign_holds].
  - unfold test_vector_v1_response_enum_matrix_verifies. rewrite E2, Er. cbn [unwrap mbind option_bind].
    rewrite <- Hagent2, <- Hprivate. unfold public_hex, private_hex. rewrite !hex_round_trip.
    cbn [unwrap mbind option_bind]. rewrite SigningKey_bytes_id by done.
    rewrite assert_decide by done. cbn [mbind option_bind]. rewrite assert_decide by done. cbn [mbind option_bind].
    apply for_each_some, Forall_forall. intros d _. apply for_each_some, Forall_forall. intros m _.
    eapply (check_verdict_pass v2 responses vs (signing_key x09) p b);
      [by rewrite <- Hr2|exact Hb|by rewrite <- Hq2| |exact Htext|exact Hn|rewrite Hvs; apply in_verdicts].
    rewrite <- Hr2 in Hsigned. exact Hsigned.
Qed.
End Generated.

#[local] Existing Instance sample_crypto.

(** With the sample scheme the test on tampering passes as well. *)
Lemma protocol_tests_pass_witness :
  Forall (fun t => t = Some tt) protocol_tests /\ request_signature_rejects_tampering = Some tt.
Proof.
  destruct (protocol_tests_pass (CL := sample_crypto_laws)) as [Ht Hm].
  split; [exact Ht|]. apply Hm. vm_compute. reflexivity.
Defined.

(** ** Witnesses on the vectors

    With the scheme that does not hash. *)

#[local] Existing Instance plain_crypto | 0.

#[local] Existing Instance sample_hex.
#[local] Existing Instance sample_hex_laws.
#[local] Existing Instance typed_response_json.
#[local] Existing Instance typed_response_json_laws.

(** The files, read as what the helper builds. *)
Definition sample_fields : list (bytes * json_field) := Eval vm_compute in
  match build_test_vector with Ok fields => fields | Err _ => [] end.

Definition string_of (name : bytes) : bytes :=
  match member name sample_fields with Some (JString s) => s | _ => [] end.
Definition request_in : SignedAuthRequest.t :=
  match member (B "request") sample_fields with
  | Some (JRequest q) => q | _ => SignedAuthRequest.mk vector_request [] end.
Definition response_in : SignedAuthResponse.t :=
  match member (B "response") sample_fields with Some (JResponse r) => r | _ => (SignedAuthResponse.mk vector_response []) end.

Definition sample_approval : ApprovalVector.t := Eval vm_compute in
  ApprovalVector.mk (string_of (B "host_public_key_hex")) (string_of (B "agent_public_key_hex"))
    (string_of (B "request_hash_hex")) request_in response_in.
Definition sample_enum : EnumVector.t := Eval vm_compute in
  EnumVector.mk (string_of (B "agent_private_key_hex")) (string_of (B "agent_public_key_hex")) request_in response_in.
Definition sample_responses : list SignedAuthResponse.t := Eval vm_compute in
  flat_map (fun v => match SignedAuthResponse.sign
      (with_verdict (SignedAuthResponse.body (EnumVector.response sample_enum)) v.1 v.2) (sample_sk x09) with
    | Ok r => [r] | Err _ => [] end) verdicts.

#[local] Instance sample_approval_json : SerdeJson ApprovalVector.t :=
  {| to_vec _ := Err "unused"%string; from_slice _ := Ok sample_approval |}.
#[local] Instance sample_enum_json : SerdeJson EnumVector.t :=
  {| to_vec _ := Err "unused"%string; from_slice _ := Ok sample_enum |}.
#[local] Instance sample_responses_json : SerdeJson (list SignedAuthResponse.t) :=
  {| to_vec _ := Err "unused"%string; from_slice _ := Ok sample_responses |}.

Lemma generated_vector_passes_witness :
  test_vector_v1_approval_verifies (B "approval.json") = Some tt /\
  test_vector_v1_response_enum_matrix_verifies (B "approval.json") (B "response-enums.json") = Some tt.
Proof.
  apply (generated_vector_passes (CL := plain_crypto_laws) (B "approval.json") (B "response-enums.json")
    sample_fields sample_approval sample_enum verdicts sample_responses).
  - vm_compute. reflexivity.
  - reflexivity.
  - split; vm_compute; reflexivity.
  - reflexivity.
  - split; vm_compute; reflexivity.
  - reflexivity.
  - done.
  - repeat (apply Forall2_cons_2; [vm_compute; reflexivity|]). apply Forall2_nil_2.
  - repeat (constructor; [eexists; vm_compute; reflexivity|]). constructor.
Defined.

Lemma enum_matrix_complete_witness :
  exists vector responses pk,
    from_slice (T := EnumVector.t) (B "approval.json") = Ok vector /\
    from_slice (T := list SignedAuthResponse.t) (B "response-enums.json") = Ok responses /\
    hex_decode (EnumVector.agent_public_key_hex vector) = Ok pk /\
    map verdict_of responses ≡ₚ verdicts /\
    Forall (fun r => checked vector pk (verdict_of r).1 (verdict_of r).2 r) responses.
Proof.
  apply (enum_matrix_complete (B "approval.json") (B "response-enums.json")). vm_compute. reflexivity.
Defined.
