(* ===== verification/FrameTests.v ===== *)
(** * The tests of the frames

    The theorem that the frame reader is the decoder of [FrameDecode].  The
    frame tests of [src/crates/helper/src/main.rs] and the test of the error
    kinds of [src/crates/helper/src/transport.rs] are functions over a kernel
    with socket pairs; that they pass follows from what the reader decodes. *)

From Stdlib Require Import NArith ZArith Lia List Bool.
From Stdlib Require Import Strings.Byte Strings.String.
From stdpp Require Import base decidable list option strings.
From S2P Require Import Prelude RustStd Protocol Sys Io Transport Frame FrameDecode.

Open Scope N_scope.

(** ** The reader is the decoder *)

Section Decode.
Context {W T : Type} `{Hsource : Source W T t}.

(** C38: reading a frame is decoding: on a stream that gives [b] and ends,
    with any cuts and interruptions, the reader ends with the result of the
    pure decoder on [b], and leaves the stream where the decoder leaves it:
    four bytes short of a length, a length above the limit, a short payload
    and a payload that is not the JSON of a value are the only failures. *)
Theorem frame_reader_decodes `{SerdeJson A} (fuel p : nat) (b : bytes) (s : state W) :
  source p b (world s) -> (length b + p < fuel)%nat ->
  exists s', read_json_frame (T := A) fuel t s = (Done (decode_frame b).1, s') /\
    gives p (decode_frame (T := A) b).2 s'.
Proof. apply read_frame_from. Qed.
End Decode.

(** ** Socket pairs

    What the tests call besides the calls of the program: [UnixStream::pair]
    and [shutdown(Shutdown::Write)].  These calls are not logged. *)

Class SocketPair (W : Type) := {
  k_socketpair : W -> result (fd * fd) errno * W;
  k_shutdown_write : fd -> W -> result unit errno * W;
}.

(** The laws: a pair opens; up to [capacity] bytes are taken, at least one at
    a time, with at most so many interruptions; and after the shutdown the
    other end gives what was written and then ends. *)
Class SocketPairLaws (W : Type) `{Kernel W} `{SocketPair W} := {
  capacity : nat;
  ready : nat -> W -> Prop;
  piped : fd -> fd -> nat -> bytes -> W -> Prop;
  drained : fd -> nat -> bytes -> W -> Prop;
  pair_opens p w : ready p w -> exists a b w', k_socketpair w = (Ok (a, b), w') /\ piped a b p [] w';
  pair_write a b p o w d : d <> [] -> (length o + length d <= capacity)%nat -> piped a b p o w ->
    exists r w', k_write a d w = (r, w') /\
      ((exists j, r = Ok j /\ (0 < j <= length d)%nat /\ piped a b p (o ++ take j d) w') \/
       (r = Err EINTR /\ (0 < p)%nat /\ piped a b (p - 1) o w'));
  pair_shutdown a b p o w : piped a b p o w ->
    exists w', k_shutdown_write a w = (Ok tt, w') /\ drained b p o w';
  pair_read b p o w l : (0 < l)%nat -> drained b p o w ->
    exists r w', k_read b l w = (r, w') /\
      ((exists c, r = Ok c /\ c `prefix_of` o /\ (length c <= l)%nat /\ (c = [] -> o = []) /\
          drained b p (drop (length c) o) w') \/
       (r = Err EINTR /\ (0 < p)%nat /\ drained b (p - 1) o w'));
}.

Section Monad.
Context {W : Type}.

Definition unlogged {A} (f : W -> result A errno * W) : M W io_error A := fun s =>
  let (r, w) := f (world s) in (Done (map_err Os r), St w (log s)).

(** [unwrap] and [assert!] *)
Definition unwrap {E F A} (m : M W E A) : M W F A :=
  let! r := attempt m in match r with Ok a => ret a | Err _ => panic end.
Definition assert {E} (b : bool) : M W E unit := if b then ret tt else panic.
End Monad.

(** [to_string] of an error; the text of an [io::Error] is an argument. *)
Definition error_text (io_text : io_error -> bytes) (e : TransportError) : bytes :=
  match e with
  | Timeout => B "agent operation deadline exceeded"
  | Io e => B "transport I/O: " ++ io_text e
  | Json message => B "invalid frame: " ++ B message
  | Oversized len => B "frame too large: " ++ show_N len ++ B " bytes"
  end.

(** ** The tests *)

Section Tests.
Context `{Kernel W} `{SocketPair W} (io_text : io_error -> bytes) (fuel : nat).
(** [serde_json::Value] and the value of the round trip *)
Context {Value : Type} `{SerdeJson Value} `{EqDecision Value} (hello : Value).
Context `{SerdeJson SignedAuthResponse.t}.

Abbreviation test := (M W io_error unit).

Definition shutdown (stream : UnixStream) : M W io_error unit := unlogged (k_shutdown_write (raw_fd stream)).

(** [let (mut writer, mut reader) = UnixStream::pair().unwrap();] and the
    rest of the test. *)
Definition with_pair (body : UnixStream -> UnixStream -> test) : test :=
  let! ends := unwrap (unlogged k_socketpair) in
  scoped ends.1 (scoped ends.2 (body {| raw_fd := ends.1 |} {| raw_fd := ends.2 |})).

Definition write_raw_frame (stream : UnixStream) (payload : bytes) : test :=
  do! assert (N.of_nat (length payload) <=? u32_max) ;;
  let len := N.of_nat (length payload) in
  do! unwrap (write_all fuel stream (to_be_bytes 4 len)) ;;
  do! unwrap (write_all fuel stream payload) ;;
  unwrap (shutdown stream).

Definition frame_reader_rejects_oversized_frame : test :=
  with_pair (fun writer reader =>
    do! assert (MAX_FRAME_LEN + 1 <=? u32_max) ;;
    let len := MAX_FRAME_LEN + 1 in
    do! unwrap (write_all fuel writer (to_be_bytes 4 len)) ;;
    do! unwrap (shutdown writer) ;;
    let! result := attempt (read_json_frame (T := Value) fuel reader) in
    match result with
    | Err error => assert (contains (error_text io_text error) (B "frame too large"))
    | Ok _ => panic
    end).

Definition frame_reader_rejects_truncated_length : test :=
  with_pair (fun writer reader =>
    do! unwrap (write_all fuel writer [x00; x01]) ;;
    do! unwrap (shutdown writer) ;;
    let! result := attempt (read_json_frame (T := Value) fuel reader) in
    assert (is_err result)).

Definition frame_reader_rejects_truncated_body : test :=
  with_pair (fun writer reader =>
    do! unwrap (write_all fuel writer (to_be_bytes 4 10)) ;;
    do! unwrap (write_all fuel writer (B "{}")) ;;
    do! unwrap (shutdown writer) ;;
    let! result := attempt (read_json_frame (T := Value) fuel reader) in
    assert (is_err result)).

Definition frame_reader_rejects_invalid_json : test :=
  with_pair (fun writer reader =>
    do! write_raw_frame writer (B "not-json") ;;
    let! result := attempt (read_json_frame (T := Value) fuel reader) in
    assert (is_err result)).

Definition frame_reader_rejects_wrong_schema : test :=
  with_pair (fun writer reader =>
    do! write_raw_frame writer (B "{}") ;;
    let! result := attempt (read_json_frame (T := SignedAuthResponse.t) fuel reader) in
    assert (is_err result)).

Definition frame_round_trip_json_value : test :=
  with_pair (fun writer reader =>
    let value := hello in
    do! unwrap (write_json_frame fuel writer value) ;;
    do! unwrap (shutdown writer) ;;
    let! decoded := unwrap (read_json_frame (T := Value) fuel reader) in
    assert (bool_decide (decoded = value))).

Definition frame_tests : list test :=
  [frame_reader_rejects_oversized_frame; frame_reader_rejects_truncated_length;
   frame_reader_rejects_truncated_body; frame_reader_rejects_invalid_json;
   frame_reader_rejects_wrong_schema; frame_round_trip_json_value].
End Tests.

(** [timeout_error_kinds_are_not_protocol_errors]: whether the test passes. *)
Definition timeout_error_kinds_are_not_protocol_errors : bool :=
  forallb (fun kind => match transport_error_from (Simple kind) with Timeout => true | _ => false end)
    [WouldBlock; TimedOut]
  && match transport_error_from (Simple UnexpectedEof) with Io _ => true | _ => false end.

(** ** They pass *)

(** The run of [m] from [s] ends, in a result and a state with [Q]. *)
Definition yields {W E A} (m : M W E A) (s : state W) (Q : result A E -> state W -> Prop) : Prop :=
  exists r s', m s = (Done r, s') /\ Q r s'.

Section Yields.
Context {W : Type}.

Lemma yields_mono {E A} (m : M W E A) s (P Q : result A E -> state W -> Prop) :
  yields m s P -> (forall r s', P r s' -> Q r s') -> yields m s Q.
Proof. intros (r & s' & ? & ?) HQ. exists r, s'. split; [done|by apply HQ]. Qed.

Lemma yields_bind {E A C} (m : M W E A) (k : A -> M W E C) s Q :
  yields m s (fun r s' => match r with Ok a => yields (k a) s' Q | Err e => Q (Err e) s' end) ->
  yields (bind m k) s Q.
Proof.
  intros ([a|e] & s' & E1 & HQ); unfold bind, yields; rewrite E1; [exact HQ|by exists (Err e), s'].
Qed.

Lemma yields_attempt {E F A} (m : M W E A) s (Q : result (result A E) F -> state W -> Prop) :
  yields m s (fun r => Q (Ok r)) -> yields (attempt m) s Q.
Proof. intros (r & s' & E1 & HQ). exists (Ok r), s'. unfold attempt. by rewrite E1. Qed.

Lemma yields_into {E F A} (f : E -> F) (m : M W E A) s (Q : result A F -> state W -> Prop) :
  yields m s (fun r => Q (map_err f r)) -> yields (into f m) s Q.
Proof. intros (r & s' & E1 & HQ). exists (map_err f r), s'. unfold into. by rewrite E1. Qed.

Lemma yields_unwrap {E F A} (m : M W E A) s (Q : result A F -> state W -> Prop) :
  yields m s (fun r s' => exists a, r = Ok a /\ Q (Ok a) s') -> yields (unwrap m) s Q.
Proof.
  intros (r & s' & E1 & (a & -> & HQ)). exists (Ok a), s'. unfold unwrap, bind, attempt. by rewrite E1.
Qed.

Lemma yields_scoped `{Kernel W} {E A} f (m : M W E A) s Q :
  yields m s (fun r s' => forall s'', Q r s'') -> yields (scoped f m) s Q.
Proof.
  intros (r & s' & E1 & HQ). exists r. unfold scoped, bind, attempt, close, prim, lift. rewrite E1.
  destruct (k_close f (world s')) as [u w]. eexists. split; [reflexivity|apply HQ].
Qed.

Lemma yields_assert {E} b s (Q : result unit E -> state W -> Prop) : b = true -> Q (Ok tt) s -> yields (assert b) s Q.
Proof. intros -> HQ. by exists (Ok tt), s. Qed.
End Yields.

Section Pass.
Context {W : Type} `{Laws : SocketPairLaws W} (io_text : io_error -> bytes).
Context {Value : Type} `{SerdeJsonLaws Value} `{EqDecision Value} (hello : Value).
Context `{SerdeJson SignedAuthResponse.t}.

#[local] Instance drained_source (t : UnixStream) : Source t.
Proof.
  refine {| source := drained (raw_fd t) |}. intros p b s l Hl Hs. destruct (pair_read _ _ _ _ l Hl Hs) as (r & w' & E & Hr).
  exists (map_err Os r), (St w' (log s ++ [EvRead (raw_fd t) l r])). split.
  { unfold read_, unix_stream_read, read, os, bind, prim. rewrite E. by destruct r. }
  destruct Hr as [(c & -> & ? & ? & ? & ?)|(-> & ? & ?)]; [left; by exists c|right; by exists (Os EINTR)].
Defined.

(** The writer has put [o] in the pair. *)
Definition filled (a b : fd) (p : nat) (o : bytes) (s : state W) : Prop :=
  exists p', (p' <= p)%nat /\ piped a b p' o (world s).

Lemma write_all_fills fuel (t : UnixStream) b p o d (s : state W) :
  (length o + length d <= capacity)%nat -> (length d + p < fuel)%nat -> filled (raw_fd t) b p o s ->
  yields (write_all fuel t d) s (fun r s' => r = Ok tt /\ filled (raw_fd t) b p (o ++ d) s').
Proof.
  intros Hc Hf Hs.
  unfold write_all. revert p o d s Hc Hf Hs. induction fuel as [|fuel IH]; intros p o d s Hc Hf (p' & Hp' & Hs); [lia|].
  cbn [loop]. apply yields_bind. destruct (decide (d = [])) as [->|Hd].
  { exists (Ok (inr tt)), s. split; [done|]. exists (Ok tt), s. rewrite app_nil_r. split_and!; [done..|]. by exists p'. }
  apply yields_bind, yields_attempt. destruct (pair_write _ _ _ _ _ d Hd Hc Hs) as (r & w' & E & Hr).
  exists (map_err Os r), (St w' (log s ++ [EvWrite (raw_fd t) d r])). split.
  { unfold write_, unix_stream_write, write, os, bind, prim. rewrite E. by destruct r. }
  destruct Hr as [(j & -> & Hj & Hs')|(-> & Hp & Hs')]; cbn [map_err].
  - destruct j as [|j]; [lia|]. rewrite decide_True by lia. eexists _, _. split; [reflexivity|].
    eapply yields_mono; [apply (IH p (o ++ take (S j) d) (drop (S j) d))|].
    + rewrite length_app, length_take, length_drop. lia.
    + rewrite length_drop. lia.
    + by exists p'.
    + intros x s' [-> Hx]. rewrite <- app_assoc, take_drop in Hx. done.
  - cbn [kind]. rewrite decide_True by done. eexists _, _. split; [reflexivity|].
    eapply yields_mono; [apply (IH (p - 1)%nat o d)|]; [done|lia|exists (p' - 1)%nat; split; [lia|done]|].
    intros x s' [-> (q & Hq & Hx)]. split; [done|]. exists q. split; [lia|done].
Qed.

Lemma yields_write_all {F} fuel (t : UnixStream) b p o d (s : state W) (Q : result unit F -> state W -> Prop) :
  (length o + length d <= capacity)%nat -> (length d + p < fuel)%nat -> filled (raw_fd t) b p o s ->
  (forall s', filled (raw_fd t) b p (o ++ d) s' -> Q (Ok tt) s') ->
  yields (unwrap (write_all fuel t d)) s Q.
Proof.
  intros Hc Hf Hs HQ. eapply yields_unwrap, yields_mono; [by apply write_all_fills|].
  intros r s' [-> Hs']. exists tt. split; [done|by apply HQ].
Qed.

Lemma yields_write_frame {A} `{SerdeJson A} {F} fuel (t : UnixStream) b p (v : A) text (s : state W)
  (Q : result unit F -> state W -> Prop) :
  to_vec v = Ok text -> N.of_nat (length text) <= MAX_FRAME_LEN -> (4 + length text <= capacity)%nat ->
  (4 + length text + p < fuel)%nat -> filled (raw_fd t) b p [] s ->
  (forall s', filled (raw_fd t) b p (frame text) s' -> Q (Ok tt) s') ->
  yields (unwrap (write_json_frame fuel t v)) s Q.
Proof.
  intros Hv Hmax Hc Hf Hs HQ. apply yields_unwrap. unfold write_json_frame. rewrite Hv. cbn [map_err].
  apply yields_bind. eexists _, s. split; [reflexivity|]. cbv beta iota. rewrite (proj2 (N.ltb_ge _ _) Hmax). cbv zeta.
  rewrite N.mod_small by (unfold MAX_FRAME_LEN in Hmax; lia).
  apply yields_bind, yields_into. eapply yields_mono.
  { eapply (write_all_fills fuel t b p); [| |exact Hs]; rewrite to_be_bytes_length; cbn [length]; lia. }
  intros r s1 [-> H1']. apply yields_bind, yields_into. eapply yields_mono.
  { eapply (write_all_fills fuel t b p); [|lia|exact H1']. cbn [app]. rewrite to_be_bytes_length. lia. }
  intros r s2 [-> H2']. eexists _, s2. split; [reflexivity|]. exists tt. split; [done|]. by apply HQ.
Qed.

Lemma yields_shutdown {F} (t : UnixStream) b p o (s : state W) (Q : result unit F -> state W -> Prop) :
  filled (raw_fd t) b p o s -> (forall s', gives (t := {| raw_fd := b |}) p o s' -> Q (Ok tt) s') ->
  yields (unwrap (shutdown t)) s Q.
Proof.
  intros (p' & Hp & Hs) HQ. apply yields_unwrap. destruct (pair_shutdown _ _ _ _ _ Hs) as (w' & E & Hd).
  eexists _, _. split; [unfold shutdown, unlogged; rewrite E; reflexivity|]. exists tt. split; [done|].
  apply HQ. by exists p'.
Qed.

Lemma yields_pair p body (s : state W) (Q : result unit io_error -> Prop) : ready p (world s) ->
  (forall a b s', filled a b p [] s' ->
     yields (body {| raw_fd := a |} {| raw_fd := b |}) s' (fun r _ => Q r)) ->
  yields (with_pair body) s (fun r _ => Q r).
Proof.
  intros Hs Hb. apply yields_bind, yields_unwrap. destruct (pair_opens _ _ Hs) as (a & b & w' & E & Hp).
  eexists _, _. split; [unfold unlogged; rewrite E; reflexivity|]. cbn [map_err]. exists (a, b). split; [done|].
  cbn [fst snd]. apply yields_scoped. eapply yields_mono.
  - apply yields_scoped. eapply yields_mono; [apply Hb; by exists p|]. intros r s' HQ s''. exact HQ.
  - intros r s' HQ s''. exact HQ.
Qed.

Lemma yields_read {A} `{SerdeJson A} {F} fuel b p o (s : state W) (Q : result A TransportError -> Prop) :
  gives (t := {| raw_fd := b |}) p o s -> (length o + p < fuel)%nat -> Q (decode_frame o).1 ->
  yields (attempt (F := F) (read_json_frame (T := A) fuel {| raw_fd := b |})) s
    (fun r _ => exists x, r = Ok x /\ Q x).
Proof.
  intros (p' & Hp & Hs) Hf HQ. apply yields_attempt.
  destruct (read_frame_from (A := A) fuel p' o s Hs ltac:(lia)) as (s' & E & _).
  eexists _, s'. split; [exact E|]. by eexists.
Qed.

(** A test that fills the pair and then reads a frame that has to fail. *)
Lemma yields_rejected {A} `{SerdeJson A} fuel b p o (check : result A TransportError -> M W io_error unit) (s : state W) :
  gives (t := {| raw_fd := b |}) p o s -> (length o + p < fuel)%nat ->
  (forall s', check (decode_frame o).1 s' = (Done (Ok tt), s')) ->
  yields (let! result := attempt (read_json_frame (T := A) fuel {| raw_fd := b |}) in check result) s
    (fun r _ => r = Ok tt).
Proof.
  intros Hg Hf Hc. apply yields_bind. eapply yields_mono.
  - apply (yields_read fuel b p o s (fun x => forall s', check x s' = (Done (Ok tt), s')) Hg Hf Hc).
  - intros r s' (x & -> & Hx). exists (Ok tt), s'. split; [apply Hx|done].
Qed.

Lemma yields_raw_frame fuel (t : UnixStream) b p payload (s : state W) (Q : result unit io_error -> state W -> Prop) :
  (4 + length payload <= capacity)%nat -> N.of_nat (length payload) <= u32_max ->
  (4 + length payload + p < fuel)%nat -> filled (raw_fd t) b p [] s ->
  (forall s', gives (t := {| raw_fd := b |}) p (frame payload) s' -> Q (Ok tt) s') ->
  yields (write_raw_frame fuel t payload) s Q.
Proof.
  intros Hc Hu Hf Hs HQ. apply yields_bind, yields_assert; [by apply N.leb_le|].
  apply yields_bind. eapply (yields_write_all fuel t b p []); [rewrite to_be_bytes_length; cbn; lia..|exact Hs|].
  intros s1 Hw1. cbn [app] in Hw1. apply yields_bind.
  eapply (yields_write_all fuel t b p (to_be_bytes 4 (N.of_nat (length payload)))); [rewrite to_be_bytes_length; lia|lia|exact Hw1|].
  intros s2 Hw2. eapply yields_shutdown; [exact Hw2|]. exact HQ.
Qed.

(** The frame tests of the helper pass: for every kernel whose socket
    pairs give what was written and then end, whatever the cuts and the
    interruptions, when [serde_json] refuses the two texts it has to refuse. *)
Theorem frame_tests_pass (fuel p : nat) (text : bytes) (s : state W) :
  ready p (world s) -> to_vec hello = Ok text -> N.of_nat (length text) <= MAX_FRAME_LEN ->
  (12 <= capacity)%nat -> (4 + length text <= capacity)%nat -> (13 + length text + p < fuel)%nat ->
  is_err (from_slice (T := Value) (B "not-json")) = true ->
  is_err (from_slice (T := SignedAuthResponse.t) (B "{}")) = true ->
  Forall (fun test => exists s', test s = (Done (Ok tt), s')) (frame_tests io_text fuel hello).
Proof.
  intros Hs Htext Hmax Hc Hc' Hf Hbad Hschema.
  enough (Forall (fun test => yields test s (fun r _ => r = Ok tt)) (frame_tests io_text fuel hello)) as Hall.
  { eapply Forall_impl; [exact Hall|]. intros test (r & s' & E & ->). by exists s'. }
  unfold frame_tests. repeat apply Forall_cons_2; [| | | | | |by apply Forall_nil_2].
  all: apply (yields_pair p); [exact Hs|]; intros a b s1 Hfill; cbv zeta.
  - apply yields_bind, yields_assert; [done|]. apply yields_bind.
    eapply (yields_write_all fuel {| raw_fd := a |} b p []); [cbn; lia|cbn; lia|exact Hfill|].
    intros s2 H2'. apply yields_bind. eapply yields_shutdown; [exact H2'|]. intros s3 Hg.
    eapply yields_rejected; [exact Hg|cbn; lia|]. intros s'. vm_compute. reflexivity.
  - apply yields_bind. eapply (yields_write_all fuel {| raw_fd := a |} b p []); [cbn; lia|cbn; lia|exact Hfill|].
    intros s2 H2'. apply yields_bind. eapply yields_shutdown; [exact H2'|]. intros s3 Hg.
    eapply yields_rejected; [exact Hg|cbn; lia|done].
  - apply yields_bind. eapply (yields_write_all fuel {| raw_fd := a |} b p []); [cbn; lia|cbn; lia|exact Hfill|].
    intros s2 H2'. apply yields_bind. eapply (yields_write_all fuel {| raw_fd := a |} b p (to_be_bytes 4 10)); [cbn; lia|cbn; lia|exact H2'|].
    intros s3 H3'. apply yields_bind. eapply yields_shutdown; [exact H3'|]. intros s4 Hg.
    eapply yields_rejected; [exact Hg|cbn; lia|done].
  - apply yields_bind. eapply (yields_raw_frame fuel {| raw_fd := a |} b p (B "not-json")); [cbn; lia|done|cbn; lia|exact Hfill|]. intros s2 Hg.
    eapply yields_rejected; [exact Hg|cbn; lia|]. intros s'.
    rewrite decode_one_frame by done. cbn [fst]. destruct (from_slice (B "not-json")); [done|reflexivity].
  - apply yields_bind. eapply (yields_raw_frame fuel {| raw_fd := a |} b p (B "{}")); [cbn; lia|done|cbn; lia|exact Hfill|]. intros s2 Hg.
    eapply yields_rejected; [exact Hg|cbn; lia|]. intros s'.
    rewrite decode_one_frame by done. cbn [fst]. destruct (from_slice (B "{}")); [done|reflexivity].
  - apply yields_bind. eapply (yields_write_frame fuel {| raw_fd := a |} b p hello text);
      [done|done|done|lia|exact Hfill|]. intros s2 H2'. apply yields_bind. eapply yields_shutdown; [exact H2'|].
    intros s3 Hg. apply yields_bind, yields_bind. eapply yields_mono.
    { eapply (yields_read fuel b p (frame text) s3 (fun x => x = Ok hello)); [exact Hg| |].
      - unfold frame. rewrite length_app, to_be_bytes_length. lia.
      - rewrite decode_one_frame by done. cbn [fst]. by rewrite (json_round_trip _ _ Htext). }
    intros r s' (x & -> & ->). eexists _, s'. split; [reflexivity|].
    apply yields_assert; [by apply bool_decide_eq_true|done].
Qed.
End Pass.

(** ** Witnesses: a pair that moves a few bytes at a time

    Descriptor 3 takes up to five bytes, 4 gives up to three; the first calls
    are interrupted.  There is nothing else in this world. *)

Record pipe : Type := Pipe { interrupts : nat; buffer : bytes }.

Definition pipe_read (g : fd) (l : nat) (w : pipe) : result bytes errno * pipe :=
  if g =? 4 then
    match interrupts w with
    | S n => (Err EINTR, Pipe n (buffer w))
    | O => let c := take (Nat.min l 3) (buffer w) in (Ok c, Pipe 0 (drop (length c) (buffer w)))
    end
  else (Err EBADF, w).

Definition pipe_write (g : fd) (d : bytes) (w : pipe) : result nat errno * pipe :=
  if g =? 3 then
    match interrupts w with
    | S n => (Err EINTR, Pipe n (buffer w))
    | O => let c := take 5 d in (Ok (length c), Pipe 0 (buffer w ++ c))
    end
  else (Err EBADF, w).

#[local] Instance pipe_kernel : Kernel pipe := {|
  k_instant_now w := (0, w);
  k_system_now w := (None, w);
  k_process_id w := (1, w);
  k_random n w := ([], w);
  k_sleep _ w := (tt, w);
  k_sun_path_len := 108;
  k_socket w := (Err EACCES, w);
  k_set_cloexec _ w := (Err EBADF, w);
  k_set_nonblocking _ w := (Err EBADF, w);
  k_connect _ _ w := (Err EBADF, w);
  k_take_error _ w := (Err EBADF, w);
  k_poll _ _ _ w := ({| poll_result := (-1)%Z; revents := 0; poll_errno := EBADF |}, w);
  k_bind _ w := (Err EACCES, w);
  k_accept _ w := (Err EBADF, w);
  k_read := pipe_read;
  k_write := pipe_write;
  k_open _ _ _ w := (Err ENOENT, w);
  k_openat _ _ _ _ w := (Err EBADF, w);
  k_fstat _ w := (Err EBADF, w);
  k_getcwd w := (Ok (B "/"), w);
  k_unlink _ w := (Err ENOENT, w);
  k_unlinkat _ _ w := (Err EBADF, w);
  k_dup_cloexec _ w := (Err EBADF, w);
  k_close _ w := (tt, w);
  k_fdopendir _ w := (Err EBADF, w);
  k_readdir _ w := (None, w);
  k_closedir _ w := (tt, w);
  k_stdout _ w := (tt, w);
|}.

#[local] Instance pipe_pair : SocketPair pipe := {|
  k_socketpair w := (Ok (3, 4), w);
  k_shutdown_write _ w := (Ok tt, w);
|}.

#[local] Instance pipe_laws : SocketPairLaws pipe.
Proof.
  refine {| capacity := 4096;
    ready p w := (interrupts w <= p)%nat /\ buffer w = [];
    piped a b p o w := a = 3 /\ b = 4 /\ (interrupts w <= p)%nat /\ buffer w = o;
    drained b p o w := b = 4 /\ (interrupts w <= p)%nat /\ buffer w = o |}.
  - intros p w [Hp Hb]. by exists 3, 4, w.
  - intros a b p o [n buf] d Hd _ (-> & -> & Hn & <-). cbn in Hn. unfold k_write, pipe_kernel, pipe_write.
    change (3 =? 3) with true. cbn [interrupts buffer]. destruct n as [|n]; eexists _, _; (split; [reflexivity|]).
    + left. exists (length (take 5 d)). split; [done|]. rewrite length_take.
      assert (0 < length d)%nat by (destruct d; [done|cbn; lia]). split; [lia|]. split_and!; [done|done|cbn; lia|].
      cbn [buffer]. f_equal. destruct (Nat.le_gt_cases 5 (length d)).
      * by rewrite Nat.min_l by lia.
      * rewrite Nat.min_r by lia. by rewrite !take_ge by lia.
    + right. split_and!; [done|lia|done|done|cbn; lia|done].
  - intros a b p o w (-> & -> & Hw). exists w. by split.
  - intros b p o [n buf] l Hl (-> & Hn & <-). cbn in Hn. unfold k_read, pipe_kernel, pipe_read.
    change (4 =? 4) with true. cbn [interrupts buffer]. destruct n as [|n]; eexists _, _; (split; [reflexivity|]).
    + left. eexists. split; [reflexivity|]. split_and!; [|rewrite length_take; lia| |done|cbn; lia|done].
      * exists (drop (Nat.min l 3) buf). by rewrite take_drop.
      * intros E%(f_equal length). rewrite length_take in E. destruct buf; [done|cbn in E; lia].
    + right. split_and!; [done|lia|done|cbn; lia|done].
Defined.

(** A text that is its own value; and a type with one value. *)
#[local] Instance text_json : SerdeJson bytes := {| to_vec b := Ok b; from_slice b := Ok b |}.
#[local] Instance hello_json : SerdeJson unit := {|
  to_vec _ := Ok (B "hello");
  from_slice b := if decide (b = B "hello") then Ok tt else Err "expected ident"%string |}.
#[local] Instance hello_json_laws : SerdeJsonLaws unit.
Proof. split. by intros [] b [= <-]. Qed.
#[local] Instance no_response_json : SerdeJson SignedAuthResponse.t := {|
  to_vec _ := Err "unused"%string; from_slice _ := Err "missing field"%string |}.

Lemma frame_tests_pass_witness :
  Forall (fun test => exists s', test (St (Pipe 4 []) []) = (Done (Ok tt), s'))
    (frame_tests (fun _ => []) 100 tt).
Proof.
  apply (frame_tests_pass (fun _ => []) tt 100 4 (B "hello")); try reflexivity.
  - by split.
  - by vm_compute.
  - cbn. lia.
  - cbn. lia.
  - cbn. lia.
Defined.

#[local] Existing Instance drained_source.

(** Nine bytes and no more: a frame of five; the first read is interrupted. *)
Lemma frame_reader_decodes_witness :
  exists s', read_json_frame (T := bytes) 20 {| raw_fd := 4 |} (St (Pipe 1 (frame (B "hello"))) [])
    = (Done (Ok (B "hello")), s') /\ gives (t := {| raw_fd := 4 |}) 1 [] s'.
Proof.
  exact (frame_reader_decodes (t := {| raw_fd := 4 |}) (A := bytes) 20 1 (frame (B "hello"))
    (St (Pipe 1 (frame (B "hello"))) []) (conj eq_refl (conj (le_n 1) eq_refl)) ltac:(cbn; lia)).
Defined.
