(* ===== verification/TransportTests.v ===== *)
(** * The tests of the transport that measure time

    [blocked_write_obeys_deadline] and
    [full_unix_listen_backlog_obeys_connect_deadline] of
    [src/crates/helper/src/transport.rs], over a kernel with a clock that moves
    little during a call and not much more than asked for during a [sleep] or a
    [poll]: both pass. *)

From Stdlib Require Import NArith ZArith Lia List Bool.
From Stdlib Require Import Strings.Byte Strings.String.
From stdpp Require Import base decidable list option strings.
From S2P Require Import Prelude RustStd Protocol Sys Io Transport Frame Common FrameTests.

Open Scope N_scope.

(** [libc::listen] on a socket that [bind] made; it is not logged. *)
Class Listen (W : Type) := { k_listen_backlog : fd -> N -> W -> result unit errno * W }.

Section Tests.
Context `{Kernel W} `{SocketPair W} `{Listen W}.

(** [Instant + Duration] *)
Definition add_instant {E} (t duration : N) : M W E N :=
  match checked_add_instant t duration with Some t => ret t | None => panic end.

Definition from_stream {E} (f : fd) (deadline : N) : M W E DeadlineStream :=
  do! unwrap (set_nonblocking f) ;;
  ret {| stream := f; deadline := deadline |}.

Definition flush (self : DeadlineStream) : M W io_error unit := ret tt.

Definition is_timeout (e : TransportError) : bool := match e with Timeout => true | _ => false end.

Definition ns_per_s : N := 1000 * ns_per_ms.

(** [assert!(start.elapsed() < Duration::from_secs(2))] *)
Definition assert_elapsed {E} (start : N) : M W E unit :=
  let! now := instant_now in assert (now - start <? 2 * ns_per_s).

Definition blocked_length : N := 8 * 1024 * 1024.

Definition blocked_write_obeys_deadline {E} (fuel : nat) : M W E unit :=
  let! (writer, reader) := unwrap (unlogged k_socketpair) in
  scoped reader (
    let! start := instant_now in
    scoped writer (
      let! deadline := add_instant start (80 * ns_per_ms) in
      let! stream := from_stream writer deadline in
      let! r := attempt (write_all fuel {| io_fuel := fuel; io_stream := stream |}
                           (replicate (N.to_nat blocked_length) x00)) in
      match r with
      | Ok _ => panic
      | Err error => do! assert (is_timeout (transport_error_from error)) ;; assert_elapsed start
      end)).

(** One turn of the loop; the state is [connections]. *)
Definition fill_round {E} (fuel : nat) (path : bytes) (connections : list fd) : M W E (list fd + list fd) :=
  let! now := instant_now in
  let! deadline := add_instant now (60 * ns_per_ms) in
  let! r := attempt (connect fuel path deadline) in
  match r with
  | Ok connection =>
      let connections := connections ++ [stream connection] in
      do! assert (length connections <? 10)%nat ;; ret (inl connections)
  | Err Timeout => ret (inr connections)
  | Err _ => panic
  end.

Fixpoint close_all {E} (connections : list fd) : M W E unit :=
  match connections with
  | [] => ret tt
  | f :: connections => do! close f ;; close_all connections
  end.

Definition backlog_path (cwd : bytes) (id : N) : bytes := path_join cwd (B ".backlog-" ++ show_N id).

Definition full_unix_listen_backlog_obeys_connect_deadline {E} (fuel : nat) : M W E unit :=
  let! cwd := unwrap getcwd in
  let! id := process_id in
  let path := backlog_path cwd id in
  let! listener := unwrap (sys_bind path) in
  scoped listener (
    do! unwrap (unlogged (k_listen_backlog listener 1)) ;;
    let! start := instant_now in
    let! connections := loop fuel (fill_round fuel path) [] in
    do! assert_elapsed start ;;
    do! unwrap (unlink path) ;;
    close_all connections).
End Tests.

(** ** The bench

    What the tests find: nothing yet; a pair whose writer has room for so many
    bytes and whose reader does not read; a bound socket; a listening one with
    room for so many connections. *)

Inductive scene : Type :=
| Fresh
| Pair (writer reader : fd) (room : nat)
| Bound (listener : fd) (path : bytes)
| Backlog (listener : fd) (path : bytes) (room : nat).

(** A call takes at most [tick], unless it is to wait; it then ends at most
    [late] after it has waited long enough. *)
Class Bench (W : Type) `{Kernel W} `{SocketPair W} `{Listen W} := {
  shows : scene -> W -> Prop;
  clock : W -> N;
  tick : N;
  late : N;
  brief : 3 * tick + late <= 10 * ns_per_ms;
  bench_now c w : shows c w -> exists t w', k_instant_now w = (t, w') /\ shows c w' /\
    clock w <= t <= clock w + tick /\ clock w' = t;
  bench_sleep c n w : shows c w -> exists w', k_sleep n w = (tt, w') /\ shows c w' /\
    clock w + n <= clock w' <= clock w + n + late;
  bench_socket c w : shows c w -> exists f w', k_socket w = (Ok f, w') /\ shows c w' /\ clock w <= clock w' <= clock w + tick;
  bench_cloexec c f w : shows c w -> exists w', k_set_cloexec f w = (Ok tt, w') /\ shows c w' /\
    clock w <= clock w' <= clock w + tick;
  bench_nonblocking c f w : shows c w -> exists w', k_set_nonblocking f w = (Ok tt, w') /\ shows c w' /\
    clock w <= clock w' <= clock w + tick;
  bench_pair w : shows Fresh w -> exists a b room w', k_socketpair w = (Ok (a, b), w') /\
    shows (Pair a b room) w' /\ N.of_nat room < blocked_length /\ clock w <= clock w' <= clock w + tick;
  bench_write a b room d w : d <> [] -> shows (Pair a b (S room)) w -> exists j w', k_write a d w = (Ok (S j), w') /\
    shows (Pair a b (room - j)) w' /\ (j < length d)%nat /\ (j <= room)%nat /\ clock w <= clock w' <= clock w + tick;
  bench_full a b d w : d <> [] -> shows (Pair a b 0) w -> exists w', k_write a d w = (Err EAGAIN, w') /\
    shows (Pair a b 0) w' /\ clock w <= clock w' <= clock w + tick;
  bench_poll a b ms w : shows (Pair a b 0) w -> exists r w', k_poll a POLLOUT ms w = (r, w') /\ poll_result r = 0%Z /\
    shows (Pair a b 0) w' /\ clock w + ms * ns_per_ms <= clock w' <= clock w + ms * ns_per_ms + late;
  bench_path w : shows Fresh w -> exists cwd w', k_getcwd w = (Ok cwd, w') /\ shows Fresh w' /\
    clock w <= clock w' <= clock w + tick /\
    forall w'', shows Fresh w'' -> exists id w''', k_process_id w'' = (id, w''') /\ shows Fresh w''' /\
      clock w'' <= clock w''' <= clock w'' + tick /\
      (x00 ∉ backlog_path cwd (id mod 4294967296)) /\
      (length (backlog_path cwd (id mod 4294967296)) < k_sun_path_len)%nat;
  bench_bind path w : shows Fresh w -> exists l w', k_bind path w = (Ok l, w') /\ shows (Bound l path) w' /\
    clock w <= clock w' <= clock w + tick;
  bench_listen l path w : shows (Bound l path) w -> exists room w', k_listen_backlog l 1 w = (Ok tt, w') /\
    shows (Backlog l path room) w' /\ (room < 10)%nat /\ clock w <= clock w' <= clock w + tick;
  bench_connect l path room f w : shows (Backlog l path (S room)) w -> exists w', k_connect f path w = (Ok tt, w') /\
    shows (Backlog l path room) w' /\ clock w <= clock w' <= clock w + tick;
  bench_refuse l path f w : shows (Backlog l path 0) w -> exists w', k_connect f path w = (Err EAGAIN, w') /\
    shows (Backlog l path 0) w' /\ clock w <= clock w' <= clock w + tick;
  bench_close c f w : shows c w -> shows c (k_close f w).2 /\ clock w <= clock (k_close f w).2 <= clock w + tick;
  bench_unlink c path w : shows c w -> exists w', k_unlink path w = (Ok tt, w');
}.

Section Pass.
Context {W : Type} `{B : Bench W}.

Lemma yields_prim {E A} (f : W -> A * W) ev (s : state W) a w' (Q : result A E -> state W -> Prop) :
  f (world s) = (a, w') -> Q (Ok a) (St w' (log s ++ [ev a])) -> yields (prim f ev) s Q.
Proof. intros E1 HQ. unfold yields, prim. rewrite E1. by eexists _, _. Qed.

Lemma yields_os {A} (f : W -> result A errno * W) ev (s : state W) r w' (Q : result A io_error -> state W -> Prop) :
  f (world s) = (r, w') -> Q (map_err Os r) (St w' (log s ++ [ev r])) -> yields (os (prim f ev)) s Q.
Proof. intros E1 HQ. unfold os. apply yields_bind. eapply yields_prim; [exact E1|]. by exists (map_err Os r), (St w' (log s ++ [ev r])). Qed.

Lemma yields_ret {E A} (a : A) (s : state W) (Q : result A E -> state W -> Prop) : Q (Ok a) s -> yields (ret a) s Q.
Proof. by exists (Ok a), s. Qed.

Lemma yields_throw {E A} (e : E) (s : state W) (Q : result A E -> state W -> Prop) : Q (Err e) s -> yields (throw e) s Q.
Proof. by exists (Err e), s. Qed.

Lemma yields_now {E} c (s : state W) (Q : result N E -> state W -> Prop) : shows c (world s) ->
  (forall t s', shows c (world s') -> clock (world s) <= t <= clock (world s) + tick -> clock (world s') = t -> Q (Ok t) s') -> yields instant_now s Q.
Proof. intros Hs HQ. destruct (bench_now c _ Hs) as (t & w' & E1 & ? & ? & ?). eapply yields_prim; [exact E1|]. by apply HQ. Qed.

Lemma yields_check c d (s : state W) (Q : result unit TransportError -> state W -> Prop) : shows c (world s) ->
  (forall s', shows c (world s') -> clock (world s) <= clock (world s') <= clock (world s) + tick ->
     d <= clock (world s') -> Q (Err Timeout) s') ->
  (forall s', shows c (world s') -> clock (world s) <= clock (world s') <= clock (world s) + tick ->
     clock (world s') < d -> Q (Ok tt) s') ->
  yields (check_deadline d) s Q.
Proof.
  intros Hs He Ho. apply yields_bind, (yields_now c); [done|]. intros t s' Hs' Ht Hc.
  destruct (N.leb_spec d t); [apply yields_throw, He|apply yields_ret, Ho]; by rewrite ?Hc.
Qed.

Lemma yields_add_instant {E} t d (s : state W) (Q : result N E -> state W -> Prop) :
  t + ns_per_s <= instant_max -> d <= ns_per_s -> Q (Ok (t + d)) s -> yields (add_instant t d) s Q.
Proof.
  intros Ht Hd HQ. unfold add_instant, checked_add_instant. rewrite (proj2 (N.leb_le _ _)) by lia. by apply yields_ret.
Qed.

(** ** A write that blocks *)

Lemma yields_wait fuel a b d (s : state W) : (2 <= fuel)%nat -> shows (Pair a b 0) (world s) ->
  d <= clock (world s) + ns_per_s ->
  yields (wait fuel a POLLOUT d) s (fun r s' => r = Err (Simple TimedOut) /\ shows (Pair a b 0) (world s') /\
    clock (world s') <= N.max (clock (world s) + tick) (d + ns_per_ms + late + tick)).
Proof.
  intros Hf Hs Hd. destruct fuel as [|[|fuel]]; [lia..|]. unfold wait. cbn [loop].
  apply yields_bind, yields_bind, (yields_now (Pair a b 0)); [done|]. intros t s1 Hs1 Ht Hc1. apply yields_bind.
  destruct (remaining_until d t) as [rem|] eqn:Er.
  2: { exists (Err (Simple TimedOut)), s1. split; [done|]. split; [done|]. split; [done|lia]. }
  assert (0 < rem /\ t + rem = d) as [Hr0 Hr].
  { unfold remaining_until in Er. destruct (N.leb_spec t d); [|done]. cbv zeta in Er.
    destruct (N.eqb_spec (d - t) 0); [done|]. injection Er as <-. lia. }
  exists (Ok rem), s1. split; [done|]. cbv zeta.
  assert (poll_timeout rem = rem / ns_per_ms + 1) as Hp.
  { unfold poll_timeout, u128_max, i32_max, ns_per_s, ns_per_ms in *.
    pose proof (N.Div0.div_le_mono rem (1000 * 1000000) 1000000 ltac:(lia)) as Hle.
    change (1000 * 1000000 / 1000000) with 1000 in Hle. lia. }
  rewrite Hp. destruct (bench_poll a b (rem / ns_per_ms + 1) _ Hs1) as (r & w' & E1 & Hr1 & Hs2 & Hw).
  assert (d < clock w' <= d + ns_per_ms + late) as Hw'.
  { pose proof (N.div_mod rem ns_per_ms ltac:(done)) as Hq. pose proof (N.mod_upper_bound rem ns_per_ms ltac:(done)) as Hm.
    rewrite N.mul_add_distr_r, N.mul_1_l, (N.mul_comm (rem / ns_per_ms)) in Hw. rewrite Hc1 in Hw.
    clear -Hq Hm Hw Hr. generalize dependent (rem mod ns_per_ms). generalize dependent (ns_per_ms * (rem / ns_per_ms)). intros. lia. }
  apply yields_bind. eapply yields_prim; [exact E1|]. rewrite Hr1. cbn [Z.ltb Z.compare]. apply yields_ret.
  apply yields_bind, yields_bind, (yields_now (Pair a b 0)); [done|]. intros t2 s2 Hs2' Ht2 Hc2. cbn [world] in Ht2.
  apply yields_bind. exists (Err (Simple TimedOut)), s2. split; [|split; [done|split; [done|lia]]].
  unfold remaining_until. by rewrite (proj2 (N.leb_gt _ _)) by lia.
Qed.

(** What a deadline is exceeded by. *)
Definition overrun (d : N) (s : state W) : Prop :=
  exists c, shows c (world s) /\ clock (world s) <= d + ns_per_ms + late + 2 * tick.

Lemma yields_deadline_write fuel a b room buf (self : DeadlineStream) (s : state W) (Q : result nat io_error -> state W -> Prop) :
  (2 <= fuel)%nat -> stream self = a -> buf <> [] -> shows (Pair a b room) (world s) ->
  deadline self <= clock (world s) + ns_per_s -> clock (world s) <= deadline self + tick ->
  (forall s', overrun (deadline self) s' -> Q (Err (Simple TimedOut)) s') ->
  (forall j s', (S j <= room)%nat -> (S j <= length buf)%nat -> shows (Pair a b (room - S j)) (world s') ->
     clock (world s) <= clock (world s') <= deadline self + tick -> Q (Ok (S j)) s') ->
  yields (deadline_write fuel self buf) s Q.
Proof.
  intros Hf <- Hb Hs Hd Hc He Ho. unfold deadline_write, transfer. destruct fuel as [|fuel]; [lia|]. cbn [loop].
  apply yields_bind, yields_bind, yields_into, (yields_check (Pair (stream self) b room)); [done|..].
  { intros s1 Hs1 Hc1 _. cbn [map_err]. apply He. eexists. split; [exact Hs1|lia]. }
  intros s1 Hs1 Hc1 Hlt. cbn [map_err]. apply yields_bind, yields_attempt. destruct room as [|room].
  - destruct (bench_full _ _ _ _ Hb Hs1) as (w' & E1 & Hs2 & Hc2). eapply yields_os; [exact E1|]. cbn [map_err].
    rewrite decide_False by done. rewrite decide_True by done. apply yields_bind. eapply yields_mono.
    { apply (yields_wait (S fuel) _ b); [done|exact Hs2|cbn [world]; lia]. }
    intros r s2 (-> & Hs3 & Hc3). cbn [world] in Hc3. apply He. eexists. split; [exact Hs3|lia].
  - destruct (bench_write _ _ _ _ _ Hb Hs1) as (j & w' & E1 & Hs2 & Hj & Hj' & Hc2). eapply yields_os; [exact E1|].
    cbn [map_err]. apply yields_ret, yields_ret. apply Ho; cbn [world]; [lia..| |lia].
    by replace (S room - S j)%nat with (room - j)%nat by lia.
Qed.

Lemma yields_write_blocked fuel a b (self : DeadlineStream) n : (2 <= n)%nat -> stream self = a ->
  forall room buf (s : state W), (room < length buf)%nat -> (room < fuel)%nat -> shows (Pair a b room) (world s) ->
  deadline self <= clock (world s) + ns_per_s -> clock (world s) <= deadline self + tick ->
  yields (write_all fuel {| io_fuel := n; io_stream := self |} buf) s
    (fun r s' => r = Err (Simple TimedOut) /\ overrun (deadline self) s').
Proof.
  intros Hn Hself. unfold write_all. induction fuel as [|fuel IH]; intros room buf s Hb Hf Hs Hd Hc; [lia|]. cbn [loop].
  assert (buf <> []) as Hne by (destruct buf; [cbn in Hb; lia|done]).
  apply yields_bind. rewrite decide_False by done. apply yields_bind, yields_attempt.
  unfold write_, deadline_io_write. cbn [io_fuel io_stream].
  apply (yields_deadline_write _ a b room); [done..| |].
  - intros s' Ho. rewrite decide_False by done. by apply yields_throw.
  - intros j s' Hr Hj Hs' Hc'. rewrite decide_True by done. apply yields_ret.
    apply (IH (room - S j)%nat); [rewrite length_drop; lia|lia|done|lia|lia].
Qed.

Lemma yields_elapsed {E} c start (s : state W) (Q : result unit E -> state W -> Prop) : shows c (world s) ->
  clock (world s) + tick < start + 2 * ns_per_s ->
  (forall s', shows c (world s') -> Q (Ok tt) s') -> yields (assert_elapsed start) s Q.
Proof.
  intros Hs Hc HQ. apply yields_bind, (yields_now c); [done|]. intros t s' Hs' Ht _.
  apply yields_assert; [apply N.ltb_lt; unfold ns_per_s, ns_per_ms in *; lia|by apply HQ].
Qed.

(** ** A connection that is refused *)

Lemma yields_backlog_pause l path room d (s : state W) (Q : result (unit + unit) TransportError -> state W -> Prop) :
  shows (Backlog l path room) (world s) ->
  (forall s', shows (Backlog l path room) (world s') ->
     N.min d (clock (world s) + ns_per_ms) <= clock (world s') ->
     clock (world s') <= N.max (clock (world s) + tick) d + late -> Q (Ok (inl tt)) s') ->
  yields (backlog_pause d) s Q.
Proof.
  intros Hs HQ. apply yields_bind, (yields_now (Backlog l path room)); [done|]. intros t s1 Hs1 Ht Hc1.
  destruct (bench_sleep _ (N.min (d - t) ns_per_ms) _ Hs1) as (w' & E1 & Hs2 & Hc2).
  apply yields_bind. eapply yields_prim; [exact E1|]. apply yields_ret. apply HQ; cbn [world]; [done|lia..].
Qed.

Lemma yields_connect_loop fuel n f l path room d k (s : state W) : (k + 2 < fuel)%nat ->
  shows (Backlog l path room) (world s) -> d <= clock (world s) + N.of_nat k * ns_per_ms ->
  clock (world s) <= d + late + 2 * tick ->
  yields (loop fuel (fun _ : unit => connect_round n f path d) tt) s (fun r s' =>
    clock (world s') <= d + late + 3 * tick /\
    ((r = Err Timeout /\ shows (Backlog l path room) (world s')) \/
     (r = Ok tt /\ exists room', room = S room' /\ shows (Backlog l path room') (world s')))).
Proof.
  revert k s. induction fuel as [|fuel IH]; intros k s Hf Hs Hk Hc; [lia|]. cbn [loop].
  apply yields_bind, yields_bind, (yields_check (Backlog l path room)); [done|..].
  { intros s1 Hs1 Hc1 _. split; [lia|]. by left. }
  intros s1 Hs1 Hc1 Hlt. apply yields_bind. destruct room as [|room].
  - destruct (bench_refuse _ _ f _ Hs1) as (w' & E1 & Hs2 & Hc2). eapply yields_prim; [exact E1|].
    apply (yields_backlog_pause l path 0); [done|]. cbn [world]. intros s2 Hs3 Hmin Hmax.
    destruct k as [|k]; [lia|]. apply (IH k); [lia|done|lia|lia].
  - destruct (bench_connect _ _ _ f _ Hs1) as (w' & E1 & Hs2 & Hc2). eapply yields_prim; [exact E1|].
    apply yields_ret, yields_ret. cbn [world]. split; [lia|]. right. split; [done|]. by exists room.
Qed.

Lemma yields_into_call {A} c (f : W -> result A errno * W) ev (s : state W) a
  (Q : result A TransportError -> state W -> Prop) :
  (exists w', f (world s) = (Ok a, w') /\ shows c w' /\ clock (world s) <= clock w' <= clock (world s) + tick) ->
  (forall s', shows c (world s') -> clock (world s) <= clock (world s') <= clock (world s) + tick -> Q (Ok a) s') ->
  yields (into transport_error_from (os (prim f ev))) s Q.
Proof.
  intros (w' & E1 & Hs & Hc) HQ. apply yields_into. eapply yields_os; [exact E1|]. cbn [map_err]. by apply HQ.
Qed.

Lemma yields_owned {E A} f (m : M W E A) (s : state W) (Q : result A E -> state W -> Prop) :
  yields m s (fun r s' => match r with
    | Ok a => Q (Ok a) s'
    | Err e => exists c, shows c (world s') /\ forall s'', shows c (world s'') ->
        clock (world s') <= clock (world s'') <= clock (world s') + tick -> Q (Err e) s''
    end) -> yields (owned f m) s Q.
Proof.
  intros (r & s' & E1 & HQ). apply yields_bind. exists (Ok r), s'. split; [by unfold attempt; rewrite E1|].
  destruct r as [a|e]; [by apply yields_ret|]. destruct HQ as (c & Hs & HQ).
  destruct (bench_close _ f _ Hs) as [Hs' Hc']. apply yields_bind. destruct (k_close f (world s')) as [u w'] eqn:Ec.
  eapply yields_prim; [exact Ec|]. apply yields_throw, HQ; [exact Hs'|exact Hc'].
Qed.

(** One attempt: it times out, or takes one of the places in time. *)
Definition attempted (l : fd) (path : bytes) (room : nat) (d : N) (r : result DeadlineStream TransportError) (s' : state W) : Prop :=
  (r = Err Timeout /\ clock (world s') <= d + late + 5 * tick /\ exists room', shows (Backlog l path room') (world s')) \/
  (exists self room', r = Ok self /\ room = S room' /\ shows (Backlog l path room') (world s') /\ clock (world s') < d).

Lemma yields_connect fuel l path room d k (s : state W) : (k + 2 < fuel)%nat -> x00 ∉ path -> (length path < k_sun_path_len)%nat ->
  shows (Backlog l path room) (world s) -> d <= clock (world s) + N.of_nat k * ns_per_ms -> clock (world s) + 3 * tick <= d ->
  yields (connect fuel path d) s (attempted l path room d).
Proof.
  intros Hf H0path Hlen Hs Hk Hc. unfold connect. apply yields_bind, (yields_check (Backlog l path room)); [done|..].
  { intros s1 Hs1 Hc1 _. left. split; [done|]. split; [lia|by exists room]. }
  intros s1 Hs1 Hc1 _. rewrite bool_decide_eq_false_2 by done. rewrite (proj2 (Nat.leb_gt _ _)) by done. cbn [orb].
  apply yields_bind. destruct (bench_socket _ _ Hs1) as (f & Hsocket). eapply yields_into_call; [exact Hsocket|].
  intros s2 Hs2 Hc2. apply yields_owned.
  apply yields_bind. eapply (yields_into_call (Backlog l path room)); [by apply bench_cloexec|]. intros s3 Hs3 Hc3.
  apply yields_bind. eapply (yields_into_call (Backlog l path room)); [by apply bench_nonblocking|]. intros s4 Hs4 Hc4.
  apply yields_bind. eapply yields_mono; [apply (yields_connect_loop fuel fuel f l path room d k); [done|done|lia|lia]|].
  intros r s5 (Hc5 & [[-> Hs5]|(-> & room' & -> & Hs5)]).
  - exists (Backlog l path room). split; [done|]. intros s6 Hs6 Hc6. left. split; [done|]. split; [lia|by exists room].
  - apply yields_bind, (yields_check (Backlog l path room')); [done|..].
    + intros s6 Hs6 Hc6 _. exists (Backlog l path room'). split; [done|]. intros s7 Hs7 Hc7.
      left. split; [done|]. split; [lia|by exists room'].
    + intros s6 Hs6 Hc6 Hlt. apply yields_ret. right. by eexists _, room'.
Qed.

(** [clock] after so many connections. *)
Definition by_now (start : N) (n : nat) : N := start + N.of_nat n * (60 * ns_per_ms + tick).

Lemma yields_fill {E} fuel n l path start : (100 <= n)%nat -> x00 ∉ path -> (length path < k_sun_path_len)%nat ->
  start + 2 * ns_per_s <= instant_max ->
  forall room connections (s : state W), (length connections + room < 10)%nat -> (room < fuel)%nat ->
  shows (Backlog l path room) (world s) -> clock (world s) <= by_now start (length connections) ->
  yields (loop fuel (fill_round (E := E) n path) connections) s (fun r s' =>
    exists all c, r = Ok all /\ shows c (world s') /\ clock (world s') <= by_now start 10 + 60 * ns_per_ms + late + 6 * tick).
Proof.
  intros Hn H0path Hlen Hmax. pose proof brief as Hbrief. induction fuel as [|fuel IH]; intros room connections s Hr Hf Hs Hc; [lia|].
  cbn [loop]. apply yields_bind, yields_bind, (yields_now (Backlog l path room)); [done|]. intros t s1 Hs1 Ht Hc1.
  assert (by_now start (length connections) <= by_now start 10) as Hten.
  { unfold by_now. apply N.add_le_mono_l, N.mul_le_mono_r. lia. }
  apply yields_bind, yields_add_instant; [unfold by_now, ns_per_s, ns_per_ms in *; lia|unfold ns_per_s; lia|]. apply yields_bind, yields_attempt.
  eapply yields_mono.
  { apply (yields_connect n l path room _ 60); [lia|done|done|done|lia|]. unfold ns_per_ms in *. lia. }
  intros r s2 [(-> & Hc2 & room' & Hs2)|(self & room' & -> & -> & Hs2 & Hc2)].
  - apply yields_ret, yields_ret. exists connections, (Backlog l path room'). split; [done|]. split; [done|].
    lia.
  - cbv zeta. apply yields_bind, yields_assert.
    { apply Nat.ltb_lt. rewrite length_app. cbn [length]. lia. }
    apply yields_ret. apply (IH room'); [rewrite length_app; cbn [length]; lia|lia|done|].
    rewrite length_app. cbn [length]. unfold by_now in *. rewrite Nat2N.inj_add. cbn [N.of_nat]. lia.
Qed.

Lemma yields_close_all {E} connections (s : state W) (Q : result unit E -> Prop) :
  Q (Ok tt) -> yields (close_all connections) s (fun r _ => Q r).
Proof.
  intros HQ. revert s. induction connections as [|f connections IH]; intros s; [by apply yields_ret|].
  cbn [close_all]. apply yields_bind. destruct (k_close f (world s)) as [u w'] eqn:E1.
  eapply yields_prim; [exact E1|]. apply IH.
Qed.

Lemma yields_unwrap_call {F A} (f : W -> result A errno * W) ev (s : state W) a w' (Q : result A F -> state W -> Prop) :
  f (world s) = (Ok a, w') -> Q (Ok a) (St w' (log s ++ [ev (Ok a)])) -> yields (unwrap (os (prim f ev))) s Q.
Proof. intros E1 HQ. eapply yields_unwrap, yields_os; [exact E1|]. by exists a. Qed.

Lemma yields_unlogged {F A} (f : W -> result A errno * W) (s : state W) a w' (Q : result A F -> state W -> Prop) :
  f (world s) = (Ok a, w') -> Q (Ok a) (St w' (log s)) -> yields (unwrap (unlogged f)) s Q.
Proof.
  intros E1 HQ. apply yields_unwrap. exists (Ok a), (St w' (log s)). unfold unlogged. rewrite E1. split; [done|by exists a].
Qed.

(** From the clock on. *)
Lemma yields_blocked_write {E} fuel (s : state W) : (N.to_nat blocked_length + 2 < fuel)%nat -> shows Fresh (world s) ->
  clock (world s) + 3 * ns_per_s <= instant_max ->
  yields (blocked_write_obeys_deadline (E := E) fuel) s (fun r _ => r = Ok tt).
Proof.
  intros Hf Hs Hmax. pose proof brief as Hbrief. destruct (bench_pair _ Hs) as (a & b & room & w' & E1 & Hs1 & Hroom & Hc1).
  apply yields_bind. eapply yields_unlogged; [exact E1|]. apply yields_scoped.
  apply yields_bind, (yields_now (Pair a b room)); [done|]. intros t s2 Hs2 Ht Hc2. apply yields_scoped. cbn [world] in Ht.
  apply yields_bind, yields_add_instant; [unfold ns_per_s, ns_per_ms in *; lia|unfold ns_per_s; lia|].
  apply yields_bind, yields_bind. destruct (bench_nonblocking _ a _ Hs2) as (w3 & E3 & Hs3 & Hc3).
  eapply yields_unwrap_call; [exact E3|]. apply yields_ret. apply yields_bind, yields_attempt. eapply yields_mono.
  { apply (yields_write_blocked fuel a b {| stream := a; deadline := t + 80 * ns_per_ms |} fuel ltac:(lia) eq_refl room).
    - rewrite length_replicate. lia.
    - lia.
    - exact Hs3.
    - cbn [world deadline]. unfold ns_per_s. lia.
    - cbn [world deadline]. lia. }
  intros r s4 (-> & c & Hs4 & Ho). apply yields_bind, yields_assert; [done|].
  apply (yields_elapsed c); [done|unfold ns_per_s, ns_per_ms in *; cbn [deadline] in Ho; lia|done].
Qed.

Lemma yields_full_backlog {E} fuel (s : state W) : (100 <= fuel)%nat -> shows Fresh (world s) ->
  clock (world s) + 3 * ns_per_s <= instant_max ->
  yields (full_unix_listen_backlog_obeys_connect_deadline (E := E) fuel) s (fun r _ => r = Ok tt).
Proof.
  intros Hf Hs Hmax. pose proof brief as Hbrief. destruct (bench_path _ Hs) as (cwd & w1 & E1 & Hs1 & Hc1 & Hid).
  apply yields_bind. eapply yields_unwrap_call; [exact E1|].
  destruct (Hid _ Hs1) as (id & w2 & E2 & Hs2 & Hc2 & H0path & Hlen).
  apply yields_bind, yields_bind. eapply yields_prim; [exact E2|]. apply yields_ret. cbv zeta.
  destruct (bench_bind (backlog_path cwd (id mod 4294967296)) _ Hs2) as (l & w3 & E3 & Hs3 & Hc3).
  apply yields_bind. eapply yields_unwrap_call; [exact E3|]. apply yields_scoped.
  destruct (bench_listen _ _ _ Hs3) as (room & w4 & E4 & Hs4 & Hroom & Hc4).
  apply yields_bind. eapply yields_unlogged; [exact E4|].
  apply yields_bind, (yields_now (Backlog l (backlog_path cwd (id mod 4294967296)) room)); [done|].
  intros t s5 Hs5 Ht Hc5. cbn [world] in *.
  apply yields_bind. eapply yields_mono.
  { apply (yields_fill fuel fuel l _ t Hf H0path Hlen ltac:(unfold ns_per_s, ns_per_ms in *; lia) room []); [cbn; lia|lia|done|]. unfold by_now. cbn. lia. }
  intros r s6 (all & c & -> & Hs6 & Hc6). apply yields_bind, (yields_elapsed c); [done|unfold by_now, ns_per_s, ns_per_ms in *; lia|].
  intros s7 Hs7. apply yields_bind. destruct (bench_unlink _ (backlog_path cwd (id mod 4294967296)) _ Hs7) as (w8 & E8).
  eapply yields_unwrap_call; [exact E8|]. eapply yields_mono; [by apply (yields_close_all (E := E) all _ (eq (Ok tt)))|].
  by intros ? ? <-.
Qed.
End Pass.

(** C34: the tests of the transport pass: on a bench as above, with any sizes of the
    writes and any delay of a call within its bounds, a write of eight
    megabytes to a peer that does not read, and connecting to a socket that
    nobody accepts from, end with a timeout, in time. *)
Theorem transport_tests_pass `{Bench W} {E} (fuel : nat) (s : state W) :
  (N.to_nat blocked_length + 100 < fuel)%nat -> shows Fresh (world s) ->
  clock (world s) + 3 * ns_per_s <= instant_max ->
  (exists s', blocked_write_obeys_deadline (E := E) fuel s = (Done (Ok tt), s')) /\
  (exists s', full_unix_listen_backlog_obeys_connect_deadline (E := E) fuel s = (Done (Ok tt), s')).
Proof.
  intros Hf Hs Hmax. split.
  - destruct (yields_blocked_write (E := E) fuel s ltac:(lia) Hs Hmax) as (r & s' & HR & ->). by exists s'.
  - destruct (yields_full_backlog (E := E) fuel s ltac:(lia) Hs Hmax) as (r & s' & HR & ->). by exists s'.
Qed.

(** ** A bench that computes *)

Record bench : Type := { found : scene; at_time : N }.

Definition pass_time (n : N) (w : bench) : bench := {| found := found w; at_time := at_time w + n |}.
Definition leave (c : scene) (w : bench) : bench := {| found := c; at_time := at_time w + 1000 |}.

#[local] Instance bench_kernel : Kernel bench := {|
  k_instant_now w := (at_time w + 1000, pass_time 1000 w);
  k_system_now w := (None, w);
  k_process_id w := (4242, w);
  k_random n w := (replicate n x00, w);
  k_sleep n w := (tt, pass_time (n + 1000) w);
  k_sun_path_len := 108;
  k_socket w := (Ok 7, w);
  k_set_cloexec _ w := (Ok tt, w);
  k_set_nonblocking _ w := (Ok tt, w);
  k_connect _ path w :=
    match found w with
    | Backlog l p (S room) => (Ok tt, leave (Backlog l p room) w)
    | _ => (Err EAGAIN, w)
    end;
  k_take_error _ w := (Err EACCES, w);
  k_poll _ _ ms w := ({| poll_result := 0; revents := 0; poll_errno := EINTR |}, pass_time (ms * ns_per_ms) w);
  k_bind path w := (Ok 8, leave (Bound 8 path) w);
  k_accept _ w := (Err EACCES, w);
  k_read _ _ w := (Err EACCES, w);
  k_write _ d w :=
    match found w with
    | Pair a b (S room) => let j := Nat.min room (length d - 1) in (Ok (S j), leave (Pair a b (room - j)) w)
    | _ => (Err EAGAIN, w)
    end;
  k_open _ _ _ w := (Err EACCES, w);
  k_openat _ _ _ _ w := (Err EACCES, w);
  k_fstat _ w := (Err EACCES, w);
  k_getcwd w := (Ok (B "/tmp"), w);
  k_unlink _ w := (Ok tt, w);
  k_unlinkat _ _ w := (Err EACCES, w);
  k_dup_cloexec _ w := (Err EACCES, w);
  k_close _ w := (tt, w);
  k_fdopendir _ w := (Err EACCES, w);
  k_readdir _ w := (None, w);
  k_closedir _ w := (tt, w);
  k_stdout _ w := (tt, w);
|}.

#[local] Instance bench_pairs : SocketPair bench := {|
  k_socketpair w := (Ok (5, 6), leave (Pair 5 6 1000) w);
  k_shutdown_write _ w := (Err EACCES, w);
|}.

#[local] Instance bench_listens : Listen bench := {|
  k_listen_backlog l _ w :=
    match found w with Bound _ p => (Ok tt, leave (Backlog l p 2) w) | _ => (Err EINVAL, w) end;
|}.

#[local] Ltac ledger := unfold ns_per_ms; cbn; split_and!; first [done|lia].

#[local] Instance bench_laws : Bench bench.
Proof.
  refine {| shows := fun c w => found w = c; clock := at_time; tick := 1000; late := ns_per_ms |};
    [by vm_compute|intros; destruct w as [c0 t]; cbn in *; subst..].
  - eexists _, _. split; [reflexivity|]. ledger.
  - eexists. split; [reflexivity|]. ledger.
  - eexists _, _. split; [reflexivity|]. ledger.
  - eexists. split; [reflexivity|]. ledger.
  - eexists. split; [reflexivity|]. ledger.
  - eexists _, _, _, _. split; [reflexivity|]. split_and!; [done|by vm_compute|cbn; lia..].
  - eexists _, _. split; [reflexivity|]. destruct d; [done|]. ledger.
  - eexists. split; [reflexivity|]. ledger.
  - eexists _, _. split; [reflexivity|]. ledger.
  - eexists _, _. split; [reflexivity|]. cbn -[backlog_path]. split_and!; [done|lia..|]. intros w'' Hw.
    eexists _, _. split; [reflexivity|]. split; [done|]. split; [lia|]. split; [by apply (bool_decide_unpack _)|].
    vm_compute. lia.
  - eexists _, _. split; [reflexivity|]. ledger.
  - eexists _, _. split; [reflexivity|]. ledger.
  - eexists. split; [reflexivity|]. ledger.
  - eexists. split; [reflexivity|]. ledger.
  - ledger.
  - by eexists.
Defined.

Definition bench_start : state bench := St {| found := Fresh; at_time := 0 |} [].
Definition bench_fuel : nat := N.to_nat (blocked_length + 200).

Lemma transport_tests_pass_witness :
  (exists s', blocked_write_obeys_deadline (E := io_error) bench_fuel bench_start = (Done (Ok tt), s')) /\
  (exists s', full_unix_listen_backlog_obeys_connect_deadline (E := io_error) bench_fuel bench_start = (Done (Ok tt), s')).
Proof. apply transport_tests_pass; [unfold bench_fuel; lia|done|done]. Defined.
