(* ===== verification/Disk.v ===== *)
(** * A file system in memory

    A kernel with directories, modes, owners and symbolic links, on which the
    tests that set up files are run.  Files are numbered; descriptors and
    directories refer to numbers, so a name that is renamed or replaced leaves
    them where they are.  There is one user; permissions are stored, and
    nothing but their display depends on them.  What the tests do not call
    (sockets, creating files by path with flags) fails. *)

From Stdlib Require Import NArith ZArith Lia List Bool.
From Stdlib Require Import Strings.Byte Strings.String.
From stdpp Require Import base decidable list option strings gmap.
From S2P Require Import Prelude RustStd Sys.

Open Scope N_scope.

Inductive node : Type :=
| Dir (perm owner : N) (entries : list (bytes * N))
| Reg (perm owner : N) (data : bytes)
| Link (target : bytes).

(** The root directory is the file [0]; [fresh] numbers files and
    descriptors; [cwd] is the working directory and its path. *)
Record disk : Type := Disk {
  nodes : gmap N node;
  fds : gmap N (N * nat);
  listings : gmap N (list bytes);
  fresh : N;
  cwd : N * bytes;
  euid : N;
  pid : N;
  clock : N;
}.

Definition set_node (i : N) (x : node) (d : disk) : disk :=
  Disk (<[i := x]> (nodes d)) (fds d) (listings d) (fresh d) (cwd d) (euid d) (pid d) (clock d).
Definition set_fds (f : gmap N (N * nat)) (d : disk) : disk :=
  Disk (nodes d) f (listings d) (fresh d) (cwd d) (euid d) (pid d) (clock d).
Definition set_listings (l : gmap N (list bytes)) (d : disk) : disk :=
  Disk (nodes d) (fds d) l (fresh d) (cwd d) (euid d) (pid d) (clock d).
Definition next_number (d : disk) : disk :=
  Disk (nodes d) (fds d) (listings d) (fresh d + 1) (cwd d) (euid d) (pid d) (clock d).
Definition tick (d : disk) : disk :=
  Disk (nodes d) (fds d) (listings d) (fresh d) (cwd d) (euid d) (pid d) (clock d + 1000).

(** A new descriptor for the file [i]. *)
Definition new_fd (i : N) (d : disk) : N * disk :=
  (fresh d, next_number (set_fds (<[fresh d := (i, 0%nat)]> (fds d)) d)).

(** ** Names *)

Fixpoint entry (n : bytes) (l : list (bytes * N)) : option N :=
  match l with
  | [] => None
  | (m, i) :: l => if decide (m = n) then Some i else entry n l
  end.

Definition without (n : bytes) (l : list (bytes * N)) : list (bytes * N) :=
  List.filter (fun '(m, _) => negb (bool_decide (m = n))) l.

Definition entries_of (i : N) (d : disk) : result (list (bytes * N)) errno :=
  match nodes d !! i with
  | Some (Dir _ _ l) => Ok l
  | Some _ => Err (Eother 20)
  | None => Err ENOENT
  end.

(** The directory [i] with other entries. *)
Definition set_entries (i : N) (l : list (bytes * N)) (d : disk) : disk :=
  match nodes d !! i with
  | Some (Dir p o _) => set_node i (Dir p o l) d
  | _ => d
  end.

(** The names in a path: neither empty ones nor [.]. *)
Definition names_in (path : bytes) : list bytes :=
  List.filter (fun n => negb (bool_decide (n = [])) && negb (bool_decide (n = B "."))) (split slash path).

Definition start_in (d : disk) (dir : N) (path : bytes) : N := if is_absolute path then 0 else dir.

(** The file that the names lead to from [dir]; [follow]: through a link at
    the end as well.  [depth] bounds the names and the links. *)
Fixpoint resolve (depth : nat) (d : disk) (dir : N) (path : list bytes) (follow : bool) : result N errno :=
  match depth, path with
  | O, _ => Err (Eother 40)
  | _, [] => Ok dir
  | S depth, n :: rest =>
      let? l := entries_of dir d in
      match entry n l with
      | None => Err ENOENT
      | Some i =>
          match nodes d !! i, rest, follow with
          | Some (Link target), [], false => Ok i
          | Some (Link target), _, _ =>
              resolve depth d (start_in d dir target) (names_in target ++ rest) follow
          | _, _, _ => resolve depth d i rest follow
          end
      end
  end.

Definition lookup_path (d : disk) (path : bytes) (follow : bool) : result N errno :=
  resolve 64 d (start_in d (cwd d).1 path) (names_in path) follow.

(** The directory of a path and the last name in it. *)
Definition lookup_parent (d : disk) (path : bytes) : result (N * bytes) errno :=
  match rev (names_in path) with
  | [] => Err EINVAL
  | n :: dirs =>
      let? i := resolve 64 d (start_in d (cwd d).1 path) (rev dirs) true in
      Ok (i, n)
  end.

(** Put the new file [x] at a name that must be free. *)
Definition link_new (dir : N) (n : bytes) (x : node) (d : disk) : result N errno * disk :=
  match entries_of dir d with
  | Err e => (Err e, d)
  | Ok l =>
      match entry n l with
      | Some _ => (Err EEXIST, d)
      | None =>
          let i := fresh d in
          (Ok i, next_number (set_entries dir (l ++ [(n, i)]) (set_node i x d)))
      end
  end.

Definition metadata_of (x : node) : Metadata :=
  match x with
  | Dir p o _ => {| mode := 0x4000 + p; uid := o |}
  | Reg p o _ => {| mode := 0x8000 + p; uid := o |}
  | Link _ => {| mode := 0xA000 + 0x1FF; uid := 0 |}
  end.

(** ** The calls of the program *)

Definition disk_open (path : bytes) (flags : list open_flag) (_ : N) (d : disk) : result fd errno * disk :=
  if bool_decide (O_CREAT ∈ flags) then (Err EINVAL, d)
  else
    match lookup_path d path true with
    | Ok i => let '(f, d) := new_fd i d in (Ok f, d)
    | Err e => (Err e, d)
    end.

Definition disk_openat (dir : fd) (n : bytes) (flags : list open_flag) (m : N) (d : disk)
  : result fd errno * disk :=
  match fds d !! dir with
  | None => (Err EBADF, d)
  | Some (i, _) =>
      match entries_of i d with
      | Err e => (Err e, d)
      | Ok l =>
          match entry n l with
          | None =>
              if bool_decide (O_CREAT ∈ flags) then
                match link_new i n (Reg m (euid d) []) d with
                | (Ok j, d) => let '(f, d) := new_fd j d in (Ok f, d)
                | (Err e, d) => (Err e, d)
                end
              else (Err ENOENT, d)
          | Some j =>
              if bool_decide (O_EXCL ∈ flags) then (Err EEXIST, d)
              else
                match nodes d !! j with
                | Some (Link _) => (Err (Eother 40), d)
                | Some (Reg _ _ _) =>
                    if bool_decide (O_DIRECTORY ∈ flags) then (Err (Eother 20), d)
                    else let '(f, d) := new_fd j d in (Ok f, d)
                | Some (Dir _ _ _) => let '(f, d) := new_fd j d in (Ok f, d)
                | None => (Err ENOENT, d)
                end
          end
      end
  end.

Definition disk_fstat (f : fd) (d : disk) : result Metadata errno * disk :=
  match fds d !! f with
  | Some (i, _) =>
      match nodes d !! i with Some x => (Ok (metadata_of x), d) | None => (Err EBADF, d) end
  | None => (Err EBADF, d)
  end.

Definition disk_read (f : fd) (len : nat) (d : disk) : result bytes errno * disk :=
  match fds d !! f with
  | Some (i, off) =>
      match nodes d !! i with
      | Some (Reg _ _ data) =>
          let b := take len (drop off data) in
          (Ok b, set_fds (<[f := (i, (off + length b)%nat)]> (fds d)) d)
      | Some (Dir _ _ _) => (Err (Eother 21), d)
      | _ => (Err EBADF, d)
      end
  | None => (Err EBADF, d)
  end.

Definition disk_write (f : fd) (b : bytes) (d : disk) : result nat errno * disk :=
  match fds d !! f with
  | Some (i, off) =>
      match nodes d !! i with
      | Some (Reg p o data) =>
          let data := take off data ++ b ++ drop (off + length b) data in
          (Ok (length b), set_fds (<[f := (i, (off + length b)%nat)]> (fds d)) (set_node i (Reg p o data) d))
      | _ => (Err EBADF, d)
      end
  | None => (Err EBADF, d)
  end.

Definition disk_unlinkat (dir : fd) (n : bytes) (d : disk) : result unit errno * disk :=
  match fds d !! dir with
  | None => (Err EBADF, d)
  | Some (i, _) =>
      match entries_of i d with
      | Err e => (Err e, d)
      | Ok l =>
          match entry n l with
          | None => (Err ENOENT, d)
          | Some _ => (Ok tt, set_entries i (without n l) d)
          end
      end
  end.

Definition disk_dup (f : fd) (d : disk) : result fd errno * disk :=
  match fds d !! f with
  | Some (i, off) => let '(g, d) := new_fd i d in (Ok g, d)
  | None => (Err EBADF, d)
  end.

(** The listing of a directory as it is when it is opened, with [.] and [..]
    first. *)
Definition disk_fdopendir (f : fd) (d : disk) : result N errno * disk :=
  match fds d !! f with
  | Some (i, _) =>
      match entries_of i d with
      | Ok l => (Ok f, set_listings (<[f := [B "."; B ".."] ++ map fst l]> (listings d)) d)
      | Err e => (Err e, d)
      end
  | None => (Err EBADF, d)
  end.

Definition disk_readdir (f : N) (d : disk) : option bytes * disk :=
  match listings d !! f with
  | Some (n :: l) => (Some n, set_listings (<[f := l]> (listings d)) d)
  | _ => (None, d)
  end.

#[global] Instance disk_kernel : Kernel disk := {|
  k_instant_now d := (clock d, tick d);
  k_system_now d := (Some (clock d), tick d);
  k_process_id d := (pid d, d);
  k_random n d := (replicate n x00, d);
  k_sleep _ d := (tt, tick d);
  k_sun_path_len := 108;
  k_socket d := (Err EACCES, d);
  k_set_cloexec _ d := (Err EBADF, d);
  k_set_nonblocking _ d := (Err EBADF, d);
  k_connect _ _ d := (Err EBADF, d);
  k_take_error _ d := (Err EBADF, d);
  k_poll _ _ _ d := ({| poll_result := (-1)%Z; revents := 0; poll_errno := EBADF |}, d);
  k_bind _ d := (Err EACCES, d);
  k_accept _ d := (Err EBADF, d);
  k_read := disk_read;
  k_write := disk_write;
  k_open := disk_open;
  k_openat := disk_openat;
  k_fstat := disk_fstat;
  k_getcwd d := (Ok (cwd d).2, d);
  k_unlink _ d := (Err EACCES, d);
  k_unlinkat := disk_unlinkat;
  k_dup_cloexec := disk_dup;
  k_close f d := (tt, set_fds (delete f (fds d)) d);
  k_fdopendir := disk_fdopendir;
  k_readdir := disk_readdir;
  k_closedir f d := (tt, set_listings (delete f (listings d)) (set_fds (delete f (fds d)) d));
  k_stdout _ d := (tt, d);
|}.

(** ** The calls of the tests *)

(** [std::fs] and [geteuid], by the path. *)
Class FileSystem (W : Type) := {
  fs_create_dir : bytes -> W -> result unit errno * W;
  fs_set_permissions : bytes -> N -> W -> result unit errno * W;
  fs_write : bytes -> bytes -> W -> result unit errno * W;
  fs_symlink : bytes -> bytes -> W -> result unit errno * W;
  fs_rename : bytes -> bytes -> W -> result unit errno * W;
  fs_remove_dir_all : bytes -> W -> result unit errno * W;
  fs_metadata : bytes -> W -> result Metadata errno;
  fs_symlink_metadata : bytes -> W -> result Metadata errno;
  geteuid : W -> N;
}.

Definition add_new (path : bytes) (x : node) (d : disk) : result unit errno * disk :=
  match lookup_parent d path with
  | Err e => (Err e, d)
  | Ok (i, n) => match link_new i n x d with (Ok _, d) => (Ok tt, d) | (Err e, d) => (Err e, d) end
  end.

Definition disk_chmod (path : bytes) (perm : N) (d : disk) : result unit errno * disk :=
  match lookup_path d path true with
  | Err e => (Err e, d)
  | Ok i =>
      match nodes d !! i with
      | Some (Dir _ o l) => (Ok tt, set_node i (Dir perm o l) d)
      | Some (Reg _ o data) => (Ok tt, set_node i (Reg perm o data) d)
      | _ => (Err EINVAL, d)
      end
  end.

(** The file is truncated, or created with the usual mode. *)
Definition disk_write_file (path data : bytes) (d : disk) : result unit errno * disk :=
  match lookup_path d path true with
  | Err _ => add_new path (Reg 0x1A4 (euid d) data) d
  | Ok i =>
      match nodes d !! i with
      | Some (Reg p o _) => (Ok tt, set_node i (Reg p o data) d)
      | _ => (Err (Eother 21), d)
      end
  end.

(** To a name that is free, as in the tests. *)
Definition disk_rename (old new : bytes) (d : disk) : result unit errno * disk :=
  match lookup_parent d old, lookup_parent d new with
  | Ok (i, n), Ok (j, m) =>
      match entries_of i d with
      | Err e => (Err e, d)
      | Ok l =>
          match entry n l with
          | None => (Err ENOENT, d)
          | Some x =>
              let d := set_entries i (without n l) d in
              match entries_of j d with
              | Ok k => (Ok tt, set_entries j (without m k ++ [(m, x)]) d)
              | Err e => (Err e, d)
              end
          end
      end
  | Err e, _ | _, Err e => (Err e, d)
  end.

(** The directory is no longer named; what is below is out of reach. *)
Definition disk_remove_dir_all (path : bytes) (d : disk) : result unit errno * disk :=
  match lookup_parent d path with
  | Err e => (Err e, d)
  | Ok (i, n) =>
      match entries_of i d with
      | Err e => (Err e, d)
      | Ok l =>
          match entry n l with
          | None => (Err ENOENT, d)
          | Some _ => (Ok tt, set_entries i (without n l) d)
          end
      end
  end.

Definition disk_metadata (path : bytes) (follow : bool) (d : disk) : result Metadata errno :=
  let? i := lookup_path d path follow in
  match nodes d !! i with Some x => Ok (metadata_of x) | None => Err ENOENT end.

#[global] Instance disk_files : FileSystem disk := {|
  fs_create_dir path d := add_new path (Dir 0x1ED (euid d) []) d;
  fs_set_permissions := disk_chmod;
  fs_write := disk_write_file;
  fs_symlink target path d := add_new path (Link target) d;
  fs_rename := disk_rename;
  fs_remove_dir_all := disk_remove_dir_all;
  fs_metadata path d := disk_metadata path true d;
  fs_symlink_metadata path d := disk_metadata path false d;
  geteuid := euid;
|}.

(** A disk with [/usr/bin/true] of root and the home directory of a user,
    [/home/dev], in which the tests run. *)
Definition disk0 (user process time : N) : disk :=
  Disk (list_to_map
    [(0, Dir 0x1ED 0 [(B "usr", 1); (B "home", 2)]); (1, Dir 0x1ED 0 [(B "bin", 3)]);
     (2, Dir 0x1ED 0 [(B "dev", 5)]); (3, Dir 0x1ED 0 [(B "true", 4)]);
     (4, Reg 0x1ED 0 (B "ELF")); (5, Dir 0x1ED user [])])
    ∅ ∅ 100 (5, B "/home/dev") user process time.
