(* ===== verification/TrustTests.v ===== *)
(** * The tests of trusted paths and of the replay cache

    [mod tests] of [src/crates/helper/src/trust.rs], and the two tests of
    [src/crates/helper/src/main.rs] that use the replay cache, as programs
    over any kernel with a file system; and their runs on the disk in
    memory of [Disk], as root and as another user. *)

From Stdlib Require Import NArith ZArith Lia List Bool.
From Stdlib Require Import Strings.Byte Strings.String.
From stdpp Require Import base decidable list option strings.
From S2P Require Import Prelude RustStd Crypto Protocol Samples Sys Io Transport Frame Trust Common Keys Replay.
From S2P Require Import FrameTests Disk.

Open Scope N_scope.

(** [to_string] of the errors; texts that the tests do not look for are an
    argument. *)
Definition io_error_text (other : io_error -> bytes) (e : io_error) : bytes :=
  match e with Custom _ message => B message | _ => other e end.
Definition boxed_text (other : io_error -> bytes) (e : error) : bytes :=
  match e with EMsg message => message | EIo e => io_error_text other e | _ => [] end.

Section Tests.
Context `{Kernel W} `{FileSystem W} `{Crypto} `{Hex} (other : io_error -> bytes) (fuel : nat).

Abbreviation test := (M W io_error unit).

(** A call of the test that must succeed, and a question about a path. *)
Definition must {A} (f : W -> result A errno * W) : M W io_error A := unwrap (unlogged f).
Definition ask {A} (f : W -> A) : M W io_error A := fun s => (Done (Ok (f (world s))), s).

Definition path_exists (path : bytes) : M W io_error bool := ask (fun w => is_ok (fs_metadata path w)).
Definition path_is_file (path : bytes) : M W io_error bool :=
  ask (fun w => match fs_metadata path w with Ok m => is_file m | Err _ => false end).

(** [File::open] *)
Definition file_open (path : bytes) : M W io_error File :=
  let! f := sys_open path [O_RDONLY; O_CLOEXEC] 0 in ret {| file_fd := f |}.

(** [read_to_string] *)
Definition read_to_string (file : File) : M W io_error bytes :=
  let! b := loop fuel (fun acc =>
    let! r := attempt (read_ file 32) in
    match r with
    | Ok [] => ret (inr acc)
    | Ok b => ret (inl (acc ++ b))
    | Err e => if decide (kind e = Interrupted) then ret (inl acc) else throw e
    end) [] in
  if utf8_valid b then ret b else throw (Custom InvalidData "stream did not contain valid UTF-8").

Definition directory (label : bytes) : M W io_error bytes :=
  let! p := process_id in
  let path := B ".trust-" ++ label ++ B "-" ++ show_N p in
  do! must (fs_create_dir path) ;;
  do! must (fs_set_permissions path 0x1C0) ;;
  ret path.

Definition rejected {A} (m : M W io_error A) : test := let! r := attempt m in assert (is_err r).

Definition production_owner_check_applies_to_files_and_directories : test :=
  let! dir := directory (B "owner") in
  let path := path_join dir (B "key") in
  do! must (fs_write path (B "original")) ;;
  do! must (fs_set_permissions path 0x180) ;;
  let! file := unwrap (file_open path) in
  scoped (file_fd file) (
    let! directory := unwrap (file_open dir) in
    scoped (file_fd directory) (
      let! euid := ask geteuid in
      do! (if negb (euid =? 0) then
             do! rejected (validate file true false true) ;;
             do! rejected (validate file true false false) ;;
             do! rejected (validate directory true true true) ;;
             rejected (validate directory true true false)
           else ret tt) ;;
      let! opened := attempt (open (B "/usr/bin/true") true false false) in
      do! match opened with Ok f => close (file_fd f) | Err _ => ret tt end ;;
      do! assert (is_ok opened) ;;
      must (fs_remove_dir_all dir))).

Definition trusted_read_keeps_validated_inode_after_path_replacement : test :=
  let! dir := directory (B "read") in
  let path := path_join dir (B "key") in
  do! must (fs_write path (B "original")) ;;
  do! must (fs_set_permissions path 0x180) ;;
  let! file := unwrap (open path false false true) in
  scoped (file_fd file) (
    do! must (fs_rename path (path_join dir (B "old"))) ;;
    do! must (fs_write path (B "replacement")) ;;
    let! contents := unwrap (read_to_string file) in
    do! assert (bool_decide (contents = B "original")) ;;
    must (fs_remove_dir_all dir)).

Definition replay_operations_stay_on_validated_directory_and_ignore_symlinks : test :=
  let! dir := directory (B "replay") in
  let cache_path := path_join dir (B "cache") in
  let moved_path := path_join dir (B "moved") in
  let untrusted_path := path_join dir (B "replacement") in
  do! must (fs_create_dir cache_path) ;;
  do! must (fs_set_permissions cache_path 0x1C0) ;;
  let! cache := unwrap (open cache_path false true true) in
  scoped (file_fd cache) (
    do! must (fs_rename cache_path moved_path) ;;
    do! must (fs_create_dir untrusted_path) ;;
    do! must (fs_symlink (B "replacement") cache_path) ;;
    let marker := replicate 64 x61 in
    let! file := unwrap (create_marker cache marker) in
    do! scoped (file_fd file) (unwrap (write_fmt fuel file [B "expires_at_ms=1" ++ [nl]])) ;;
    let! there := path_is_file (path_join moved_path marker) in
    do! assert there ;;
    let! astray := path_exists (path_join untrusted_path marker) in
    do! assert (negb astray) ;;
    let link := replicate 64 x62 in
    do! must (fs_symlink marker (path_join moved_path link)) ;;
    do! unwrap (cleanup_markers fuel cache 2) ;;
    let! remains := path_exists (path_join moved_path marker) in
    do! assert (negb remains) ;;
    let! metadata := ask (fs_symlink_metadata (path_join moved_path link)) in
    do! match metadata with
        | Ok m => assert (N.land (mode m) S_IFMT =? 0xA000)
        | Err _ => panic
        end ;;
    must (fs_remove_dir_all dir)).

(** ** The tests of [main.rs] *)

Definition sample_signed_response : result SignedAuthResponse.t ProtocolError :=
  let agent_key := SigningKey_from_bytes (replicate 32 x09) in
  let request := {|
    AuthRequestBody.protocol_version := PROTOCOL_VERSION;
    AuthRequestBody.request_id := B "req-replay-test";
    AuthRequestBody.nonce := replicate NONCE_LEN x42;
    AuthRequestBody.created_at_ms := 1700000000000;
    AuthRequestBody.expires_at_ms := 4102444800000;
    AuthRequestBody.linux_host_id := B "host-abc";
    AuthRequestBody.linux_hostname := B "linux.example.com";
    AuthRequestBody.pam_service := B "sudo";
    AuthRequestBody.pam_user := B "alice";
    AuthRequestBody.pam_ruser := Some (B "alice");
    AuthRequestBody.pam_rhost := None;
    AuthRequestBody.pam_tty := Some (B "pts/3");
    AuthRequestBody.sudo_command := None;
    AuthRequestBody.client_pid := Some 12345;
    AuthRequestBody.key_id := B "host-key-1";
    AuthRequestBody.alg := Ed25519
  |} in
  let? body := AuthResponseBody.for_request request Decision.Approved AuthMethod.BiometricOrWatch
                 1700000001000 4102444800000 (B "agent-key-1") in
  SignedAuthResponse.sign body agent_key.

Definition unique_test_dir (label : bytes) : M W io_error bytes :=
  let! now := system_now in
  match now with
  | None => panic
  | Some ns =>
      let! p := process_id in
      ret (B ".test-" ++ label ++ B "-" ++ show_N p ++ B "-" ++ show_N (ns / 1000))
  end.

Definition replay_cache_rejects_duplicate_response : test :=
  let! dir := unique_test_dir (B "replay") in
  do! must (fs_create_dir dir) ;;
  do! must (fs_set_permissions dir 0x1C0) ;;
  let! response := unwrap (lift sample_signed_response) in
  let! directory := unwrap (open dir false true true) in
  scoped (file_fd directory) (
    do! unwrap (record_replay_marker fuel directory response) ;;
    let! second := attempt (record_replay_marker fuel directory response) in
    do! match second with
        | Ok _ => panic
        | Err e => assert (contains (boxed_text other e) (B "replay"))
        end ;;
    let! _ := attempt (unlogged (fs_remove_dir_all dir)) in
    ret tt).

Definition replay_cache_rejects_permissive_directory : test :=
  let! dir := unique_test_dir (B "replay-perm") in
  do! must (fs_create_dir dir) ;;
  do! must (fs_set_permissions dir 0x1ED) ;;
  let! result := attempt (open dir false true true) in
  match result with
  | Ok f => do! close (file_fd f) ;; panic
  | Err e =>
      do! assert (contains (io_error_text other e) (B "must not grant group/world")) ;;
      let! _ := attempt (unlogged (fs_remove_dir_all dir)) in
      ret tt
  end.

Definition trust_tests : list test :=
  [production_owner_check_applies_to_files_and_directories;
   trusted_read_keeps_validated_inode_after_path_replacement;
   replay_operations_stay_on_validated_directory_and_ignore_symlinks;
   replay_cache_rejects_duplicate_response; replay_cache_rejects_permissive_directory].
End Tests.

#[local] Existing Instance plain_crypto.
#[local] Existing Instance sample_hex.

(** The state in which the tests are run. *)
Definition disk_state (user : N) : state disk := St (disk0 user 4242 1700000002000000000) [].

(** The tests pass on the disk, for root and for another user, and leave no
    descriptor and no file of theirs behind. *)
Theorem trust_tests_pass user : user = 0 \/ user = 1000 ->
  Forall (fun test => exists s', test (disk_state user) = (Done (Ok tt), s') /\
      fds (world s') = fds (disk0 user 4242 0) /\
      entries_of 5 (world s') = Ok [])
    (trust_tests (fun _ => []) 400).
Proof.
  intros [-> | ->]; repeat constructor; eexists; (split; [vm_compute; reflexivity|split; reflexivity]).
Qed.
