(* ===== verification/Pam.v ===== *)
(** * The PAM module ([src/pam/pam_macos_auth.c])

    The module that [sudo] loads: it reads its options, takes the user and
    the other items from PAM, opens the helper along a trusted path, runs it
    in a child process with a bound on the time, and turns its exit status
    into a PAM result.  C strings are bytes without NUL; [-1] and a null
    pointer are [None]; the messages to [syslog] are not modelled, nor is the
    build for development on macOS. *)

From Stdlib Require Import NArith ZArith Lia List Bool.
From Stdlib Require Import Strings.Byte Strings.String.
From stdpp Require Import base decidable list option strings.
From S2P Require Import Prelude RustStd Sys Common.

Open Scope N_scope.

(** ** Constants *)

Definition MACOS_AUTH_DEFAULT_HELPER : bytes := B "/usr/bin/macos-auth-helper".
Definition MACOS_AUTH_DEFAULT_CONFIG : bytes := B "/etc/macos-auth/config.toml".
Definition MACOS_AUTH_DEFAULT_TIMEOUT_MS : N := 20000.
Definition MACOS_AUTH_HELPER_TIMEOUT_EXIT : N := 10.

(** Of the headers of PAM and of the C library. *)
Definition PAM_SUCCESS : N := 0.
Definition PAM_AUTH_ERR : N := 7.
Definition PAM_AUTHINFO_UNAVAIL : N := 9.
Definition PAM_SERVICE : N := 1.
Definition PAM_TTY : N := 3.
Definition PAM_RHOST : N := 4.
Definition PAM_RUSER : N := 8.
Definition SIGKILL : N := 9.
Definition SIGTERM : N := 15.
Definition ECHILD : errno := Eother 10.
Definition ULONG_MAX : N := 18446744073709551615.

(** [WIFEXITED] and [WEXITSTATUS] on the status that [waitpid] fills in. *)
Definition WIFEXITED (status : N) : bool := N.land status 0x7F =? 0.
Definition WEXITSTATUS (status : N) : N := N.land (N.shiftr status 8) 0xFF.

(** ** Processes

    A program in a process takes the world to an exit status.  [fork] is given
    what the child goes on to do; [fexecve] replaces the program of the
    process by the one in the file. *)

Definition Program (W : Type) : Type := state W -> outcome N * state W.

Class PamKernel (W : Type) := {
  k_pam_get_item : N -> W -> result (option bytes) N * W;
  k_pam_get_user : W -> result (option bytes) N * W;
  k_strdup : bytes -> W -> result unit errno * W;
  k_monotonic : W -> result (N * N) errno * W;
  k_fork : Program W -> W -> result N errno * W;
  k_waitpid : N -> bool -> W -> result (option N) errno * W;
  k_kill : N -> N -> W -> unit * W;
  k_usleep : N -> W -> unit * W;
  k_dup2 : fd -> fd -> W -> result unit errno * W;
  k_close_range : fd -> W -> result unit errno * W;
  k_getdents64 : fd -> nat -> W -> result bytes errno * W;
  k_fexecve : fd -> list bytes -> list bytes -> W -> result (Program W) errno * W;
}.

Section Calls.
Context `{PamKernel W} {E : Type}.

Definition pam_get_item (item : N) : M W E (result (option bytes) N) :=
  prim (k_pam_get_item item) (fun r => EvPam (EvPamItem item r)).
Definition pam_get_user : M W E (result (option bytes) N) :=
  prim k_pam_get_user (fun r => EvPam (EvPamUser r)).
Definition strdup (s : bytes) : M W E (result unit errno) :=
  prim (k_strdup s) (fun r => EvPam (EvStrdup r)).
Definition clock_gettime : M W E (result (N * N) errno) :=
  prim k_monotonic (fun r => EvPam (EvMonotonic r)).
Definition fork (child : Program W) : M W E (result N errno) :=
  prim (k_fork child) (fun r => EvPam (EvFork r)).
Definition waitpid (pid : N) (nohang : bool) : M W E (result (option N) errno) :=
  prim (k_waitpid pid nohang) (fun r => EvPam (EvWaitpid pid nohang r)).
Definition kill (pid signal : N) : M W E unit :=
  prim (k_kill pid signal) (fun _ => EvPam (EvKill pid signal)).
Definition usleep (us : N) : M W E unit := prim (k_usleep us) (fun _ => EvPam (EvUsleep us)).
Definition dup2 (f g : fd) : M W E (result unit errno) :=
  prim (k_dup2 f g) (fun r => EvPam (EvDup2 f g r)).
Definition close_range (lowest : fd) : M W E (result unit errno) :=
  prim (k_close_range lowest) (fun r => EvPam (EvCloseRange lowest r)).
Definition getdents64 (f : fd) (len : nat) : M W E (result bytes errno) :=
  prim (k_getdents64 f len) (fun r => EvPam (EvGetdents f len r)).
Definition fexecve (f : fd) (argv envp : list bytes) : M W E (result (Program W) errno) :=
  prim (k_fexecve f argv envp)
    (fun r => EvPam (EvExec f argv envp (match r with Ok _ => Ok tt | Err e => Err e end))).
End Calls.

(** ** Options *)

Record macos_auth_options : Type := {
  helper_path : bytes;
  config_path : bytes;
  debug : bool;
  timeout_ms : N;
}.

Definition starts_with (value prefix : bytes) : bool :=
  bool_decide (take (length prefix) value = prefix).

Definition is_space (b : byte) : bool := (byte_val b =? 32) || ((9 <=? byte_val b) && (byte_val b <=? 13)).

Fixpoint skip_spaces (s : bytes) : bytes :=
  match s with b :: r => if is_space b then skip_spaces r else s | [] => [] end.

(** The digits at the front, as a number, and what follows them. *)
Fixpoint decimal (s : bytes) (acc : N) : N * bytes :=
  match s with
  | b :: r => match digit_val b with Some d => decimal r (acc * 10 + d) | None => (acc, s) end
  | [] => (acc, [])
  end.

(** [strtoul(value, &end, 10)]: the number, what [end] points at, and whether
    [errno] was set.  A sign is taken; a negated number wraps. *)
Definition strtoul (value : bytes) : N * bytes * bool :=
  let s := skip_spaces value in
  let '(neg, s) := match s with
                   | x2d :: r => (true, r)
                   | x2b :: r => (false, r)
                   | _ => (false, s)
                   end in
  match s with
  | b :: _ =>
      match digit_val b with
      | Some _ =>
          let '(n, rest) := decimal s 0 in
          if ULONG_MAX <? n then (ULONG_MAX, rest, true)
          else ((if neg : bool then (ULONG_MAX + 1 - n) mod (ULONG_MAX + 1) else n), rest, false)
      | None => (0, value, false)
      end
  | [] => (0, value, false)
  end.

Definition parse_uint_option (value : bytes) (fallback : N) : N :=
  match value with
  | [] => fallback
  | _ =>
      let '(parsed, end_, err) := strtoul value in
      if (err : bool) || (length end_ =? length value)%nat || negb (bool_decide (end_ = []))
         || (parsed =? 0) || (600000 <? parsed)
      then fallback else parsed
  end.

Definition parse_option (options : macos_auth_options) (arg : bytes) : macos_auth_options :=
  if bool_decide (arg = B "debug") then
    {| helper_path := helper_path options; config_path := config_path options; debug := true;
       timeout_ms := timeout_ms options |}
  else if starts_with arg (B "helper=") then
    {| helper_path := drop (length (B "helper=")) arg; config_path := config_path options;
       debug := debug options; timeout_ms := timeout_ms options |}
  else if starts_with arg (B "conf=") then
    {| helper_path := helper_path options; config_path := drop (length (B "conf=")) arg;
       debug := debug options; timeout_ms := timeout_ms options |}
  else if starts_with arg (B "timeout_ms=") then
    {| helper_path := helper_path options; config_path := config_path options; debug := debug options;
       timeout_ms := parse_uint_option (drop (length (B "timeout_ms=")) arg) MACOS_AUTH_DEFAULT_TIMEOUT_MS |}
  else options.

Definition parse_options (argv : list bytes) : macos_auth_options :=
  foldl parse_option
    {| helper_path := MACOS_AUTH_DEFAULT_HELPER; config_path := MACOS_AUTH_DEFAULT_CONFIG;
       debug := false; timeout_ms := MACOS_AUTH_DEFAULT_TIMEOUT_MS |} argv.

(** ** Arguments of the helper *)

(** [exec_argv] with its length; the last slot is kept for the null pointer. *)
Definition push_arg (exec_argv_len : nat) (exec_argv : list bytes) (arg : bytes) : option (list bytes) :=
  if (exec_argv_len <=? length exec_argv + 1)%nat then None else Some (exec_argv ++ [arg]).

Definition push_optional_pair (exec_argv_len : nat) (exec_argv : list bytes) (name : bytes)
  (value : option bytes) : option (list bytes) :=
  match value with
  | None | Some [] => Some exec_argv
  | Some value =>
      match push_arg exec_argv_len exec_argv name with
      | None => None
      | Some exec_argv => push_arg exec_argv_len exec_argv value
      end
  end.

Fixpoint push_args (exec_argv_len : nat) (exec_argv args : list bytes) : option (list bytes) :=
  match args with
  | [] => Some exec_argv
  | arg :: args =>
      match push_arg exec_argv_len exec_argv arg with
      | None => None
      | Some exec_argv => push_args exec_argv_len exec_argv args
      end
  end.

Fixpoint push_optional_pairs (exec_argv_len : nat) (exec_argv : list bytes)
  (pairs : list (bytes * option bytes)) : option (list bytes) :=
  match pairs with
  | [] => Some exec_argv
  | (name, value) :: pairs =>
      match push_optional_pair exec_argv_len exec_argv name value with
      | None => None
      | Some exec_argv => push_optional_pairs exec_argv_len exec_argv pairs
      end
  end.

Definition helper_argv (options : macos_auth_options) (user : bytes)
  (service ruser rhost tty : option bytes) : option (list bytes) :=
  match push_args 24 []
          [helper_path options; B "request"; B "--require-root-owned"; B "--config";
           config_path options; B "--user"; user] with
  | None => None
  | Some exec_argv =>
      push_optional_pairs 24 exec_argv
        [(B "--service", service); (B "--ruser", ruser); (B "--rhost", rhost); (B "--tty", tty)]
  end.

(** ** The path of the helper *)

(** [S_IXUSR] is [0o100]. *)
Definition trusted_metadata (st : Metadata) (directory : bool) : bool :=
  (uid st =? 0) && (N.land (mode st) 0x12 =? 0) &&
  (if directory then is_dir st else is_file st && negb (N.land (mode st) 0x40 =? 0)).

(** [strtok_r(path, ..)] to its end. *)
Definition tokens (path : bytes) : list bytes :=
  List.filter (fun part => negb (bool_decide (part = []))) (split slash path).

Definition helper_flags (directory : bool) : list open_flag :=
  [O_RDONLY; O_CLOEXEC; O_NOFOLLOW; O_NONBLOCK] ++ (if directory then [O_DIRECTORY] else []).

Section Module_.
Context `{Kernel W} `{PamKernel W}.

Section Parent.
Context {E : Type}.

Definition fstat_trusted (f : fd) (directory : bool) : M W E bool :=
  let! r := attempt (fstat f) in
  ret (match r with Ok st => trusted_metadata st directory | Err _ => false end).

(** The loop over the components, [f] being valid. *)
Fixpoint walk_helper (f : fd) (components : list bytes) : M W E (option fd) :=
  match components with
  | [] => ret (Some f)
  | component :: next =>
      if bool_decide (component = B ".") || bool_decide (component = B "..") then
        do! close f ;; ret None
      else
        let directory := match next with [] => false | _ => true end in
        let! r := attempt (openat f component (helper_flags directory) 0) in
        do! close f ;;
        match r with
        | Err _ => ret None
        | Ok child =>
            let! valid := fstat_trusted child directory in
            if valid : bool then walk_helper child next else do! close child ;; ret None
        end
  end.

Definition validate_helper_path (helper_path : bytes) : M W E (option fd) :=
  if negb (is_absolute helper_path) then ret None
  else if (length helper_path <? 2)%nat || bool_decide (last helper_path = Some slash) then ret None
  else
    let! copied := strdup helper_path in
    match copied with
    | Err _ => ret None
    | Ok _ =>
        let! r := attempt (sys_open (B "/") [O_RDONLY; O_DIRECTORY; O_CLOEXEC] 0) in
        match r with
        | Err _ => ret None
        | Ok f =>
            let! valid := fstat_trusted f true in
            if valid : bool then walk_helper f (tokens helper_path) else do! close f ;; ret None
        end
    end.

Definition pam_item_string (item_type : N) : M W E (option bytes) :=
  let! r := pam_get_item item_type in
  ret (match r with Ok (Some []) | Ok None | Err _ => None | Ok (Some value) => Some value end).

(** [tv_sec * 1000 + tv_nsec / 1000000] in [unsigned long long]. *)
Definition monotonic_ms : M W E (option N) :=
  let! r := clock_gettime in
  ret (match r with
       | Ok (tv_sec, tv_nsec) => Some ((tv_sec * 1000 + tv_nsec / 1000000) mod (ULONG_MAX + 1))
       | Err _ => None
       end).

(** ** The child *)

(** The digits of [entry->name], at offset 19 of the entry. *)
Definition entry_fd (entry : bytes) : fd := (decimal (drop 19 entry) 0).1.

(** [entry->reclen], two bytes at offset 16. *)
Definition entry_reclen (entry : bytes) : nat :=
  match drop 16 entry with
  | lo :: hi :: _ => N.to_nat (byte_val lo + 256 * byte_val hi)
  | _ => 0%nat
  end.

(** One entry of the buffer: [inl] what is left of it, [inr] whether all of
    its entries were read. *)
Definition close_entry (directory : fd) (buffer : bytes) : M W E (bytes + bool) :=
  match buffer with
  | [] => ret (inr true)
  | _ =>
      match entry_reclen buffer with
      | O => do! close directory ;; ret (inr false)
      | reclen =>
          let f := entry_fd buffer in
          do! (if (4 <=? f) && negb (f =? directory) then close f else ret tt) ;;
          ret (inl (drop reclen buffer))
      end
  end.

Definition close_listed (fuel : nat) (directory : fd) : M W E (unit + bool) :=
  let! r := getdents64 directory 4096 in
  match r with
  | Ok [] => do! close directory ;; ret (inr true)
  | Err EINTR => ret (inl tt)
  | Err _ => do! close directory ;; ret (inr false)
  | Ok buffer =>
      let! all := loop fuel (close_entry directory) buffer in
      ret (if all : bool then inl tt else inr false)
  end.

Definition close_inherited_fds (fuel : nat) : M W E bool :=
  let! r := close_range 4 in
  match r with
  | Ok _ => ret true
  | Err _ =>
      let! directory := attempt (sys_open (B "/proc/self/fd") [O_RDONLY; O_DIRECTORY; O_CLOEXEC] 0) in
      match directory with
      | Err _ => ret false
      | Ok directory => loop fuel (fun _ : unit => close_listed fuel directory) tt
      end
  end.
End Parent.

Definition envp : list bytes := [B "PATH=/usr/sbin:/usr/bin:/sbin:/bin"; B "LC_ALL=C"].

(** The program goes on in this process. *)
Definition become (program : Program W) : M W N N := fun s =>
  match program s with
  | (Done n, s') => (Done (Ok n), s')
  | (Panicked, s') => (Panicked, s')
  | (OutOfFuel, s') => (OutOfFuel, s')
  end.

(** What the child does; [_exit(n)] is [throw n]. *)
Definition child (fuel : nat) (helper_fd : fd) (exec_argv : list bytes) : M W N N :=
  let! r := (if helper_fd =? 3 then ret (Ok tt) else dup2 helper_fd 3) in
  match r with
  | Err _ => throw 127
  | Ok _ =>
      let! r := attempt (set_cloexec 3) in
      match r with
      | Err _ => throw 127
      | Ok _ =>
          let! closed := close_inherited_fds fuel in
          if negb closed then throw 127
          else
            let! r := fexecve 3 exec_argv envp in
            match r with
            | Ok program => become program
            | Err _ => throw 127
            end
      end
  end.

Definition child_program (fuel : nat) (helper_fd : fd) (exec_argv : list bytes) : Program W := fun s =>
  match child fuel helper_fd exec_argv s with
  | (Done (Ok n | Err n), s') => (Done n, s')
  | (Panicked, s') => (Panicked, s')
  | (OutOfFuel, s') => (OutOfFuel, s')
  end.

(** ** The parent *)

Section Wait.
Context {E : Type}.

Definition kill_and_reap (fuel : nat) (pid : N) : M W E unit :=
  do! kill pid SIGKILL ;;
  loop fuel (fun _ : unit =>
    let! r := waitpid pid false in
    ret (match r with Err EINTR => inl tt | _ => inr tt end)) tt.

(** The twenty turns after [SIGTERM], and what follows them. *)
Fixpoint grace (fuel : nat) (pid : N) (turns : nat) : M W E N :=
  match turns with
  | O => do! kill_and_reap fuel pid ;; ret MACOS_AUTH_HELPER_TIMEOUT_EXIT
  | S turns =>
      let! r := waitpid pid true in
      match r with
      | Ok (Some _) => ret MACOS_AUTH_HELPER_TIMEOUT_EXIT
      | Err e =>
          if decide (e = ECHILD) then ret 127
          else do! usleep 50000 ;; grace fuel pid turns
      | Ok None => do! usleep 50000 ;; grace fuel pid turns
      end
  end.

(** One turn of the loop: [inr (inl code)] returns [code], [inr (inr status)]
    leaves the loop with the status of the child. *)
Definition wait_round (fuel : nat) (pid start_ms timeout_ms : N) : M W E (unit + (N + N)) :=
  let! waited := waitpid pid true in
  match waited with
  | Ok (Some status) => ret (inr (inr status))
  | Err EINTR => ret (inl tt)
  | Err wait_error =>
      do! (if decide (wait_error = ECHILD) then ret tt else kill_and_reap fuel pid) ;;
      ret (inr (inl 127))
  | Ok None =>
      let! now := monotonic_ms in
      match now with
      | None => do! kill_and_reap fuel pid ;; ret (inr (inl 127))
      | Some now_ms =>
          if now_ms <? start_ms then do! kill_and_reap fuel pid ;; ret (inr (inl 127))
          else if timeout_ms <=? now_ms - start_ms then
            do! kill pid SIGTERM ;;
            let! code := grace fuel pid 20 in
            ret (inr (inl code))
          else do! usleep 10000 ;; ret (inl tt)
      end
  end.

Definition exit_of_status (status : N) : N := if WIFEXITED status then WEXITSTATUS status else 127.

Definition run_helper (fuel : nat) (helper_fd : fd) (exec_argv : list bytes) (timeout_ms : N) : M W E N :=
  if timeout_ms =? 0 then ret 127
  else
    let! start := monotonic_ms in
    match start with
    | None => ret 127
    | Some start_ms =>
        let! r := fork (child_program fuel helper_fd exec_argv) in
        match r with
        | Err _ => ret 127
        | Ok pid =>
            let! waited := loop fuel (fun _ : unit => wait_round fuel pid start_ms timeout_ms) tt in
            ret (match waited with inl code => code | inr status => exit_of_status status end)
        end
    end.
End Wait.

(** ** The entry points *)

Definition map_exit_to_pam (exit_code : N) : N :=
  match exit_code with
  | 0 => PAM_SUCCESS
  | 10 | 11 | 12 => PAM_AUTHINFO_UNAVAIL
  | _ => PAM_AUTH_ERR
  end.

Definition pam_sm_authenticate {E} (fuel : nat) (argv : list bytes) : M W E N :=
  let options := parse_options argv in
  let! service := pam_item_string PAM_SERVICE in
  let! ruser := pam_item_string PAM_RUSER in
  let! rhost := pam_item_string PAM_RHOST in
  let! tty := pam_item_string PAM_TTY in
  let! pam_result := pam_get_user in
  match pam_result with
  | Err _ | Ok None | Ok (Some []) => ret PAM_AUTH_ERR
  | Ok (Some user) =>
      match helper_argv options user service ruser rhost tty with
      | None => ret PAM_AUTH_ERR
      | Some exec_argv =>
          let! opened := validate_helper_path (helper_path options) in
          match opened with
          | None => ret PAM_AUTH_ERR
          | Some helper_fd =>
              let! helper_exit := run_helper fuel helper_fd exec_argv (timeout_ms options) in
              do! close helper_fd ;;
              ret (map_exit_to_pam helper_exit)
          end
      end
  end.

Definition pam_sm_setcred {E} : M W E N := ret PAM_SUCCESS.
End Module_.
