(* ===== verification/PamProps.v ===== *)
(** * What the PAM module does ([Pam])

    Its options and the arguments of the helper; the path it opens; the one
    child it has and what becomes of it; that it returns; and what the exit
    status of the child says. *)

From Stdlib Require Import NArith ZArith Lia List Bool.
From Stdlib Require Import Strings.Byte Strings.String.
From stdpp Require Import base decidable list option strings.
From S2P Require Import Prelude RustStd Sys Ownership Trust Automaton Pam.

Open Scope N_scope.

(** ** Options and arguments *)

Lemma parse_uint_option_range value fallback :
  parse_uint_option value fallback = fallback \/
  1 <= parse_uint_option value fallback <= 600000.
Proof.
  unfold parse_uint_option. destruct value as [|b value]; [by left|].
  destruct (strtoul (b :: value)) as [[n rest] err]. destruct (_ || _) eqn:E; [by left|]. right.
  repeat (apply orb_false_iff in E as [E ?]). destruct (N.eqb_spec n 0); [done|].
  destruct (N.ltb_spec 600000 n); [done|]. lia.
Qed.

(** The timeout is never zero and at most ten minutes. *)
Lemma parse_options_timeout argv : 1 <= timeout_ms (parse_options argv) <= 600000.
Proof.
  unfold parse_options.
  assert (forall o, 1 <= timeout_ms o <= 600000 -> 1 <= timeout_ms (foldl parse_option o argv) <= 600000) as Hf.
  { induction argv as [|arg argv IH]; intros o Ho; [done|]. apply IH. unfold parse_option.
    repeat case_match; try done. cbn [timeout_ms].
    destruct (parse_uint_option_range (drop (length (B "timeout_ms=")) arg) MACOS_AUTH_DEFAULT_TIMEOUT_MS)
      as [->|?]; [|done]. by unfold MACOS_AUTH_DEFAULT_TIMEOUT_MS. }
  apply Hf. cbn. by unfold MACOS_AUTH_DEFAULT_TIMEOUT_MS.
Qed.

(** What an item of PAM adds to the arguments. *)
Definition pair_args (pair : bytes * option bytes) : list bytes :=
  match pair.2 with None | Some [] => [] | Some value => [pair.1; value] end.

Lemma push_args_fit len argv args :
  (length argv + length args + 1 <= len)%nat -> push_args len argv args = Some (argv ++ args).
Proof.
  revert argv. induction args as [|arg args IH]; intros argv Hl; cbn in *; [by rewrite app_nil_r|].
  unfold push_arg. destruct (Nat.leb_spec len (length argv + 1)) as [Hle|]; [lia|].
  rewrite IH by (rewrite length_app; cbn; lia). by rewrite <- app_assoc.
Qed.

Lemma push_optional_pairs_fit len argv pairs :
  (length argv + 2 * length pairs + 1 <= len)%nat ->
  push_optional_pairs len argv pairs = Some (argv ++ flat_map pair_args pairs).
Proof.
  revert argv. induction pairs as [|[name value] pairs IH]; intros argv Hl; cbn in *; [by rewrite app_nil_r|].
  assert (push_optional_pair len argv name value = Some (argv ++ pair_args (name, value))) as ->.
  { unfold push_optional_pair, pair_args. destruct value as [[|b v]|]; cbn; rewrite ?app_nil_r; try done.
    pose proof (push_args_fit len argv [name; b :: v] ltac:(cbn; lia)) as Hp. cbn in Hp.
    destruct (push_arg len argv name); [|done]. by destruct (push_arg len _ (b :: v)). }
  rewrite IH; [by rewrite <- app_assoc|]. rewrite length_app.
  assert (length (pair_args (name, value)) <= 2)%nat by (unfold pair_args; cbn; destruct value as [[|? ?]|]; cbn; lia).
  lia.
Qed.

(** The arguments always fit, and are these. *)
Lemma helper_argv_fits options user service ruser rhost tty :
  helper_argv options user service ruser rhost tty = Some (
    [helper_path options; B "request"; B "--require-root-owned"; B "--config"; config_path options;
     B "--user"; user] ++
    flat_map pair_args [(B "--service", service); (B "--ruser", ruser); (B "--rhost", rhost);
                        (B "--tty", tty)]).
Proof.
  unfold helper_argv. rewrite push_args_fit by (cbn; lia). by rewrite push_optional_pairs_fit by (cbn; lia).
Qed.

(** ** The path of the helper *)

(** Root's, not writable by others, and for the file: regular, with the
    owner's permission to execute. *)
Lemma trusted_metadata_ok st directory :
  trusted_metadata st directory = true <->
  trusted true directory false st /\ (directory = false -> N.testbit (mode st) 6 = true).
Proof.
  rewrite <- check_metadata_ok. unfold trusted_metadata, check_metadata.
  assert (negb (N.land (mode st) 0x40 =? 0) = N.testbit (mode st) 6) as ->.
  { change 0x40 with (2 ^ 6). rewrite N.testbit_eqb.
    destruct (N.eqb_spec (N.land (mode st) (2 ^ 6)) 0) as [E|E].
    - rewrite <- N.testbit_eqb. symmetry. pose proof (N.land_spec (mode st) (2 ^ 6) 6) as Hs.
      rewrite E, N.bits_0, N.pow2_bits_true, andb_true_r in Hs. done.
    - rewrite <- N.testbit_eqb. symmetry. apply not_false_iff_true. intros Hb. apply E, N.bits_inj_0.
      intros i. rewrite N.land_spec, N.pow2_bits_eqb. destruct (N.eqb_spec 6 i) as [<-|]; [by rewrite Hb|].
      apply andb_false_r. }
  pose proof (file_not_dir st).
  destruct directory, (is_dir st), (is_file st), (uid st =? 0), (N.land (mode st) 18 =? 0), (N.testbit (mode st) 6);
    cbn; naive_solver.
Qed.

(** From a directory along the names to a file: each is opened without
    following links relative to the descriptor before it, that is closed, and
    what was opened is found trusted. *)
Inductive helper_walk : fd -> list bytes -> fd -> list event -> Prop :=
| helper_here f : helper_walk f [] f []
| helper_step dir n ns f st g evs :
    n <> B "." -> n <> B ".." ->
    let directory := match ns with [] => false | _ => true end in
    trusted true directory false st -> (directory = false -> N.testbit (mode st) 6 = true) ->
    helper_walk f ns g evs ->
    helper_walk dir (n :: ns) g
      (EvOpenat dir n (helper_flags directory) 0 (Ok f) :: EvClose dir :: EvFstat f (Ok st) :: evs).

Definition helper_opened {W} (path : bytes) (g : fd) (s s' : state W) : Prop :=
  exists root st evs, is_absolute path = true /\ last path <> Some slash /\
    trusted true true false st /\ helper_walk root (tokens path) g evs /\
    made s s' (EvPam (EvStrdup (Ok tt)) :: EvOpen (B "/") [O_RDONLY; O_DIRECTORY; O_CLOEXEC] 0 (Ok root) ::
               EvFstat root (Ok st) :: evs).

Section Path.
Context `{Kernel W} `{PamKernel W} {E : Type}.

Lemma fstat_trusted_ok f d (s s' : state W) :
  fstat_trusted (E := E) f d s = (Done (Ok true), s') ->
  exists st, trusted_metadata st d = true /\ made s s' [EvFstat f (Ok st)].
Proof.
  unfold fstat_trusted. intros HR. apply bind_ok in HR as (r & s1 & Ha & [= Hr <-]).
  apply attempt_ok in Ha as (r' & Ha & [= ->]). destruct r' as [st|e]; [|done].
  exists st. split; [done|]. unfold fstat in Ha. by apply os_prim_ok in Ha.
Qed.

Lemma walk_helper_ok ns f g (s s' : state W) :
  walk_helper (E := E) f ns s = (Done (Ok (Some g)), s') ->
  exists evs, helper_walk f ns g evs /\ made s s' evs.
Proof.
  revert f s. induction ns as [|n ns IH]; intros f s; cbn [walk_helper]; cbv zeta.
  { intros [= <- <-]. exists []. split; [constructor|apply made_nil]. }
  destruct (bool_decide (n = B ".") || bool_decide (n = B "..")) eqn:Edot.
  { intros HR. apply bind_ok in HR as (? & ? & _ & [=]). }
  apply orb_false_iff in Edot as [D1%bool_decide_eq_false D2%bool_decide_eq_false].
  intros HR. apply bind_ok in HR as (r & s1 & Ho & HR). apply attempt_ok in Ho as (r' & Ho & [= ->]).
  apply bind_ok in HR as ([] & s2 & (? & _ & M2 & _)%prim_done & HR). destruct r' as [c|e]; [|done].
  unfold openat in Ho. apply os_prim_ok in Ho. apply bind_ok in HR as (valid & s3 & Hv & HR).
  destruct valid; [|by apply bind_ok in HR as (? & ? & _ & [=])].
  apply fstat_trusted_ok in Hv as (st & [Ht Hx]%trusted_metadata_ok & M3).
  apply IH in HR as (evs & Hw & M4). eexists. split; [by eapply helper_step|].
  apply (made_app _ _ _ [_] _ Ho), (made_app _ _ _ [_] _ M2), (made_app _ _ _ [_] _ M3), M4.
Qed.

Lemma validate_helper_path_ok path g (s s' : state W) :
  validate_helper_path (E := E) path s = (Done (Ok (Some g)), s') -> helper_opened path g s s'.
Proof.
  unfold validate_helper_path. destruct (is_absolute path) eqn:Ea; [|done]. cbn [negb].
  destruct (_ || _) eqn:Eb; [done|]. apply orb_false_iff in Eb as [_ El%bool_decide_eq_false].
  intros HR. apply bind_ok in HR as ([[]|] & s1 & (? & [= <-] & M1 & _)%prim_done & HR); [|done].
  apply bind_ok in HR as (r & s2 & Ho & HR). apply attempt_ok in Ho as (r' & Ho & [= ->]).
  destruct r' as [root|e]; [|done]. unfold sys_open in Ho. apply os_prim_ok in Ho.
  apply bind_ok in HR as (valid & s3 & Hv & HR).
  destruct valid; [|by apply bind_ok in HR as (? & ? & _ & [=])].
  apply fstat_trusted_ok in Hv as (st & [Ht _]%trusted_metadata_ok & M3).
  apply walk_helper_ok in HR as (evs & Hw & M4). exists root, st, evs. split_and!; try done.
  apply (made_app _ _ _ [_] _ M1), (made_app _ _ _ [_] _ Ho), (made_app _ _ _ [_] _ M3), M4.
Qed.
End Path.

(** ** Descriptors *)

Section Descriptors.
Context `{Kernel W} `{PamKernel W} {E : Type}.

Definition opt_fd (o : option fd) : list fd := match o with Some f => [f] | None => [] end.

Lemma held_app h k g : held (h ++ k) g = (held h g + held k g)%Z.
Proof. unfold held. induction h as [|f h IH]; cbn; [done|]. rewrite IH. lia. Qed.

(** A call whose failure is a value leaves what else is held alone. *)
Lemma owns_attempt_frame {A E'} k (post : A -> list fd) (m : M W E' A) :
  owns [] post m ->
  owns k (fun r => match r with Ok a => post a | Err _ => [] end ++ k) (attempt (F := E) m).
Proof.
  intros Hm s r s' (r' & H1 & ->)%attempt_ok. apply Hm in H1 as (evs & ? & Hb).
  exists evs. split; [done|]. intros g. rewrite Hb, held_app. destruct r'; cbn; lia.
Qed.

Lemma owns_ret_perm {A} h (post : A -> list fd) (a : A) : h = post a -> owns (W := W) (E := E) h post (ret a).
Proof. intros ->. apply owns_ret. Qed.

Lemma owns_fstat_trusted f d k : owns (W := W) (E := E) k (fun _ => k) (fstat_trusted f d).
Proof.
  eapply owns_bind.
  - apply (owns_attempt_frame k (fun _ => [])). unfold fstat. apply owns_call. done.
  - intros r. apply owns_ret_perm. by destruct r.
Qed.

Lemma owns_walk_helper ns f : owns (W := W) (E := E) [f] opt_fd (walk_helper f ns).
Proof.
  revert f. induction ns as [|n ns IH]; intros f; cbn [walk_helper]; [by apply owns_ret_perm|].
  destruct (_ || _).
  { eapply owns_bind; [apply owns_close|]. intros ?. by apply owns_ret_perm. }
  cbv zeta. eapply owns_bind.
  { apply (owns_attempt_frame [f] (fun c => [c])). unfold openat. apply owns_open. done. }
  intros r. cbv beta. apply (owns_bind _ (fun _ => match r with Ok c => [c] | Err _ => [] end)).
  { intros s x s' (a & -> & Hl & _)%prim_done. exists [EvClose f]. split; [done|].
    intros g. destruct r; cbn; lia. }
  intros _. destruct r as [c|e]; [|by apply owns_ret_perm].
  eapply owns_bind; [apply owns_fstat_trusted|]. intros [|]; [apply IH|].
  eapply owns_bind; [apply owns_close|]. intros ?. by apply owns_ret_perm.
Qed.

Lemma owns_validate_helper_path path : owns (W := W) (E := E) [] opt_fd (validate_helper_path path).
Proof.
  unfold validate_helper_path. destruct (negb _); [by apply owns_ret_perm|].
  destruct (_ || _); [by apply owns_ret_perm|].
  apply (owns_bind [] (fun _ => [])); [by apply neutral_prim|]. intros [_|e]; [|by apply owns_ret_perm].
  eapply owns_bind.
  { apply (owns_attempt_frame [] (fun c => [c])). unfold sys_open. apply owns_open. done. }
  intros [f|e]; cbn [app]; [|by apply owns_ret_perm].
  eapply owns_bind; [apply owns_fstat_trusted|]. intros [|]; [apply owns_walk_helper|].
  eapply owns_bind; [apply owns_close|]. intros ?. by apply owns_ret_perm.
Qed.

Lemma neutral_monotonic_ms : neutral (monotonic_ms (W := W) (E := E)).
Proof. unfold monotonic_ms, clock_gettime. neutral_tac. Qed.

Lemma neutral_kill_and_reap fuel pid : neutral (kill_and_reap (W := W) (E := E) fuel pid).
Proof. unfold kill_and_reap, kill, waitpid. neutral_tac. Qed.

Lemma neutral_grace fuel pid turns : neutral (grace (W := W) (E := E) fuel pid turns).
Proof.
  induction turns as [|turns IH]; cbn [grace]; unfold waitpid, usleep.
  - apply neutral_bind; [apply neutral_kill_and_reap|]. intros _. apply neutral_ret.
  - neutral_tac.
Qed.

Lemma neutral_run_helper fuel f argv t : neutral (run_helper (W := W) (E := E) fuel f argv t).
Proof.
  unfold run_helper, wait_round, fork, waitpid, kill, usleep.
  pose proof neutral_monotonic_ms. pose proof neutral_kill_and_reap. pose proof neutral_grace. neutral_tac.
Qed.

End Descriptors.

Section Authenticate.
Context `{Kernel W} `{PamKernel W}.

Lemma owns_frame {A} k (post : A -> list fd) (m : M W Empty_set A) :
  owns [] post m -> owns k (fun a => post a ++ k) m.
Proof.
  intros Hm s r s' (evs & ? & Hb)%Hm. exists evs. split; [done|]. intros g. rewrite Hb.
  destruct r as [a|[]]. rewrite held_app. cbn. lia.
Qed.

Lemma neutral_authenticate fuel argv :
  neutral (pam_sm_authenticate (W := W) (E := Empty_set) fuel argv).
Proof.
  unfold pam_sm_authenticate, pam_item_string, pam_get_item, pam_get_user. cbv zeta.
  do 5 (apply neutral_bind; [neutral_tac|intros ?]).
  destruct a3 as [[[|u us]|]|]; try apply neutral_ret.
  destruct (helper_argv _ _ _ _ _ _) as [args|]; [|apply neutral_ret].
  eapply neutral_acquire; [apply owns_validate_helper_path|]. intros [f|]; cbn [opt_fd]; [|apply neutral_ret].
  apply (owns_bind [f] (fun _ => [f])).
  - apply (owns_frame [f] (fun _ => [])), neutral_run_helper.
  - intros n. eapply owns_bind; [apply owns_close|]. intros ?. apply neutral_ret.
Qed.
End Authenticate.

(** ** The life of the child

    There is at most one child.  It runs until a call to [waitpid] reaps it,
    with the status it reports, or says that it is gone; until then, and not
    after that, it is waited for and sent signals. *)

Inductive child_state : Type :=
| NoChild
| Running (pid : N)
| Reaped (pid : N) (status : option N).

(** Whether the answer of [waitpid] means that the child is gone. *)
Definition gone (nohang : bool) (r : result (option N) errno) : option (option N) :=
  match r with
  | Ok (Some status) => Some (Some status)
  | Ok None => if nohang then None else Some None
  | Err e =>
      if bool_decide (e = ECHILD) || (negb nohang && negb (bool_decide (e = EINTR))) then Some None else None
  end.

Definition child_step (c : child_state) (e : event) : option child_state :=
  match e with
  | EvPam (EvFork (Ok pid)) => match c with NoChild => Some (Running pid) | _ => None end
  | EvPam (EvWaitpid pid nohang r) =>
      match c with
      | Running p =>
          if decide (pid = p) then
            Some (match gone nohang r with Some status => Reaped p status | None => c end)
          else None
      | _ => None
      end
  | EvPam (EvKill pid _) =>
      match c with Running p => if decide (pid = p) then Some c else None | _ => None end
  | _ => Some c
  end.

(** Calls that do not concern the child. *)
Definition idle (e : event) : Prop := forall c, child_step c e = Some c.

Section Child.
Context `{Kernel W} `{PamKernel W} {E : Type}.

#[local] Abbreviation follows := (Automaton.follows child_step).

Lemma follows_idle {A} c (m : M W E A) (Q : result A E -> child_state -> Prop) :
  emits idle m -> (forall s x s', m s = (Done x, s') -> Q x c) -> follows c m Q.
Proof.
  intros Hm HQ s. destruct (Hm s) as (evs & HM & HF). exists evs, c. split_and!; [done| |].
  - clear HM. induction HF as [|e evs He _ IH]; [done|]. cbn. by rewrite He.
  - specialize (HQ s). destruct (m s) as [[x| |] s']; [|done..]. by eapply HQ.
Qed.

Lemma follows_waitpid pid nohang (Q : result (result (option N) errno) E -> child_state -> Prop) :
  (forall r, Q (Ok r) (match gone nohang r with Some status => Reaped pid status | None => Running pid end)) ->
  follows (Running pid) (waitpid (W := W) pid nohang) Q.
Proof.
  intros HQ. apply follows_prim. intros r. cbn. rewrite decide_True by done. eexists. split; [done|]. apply HQ.
Qed.

Lemma follows_kill pid signal (Q : result unit E -> child_state -> Prop) :
  Q (Ok tt) (Running pid) -> follows (Running pid) (kill (W := W) pid signal) Q.
Proof.
  intros HQ. apply follows_prim. intros []. cbn. rewrite decide_True by done. by eexists.
Qed.

Lemma follows_usleep us c (Q : result unit E -> child_state -> Prop) :
  Q (Ok tt) c -> follows c (usleep (W := W) us) Q.
Proof. intros HQ. apply follows_prim. intros []. by eexists. Qed.

Lemma follows_monotonic c (Q : result (option N) E -> child_state -> Prop) :
  (forall t, Q (Ok t) c) -> follows c (monotonic_ms (W := W)) Q.
Proof.
  intros HQ. apply follows_bind, follows_prim. intros r. eexists. split; [done|]. apply follows_ret, HQ.
Qed.

Lemma follows_kill_and_reap fuel pid :
  follows (Running pid) (kill_and_reap fuel pid : M W E unit)
    (fun x c => x = Ok tt /\ exists st, c = Reaped pid st).
Proof.
  unfold kill_and_reap. apply follows_bind, follows_kill.
  refine (follows_loop _ _ _ (fun _ c => c = Running pid) _ _ _ _ _); [|done]. intros _ c ->.
  apply follows_bind, follows_waitpid. intros r. apply follows_ret. unfold gone.
  destruct r as [[st|]|e]; [by split; [|eexists]..|].
  destruct (decide (e = ECHILD)) as [->|He]; [by split; [|eexists]|]. rewrite (bool_decide_false _ He). cbn.
  destruct (decide (e = EINTR)) as [->|Hi]; [done|]. rewrite (bool_decide_false _ Hi). cbn.
  destruct e; try done; by split; [|eexists].
Qed.

Lemma follows_grace fuel pid turns :
  follows (Running pid) (grace fuel pid turns : M W E N)
    (fun x c => (exists code, x = Ok code /\ code <> 0) /\ exists st, c = Reaped pid st).
Proof.
  assert (forall m : M W E N, follows (Running pid) m
      (fun x c => (exists code, x = Ok code /\ code <> 0) /\ exists st, c = Reaped pid st) ->
    follows (Running pid) (do! usleep 50000 ;; m)
      (fun x c => (exists code, x = Ok code /\ code <> 0) /\ exists st, c = Reaped pid st)) as Hsleep
    by (intros m Hm; by apply follows_bind, follows_usleep).
  induction turns as [|turns IH]; cbn [grace].
  - apply follows_bind. eapply follows_mono; [apply follows_kill_and_reap|]. intros x c [-> ?].
    apply follows_ret. split; [by eexists|done].
  - apply follows_bind, follows_waitpid. intros [[st|]|e]; cbn [gone].
    + apply follows_ret. split; [by eexists|by eexists].
    + by apply Hsleep.
    + destruct (decide (e = ECHILD)) as [->|He].
      * rewrite bool_decide_true by done. apply follows_ret. split; [by eexists|by eexists].
      * rewrite bool_decide_false by done. by apply Hsleep.
Qed.

(** What a turn of the loop leaves. *)
Definition waited (pid : N) (x : result (unit + (N + N)) E) (c : child_state) : Prop :=
  match x with
  | Ok (inl _) => c = Running pid
  | Ok (inr (inl code)) => code <> 0 /\ exists st, c = Reaped pid st
  | Ok (inr (inr status)) => c = Reaped pid (Some status)
  | Err _ => False
  end.

Lemma follows_wait_round fuel pid start t :
  follows (Running pid) (wait_round fuel pid start t : M W E _) (waited pid).
Proof.
  assert (follows (Running pid) (do! kill_and_reap fuel pid ;; ret (inr (inl 127)) : M W E (unit + (N + N)))
    (waited pid)) as Hkill.
  { apply follows_bind. eapply follows_mono; [apply follows_kill_and_reap|]. intros x c [-> ?].
    by apply follows_ret. }
  unfold wait_round. apply follows_bind, follows_waitpid. intros [[st|]|e]; cbn [gone].
  - by apply follows_ret.
  - apply follows_bind, follows_monotonic. intros [now|]; [|done].
    destruct (now <? start); [done|]. destruct (t <=? now - start).
    + apply follows_bind, follows_kill, follows_bind. eapply follows_mono; [apply follows_grace|].
      intros x c [(code & -> & ?) ?]. by apply follows_ret.
    + apply follows_bind, follows_usleep. by apply follows_ret.
  - destruct (decide (e = EINTR)) as [->|Hi]; [by apply follows_ret|]. cbn [negb andb].
    rewrite orb_false_r.
    assert (follows match (if bool_decide (e = ECHILD) then Some None else None) with
        | Some status => Reaped pid status | None => Running pid end
      (do! (if decide (e = ECHILD) then ret tt else kill_and_reap fuel pid) ;; ret (inr (inl 127)) : M W E _)
      (waited pid)) as He.
    { destruct (decide (e = ECHILD)) as [->|He]; [rewrite bool_decide_true by done|by rewrite bool_decide_false].
      apply follows_bind, follows_ret, follows_ret. split; [done|by eexists]. }
    by destruct e.
Qed.

(** The exit code of the helper and what it is about. *)
Definition helper_done (x : result N E) (c : child_state) : Prop :=
  match x with
  | Ok code => match c with
               | NoChild => code = 127
               | Running _ => False
               | Reaped pid st => code = 0 -> exists status, st = Some status /\ exit_of_status status = 0
               end
  | Err _ => False
  end.

Lemma follows_run_helper fuel f argv t :
  follows NoChild (run_helper fuel f argv t : M W E N) helper_done.
Proof.
  unfold run_helper. destruct (t =? 0); [by apply follows_ret|].
  apply follows_bind, follows_monotonic. intros [start|]; [|by apply follows_ret].
  apply follows_bind, follows_prim. intros [pid|e]; [|eexists; split; [done|]; by apply follows_ret].
  exists (Running pid). split; [done|]. apply follows_bind.
  refine (follows_loop _ _ _ (fun _ c => c = Running pid) _ _ _ _ _); [|done]. intros _ c ->.
  eapply follows_mono; [apply follows_wait_round|].
  intros [[[]|[code|status]]|e] c; cbn; [done|..|done].
  - intros [Hc [st ->]]. apply follows_ret. by intros ->.
  - intros ->. apply follows_ret. cbn. eauto.
Qed.

Lemma idle_fstat_trusted f d : emits idle (fstat_trusted f d : M W E bool).
Proof. unfold fstat_trusted, fstat. respects_tac; by apply emits_prim. Qed.

Lemma idle_walk_helper ns f : emits idle (walk_helper f ns : M W E _).
Proof.
  revert f. induction ns as [|n ns IH]; intros f; cbn [walk_helper]; pose proof idle_fstat_trusted;
    unfold openat, close; respects_tac; by apply emits_prim.
Qed.

Lemma idle_validate_helper_path path : emits idle (validate_helper_path path : M W E _).
Proof.
  pose proof idle_fstat_trusted. pose proof idle_walk_helper.
  unfold validate_helper_path, strdup, sys_open, close. respects_tac; by apply emits_prim.
Qed.
End Child.

(** ** The whole call *)

Section Whole.
Context `{Kernel W} `{PamKernel W}.

(** What the module answers, and what became of the child. *)
Definition answered (x : result N Empty_set) (c : child_state) : Prop :=
  match x with
  | Ok code =>
      In code [PAM_SUCCESS; PAM_AUTH_ERR; PAM_AUTHINFO_UNAVAIL] /\ (forall pid, c <> Running pid) /\
      (code = PAM_SUCCESS -> exists pid status,
         c = Reaped pid (Some status) /\ WIFEXITED status = true /\ WEXITSTATUS status = 0)
  | Err _ => False
  end.

Lemma exit_of_status_zero status :
  exit_of_status status = 0 <-> WIFEXITED status = true /\ WEXITSTATUS status = 0.
Proof. unfold exit_of_status. destruct (WIFEXITED status); naive_solver. Qed.

Lemma map_exit_to_pam_cases n :
  In (map_exit_to_pam n) [PAM_SUCCESS; PAM_AUTH_ERR; PAM_AUTHINFO_UNAVAIL] /\
  (map_exit_to_pam n = PAM_SUCCESS <-> n = 0) /\
  (map_exit_to_pam n = PAM_AUTHINFO_UNAVAIL <-> In n [10; 11; 12]).
Proof.
  destruct (decide (n = 0)) as [->|N0]; [cbn; naive_solver|].
  destruct (decide (n = 10)) as [->|N10]; [cbn; naive_solver|].
  destruct (decide (n = 11)) as [->|N11]; [cbn; naive_solver|].
  destruct (decide (n = 12)) as [->|N12]; [cbn; naive_solver|].
  assert (map_exit_to_pam n = PAM_AUTH_ERR) as ->; [|cbn; naive_solver].
  unfold map_exit_to_pam. repeat case_match; congruence.
Qed.

Lemma follows_authenticate fuel argv :
  Automaton.follows child_step NoChild (pam_sm_authenticate fuel argv : M W Empty_set N) answered.
Proof.
  assert (answered (Ok PAM_AUTH_ERR) NoChild) as Herr by (cbn; naive_solver).
  unfold pam_sm_authenticate, pam_item_string, pam_get_item, pam_get_user. cbv zeta.
  do 4 (apply follows_bind, follows_bind, follows_prim; intros ?; eexists; split; [done|];
        apply follows_ret).
  apply follows_bind, follows_prim. intros user. eexists. split; [done|].
  destruct user as [[[|u us]|]|]; try (by apply follows_ret).
  destruct (helper_argv _ _ _ _ _ _) as [args|]; [|by apply follows_ret].
  apply follows_bind, follows_idle; [apply idle_validate_helper_path|]. intros _ [[f|]|[]] _ _; [|by apply follows_ret].
  apply follows_bind. eapply follows_mono; [apply follows_run_helper|]. intros [code|[]] c Hc.
  apply follows_bind, follows_prim. intros []. exists c. split; [done|]. apply follows_ret.
  pose proof (map_exit_to_pam_cases code) as (Hin & Hs & _). split; [done|].
  destruct c as [|pid|pid st]; cbn in Hc.
  - split; [done|]. intros ->%Hs. done.
  - done.
  - split; [done|]. intros Hz%Hs. destruct (Hc Hz) as (status & -> & He%exit_of_status_zero). by exists pid, status.
Qed.
End Whole.


(** The module keeps no descriptor of its own: what it opens to reach the
    helper it closes, on every path of a run that ends. *)
Theorem pam_keeps_no_descriptor `{Kernel W} `{PamKernel W} (fuel : nat) (argv : list bytes) :
  neutral (pam_sm_authenticate (W := W) (E := Empty_set) fuel argv).
Proof. apply neutral_authenticate. Qed.

(** ** The module answers *)

(** The time of a reading in milliseconds, in 64 bits. *)
Definition reading (r : result (N * N) errno) : option N :=
  match r with
  | Ok (tv_sec, tv_nsec) => Some ((tv_sec * 1000 + tv_nsec / 1000000) mod (ULONG_MAX + 1))
  | Err _ => None
  end.

(** What is asked of the system: until [clock_end] the monotonic clock is read
    only so often before any time [d], and a wait is interrupted only so
    often.  The clock is never read within ten minutes of its end. *)
Class PamProgress (W : Type) `{PamKernel W} := {
  clock_end : N;
  patience : N -> W -> nat;
  patience_monotonic d w :
    (patience d (k_monotonic w).2 <= patience d w)%nat /\
    forall t, reading (k_monotonic w).1 = Some t ->
      t + 600000 <= clock_end /\
      (d <= clock_end -> d <= t \/ (patience d (k_monotonic w).2 < patience d w)%nat);
  patience_waitpid d pid nohang w :
    (patience d (k_waitpid pid nohang w).2 <= patience d w)%nat /\
    ((k_waitpid pid nohang w).1 = Err EINTR ->
     (patience d (k_waitpid pid nohang w).2 < patience d w)%nat);
  patience_kill d pid signal w : (patience d (k_kill pid signal w).2 <= patience d w)%nat;
  patience_usleep d us w : (patience d (k_usleep us w).2 <= patience d w)%nat;
  patience_fork d child w : (patience d (k_fork child w).2 <= patience d w)%nat;
}.

Section Returns.
Context `{Kernel W} `{PamKernel W} `{!PamProgress W} {E : Type} (d : N).

(** A run of [m] from [s] ends in a value, and what is left of the patience
    is not more. *)
Definition returns {A} (m : M W E A) (s : state W) (Q : A -> state W -> Prop) : Prop :=
  exists a s', m s = (Done (Ok a), s') /\ (patience d (world s') <= patience d (world s))%nat /\ Q a s'.

Lemma returns_ret {A} (a : A) s (Q : A -> state W -> Prop) : Q a s -> returns (ret a) s Q.
Proof. intros HQ. by exists a, s. Qed.

Lemma returns_bind {A B} (m : M W E A) (k : A -> M W E B) s (P : A -> state W -> Prop) Q :
  returns m s P -> (forall a s', (patience d (world s') <= patience d (world s))%nat -> P a s' -> returns (k a) s' Q) ->
  returns (bind m k) s Q.
Proof.
  intros (a & s1 & Hm & Hle & HP) Hk. destruct (Hk a s1 Hle HP) as (b & s2 & Hk' & Hle' & HQ).
  exists b, s2. split_and!; [|lia|done]. unfold bind. by rewrite Hm.
Qed.

Lemma returns_mono {A} (m : M W E A) s (P Q : A -> state W -> Prop) :
  returns m s P -> (forall a s', P a s' -> Q a s') -> returns m s Q.
Proof. intros (a & s1 & ? & ? & ?) HPQ. exists a, s1. split_and!; auto. Qed.

(** A loop of which every turn that continues uses some of the patience up. *)
Lemma returns_loop {S A} fuel (body : S -> M W E (S + A)) (Q : A -> state W -> Prop) :
  (forall st s, (patience d (world s) < fuel)%nat -> returns (body st) s (fun r s' =>
     match r with inl _ => (patience d (world s') < patience d (world s))%nat | inr a => Q a s' end)) ->
  forall st s, (patience d (world s) < fuel)%nat -> returns (loop fuel body st) s Q.
Proof.
  intros Hb. enough (forall n st s, (patience d (world s) < n <= fuel)%nat -> returns (loop n body st) s Q) as Hn
    by (intros st s Hs; apply Hn; lia).
  induction n as [|n IH]; intros st s Hs; [lia|]. cbn.
  eapply returns_bind; [apply Hb; lia|]. intros [st'|a] s' Hle HQ; [|by apply returns_ret].
  apply IH. cbn in HQ. lia.
Qed.

Lemma returns_prim {A} (f : W -> A * W) ev s (Q : A -> state W -> Prop) :
  (patience d (f (world s)).2 <= patience d (world s))%nat ->
  (forall log, Q (f (world s)).1 (St (f (world s)).2 log)) -> returns (prim f ev) s Q.
Proof.
  intros Hle HQ. unfold prim, returns. destruct (f (world s)) as [a w]. by eexists _, _.
Qed.

Lemma returns_waitpid pid nohang s : returns (waitpid pid nohang) s (fun r s' =>
  r = Err EINTR -> (patience d (world s') < patience d (world s))%nat).
Proof. apply returns_prim; [apply patience_waitpid|]. intros log. cbn. apply patience_waitpid. Qed.

Lemma returns_kill_and_reap fuel pid s : (patience d (world s) < fuel)%nat ->
  returns (kill_and_reap fuel pid) s (fun _ _ => True).
Proof.
  intros Hf. unfold kill_and_reap. eapply (returns_bind _ _ _ (fun _ _ => True)).
  { apply returns_prim; [apply patience_kill|done]. }
  intros _ s1 Hs1 _. apply returns_loop; [|lia]. intros _ s2 _.
  eapply returns_bind; [apply returns_waitpid|]. intros r s3 _ Hr. apply returns_ret.
  destruct r as [?|[]]; cbn; auto.
Qed.

Lemma returns_usleep us {A} (k : M W E A) s (Q : A -> state W -> Prop) :
  (forall s', (patience d (world s') <= patience d (world s))%nat -> returns k s' Q) ->
  returns (do! usleep us ;; k) s Q.
Proof.
  intros Hk. eapply (returns_bind _ _ _ (fun _ _ => True)); [apply returns_prim; [apply patience_usleep|done]|].
  intros _ s' Hs _. by apply Hk.
Qed.

Lemma returns_grace fuel pid turns s : (patience d (world s) < fuel)%nat ->
  returns (grace fuel pid turns) s (fun _ _ => True).
Proof.
  revert s. induction turns as [|turns IH]; intros s Hf; cbn [grace].
  - eapply returns_bind; [by apply returns_kill_and_reap|]. intros. by apply returns_ret.
  - eapply returns_bind; [apply returns_waitpid|]. intros [[st|]|e] s1 Hs1 _; [by apply returns_ret|..].
    + apply returns_usleep. intros s2 Hs2. apply IH. lia.
    + destruct (decide _); [by apply returns_ret|]. apply returns_usleep. intros s2 Hs2. apply IH. lia.
Qed.

Lemma returns_monotonic_ms s : returns monotonic_ms s (fun t s' =>
  forall now, t = Some now -> now + 600000 <= clock_end /\
    (d <= clock_end -> d <= now \/ (patience d (world s') < patience d (world s))%nat)).
Proof.
  unfold monotonic_ms. pose proof (patience_monotonic d (world s)) as [Hle Hr].
  eapply (returns_bind _ _ _ (fun r s' => forall t, reading r = Some t -> t + 600000 <= clock_end /\
    (d <= clock_end -> d <= t \/ (patience d (world s') < patience d (world s))%nat))).
  - apply returns_prim; [done|]. intros log. exact Hr.
  - intros r s' _ Hs'. apply returns_ret. exact Hs'.
Qed.

Lemma returns_wait_round fuel pid start t s : d = start + t -> d <= clock_end -> (patience d (world s) < fuel)%nat ->
  returns (wait_round fuel pid start t) s (fun r s' =>
    match r with inl _ => (patience d (world s') < patience d (world s))%nat | inr _ => True end).
Proof.
  intros Hd Hend Hf. unfold wait_round.
  assert (forall s1, (patience d (world s1) <= patience d (world s))%nat ->
    returns (do! kill_and_reap fuel pid ;; ret (inr (inl 127)) : M W E (unit + (N + N))) s1 (fun r s' =>
      match r with inl _ => (patience d (world s') < patience d (world s))%nat | inr _ => True end)) as Hk.
  { intros s1 Hs1. eapply returns_bind; [apply returns_kill_and_reap; lia|]. intros. by apply returns_ret. }
  eapply returns_bind; [apply returns_waitpid|]. intros [[st|]|e] s1 Hs1 Hr; [by apply returns_ret|..].
  - eapply returns_bind; [apply returns_monotonic_ms|]. intros [now|] s2 Hs2 Hnow; [|apply Hk; lia].
    destruct (Hnow now eq_refl) as [_ Hn]. specialize (Hn Hend).
    destruct (N.ltb_spec now start); [apply Hk; lia|].
    destruct (N.leb_spec t (now - start)).
    + eapply (returns_bind _ _ _ (fun _ _ => True)).
      { apply returns_prim; [apply patience_kill|done]. }
      intros _ s3 Hs3 _. eapply returns_bind; [apply returns_grace; lia|]. intros. by apply returns_ret.
    + apply returns_usleep. intros s3 Hs3. apply returns_ret. lia.
  - assert (returns (do! (if decide (e = ECHILD) then ret tt else kill_and_reap fuel pid) ;; ret (inr (inl 127))
      : M W E (unit + (N + N))) s1 (fun r s' =>
      match r with inl _ => (patience d (world s') < patience d (world s))%nat | inr _ => True end)) as He.
    { destruct (decide _); [|apply Hk; lia]. eapply (returns_bind _ _ _ (fun _ _ => True)); [by apply returns_ret|].
      intros. by apply returns_ret. }
    destruct (decide (e = EINTR)) as [->|Hi]; [apply returns_ret; cbn in *; specialize (Hr eq_refl); lia|].
    by destruct e.
Qed.
End Returns.

Section Eventually.
Context `{Kernel W} `{PamKernel W} {E : Type}.

(** Computations that end in a value: at once, and with enough fuel. *)
Definition total {A} (m : M W E A) : Prop := forall s, exists a s', m s = (Done (Ok a), s').
Definition eventually {A} (m : nat -> M W E A) : Prop :=
  forall s, exists n, forall fuel, (n <= fuel)%nat -> exists a s', m fuel s = (Done (Ok a), s').

Lemma total_ret {A} (a : A) : total (ret a).
Proof. intros s. by eexists _, _. Qed.

Lemma total_prim {A} (f : W -> A * W) ev : total (prim f ev).
Proof. intros s. unfold prim. destruct (f (world s)). by eexists _, _. Qed.

Lemma total_bind {A B} (m : M W E A) (k : A -> M W E B) : total m -> (forall a, total (k a)) -> total (bind m k).
Proof.
  intros Hm Hk s. destruct (Hm s) as (a & s1 & E1). destruct (Hk a s1) as (b & s2 & E2).
  exists b, s2. unfold bind. by rewrite E1.
Qed.

Lemma total_attempt_os {A} (f : W -> result A errno * W) ev : total (attempt (os (prim f ev))).
Proof.
  intros s. unfold attempt, os, bind, prim, lift. destruct (f (world s)) as [r w]. by eexists _, _.
Qed.

Lemma eventually_total {A} (m : M W E A) : total m -> eventually (fun _ => m).
Proof. intros Hm s. exists 0%nat. intros fuel _. apply Hm. Qed.

Lemma eventually_after {A B} (m : M W E A) (k : A -> nat -> M W E B) :
  total m -> (forall a, eventually (k a)) -> eventually (fun fuel => bind m (fun a => k a fuel)).
Proof.
  intros Hm Hk s. destruct (Hm s) as (a & s1 & E1). destruct (Hk a s1) as [n Hn]. exists n.
  intros fuel Hf. unfold bind. rewrite E1. by apply Hn.
Qed.

Lemma eventually_then {A B} (m : nat -> M W E A) (k : A -> M W E B) :
  eventually m -> (forall a, total (k a)) -> eventually (fun fuel => bind (m fuel) k).
Proof.
  intros Hm Hk s. destruct (Hm s) as [n Hn]. exists n. intros fuel Hf.
  destruct (Hn fuel Hf) as (a & s1 & E1). destruct (Hk a s1) as (b & s2 & E2).
  exists b, s2. unfold bind. by rewrite E1.
Qed.

Lemma total_fstat_trusted f dir : total (fstat_trusted (E := E) f dir).
Proof. apply total_bind; [apply total_attempt_os|]. intros. apply total_ret. Qed.

Lemma total_walk_helper ns f : total (walk_helper (E := E) f ns).
Proof.
  revert f. induction ns as [|n ns IH]; intros f; cbn [walk_helper]; [apply total_ret|].
  destruct (_ || _); [apply total_bind; [apply total_prim|intros; apply total_ret]|]. cbv zeta.
  apply total_bind; [apply total_attempt_os|]. intros r.
  apply total_bind; [apply total_prim|]. intros _. destruct r as [c|e]; [|apply total_ret].
  apply total_bind; [apply total_fstat_trusted|]. intros [|]; [apply IH|].
  apply total_bind; [apply total_prim|intros; apply total_ret].
Qed.

Lemma total_validate_helper_path path : total (validate_helper_path (E := E) path).
Proof.
  unfold validate_helper_path. destruct (negb _); [apply total_ret|]. destruct (_ || _); [apply total_ret|].
  apply total_bind; [apply total_prim|]. intros [_|e]; [|apply total_ret].
  apply total_bind; [apply total_attempt_os|]. intros [f|e]; [|apply total_ret].
  apply total_bind; [apply total_fstat_trusted|]. intros [|]; [apply total_walk_helper|].
  apply total_bind; [apply total_prim|intros; apply total_ret].
Qed.

(** Enough are the readings of the clock and the interruptions before the
    time is up, counted when the clock was first read. *)
Lemma eventually_run_helper `{!PamProgress W} f argv t : t <= 600000 ->
  eventually (fun fuel => run_helper (E := E) fuel f argv t).
Proof.
  intros Ht. unfold run_helper. destruct (t =? 0); [apply eventually_total, total_ret|]. intros s.
  destruct (returns_monotonic_ms (E := E) 0 s) as (start & s1 & Hm & _ & Hstart).
  destruct start as [start|].
  2: { exists 0%nat. intros fuel _. unfold bind. rewrite Hm. by eexists _, _. }
  destruct (Hstart start eq_refl) as [Hend _]. set (d := start + t).
  exists (S (patience d (world s1))). intros fuel Hf. unfold bind at 1. rewrite Hm. clear Hm Hstart.
  cut (returns d (let! r := fork (child_program fuel f argv) in
      match r with
      | Err _ => ret 127
      | Ok pid => let! waited := loop fuel (fun _ : unit => wait_round fuel pid start t) tt in
                  ret (match waited with inl code => code | inr status => exit_of_status status end)
      end : M W E N) s1 (fun _ _ => True)).
  { intros (code & s' & ? & _). by exists code, s'. }
  eapply (returns_bind _ _ _ _ (fun _ _ => True)).
  { apply returns_prim; [apply patience_fork|done]. }
  intros [pid|e] s2 Hs2 _; [|by apply returns_ret]. eapply (returns_bind _ _ _ _ (fun _ _ => True)).
  - apply returns_loop; [|lia]. intros _ s3 Hs3. eapply returns_mono; [apply returns_wait_round; [done|lia|done]|].
    by intros [|] ?.
  - intros. by apply returns_ret.
Qed.

Lemma eventually_authenticate `{!PamProgress W} argv :
  eventually (fun fuel => pam_sm_authenticate (E := E) fuel argv).
Proof.
  assert (forall item, total (pam_item_string (E := E) item)) as Hitem.
  { intros item. apply total_bind; [apply total_prim|]. intros. apply total_ret. }
  unfold pam_sm_authenticate. cbv zeta.
  do 4 (refine (eventually_after _ (fun _ fuel => _) (Hitem _) _); intros ?).
  refine (eventually_after _ (fun _ fuel => _) (total_prim _ _) _).
  intros [[[|u us]|]|]; try (apply eventually_total, total_ret).
  destruct (helper_argv _ _ _ _ _ _) as [args|]; [|apply eventually_total, total_ret].
  refine (eventually_after _ (fun _ fuel => _) (total_validate_helper_path _) _).
  intros [f|]; [|apply eventually_total, total_ret].
  apply eventually_then; [apply eventually_run_helper, parse_options_timeout|]. intros code.
  apply total_bind; [apply total_prim|]. intros. apply total_ret.
Qed.
End Eventually.

(** C19: the module answers: when the monotonic clock goes on and waits are not
    interrupted for ever, a call with enough fuel ends in an answer, whatever
    the helper does, and never in a panic. *)
Theorem pam_answers `{Kernel W} `{PamKernel W} `{!PamProgress W} (argv : list bytes) (s : state W) :
  exists n, forall fuel, (n <= fuel)%nat -> exists code s',
    pam_sm_authenticate (E := Empty_set) fuel argv s = (Done (Ok code), s') /\
    In code [PAM_SUCCESS; PAM_AUTH_ERR; PAM_AUTHINFO_UNAVAIL].
Proof.
  destruct (eventually_authenticate (E := Empty_set) argv s) as [n Hn]. exists n. intros fuel Hf.
  destruct (Hn fuel Hf) as (code & s' & Hr). exists code, s'. split; [done|].
  destruct (follows_authenticate fuel argv s) as (evs & c & _ & _ & Ha). rewrite Hr in Ha. apply Ha.
Qed.
