(* ===== verification/Cli.v ===== *)
(** * The command line ([Cli] of [src/crates/helper/src/main.rs])

    [clap] parses the arguments by the attributes of [Cli], [Command] and
    [RequestArgs]; it is a parameter, with what its documentation says of a
    line of options of the [request] subcommand.  [helper_main] is the program
    that the file [macos-auth-helper] holds. *)

From Stdlib Require Import NArith ZArith Lia List Bool.
From Stdlib Require Import Strings.Byte Strings.String.
From stdpp Require Import base decidable list option strings.
From S2P Require Import Prelude RustStd Crypto Protocol Sys Common Frame Keys Config Request FakeAgent Main Pam.

Open Scope N_scope.

(** The value of [Cli] is its one field. *)
Record Cli : Type := { command : Command }.

(** [Cli::parse]: the command, or the exit status that [clap] ends the
    process with. *)
Class Clap := { cli_parse : list bytes -> result Cli N }.

(** ** The options of [request] *)

(** The type of the field: [bool], [String], [PathBuf] or [u64]. *)
Inductive arg_type : Type := ABool | AString | APath | AU64.

#[global] Instance arg_type_eq_decision : EqDecision arg_type.
Proof. solve_decision. Defined.

(** [#[arg(long)]]: the name of the option is that of the field, with hyphens. *)
Definition request_options : list (bytes * arg_type) :=
  [(B "require-root-owned", ABool); (B "config", APath); (B "socket", APath);
   (B "key-hex", AString); (B "key-file", APath);
   (B "agent-pubkey-hex", AString); (B "agent-pubkey-file", APath);
   (B "key-id", AString); (B "host-id", AString); (B "hostname", AString); (B "service", AString);
   (B "user", AString); (B "ruser", AString); (B "rhost", AString); (B "tty", AString);
   (B "sudo-command", AString); (B "timeout-ms", AU64); (B "allowed-future-skew-ms", AU64);
   (B "replay-cache-dir", APath)].

(** An option on the line, with its value if it takes one. *)
Definition occurrence : Type := (bytes * option bytes)%type.

Definition find_option (occs : list occurrence) (name : bytes) : option (option bytes) :=
  snd <$> List.find (fun o => bool_decide (o.1 = name)) occs.

Definition given (occs : list occurrence) (name : bytes) : bool :=
  match find_option occs name with Some _ => true | None => false end.
Definition value_of (occs : list occurrence) (name : bytes) : option bytes :=
  match find_option occs name with Some v => v | None => None end.
Definition number_of (occs : list occurrence) (name : bytes) : option N :=
  match value_of occs name with Some v => parse_u64 v | None => None end.

(** [RequestArgs] from the options that were given. *)
Definition request_args (occs : list occurrence) : RequestArgs := {|
  require_root_owned := given occs (B "require-root-owned");
  config_arg := value_of occs (B "config");
  socket_arg := value_of occs (B "socket");
  key_input := {| key_hex := value_of occs (B "key-hex"); key_file := value_of occs (B "key-file") |};
  agent_pubkey_input := {| agent_pubkey_hex := value_of occs (B "agent-pubkey-hex");
                           agent_pubkey_file_arg := value_of occs (B "agent-pubkey-file") |};
  key_id_arg := value_of occs (B "key-id");
  host_id_arg := value_of occs (B "host-id");
  hostname_arg := value_of occs (B "hostname");
  service_arg := value_of occs (B "service");
  user := default [] (value_of occs (B "user"));
  ruser := value_of occs (B "ruser");
  rhost := value_of occs (B "rhost");
  tty := value_of occs (B "tty");
  sudo_command := value_of occs (B "sudo-command");
  timeout_ms_arg := number_of occs (B "timeout-ms");
  allowed_future_skew_ms_arg := number_of occs (B "allowed-future-skew-ms");
  replay_cache_dir_arg := value_of occs (B "replay-cache-dir");
|}.

Definition render (o : occurrence) : list bytes :=
  (B "--" ++ o.1) :: match o.2 with Some v => [v] | None => [] end.

(** A line of options: known ones, each at most once, each with a value if it
    takes one, the required one among them, and none beside one that it
    conflicts with. *)
Definition request_line (occs : list occurrence) : Prop :=
  NoDup (map fst occs) /\
  Forall (fun o => exists t, (o.1, t) ∈ request_options /\ (o.2 = None <-> t = ABool)) occs /\
  given occs (B "user") = true /\
  given occs (B "key-hex") && given occs (B "key-file") = false /\
  given occs (B "agent-pubkey-hex") && given occs (B "agent-pubkey-file") = false.

(** A value that the parser of its type takes.  One that begins with a hyphen
    is not taken for a value, a single hyphen excepted. *)
Definition not_hyphen (v : bytes) : bool :=
  match v with x2d :: _ :: _ => false | _ => true end.

Definition accepted (o : occurrence) : bool :=
  match o.2 with
  | None => true
  | Some v =>
      not_hyphen v &&
      match snd <$> List.find (fun x => bool_decide (x.1 = o.1)) request_options with
      | Some AString => utf8_valid v
      | Some APath => negb (bool_decide (v = []))
      | Some AU64 => match parse_u64 v with Some _ => true | None => false end
      | _ => false
      end
  end.

(** What [clap] documents of such a line: the fields are set from the values,
    or the process ends with the status [2] of a usage error. *)
Class ClapLaws `{Clap} := {
  parse_request_line program occs : request_line occs ->
    cli_parse (program :: B "request" :: flat_map render occs) =
    if forallb accepted occs then Ok {| command := Request (request_args occs) |} else Err 2;
}.

Section HelperMain.
Context `{Kernel W} `{Clap} `{Crypto} `{Hex} `{Toml} `{SerdePretty}.
Context `{SerdeJson SignedAuthRequest.t} `{SerdeJson SignedAuthResponse.t}.

(** The process: [101] is the status of a process that panicked. *)
Definition helper_main (overflow_checks : bool) (fuel : nat) (argv : list bytes) : Program W := fun s =>
  match cli_parse argv with
  | Err status => (Done status, s)
  | Ok cli =>
      match main overflow_checks fuel (command cli) s with
      | (Panicked, s') => (Done 101, s')
      | r => r
      end
  end.
End HelperMain.

(** ** The line that the PAM module makes *)

Definition optional (name : bytes) (value : option bytes) : list occurrence :=
  match value with None | Some [] => [] | Some v => [(name, Some v)] end.

Definition pam_line (config user : bytes) (service ruser rhost tty : option bytes) : list occurrence :=
  [(B "require-root-owned", None); (B "config", Some config); (B "user", Some user)] ++
  optional (B "service") service ++ optional (B "ruser") ruser ++
  optional (B "rhost") rhost ++ optional (B "tty") tty.

(** An item that is empty counts as absent. *)
Definition nonempty (value : option bytes) : option bytes :=
  match value with Some [] => None | v => v end.

Lemma pam_line_request config user service ruser rhost tty :
  request_line (pam_line config user service ruser rhost tty).
Proof.
  unfold pam_line.
  destruct service as [[|? ?]|], ruser as [[|? ?]|], rhost as [[|? ?]|], tty as [[|? ?]|];
  (split_and!; [by apply (bool_decide_unpack _); vm_compute| |reflexivity..];
   repeat constructor;
   by match goal with |- exists t, ((?n, _).1, t) ∈ _ /\ _ =>
        match eval vm_compute in (snd <$> List.find (fun x => bool_decide (x.1 = n)) request_options) with
        | Some ?t => exists t; split; [apply (bool_decide_unpack _); vm_compute|done] end end).
Qed.

Lemma pam_line_argv options user service ruser rhost tty :
  helper_argv options user service ruser rhost tty =
  Some (helper_path options :: B "request" ::
        flat_map render (pam_line (config_path options) user service ruser rhost tty)).
Proof. by destruct service as [[|? ?]|], ruser as [[|? ?]|], rhost as [[|? ?]|], tty as [[|? ?]|]. Qed.

(** What the helper is asked for by the PAM module: production, its
    configuration, and the user and the items as PAM has them. *)
Definition pam_args (config usr : bytes) (service rusr rhst ttyname : option bytes) : RequestArgs := {|
  require_root_owned := true; config_arg := Some config; socket_arg := None;
  key_input := {| key_hex := None; key_file := None |};
  agent_pubkey_input := {| agent_pubkey_hex := None; agent_pubkey_file_arg := None |};
  key_id_arg := None; host_id_arg := None; hostname_arg := None; service_arg := nonempty service;
  user := usr; ruser := nonempty rusr; rhost := nonempty rhst; tty := nonempty ttyname;
  sudo_command := None; timeout_ms_arg := None; allowed_future_skew_ms_arg := None;
  replay_cache_dir_arg := None |}.

Lemma pam_line_args config usr service rusr rhst ttyname :
  request_args (pam_line config usr service rusr rhst ttyname) =
  pam_args config usr service rusr rhst ttyname.
Proof. by destruct service as [[|? ?]|], rusr as [[|? ?]|], rhst as [[|? ?]|], ttyname as [[|? ?]|]. Qed.

(** A line of the PAM module is refused or gives those arguments. *)
Lemma parse_pam_line `{ClapLaws} options usr service rusr rhst ttyname argv :
  helper_argv options usr service rusr rhst ttyname = Some argv ->
  cli_parse argv = Err 2 \/
  cli_parse argv =
    Ok {| command := Request (pam_args (config_path options) usr service rusr rhst ttyname) |}.
Proof.
  rewrite pam_line_argv. intros Hargv%(inj Some). rewrite <- Hargv,  parse_request_line by apply pam_line_request.
  rewrite pam_line_args. destruct (forallb _ _); [by right|by left].
Qed.
