(* ===== verification/Subcommands.v ===== *)
(** * The subcommands of the helper's command line ([src/crates/helper/src/main.rs])

    The options of every subcommand, as the attributes of [Command] and of the
    structures of arguments declare them, and the command that [clap] makes of
    a line of them.  Every command can be asked for: there is a line from which
    it is parsed. *)

From Stdlib Require Import NArith ZArith Lia List Bool.
From Stdlib Require Import Strings.Byte Strings.String.
From stdpp Require Import base decidable list option strings.
From S2P Require Import Prelude RustStd Crypto Protocol Samples Sys Sim Common Frame Keys Config Request RequestProps.
From S2P Require Import FakeAgent Main Pam Cli.

Open Scope N_scope.

(** ** The options *)

(** A [ValueEnum] takes one of the names of its variants. *)
Inductive value_kind : Type := Plain (t : arg_type) | OneOf (names : list bytes).

(** [Option<..>] and [bool] fields, and those with a default, need not be
    given; [against] is [conflicts_with]. *)
Record arg : Type := { arg_name : bytes; arg_kind : value_kind; needed : bool; against : option bytes }.

Definition may (name : bytes) (t : arg_type) : arg :=
  {| arg_name := name; arg_kind := Plain t; needed := false; against := None |}.
Definition must (name : bytes) (t : arg_type) : arg :=
  {| arg_name := name; arg_kind := Plain t; needed := true; against := None |}.
Definition may_not_with (name other : bytes) (t : arg_type) : arg :=
  {| arg_name := name; arg_kind := Plain t; needed := false; against := Some other |}.

Inductive subcommand : Type :=
| SubGenKey | SubPubkey | SubSampleRequest | SubSampleResponse | SubTestVector | SubRequest
| SubFakeAgent | SubPrepareConfig | SubConfigKeyPath.

(** The names of the variants, with hyphens. *)
Definition sub_name (sub : subcommand) : bytes :=
  match sub with
  | SubGenKey => B "gen-key"
  | SubPubkey => B "pubkey"
  | SubSampleRequest => B "sample-request"
  | SubSampleResponse => B "sample-response"
  | SubTestVector => B "test-vector"
  | SubRequest => B "request"
  | SubFakeAgent => B "fake-agent"
  | SubPrepareConfig => B "prepare-config"
  | SubConfigKeyPath => B "config-key-path"
  end.

Definition key_input_options : list arg :=
  [may_not_with (B "key-hex") (B "key-file") AString; may (B "key-file") APath].

Definition decision_names : list (bytes * CliDecision.t) :=
  [(B "approved", CliDecision.Approved); (B "denied", CliDecision.Denied);
   (B "unavailable", CliDecision.Unavailable); (B "cancelled", CliDecision.Cancelled);
   (B "failed", CliDecision.Failed)].

Definition config_key_names : list (bytes * ConfigKey) := [(B "host", Host); (B "agent", Agent)].

Definition options_of (sub : subcommand) : list arg :=
  match sub with
  | SubGenKey => [may (B "private-key-file") APath; may (B "public-key-file") APath]
  | SubPubkey => key_input_options
  | SubSampleRequest =>
      key_input_options ++
      [may (B "key-id") AString; may (B "host-id") AString; may (B "hostname") AString; may (B "service") AString;
       may (B "user") AString; may (B "ruser") AString; may (B "rhost") AString; may (B "tty") AString;
       may (B "sudo-command") AString]
  | SubSampleResponse | SubTestVector => []
  | SubRequest =>
      [may (B "require-root-owned") ABool; may (B "config") APath; may (B "socket") APath] ++ key_input_options ++
      [may_not_with (B "agent-pubkey-hex") (B "agent-pubkey-file") AString; may (B "agent-pubkey-file") APath;
       may (B "key-id") AString; may (B "host-id") AString; may (B "hostname") AString; may (B "service") AString;
       must (B "user") AString; may (B "ruser") AString; may (B "rhost") AString; may (B "tty") AString;
       may (B "sudo-command") AString; may (B "timeout-ms") AU64; may (B "allowed-future-skew-ms") AU64;
       may (B "replay-cache-dir") APath]
  | SubFakeAgent =>
      [must (B "socket") APath;
       may_not_with (B "host-pubkey-hex") (B "host-pubkey-file") AString; may (B "host-pubkey-file") APath;
       may_not_with (B "agent-key-hex") (B "agent-key-file") AString; may (B "agent-key-file") APath;
       may (B "agent-key-id") AString;
       {| arg_name := B "decision"; arg_kind := OneOf (map fst decision_names); needed := false; against := None |};
       may (B "once") ABool]
  | SubPrepareConfig =>
      [may (B "source") APath; must (B "socket") APath; must (B "host-key-file") APath;
       must (B "agent-pubkey-file") APath; may (B "host-id") AString; may (B "hostname") AString;
       may (B "replay-cache-dir") APath]
  | SubConfigKeyPath =>
      [must (B "config") APath;
       {| arg_name := B "key"; arg_kind := OneOf (map fst config_key_names); needed := true; against := None |}]
  end.

(** ** The command of a line *)

(** The variant with this name. *)
Definition variant {A} (names : list (bytes * A)) (default : A) (name : option bytes) : A :=
  match name with
  | Some name => match List.find (fun x => bool_decide (x.1 = name)) names with Some (_, a) => a | None => default end
  | None => default
  end.

(** A field that is needed or has a default. *)
Definition field_of (occs : list occurrence) (name default : bytes) : bytes :=
  match value_of occs name with Some v => v | None => default end.

Definition command_of (sub : subcommand) (occs : list occurrence) : Command :=
  match sub with
  | SubGenKey => GenKey (value_of occs (B "private-key-file")) (value_of occs (B "public-key-file"))
  | SubPubkey => Pubkey {| key_hex := value_of occs (B "key-hex"); key_file := value_of occs (B "key-file") |}
  | SubSampleRequest => SampleRequest {|
      fx_key_input := {| optional_key_hex := value_of occs (B "key-hex"); optional_key_file := value_of occs (B "key-file") |};
      fx_key_id := field_of occs (B "key-id") (B "host-key-1");
      fx_host_id := field_of occs (B "host-id") (B "host-abc");
      fx_hostname := field_of occs (B "hostname") (B "linux.example.com");
      fx_service := field_of occs (B "service") (B "sudo");
      fx_user := field_of occs (B "user") (B "alice");
      fx_ruser := value_of occs (B "ruser"); fx_rhost := value_of occs (B "rhost"); fx_tty := value_of occs (B "tty");
      fx_sudo_command := value_of occs (B "sudo-command") |}
  | SubSampleResponse => SampleResponse
  | SubTestVector => TestVector
  | SubRequest => Request (request_args occs)
  | SubFakeAgent => FakeAgent {|
      fa_socket := field_of occs (B "socket") [];
      host_pubkey_input := {| host_pubkey_hex := value_of occs (B "host-pubkey-hex");
                              host_pubkey_file := value_of occs (B "host-pubkey-file") |};
      agent_key_input := {| agent_key_hex := value_of occs (B "agent-key-hex");
                            agent_key_file := value_of occs (B "agent-key-file") |};
      fa_agent_key_id := field_of occs (B "agent-key-id") (B "agent-key-1");
      fa_decision := variant decision_names CliDecision.Approved (value_of occs (B "decision"));
      fa_once := given occs (B "once") |}
  | SubPrepareConfig => PrepareConfig {|
      arg_source := value_of occs (B "source"); arg_socket := field_of occs (B "socket") [];
      arg_host_key_file := field_of occs (B "host-key-file") [];
      arg_agent_pubkey_file := field_of occs (B "agent-pubkey-file") [];
      arg_host_id := value_of occs (B "host-id"); arg_hostname := value_of occs (B "hostname");
      arg_replay_cache_dir := value_of occs (B "replay-cache-dir") |}
  | SubConfigKeyPath =>
      ConfigKeyPath (field_of occs (B "config") []) (variant config_key_names Host (value_of occs (B "key")))
  end.

(** ** What [clap] documents of a line of options *)

Definition find_arg (sub : subcommand) (name : bytes) : option arg :=
  List.find (fun a => bool_decide (arg_name a = name)) (options_of sub).

Definition is_flag (a : arg) : bool := match arg_kind a with Plain ABool => true | _ => false end.

(** Each option at most once, a flag without a value and any other with one;
    those that are needed, and none beside one that it conflicts with. *)
Definition line_of_options (sub : subcommand) (occs : list occurrence) : bool :=
  bool_decide (NoDup (map fst occs)) &&
  forallb (fun o => match find_arg sub o.1 with
                    | Some a => Bool.eqb (is_flag a) (match o.2 with None => true | Some _ => false end)
                    | None => false end) occs &&
  forallb (fun a => implb (needed a) (given occs (arg_name a))) (options_of sub) &&
  forallb (fun a => match against a with
                    | Some other => negb (given occs (arg_name a) && given occs other)
                    | None => true end) (options_of sub).

Definition takes_value (sub : subcommand) (o : occurrence) : bool :=
  match o.2 with
  | None => true
  | Some v =>
      not_hyphen v &&
      match arg_kind <$> find_arg sub o.1 with
      | Some (Plain AString) => utf8_valid v
      | Some (Plain APath) => negb (bool_decide (v = []))
      | Some (Plain AU64) => match parse_u64 v with Some _ => true | None => false end
      | Some (OneOf names) => bool_decide (v ∈ names)
      | _ => false
      end
  end.

Class SubcommandLaws `{Clap} := {
  parse_subcommand_line program sub occs : line_of_options sub occs = true ->
    cli_parse (program :: sub_name sub :: flat_map render occs) =
    if forallb (takes_value sub) occs then Ok {| command := command_of sub occs |} else Err 2;
}.

(** ** A line for every command *)

(** A field as it is said on the line. *)
Inductive said : Type :=
| Text (name : bytes) (value : option bytes)
| Flag (name : bytes) (set : bool).

Definition said_name (f : said) : bytes := match f with Text name _ | Flag name _ => name end.

Definition occurrences (f : said) : list occurrence :=
  match f with
  | Text name (Some v) => [(name, Some v)]
  | Flag name true => [(name, None)]
  | _ => []
  end.

Definition line_of (fields : list said) : list occurrence := flat_map occurrences fields.

Definition say_key_input (hex file : option bytes) : list said := [Text (B "key-hex") hex; Text (B "key-file") file].

Definition name_of {A} `{EqDecision A} (names : list (bytes * A)) (a : A) : bytes :=
  match List.find (fun x => bool_decide (x.2 = a)) names with Some (name, _) => name | None => [] end.

#[export] Instance CliDecision_eq_decision : EqDecision CliDecision.t.
Proof. solve_decision. Defined.
#[export] Instance ConfigKey_eq_decision : EqDecision ConfigKey.
Proof. solve_decision. Defined.

Definition sub_of (c : Command) : subcommand :=
  match c with
  | GenKey _ _ => SubGenKey
  | Pubkey _ => SubPubkey
  | SampleRequest _ => SubSampleRequest
  | SampleResponse => SubSampleResponse
  | TestVector => SubTestVector
  | Request _ => SubRequest
  | FakeAgent _ => SubFakeAgent
  | PrepareConfig _ => SubPrepareConfig
  | ConfigKeyPath _ _ => SubConfigKeyPath
  end.

Definition say (c : Command) : list said :=
  match c with
  | GenKey private public => [Text (B "private-key-file") private; Text (B "public-key-file") public]
  | Pubkey a => say_key_input (key_hex a) (key_file a)
  | SampleRequest a =>
      say_key_input (optional_key_hex (fx_key_input a)) (optional_key_file (fx_key_input a)) ++
      [Text (B "key-id") (Some (fx_key_id a)); Text (B "host-id") (Some (fx_host_id a));
       Text (B "hostname") (Some (fx_hostname a)); Text (B "service") (Some (fx_service a));
       Text (B "user") (Some (fx_user a)); Text (B "ruser") (fx_ruser a); Text (B "rhost") (fx_rhost a);
       Text (B "tty") (fx_tty a); Text (B "sudo-command") (fx_sudo_command a)]
  | SampleResponse | TestVector => []
  | Request a =>
      [Flag (B "require-root-owned") (require_root_owned a); Text (B "config") (config_arg a);
       Text (B "socket") (socket_arg a)] ++
      say_key_input (key_hex (key_input a)) (key_file (key_input a)) ++
      [Text (B "agent-pubkey-hex") (agent_pubkey_hex (agent_pubkey_input a));
       Text (B "agent-pubkey-file") (agent_pubkey_file_arg (agent_pubkey_input a));
       Text (B "key-id") (key_id_arg a); Text (B "host-id") (host_id_arg a); Text (B "hostname") (hostname_arg a);
       Text (B "service") (service_arg a); Text (B "user") (Some (user a)); Text (B "ruser") (ruser a);
       Text (B "rhost") (rhost a); Text (B "tty") (tty a); Text (B "sudo-command") (sudo_command a);
       Text (B "timeout-ms") (option_map show_N (timeout_ms_arg a));
       Text (B "allowed-future-skew-ms") (option_map show_N (allowed_future_skew_ms_arg a));
       Text (B "replay-cache-dir") (replay_cache_dir_arg a)]
  | FakeAgent a =>
      [Text (B "socket") (Some (fa_socket a));
       Text (B "host-pubkey-hex") (host_pubkey_hex (host_pubkey_input a));
       Text (B "host-pubkey-file") (host_pubkey_file (host_pubkey_input a));
       Text (B "agent-key-hex") (agent_key_hex (agent_key_input a));
       Text (B "agent-key-file") (agent_key_file (agent_key_input a));
       Text (B "agent-key-id") (Some (fa_agent_key_id a));
       Text (B "decision") (Some (name_of decision_names (fa_decision a))); Flag (B "once") (fa_once a)]
  | PrepareConfig a =>
      [Text (B "source") (arg_source a); Text (B "socket") (Some (arg_socket a));
       Text (B "host-key-file") (Some (arg_host_key_file a));
       Text (B "agent-pubkey-file") (Some (arg_agent_pubkey_file a)); Text (B "host-id") (arg_host_id a);
       Text (B "hostname") (arg_hostname a); Text (B "replay-cache-dir") (arg_replay_cache_dir a)]
  | ConfigKeyPath config key =>
      [Text (B "config") (Some config); Text (B "key") (Some (name_of config_key_names key))]
  end.

Definition command_line (c : Command) : list occurrence := line_of (say c).

(** No field excludes another, values are taken for values, and numbers have
    64 bits. *)
Definition sayable (c : Command) : bool :=
  forallb (fun a => match against a with
                    | Some other => negb (given (command_line c) (arg_name a) && given (command_line c) other)
                    | None => true end) (options_of (sub_of c)) &&
  forallb (takes_value (sub_of c)) (command_line c) &&
  match c with
  | Request a => (default 0 (timeout_ms_arg a) <=? u64_max) && (default 0 (allowed_future_skew_ms_arg a) <=? u64_max)
  | _ => true
  end.

(** *** Reading a line back *)

Definition said_as (fields : list said) (name : bytes) : option (option bytes) :=
  match List.find (fun f => bool_decide (said_name f = name)) fields with
  | Some (Text _ (Some v)) => Some (Some v)
  | Some (Flag _ true) => Some None
  | _ => None
  end.

Lemma find_option_none occs name : name ∉ map fst occs -> find_option occs name = None.
Proof.
  unfold find_option. induction occs as [|[n v] occs IH]; [done|]. cbn. rewrite not_elem_of_cons. intros [Hn Hr].
  rewrite bool_decide_eq_false_2 by congruence. by apply IH.
Qed.

Lemma line_names fields name : name ∈ map fst (line_of fields) -> name ∈ map said_name fields.
Proof.
  induction fields as [|f fields IH]; [done|]. unfold line_of. cbn. rewrite map_app, elem_of_app, elem_of_cons.
  intros [Hf|Hr]; [left|right; by apply IH]. destruct f as [n [v|]|n [|]]; cbn in *; by rewrite ?list_elem_of_singleton, ?elem_of_nil in Hf.
Qed.

Lemma line_nodup fields : NoDup (map said_name fields) -> NoDup (map fst (line_of fields)).
Proof.
  induction fields as [|f fields IH]; [constructor|]. cbn. rewrite NoDup_cons. intros [Hn Hr].
  unfold line_of. cbn. rewrite map_app. apply NoDup_app. split_and!; [| |by apply IH].
  - destruct f as [n [v|]|n [|]]; cbn; [apply NoDup_singleton|constructor|apply NoDup_singleton|constructor].
  - intros n Hf Hl. apply Hn, line_names. destruct f as [n' [v|]|n' [|]]; cbn in Hf |- *;
      rewrite ?list_elem_of_singleton, ?elem_of_nil in Hf; by subst.
Qed.

Lemma find_said fields name : NoDup (map said_name fields) -> find_option (line_of fields) name = said_as fields name.
Proof.
  unfold said_as. induction fields as [|f fields IH]; [done|]. cbn [map]. rewrite NoDup_cons. intros [Hn Hr].
  cbn [List.find]. case_bool_decide as Hname.
  - assert (find_option (line_of fields) name = None) as Hnone.
    { apply find_option_none. intros Hin%line_names. by rewrite <- Hname in Hin. }
    unfold line_of, find_option in *. destruct f as [n [v|]|n [|]]; cbn in *; rewrite ?bool_decide_eq_true_2 by done; done.
  - rewrite <- (IH Hr). unfold line_of, find_option.
    destruct f as [n [v|]|n [|]]; cbn in *; rewrite ?bool_decide_eq_false_2 by done; done.
Qed.

Lemma value_said fields name n v : NoDup (map said_name fields) ->
  List.find (fun f => bool_decide (said_name f = name)) fields = Some (Text n v) -> value_of (line_of fields) name = v.
Proof. intros Hn Hf. unfold value_of. rewrite find_said by done. unfold said_as. rewrite Hf. by destruct v. Qed.

Lemma given_said fields name f : NoDup (map said_name fields) ->
  List.find (fun f => bool_decide (said_name f = name)) fields = Some f ->
  given (line_of fields) name = match f with Text _ (Some _) => true | Text _ None => false | Flag _ b => b end.
Proof. intros Hn Hf. unfold given. rewrite find_said by done. unfold said_as. rewrite Hf. by destruct f as [? []|? []]. Qed.

Lemma say_nodup c : NoDup (map said_name (say c)).
Proof. apply (bool_decide_unpack _). destruct c; vm_compute; exact I. Qed.

Lemma variant_name {A} `{EqDecision A} (names : list (bytes * A)) d a :
  forallb (fun x => bool_decide (variant names d (Some x.1) = x.2)) names = true -> In a (map snd names) ->
  variant names d (Some (name_of names a)) = a.
Proof.
  intros Hall Hin. unfold name_of.
  destruct (List.find (fun x => bool_decide (x.2 = a)) names) as [[n b]|] eqn:Hf.
  - apply List.find_some in Hf as [Hb He]. apply bool_decide_eq_true in He. cbn in He. subst b.
    rewrite forallb_forall in Hall. apply Hall, bool_decide_eq_true in Hb. exact Hb.
  - apply in_map_iff in Hin as ([n b] & Hb & Hin). cbn in Hb. subst b. apply (List.find_none _ _ Hf) in Hin. cbn in Hin.
    by rewrite bool_decide_eq_true_2 in Hin.
Qed.

#[local] Ltac read_back :=
  repeat match goal with
  | |- context [value_of (line_of (say ?c)) ?n] => erewrite (value_said (say c) n) by (apply say_nodup || reflexivity)
  | |- context [given (line_of (say ?c)) ?n] => erewrite (given_said (say c) n) by (apply say_nodup || reflexivity)
  end.

Lemma parse_shown t : (default 0 t <=? u64_max) = true ->
  match option_map show_N t with Some v => parse_u64 v | None => None end = t.
Proof. intros Ht%N.leb_le. destruct t as [t|]; [|done]. cbn in *. by apply parse_show_u64. Qed.

Lemma command_of_line c : sayable c = true -> command_of (sub_of c) (command_line c) = c.
Proof.
  unfold sayable. rewrite !andb_true_iff. intros [_ Hn]. unfold command_line.
  destruct c as [p q|[]|[[]]| | |[]|[? [] []]|[]|? k]; cbn [sub_of command_of]; unfold field_of, request_args, number_of;
    read_back; try reflexivity.
  - apply andb_true_iff in Hn as [H1 H2]. cbn -[N.leb default] in H1, H2. destruct key_input, agent_pubkey_input.
    cbn -[N.leb]. by rewrite !parse_shown.
  - cbn -[variant name_of decision_names]. rewrite variant_name; [done|by vm_compute|]. by destruct fa_decision; cbn; tauto.
  - cbn -[variant name_of config_key_names]. rewrite variant_name; [done|by vm_compute|]. by destruct k; cbn; tauto.
Qed.

Definition is_flag_said (f : said) : bool := match f with Flag _ _ => true | Text _ _ => false end.

Lemma line_known (P : bytes -> bool -> bool) fields : forallb (fun f => P (said_name f) (is_flag_said f)) fields = true ->
  forallb (fun o => P o.1 (match o.2 with None => true | Some _ => false end)) (line_of fields) = true.
Proof.
  rewrite !forallb_forall. intros Hf o (f & Hin & Ho)%in_flat_map. specialize (Hf f Hin).
  destruct f as [n [v|]|n [|]]; cbn in *; try done; destruct Ho as [<-|[]]; exact Hf.
Qed.

Lemma line_of_command c : sayable c = true -> line_of_options (sub_of c) (command_line c) = true.
Proof.
  unfold sayable, line_of_options. rewrite !andb_true_iff. intros [[Hc _] _]. split_and!; [| | |exact Hc].
  - apply bool_decide_eq_true, line_nodup, say_nodup.
  - apply (line_known (fun n b => match find_arg (sub_of c) n with Some a => Bool.eqb (is_flag a) b | None => false end)).
    destruct c; vm_compute; reflexivity.
  - clear Hc. destruct c; try reflexivity; unfold command_line; cbn -[given line_of say]; read_back; reflexivity.
Qed.

Section Said.
Context `{Kernel W} `{SL : SubcommandLaws} `{Crypto} `{Hex} `{Toml} `{SerdePretty}.
Context `{SerdeJson SignedAuthRequest.t} `{SerdeJson SignedAuthResponse.t}.

Lemma command_parsed program c : sayable c = true ->
  cli_parse (program :: sub_name (sub_of c) :: flat_map render (command_line c)) = Ok {| command := c |}.
Proof.
  intros Hc. rewrite parse_subcommand_line by by apply line_of_command. rewrite command_of_line by done.
  unfold sayable in Hc. rewrite !andb_true_iff in Hc. by destruct Hc as [[_ ->] _].
Qed.
End Said.

(** What [clap] documents of [request] for the module is what it documents of
    every subcommand. *)
Lemma request_options_are : map (fun a => (arg_name a, arg_kind a)) (options_of SubRequest) =
  map (fun o => (o.1, Plain o.2)) request_options.
Proof. reflexivity. Qed.


(** ** A parser of such lines *)

Definition all_subcommands : list subcommand :=
  [SubGenKey; SubPubkey; SubSampleRequest; SubSampleResponse; SubTestVector; SubRequest; SubFakeAgent;
   SubPrepareConfig; SubConfigKeyPath].

Fixpoint read_words (sub : subcommand) (words : list bytes) : option (list occurrence) :=
  match words with
  | [] => Some []
  | word :: words =>
      match strip_prefix (B "--") word with
      | None => None
      | Some name =>
          match find_arg sub name, words with
          | None, _ => None
          | Some a, v :: words' =>
              if is_flag a then cons (name, None) <$> read_words sub words
              else cons (name, Some v) <$> read_words sub words'
          | Some a, [] => if is_flag a then Some [(name, None)] else None
          end
      end
  end.

#[local] Instance plain_clap : Clap := {|
  cli_parse argv :=
    match argv with
    | _ :: name :: words =>
        match List.find (fun sub => bool_decide (sub_name sub = name)) all_subcommands with
        | Some sub =>
            match read_words sub words with
            | Some occs => if forallb (takes_value sub) occs then Ok {| command := command_of sub occs |} else Err 2
            | None => Err 2
            end
        | None => Err 2
        end
    | _ => Err 2
    end |}.

Lemma read_words_render sub occs :
  forallb (fun o => match find_arg sub o.1 with
                    | Some a => Bool.eqb (is_flag a) (match o.2 with None => true | Some _ => false end)
                    | None => false end) occs = true -> read_words sub (flat_map render occs) = Some occs.
Proof.
  induction occs as [|[n v] occs IH]; [done|]. cbn [forallb fst snd]. rewrite andb_true_iff. intros [Ho Hr].
  specialize (IH Hr). destruct (find_arg sub n) as [a|] eqn:Ha; [|done]. apply eqb_prop in Ho.
  destruct v as [v|]; cbn [flat_map render fst snd app read_words]; rewrite strip_prefix_app, Ha.
  - by rewrite Ho, IH.
  - rewrite Ho. destruct (flat_map render occs) eqn:Ef; [|by rewrite IH]. cbn in IH. by injection IH as <-.
Qed.

Lemma find_subcommand sub : List.find (fun x => bool_decide (sub_name x = sub_name sub)) all_subcommands = Some sub.
Proof. by destruct sub. Qed.

#[local] Instance plain_clap_laws : SubcommandLaws.
Proof.
  split. intros program sub occs Hl. unfold cli_parse, plain_clap. rewrite find_subcommand.
  unfold line_of_options in Hl. rewrite !andb_true_iff in Hl. by rewrite read_words_render by tauto.
Defined.

#[local] Existing Instance plain_crypto.
#[local] Existing Instance sample_hex.
#[local] Existing Instance sample_toml.

(** The fake agent of the integration tests. *)
Definition said_fake_agent : Command := FakeAgent {|
  fa_socket := B "/run/agent.sock";
  host_pubkey_input := {| host_pubkey_hex := Some (B "00"); host_pubkey_file := None |};
  agent_key_input := {| agent_key_hex := None; agent_key_file := Some (B "/run/agent.key") |};
  fa_agent_key_id := B "agent-key-1"; fa_decision := CliDecision.Denied; fa_once := true |}.

