(* ===== verification/Authentication.v ===== *)
(** * From [sudo] to the helper and back ([Pam] with [Cli] and [Main])

    The PAM module and the helper are two programs: the module starts the
    helper in a child process and learns from [waitpid] how it ended.  What
    the system promises of processes is the class [ProcessLaws]; with it, what
    the module reports to [sudo] is what the helper's theorems say of its
    exit status. *)

From Stdlib Require Import NArith ZArith Lia List Bool.
From Stdlib Require Import Strings.Byte Strings.String.
From stdpp Require Import base decidable list option strings.
From S2P Require Import Prelude RustStd Crypto Protocol Canonical Samples ProtocolProps Sys.
From S2P Require Import Ownership Io Transport Sim TransportProps Frame Trust Common Keys Config.
From S2P Require Import Replay Request Verdict RequestProps FakeAgent Main Automaton Pam PamProps Cli.

Open Scope N_scope.

(** ** Processes *)

(** [runs pid c w]: the process [pid] is a child that was given the program
    [c] and has not been waited for.  A status that says that it exited is
    the one that a run of [c] ended with, in eight bits. *)
Class ProcessLaws (W : Type) `{PamKernel W} := {
  runs : N -> Program W -> W -> Prop;
  runs_fork c w pid w' : k_fork c w = (Ok pid, w') -> runs pid c w';
  runs_wait pid c nohang w : runs pid c w ->
    match (k_waitpid pid nohang w).1 with
    | Ok (Some status) => WIFEXITED status = true ->
        exists s0 n s1, c s0 = (Done n, s1) /\ WEXITSTATUS status = n mod 256
    | _ => runs pid c (k_waitpid pid nohang w).2
    end;
  runs_kill pid c p signal w : runs pid c w -> runs pid c (k_kill p signal w).2;
  runs_usleep pid c us w : runs pid c w -> runs pid c (k_usleep us w).2;
  runs_monotonic pid c w : runs pid c w -> runs pid c (k_monotonic w).2;
}.

Section Processes.
Context `{Kernel W} `{PamKernel W} `{!ProcessLaws W}.

(** The child keeps running. *)
Definition keeps_running (s s' : state W) : Prop :=
  forall pid c, runs pid c (world s) -> runs pid c (world s').

#[local] Instance keeps_running_preorder : PreOrder keeps_running.
Proof. split; [by intros ? ? ?|]. intros s1 s2 s3 H1 H2 pid c Hr. by apply H2, H1. Qed.

Lemma clocked_prim {E A} (f : W -> A * W) ev :
  (forall pid c w, runs pid c w -> runs pid c (f w).2) -> respects keeps_running (prim (E := E) f ev).
Proof. intros Hf s pid c Hr. unfold prim. specialize (Hf pid c (world s) Hr). by destruct (f (world s)). Qed.

Lemma keeps_monotonic {E} : respects keeps_running (monotonic_ms (E := E)).
Proof. unfold monotonic_ms, clock_gettime. respects_tac; apply clocked_prim, runs_monotonic. Qed.

(** A run that cannot have ended so. *)
Ltac absurd_run HR := exfalso; repeat (apply bind_ok in HR as (? & ? & _ & HR)); discriminate HR.

(** The clock was read [t] after the time [start]. *)
Definition overdue (start t : N) (s s' : state W) : Prop :=
  exists before r now after, reading r = Some now /\ start + t <= now /\
    made s s' (before ++ EvPam (EvMonotonic r) :: after).

Lemma any_made (s s' : state W) evs : made s s' evs -> emitted any s s'.
Proof. intros HM. exists evs. split; [done|]. by apply Forall_forall. Qed.

Lemma overdue_extend start t (s0 s s' s1 : state W) :
  emitted any s0 s -> overdue start t s s' -> emitted any s' s1 -> overdue start t s0 s1.
Proof.
  intros (e0 & M0 & _) (b & r & now & a & Hr & Hle & M) (e1 & M1 & _).
  exists (e0 ++ b), r, now, (a ++ e1). split_and!; [done|done|].
  pose proof (made_app _ _ _ _ _ (made_app _ _ _ _ _ M0 M) M1) as M2. by rewrite <- !app_assoc in *.
Qed.

Lemma any_kill_and_reap {E} fuel pid : emits any (kill_and_reap (E := E) fuel pid).
Proof. unfold kill_and_reap, kill, waitpid. respects_tac; by apply emits_prim. Qed.

Lemma any_grace {E} fuel pid turns : emits any (grace (E := E) fuel pid turns).
Proof.
  pose proof (any_kill_and_reap (E := E)) as Hk.
  induction turns as [|turns IH]; cbn [grace]; unfold waitpid, usleep; respects_tac; by apply emits_prim.
Qed.

Lemma any_wait_round {E} fuel pid start t : emits any (wait_round (E := E) fuel pid start t).
Proof.
  pose proof (any_kill_and_reap (E := E)) as Hk. pose proof (any_grace (E := E)) as Hg.
  unfold wait_round, monotonic_ms, clock_gettime, waitpid, usleep, kill. respects_tac; by apply emits_prim.
Qed.

Lemma monotonic_ms_ok {E} start (s s' : state W) :
  monotonic_ms (E := E) s = (Done (Ok (Some start)), s') ->
  exists r, reading r = Some start /\ made s s' [EvPam (EvMonotonic r)].
Proof.
  intros HR. apply bind_ok in HR as (r & s1 & (? & [= <-] & HM & _)%prim_done & [= Hs <-]). by exists r.
Qed.

(** The code of a run that kills and returns it. *)
Ltac code_of HR := repeat (apply bind_ok in HR as (? & ? & _ & HR)); injection HR as <- _.

Lemma grace_codes {E} fuel pid turns code (s s' : state W) :
  grace (E := E) fuel pid turns s = (Done (Ok code), s') ->
  code = 127 \/ code = MACOS_AUTH_HELPER_TIMEOUT_EXIT.
Proof.
  revert s. induction turns as [|turns IH]; intros s HR; cbn [grace] in HR.
  { right. by code_of HR. }
  apply bind_ok in HR as ([[st|]|e] & s1 & _ & HR).
  - right. by code_of HR.
  - apply bind_ok in HR as (? & ? & _ & HR). by eapply IH.
  - destruct (decide _); [left; by code_of HR|]. apply bind_ok in HR as (? & ? & _ & HR). by eapply IH.
Qed.

Lemma wait_round_status {E} fuel pid start t c (s s' : state W) x :
  runs pid c (world s) -> wait_round (E := E) fuel pid start t s = (Done (Ok x), s') ->
  match x with
  | inl _ => runs pid c (world s')
  | inr (inl code) => code = 127 \/ code = MACOS_AUTH_HELPER_TIMEOUT_EXIT /\ overdue start t s s'
  | inr (inr status) => WIFEXITED status = true ->
      exists s0 n s1, c s0 = (Done n, s1) /\ WEXITSTATUS status = n mod 256
  end.
Proof.
  intros Hrun HR. unfold wait_round in HR.
  apply bind_ok in HR as (r & s1 & (r' & [= <-] & HM & Hk)%prim_done & HR).
  pose proof (runs_wait pid c true (world s) Hrun) as Hrw. rewrite Hk in Hrw. cbn in Hrw.
  destruct x as [[]|[code|status]].
  - destruct r as [[st'|]|e]; [done| |].
    + apply bind_ok in HR as (now & s2 & Hm & HR). pose proof (keeps_monotonic (E := E) s1) as Hks.
      rewrite Hm in Hks. cbn in Hks. apply Hks in Hrw. destruct now as [now|]; [|absurd_run HR].
      destruct (now <? start); [absurd_run HR|]. destruct (t <=? now - start); [absurd_run HR|].
      apply bind_ok in HR as ([] & s3 & (? & _ & _ & Hu)%prim_done & [= <-]).
      pose proof (runs_usleep pid c 10000 _ Hrw) as Hus. by rewrite Hu in Hus.
    + destruct (decide (e = EINTR)) as [->|]; [by injection HR as <-|]. destruct e; try done; absurd_run HR.
  - destruct r as [[st'|]|e]; [absurd_run HR| |].
    + apply bind_ok in HR as ([now|] & s2 & Hm & HR); [|left; by code_of HR].
      destruct (N.ltb_spec now start); [left; by code_of HR|].
      destruct (N.leb_spec t (now - start)); [|absurd_run HR].
      apply bind_ok in HR as ([] & s3 & (? & _ & M3 & _)%prim_done & HR).
      apply bind_ok in HR as (code' & s4 & Hg & [= -> ->]). pose proof (emits_run _ _ _ _ _ (any_grace _ _ _) Hg) as A4.
      apply grace_codes in Hg as [->| ->]; [by left|]. right. split; [done|].
      apply monotonic_ms_ok in Hm as (r & Hr & M2). apply (overdue_extend _ _ s s1 s2 s'); [exact (any_made _ _ [_] HM)| |].
      * exists [], r, now, []. split_and!; [done|lia|done].
      * etransitivity; [exact (any_made _ _ [_] M3)|exact A4].
    + destruct (decide (e = EINTR)) as [->|]; [done|]. left. destruct e; try done; by code_of HR.
  - destruct r as [[st'|]|e].
    + injection HR as <- <-. exact Hrw.
    + apply bind_ok in HR as ([now|] & s2 & _ & HR); [|absurd_run HR].
      destruct (now <? start); [absurd_run HR|]. destruct (t <=? now - start); absurd_run HR.
    + destruct (decide (e = EINTR)) as [->|]; [done|]. destruct e; try done; absurd_run HR.
Qed.

Definition out_of_time (t : N) (s s' : state W) : Prop :=
  exists r start s1, reading r = Some start /\ made s s1 [EvPam (EvMonotonic r)] /\ overdue start t s1 s'.

(** What the module learns of the helper: nothing ([127]), that the time was
    up, or how the process ended. *)
Lemma run_helper_status {E} fuel f argv t code (s s' : state W) :
  run_helper (E := E) fuel f argv t s = (Done (Ok code), s') ->
  code = 127 \/ code = MACOS_AUTH_HELPER_TIMEOUT_EXIT /\ out_of_time t s s' \/
  exists s0 n s1, child_program fuel f argv s0 = (Done n, s1) /\ code = n mod 256.
Proof.
  unfold run_helper. destruct (t =? 0); [intros [= <- _]; by left|]. intros HR.
  apply bind_ok in HR as ([start|] & s1 & Hm & HR); [|left; by injection HR].
  apply monotonic_ms_ok in Hm as (r & Hr & M1).
  apply bind_ok in HR as ([pid|e] & s2 & (r' & [= <-] & M2 & Hf)%prim_done & HR); [|left; by injection HR].
  apply runs_fork in Hf. apply bind_ok in HR as (x & s3 & HL & [= <- <-]).
  set (P := fun (_ : unit) (s : state W) (x : N + N) (s' : state W) =>
    runs pid (child_program fuel f argv) (world s) ->
    let code := match x with inl code => code | inr status => exit_of_status status end in
    code = 127 \/ code = MACOS_AUTH_HELPER_TIMEOUT_EXIT /\ overdue start t s s' \/
    exists s0 n s1, child_program fuel f argv s0 = (Done n, s1) /\ code = n mod 256).
  assert (P tt s2 x s3) as HP.
  2: { destruct (HP Hf) as [?|[[? Hd]|?]]; [by left| |by do 2 right]. right. left. split; [done|].
       exists r, start, s1. split_and!; [done|done|]. apply (overdue_extend _ _ s1 s2 s3 s3); [exact (any_made _ _ [_] M2)|done|reflexivity]. }
  revert HL. apply loop_ok_ind; clear.
  - intros [] s4 [] s5 a s6 Hw IH Hrun. pose proof (emits_run _ _ _ _ _ (any_wait_round _ _ _ _) Hw) as A5.
    destruct (IH (wait_round_status _ _ _ _ _ _ _ _ Hrun Hw)) as [?|[[? Hd]|?]]; [by left| |by do 2 right].
    right. left. split; [done|]. apply (overdue_extend _ _ s4 s5 s6 s6); [done|done|reflexivity].
  - intros [] s4 [code|status] s5 Hw Hrun; pose proof (wait_round_status _ _ _ _ _ _ _ _ Hrun Hw) as Hs;
      cbv beta iota zeta in Hs |- *; [destruct Hs as [?|?]; [by left|by right; left]|].
    unfold exit_of_status. destruct (WIFEXITED status); [|by left]. do 2 right.
    destruct (Hs eq_refl) as (s7 & n & s8 & ? & ?). by exists s7, n, s8.
Qed.

(** ** The child *)

(** The calls of the child up to the one that made it another program. *)
Definition executed (f : fd) (argv : list bytes) (program : Program W) (s s' : state W) : Prop :=
  exists moved closed w,
    moved = (if f =? 3 then [] else [EvPam (EvDup2 f 3 (Ok tt))]) /\
    k_fexecve 3 argv envp w = (Ok program, world s') /\
    made s s' (moved ++ EvSetCloexec 3 (Ok tt) :: closed ++ [EvPam (EvExec 3 argv envp (Ok tt))]).

(** Computations that end in no error. *)
Definition errorless {E A} (m : M W E A) : Prop := forall s e s', m s <> (Done (Err e), s').

Lemma errorless_ret {E A} (a : A) : errorless (ret (E := E) a).
Proof. by intros s e s'. Qed.

Lemma errorless_prim {E A} (f : W -> A * W) ev : errorless (prim (E := E) f ev).
Proof. intros s e s' (? & ? & _)%prim_done. done. Qed.

Lemma errorless_attempt {E E' A} (m : M W E' A) : errorless (attempt (F := E) m).
Proof. intros s e s' (? & _ & ?)%attempt_ok. done. Qed.

Lemma errorless_bind {E A B} (m : M W E A) (k : A -> M W E B) :
  errorless m -> (forall a, errorless (k a)) -> errorless (bind m k).
Proof. intros Hm Hk s e s' [HE|(a & s1 & _ & HE)]%bind_err; [by eapply Hm|by eapply Hk]. Qed.

Lemma errorless_loop {E S A} fuel (body : S -> M W E (S + A)) st :
  (forall st, errorless (body st)) -> errorless (loop fuel body st).
Proof.
  intros Hb. revert st. induction fuel as [|fuel IH]; intros st; [by intros s e s'|]. cbn.
  apply errorless_bind; [done|]. intros [st'|a]; [apply IH|apply errorless_ret].
Qed.

Lemma errorless_close_inherited {E} fuel : errorless (close_inherited_fds (E := E) fuel).
Proof.
  assert (forall f buffer, errorless (close_entry (E := E) f buffer)) as Hentry.
  { intros f buffer. unfold close_entry. destruct buffer as [|b bs]; [apply errorless_ret|].
    destruct (entry_reclen _).
    - apply errorless_bind; [apply errorless_prim|]. intros. apply errorless_ret.
    - apply errorless_bind; [|intros; apply errorless_ret].
      destruct (_ && _); [apply errorless_prim|apply errorless_ret]. }
  unfold close_inherited_fds. apply errorless_bind; [apply errorless_prim|]. intros [_|_]; [apply errorless_ret|].
  apply errorless_bind; [apply errorless_attempt|]. intros [f|_]; [|apply errorless_ret].
  apply errorless_loop. intros _. unfold close_listed. apply errorless_bind; [apply errorless_prim|].
  assert (errorless (do! close f ;; ret (inr false) : M W E (unit + bool))) as Hclose
    by (apply errorless_bind; [apply errorless_prim|intros; apply errorless_ret]).
  intros [[|b bs]|[]]; try done; try apply errorless_ret.
  - apply errorless_bind; [apply errorless_prim|intros; apply errorless_ret].
  - apply errorless_bind; [by apply errorless_loop|]. intros []; apply errorless_ret.
Qed.

Lemma any_close_inherited {E} fuel : emits any (close_inherited_fds (E := E) fuel).
Proof.
  unfold close_inherited_fds, close_listed, close_entry, close_range, sys_open, getdents64, close.
  respects_tac; by apply emits_prim.
Qed.

(** The child exits with 127, or it became another program. *)
Lemma child_done fuel f argv r (s s' : state W) :
  child fuel f argv s = (Done r, s') ->
  r = Err 127 \/ exists program s1, executed f argv program s s1 /\ become program s1 = (Done r, s').
Proof.
  unfold child. intros HC.
  apply bind_run in HC as [(r1 & s1 & H1 & HC)|[(e & H1 & _)|[[_ [=]]|[_ [=]]]]].
  2: { exfalso. destruct (f =? 3); [done|]. by apply errorless_prim in H1. }
  destruct r1 as [[]|e]; [|left; by injection HC].
  set (moved := if f =? 3 then [] else [EvPam (EvDup2 f 3 (Ok tt))]).
  assert (made s s1 moved) as M1.
  { unfold moved. destruct (f =? 3); [injection H1 as <-; apply made_nil|].
    by apply prim_done in H1 as (? & [= <-] & ? & _). }
  apply bind_run in HC as [(r2 & s2 & H2 & HC)|[(e & H2 & _)|[[_ [=]]|[_ [=]]]]].
  2: { by apply errorless_attempt in H2. }
  apply attempt_ok in H2 as (r2' & H2 & [= ->]). destruct r2' as [[]|e]; [|left; by injection HC].
  apply os_prim_ok in H2.
  apply bind_run in HC as [(closed & s3 & H3 & HC)|[(e & H3 & _)|[[_ [=]]|[_ [=]]]]].
  2: { by apply errorless_close_inherited in H3. }
  pose proof (emits_run _ _ _ _ _ (any_close_inherited _) H3) as (evs & M3 & _).
  destruct closed; cbn [negb] in HC; [|left; by injection HC].
  apply bind_run in HC as [(r4 & s4 & H4 & HC)|[(e & H4 & _)|[[_ [=]]|[_ [=]]]]].
  2: { by apply errorless_prim in H4. }
  apply prim_done in H4 as (r4' & [= <-] & M4 & Hx). destruct r4 as [program|e]; [|left; by injection HC].
  right. exists program, s4. split; [|done]. exists moved, evs, (world s3). split_and!; [done|done|].
  apply (made_app _ _ _ _ _ M1), (made_app _ _ _ [_] _ H2), (made_app _ _ _ _ _ M3), M4.
Qed.

Lemma child_status fuel f argv (s s' : state W) n :
  child_program fuel f argv s = (Done n, s') ->
  n = 127 \/ exists program s1, executed f argv program s s1 /\ program s1 = (Done n, s').
Proof.
  unfold child_program. intros HC. destruct (child fuel f argv s) as [[r| |] s2] eqn:HR; try done.
  assert ((r = Ok n \/ r = Err n) /\ s2 = s') as [Hr ->] by (destruct r; naive_solver).
  apply child_done in HR as [->|(program & s1 & Hx & HB)]; [left; naive_solver|].
  right. exists program, s1. split; [done|]. unfold become in HB.
  destruct (program s1) as [[m| |] s3]; try done. injection HB as <- <-. by destruct Hr as [[= <-]|[=]].
Qed.
End Processes.

(** ** The module and the helper *)

(** What the module asks PAM for: the items it knows, and the user. *)
Definition asked_pam {W} (usr : bytes) (service rusr rhst ttyname : option bytes) (s s' : state W) : Prop :=
  usr <> [] /\ exists r1 r2 r3 r4,
    let item (r : result (option bytes) N) := match r with Ok v => nonempty v | Err _ => None end in
    service = item r1 /\ rusr = item r2 /\ rhst = item r3 /\ ttyname = item r4 /\
    made s s' (map EvPam [EvPamItem PAM_SERVICE r1; EvPamItem PAM_RUSER r2; EvPamItem PAM_RHOST r3;
                          EvPamItem PAM_TTY r4; EvPamUser (Ok (Some usr))]).

Section Composed.
Context `{Kernel W} `{PamKernel W} `{!ProcessLaws W} `{CL : ClapLaws}.
Context `{Crypto} `{Hex} `{Toml} `{SerdePretty}.
Context `{SerdeJson SignedAuthRequest.t} `{SerdeJson SignedAuthResponse.t} (oc : bool) (hfuel : nat).

(** The file at the path of the helper holds the helper. *)
Definition installed : Prop := forall argv envp w program w',
  k_fexecve 3 argv envp w = (Ok program, w') -> program = helper_main oc hfuel argv.

(** The helper was run from the descriptor [f], and ended with [status]. *)
Definition helper_ran (f : fd) (argv : list bytes) (args : RequestArgs) (status : N) (p0 p1 : state W) : Prop :=
  exists c0, executed f argv (helper_main oc hfuel argv) c0 p0 /\
    main oc hfuel (Request args) p0 = (Done status, p1).

Lemma pam_item_string_ok item v (s s' : state W) :
  pam_item_string (E := Empty_set) item s = (Done (Ok v), s') ->
  exists r, v = match r with Ok v => nonempty v | Err _ => None end /\ made s s' [EvPam (EvPamItem item r)].
Proof.
  intros HR. apply bind_ok in HR as (r & s1 & (? & [= <-] & HM & _)%prim_done & [= <- <-]).
  exists r. split; [|done]. by destruct r as [[[|? ?]|]|].
Qed.

(** An answer other than [PAM_AUTH_ERR] is the one for an exit code that the
    helper's process gave, or for the end of its time. *)
Lemma authenticate_ok fuel argv code (s s' : state W) :
  pam_sm_authenticate (E := Empty_set) fuel argv s = (Done (Ok code), s') -> code <> PAM_AUTH_ERR ->
  exists usr service rusr rhst ttyname hargv f helper_exit s1 s2 s3,
    asked_pam usr service rusr rhst ttyname s s1 /\
    helper_argv (parse_options argv) usr service rusr rhst ttyname = Some hargv /\
    helper_opened (helper_path (parse_options argv)) f s1 s2 /\
    run_helper (E := Empty_set) fuel f hargv (timeout_ms (parse_options argv)) s2 = (Done (Ok helper_exit), s3) /\
    made s3 s' [EvClose f] /\ code = map_exit_to_pam helper_exit.
Proof.
  unfold pam_sm_authenticate. cbv zeta. intros HR Hc.
  apply bind_ok in HR as (service & s1 & (r1 & E1 & M1)%pam_item_string_ok & HR).
  apply bind_ok in HR as (rusr & s2 & (r2 & E2 & M2)%pam_item_string_ok & HR).
  apply bind_ok in HR as (rhst & s3 & (r3 & E3 & M3)%pam_item_string_ok & HR).
  apply bind_ok in HR as (ttyname & s4 & (r4 & E4 & M4)%pam_item_string_ok & HR).
  apply bind_ok in HR as (ru & s5 & (? & [= <-] & M5 & _)%prim_done & HR).
  destruct ru as [[[|u us]|]|]; try (by injection HR as <-).
  destruct (helper_argv _ _ _ _ _ _) as [hargv|] eqn:Eargv; [|by injection HR as <-].
  apply bind_ok in HR as ([f|] & s6 & Hv & HR); [|by injection HR as <-].
  apply validate_helper_path_ok in Hv.
  apply bind_ok in HR as (n & s7 & Hn & HR).
  apply bind_ok in HR as ([] & s8 & (? & _ & M8 & _)%prim_done & [= <- <-]).
  exists (u :: us), service, rusr, rhst, ttyname, hargv, f, n, s5, s6, s7. split_and!; try done.
  split; [done|]. exists r1, r2, r3, r4. split_and!; try done.
  apply (made_app _ _ _ [_] _ M1), (made_app _ _ _ [_] _ M2), (made_app _ _ _ [_] _ M3),
    (made_app _ _ _ [_] _ M4), M5.
Qed.

(** How the process of the helper can end: before it was the helper, with a
    usage error, with a panic, or as the helper's [main] says. *)
Lemma helper_status fuel f argv args status (s0 s1 : state W) :
  installed -> (cli_parse argv = Err 2 \/ cli_parse argv = Ok {| command := Request args |}) ->
  child_program fuel f argv s0 = (Done status, s1) ->
  In status [2; 101; 127] \/ exists p0, helper_ran f argv args status p0 s1.
Proof.
  intros Hi Hp [->|(program & p0 & Hx & HR)]%child_status; [left; cbn; tauto|].
  pose proof Hx as (moved & closed & w & _ & Hexec & _). apply Hi in Hexec as ->.
  unfold helper_main in HR. destruct Hp as [Hp|Hp]; rewrite Hp in HR.
  { injection HR as <- _. left. cbn. tauto. }
  destruct (main oc hfuel _ p0) as [[n| |] s2] eqn:HM; try done.
  - injection HR as <- <-. right. exists p0, s0. split; [|done].
    unfold helper_main in Hx. exact Hx.
  - injection HR as <- _. left. cbn. tauto.
Qed.

(** The arguments that the helper is given for what PAM knows. *)
Definition args_for (argv : list bytes) (usr : bytes) (service rusr rhst ttyname : option bytes)
  : RequestArgs := pam_args (config_path (parse_options argv)) usr service rusr rhst ttyname.

(** A call of the module whose answer rests on a run of the helper: the items
    of PAM, the path that was opened, and the run that ended with [status]. *)
Definition rests_on (argv : list bytes) (args : RequestArgs) (status : N) (p0 p1 s s' : state W) : Prop :=
  exists usr service rusr rhst ttyname hargv f s1 s2,
    asked_pam usr service rusr rhst ttyname s s1 /\
    args = args_for argv usr service rusr rhst ttyname /\
    helper_argv (parse_options argv) usr service rusr rhst ttyname = Some hargv /\
    helper_opened (helper_path (parse_options argv)) f s1 s2 /\
    helper_ran f hargv args status p0 p1.

Lemma mod_small_status n m : n mod 256 = m -> In m [0; 10; 11; 12] ->
  In n [EXIT_APPROVED; 1; EXIT_UNAVAILABLE; EXIT_CANCELLED; EXIT_FAILED; EXIT_DENIED;
        EXIT_TAMPER; EXIT_UNSAFE_CONFIG; EXIT_PROTOCOL; 2; 101; 127] -> n = m.
Proof. intros <- Hm Hn. cbn in Hn. repeat (destruct Hn as [<-|Hn]; [done|]). done. Qed.

(** An answer other than an error rests on a run of the helper that ended with
    the status it stands for, or the time was up. *)
Lemma authenticate_rests fuel argv code (s s' : state W) :
  installed -> pam_sm_authenticate (E := Empty_set) fuel argv s = (Done (Ok code), s') ->
  code <> PAM_AUTH_ERR ->
  (code = PAM_AUTHINFO_UNAVAIL /\ exists s1 s2, emitted any s s1 /\ emitted any s2 s' /\
     out_of_time (timeout_ms (parse_options argv)) s1 s2) \/
  exists args status p0 p1, rests_on argv args status p0 p1 s s' /\
    code = map_exit_to_pam status /\ In status [0; 10; 11; 12].
Proof.
  intros Hi HR Hc. pose proof (authenticate_ok _ _ _ _ _ HR Hc) as
    (usr & service & rusr & rhst & ttyname & hargv & f & n & s1 & s2 & s3 & Ha & Hargv & Ho & Hrun & Hm & ->).
  assert (In n [0; 10; 11; 12]) as Hn.
  { destruct (map_exit_to_pam_cases n) as ([E|[E|[E|[]]]] & Hz & Hf); [left; symmetry; by apply Hz|congruence|].
    right. by apply Hf. }
  pose proof Ha as (_ & r1 & r2 & r3 & r4 & _ & _ & _ & _ & M1).
  pose proof Ho as (root & st & evs & _ & _ & _ & _ & M2).
  apply run_helper_status in Hrun as [->|[[-> Hd]|(c0 & m & p1 & Hch & Hmod)]]; [by cbn in Hn; intuition|..].
  { left. split; [done|]. exists s2, s3. split_and!; [|by eapply any_made|done].
    etransitivity; by eapply any_made. }
  right. pose proof (parse_pam_line _ _ _ _ _ _ _ Hargv) as Hp.
  destruct (helper_status _ _ _ _ _ _ _ Hi Hp Hch) as [Hs|(p0 & Hran)].
  { exfalso. assert (m = n) as ->; [apply mod_small_status; [done|done|cbn in *; tauto]|].
    cbn in Hs, Hn. intuition congruence. }
  assert (m = n) as ->.
  { apply mod_small_status; [done|done|]. destruct Hran as (c1 & _ & HM). apply request_status in HM as [Hin _].
    cbn in *. tauto. }
  eexists _, n, p0, p1. split; [|done].
  by exists usr, service, rusr, rhst, ttyname, hargv, f, s1, s2.
Qed.
End Composed.


