(* ===== verification/PamSim.v ===== *)
(** * A computing system with processes, for the witnesses of the PAM module

    The simulated machine of [Sim] with one child process at a time, a
    monotonic clock, the items of PAM, and a parser of command lines.  [fork]
    runs the child to its end at once; [waitpid] finds it at the first call.
    Nothing about the program is proved from it. *)

From Stdlib Require Import NArith ZArith Lia List Bool.
From Stdlib Require Import Strings.Byte Strings.String.
From stdpp Require Import base decidable list option strings gmap.
From S2P Require Import Prelude RustStd Crypto Protocol Canonical Samples ProtocolProps Sys.
From S2P Require Import Ownership Io Transport Sim TransportProps Frame Trust Common Keys Config.
From S2P Require Import Replay Request Verdict RequestProps FakeAgent Main Automaton Pam PamProps Cli.
From S2P Require Import Authentication.

Open Scope N_scope.

(** ** A parser of lines of options *)

Definition option_type (name : bytes) : option arg_type :=
  snd <$> List.find (fun x => bool_decide (x.1 = name)) request_options.

Fixpoint parse_line (args : list bytes) : option (list occurrence) :=
  match args with
  | [] => Some []
  | arg :: rest =>
      match strip_prefix (B "--") arg with
      | None => None
      | Some name =>
          match option_type name, rest with
          | None, _ => None
          | Some ABool, _ => cons (name, None) <$> parse_line rest
          | Some _, [] => None
          | Some _, v :: rest => cons (name, Some v) <$> parse_line rest
          end
      end
  end.

#[global] Instance sample_clap : Clap := {|
  cli_parse argv :=
    match argv with
    | _ :: subcommand :: rest =>
        if bool_decide (subcommand = B "request") then
          match parse_line rest with
          | Some occs =>
              if forallb accepted occs then Ok {| command := Request (request_args occs) |} else Err 2
          | None => Err 2
          end
        else Err 2
    | _ => Err 2
    end |}.

Lemma option_type_of name t : (name, t) ∈ request_options -> option_type name = Some t.
Proof.
  intros Hin. unfold request_options in Hin.
  repeat (apply elem_of_cons in Hin as [Hin|Hin]; [injection Hin as -> ->; by vm_compute|]).
  by apply not_elem_of_nil in Hin.
Qed.

Lemma parse_line_render occs :
  Forall (fun o => exists t, (o.1, t) ∈ request_options /\ (o.2 = None <-> t = ABool)) occs ->
  parse_line (flat_map render occs) = Some occs.
Proof.
  induction 1 as [|[name v] occs (t & Hin & Hv) _ IH]; [done|]. cbn [flat_map render fst snd].
  apply option_type_of in Hin. cbn [fst snd] in *.
  change (parse_line (flat_map render (((name, v) : occurrence) :: occs)) = Some ((name, v) :: occs)).
  cbn [flat_map render fst snd app]. destruct v as [v|]; cbn [parse_line app];
    rewrite strip_prefix_app, Hin, IH; destruct t; naive_solver.
Qed.

#[global] Instance sample_clap_laws : ClapLaws.
Proof.
  split. intros program occs (_ & Hf & _). cbn -[B]. rewrite bool_decide_true by done.
  by rewrite parse_line_render.
Qed.

(** ** The machine *)

(** The status of the child, if there is one, the seconds of the monotonic
    clock, and what PAM has been told. *)
Record procs : Type := Procs {
  zombie : option N;
  seconds : N;
  items : N -> option bytes;
  login : bytes;
}.

Definition machine : Type := (sim * procs)%type.

Definition on_sim {A} (f : sim -> A * sim) (w : machine) : A * machine :=
  let (a, b) := f w.1 in (a, (b, w.2)).

#[global] Instance machine_kernel : Kernel machine := {|
  k_instant_now := on_sim k_instant_now;
  k_system_now := on_sim k_system_now;
  k_process_id := on_sim k_process_id;
  k_random n := on_sim (k_random n);
  k_sleep n := on_sim (k_sleep n);
  k_sun_path_len := k_sun_path_len (W := sim);
  k_socket := on_sim k_socket;
  k_set_cloexec f := on_sim (k_set_cloexec f);
  k_set_nonblocking f := on_sim (k_set_nonblocking f);
  k_connect f p := on_sim (k_connect f p);
  k_take_error f := on_sim (k_take_error f);
  k_poll f e t := on_sim (k_poll f e t);
  k_bind p := on_sim (k_bind p);
  k_accept f := on_sim (k_accept f);
  k_read f n := on_sim (k_read f n);
  k_write f b := on_sim (k_write f b);
  k_open p fl m := on_sim (k_open p fl m);
  k_openat d n fl m := on_sim (k_openat d n fl m);
  k_fstat f := on_sim (k_fstat f);
  k_getcwd := on_sim k_getcwd;
  k_unlink p := on_sim (k_unlink p);
  k_unlinkat d n := on_sim (k_unlinkat d n);
  k_dup_cloexec f := on_sim (k_dup_cloexec f);
  k_close f := on_sim (k_close f);
  k_fdopendir f := on_sim (k_fdopendir f);
  k_readdir d := on_sim (k_readdir d);
  k_closedir d := on_sim (k_closedir d);
  k_stdout b := on_sim (k_stdout b);
|}.

Definition set_zombie (z : option N) (w : machine) : machine :=
  (w.1, Procs z (seconds w.2) (items w.2) (login w.2)).

#[local] Existing Instance plain_crypto.
#[local] Existing Instance sample_hex.
#[local] Existing Instance sample_toml.

(** What the machine executes, whatever the file. *)
Definition the_helper : list bytes -> Program machine := helper_main false 4000.

Definition last_second : N := 1000000000000.

#[global] Instance machine_pam : PamKernel machine := {|
  k_pam_get_item item w := (Ok (items w.2 item), w);
  k_pam_get_user w := (Ok (Some (login w.2)), w);
  k_strdup _ w := (Ok tt, w);
  k_monotonic w :=
    if last_second <=? seconds w.2 then (Err EINVAL, w)
    else (Ok (seconds w.2, 0), (w.1, Procs (zombie w.2) (seconds w.2 + 1) (items w.2) (login w.2)));
  k_fork child w :=
    match child (St w []) with
    | (Done n, s) => (Ok 4243, ((world s).1, Procs (Some (N.shiftl (n mod 256) 8)) (seconds w.2) (items w.2) (login w.2)))
    | _ => (Err EAGAIN, w)
    end;
  k_waitpid pid _ w :=
    match zombie w.2 with
    | Some status => if pid =? 4243 then (Ok (Some status), set_zombie None w) else (Err ECHILD, w)
    | None => (Err ECHILD, w)
    end;
  k_kill _ _ w := (tt, w);
  k_usleep _ w := (tt, w);
  k_dup2 _ _ w := (Ok tt, w);
  k_close_range _ w := (Ok tt, w);
  k_getdents64 _ _ w := (Ok [], w);
  k_fexecve _ argv _ w := (Ok (the_helper argv), w);
|}.

#[global] Instance machine_processes : ProcessLaws machine.
Proof.
  refine {| runs := fun pid c w => pid = 4243 /\ exists s0 n s1, c s0 = (Done n, s1) /\
    zombie w.2 = Some (N.shiftl (n mod 256) 8) |}.
  - intros c w pid w'. cbn. destruct (c (St w [])) as [[n| |] s1] eqn:Hc; try done.
    intros [= <- <-]. split; [done|]. by exists (St w []), n, s1.
  - intros pid c nohang w [-> (s0 & n & s1 & Hc & Hz)]. cbn. rewrite Hz. cbn. intros _. exists s0, n, s1.
    split; [done|]. unfold WEXITSTATUS. rewrite N.shiftr_shiftl_l, N.sub_diag by done.
    rewrite N.shiftl_0_r. change 0xFF with (N.ones 8). rewrite N.land_ones.
    change (2 ^ 8) with 256. by rewrite N.Div0.mod_mod.
  - done.
  - done.
  - intros pid c w Hr. cbn. by destruct (last_second <=? seconds w.2).
Defined.

#[global] Instance machine_patience : PamProgress machine.
Proof.
  refine {| clock_end := last_second * 1000 + 600000; patience := fun d w => N.to_nat (last_second - seconds w.2) |};
    try (intros; cbn; lia).
  - intros d w. cbn. destruct (N.leb_spec last_second (seconds w.2)) as [Hl|Hl]; cbn; (split; [lia|]); [done|].
    intros t [= <-]. unfold last_second in *.
    rewrite N.Div0.div_0_l, N.add_0_r, N.mod_small by (unfold ULONG_MAX; lia). split; [lia|]. right. lia.
  - intros d pid nohang w. cbn. destruct (zombie w.2); [|done]. by destruct (pid =? 4243).
  - intros d child w. cbn. destruct (child (St w [])) as [[n| |] s1]; cbn; lia.
Defined.

(** An agent behind the socket, that decides so. *)
Definition plain_agent (decision : Decision.t) (received : bytes) : bytes :=
  match from_slice (drop 4 received) with
  | Ok request =>
      match SignedAuthRequest.verify request (sample_key x07) with
      | Ok _ =>
          match (let? p := AuthResponseBody.for_request (SignedAuthRequest.body request) decision
                             AuthMethod.BiometricOrWatch 1700000000500 1700000010500 (B "agent-key-1") in
                 SignedAuthResponse.sign p (sample_sk x09)) with
          | Ok response => match to_vec response with Ok b => frame b | Err _ => [] end
          | Err _ => []
          end
      | Err _ => []
      end
  | Err _ => []
  end.

Definition module_argv : list bytes := [B "helper=/etc/macos-auth-helper"; B "conf=/etc/config.toml"].

(** [alice] calls [sudo] on [pts/3]. *)
Definition login_start (decision : Decision.t) : state machine :=
  St (sim_files
        [(B "config.toml", file_inode 0x1A4 production_config);
         (B "host.key", file_inode 0x180 host_key_text);
         (B "agent.pub", file_inode 0x1A4 agent_key_text);
         (B "macos-auth-helper", file_inode 0x1ED [])] []
        (sim_peer 999999 (B "/run/agent.sock") (plain_agent decision)),
      Procs None 100 (fun item => if item =? PAM_TTY then Some (B "pts/3")
                                  else if item =? PAM_SERVICE then Some (B "sudo") else None) (B "alice")) [].

Definition login_end (decision : Decision.t) : state machine :=
  (pam_sm_authenticate (E := Empty_set) 4000 module_argv (login_start decision)).2.

(** ** Witnesses *)

Lemma machine_installed : installed false 4000.
Proof. by intros argv envp w program w' [= <- <-]. Qed.

Lemma login_approved :
  pam_sm_authenticate (E := Empty_set) 4000 module_argv (login_start Decision.Approved)
  = (Done (Ok PAM_SUCCESS), login_end Decision.Approved).
Proof. run_here. Qed.

Lemma login_cancelled :
  pam_sm_authenticate (E := Empty_set) 4000 module_argv (login_start Decision.Cancelled)
  = (Done (Ok PAM_AUTHINFO_UNAVAIL), login_end Decision.Cancelled).
Proof. run_here. Qed.



Lemma pam_answers_witness :
  exists n, forall fuel, (n <= fuel)%nat -> exists code s',
    pam_sm_authenticate (E := Empty_set) fuel module_argv (login_start Decision.Denied) = (Done (Ok code), s') /\
    In code [PAM_SUCCESS; PAM_AUTH_ERR; PAM_AUTHINFO_UNAVAIL].
Proof. exact (pam_answers module_argv (login_start Decision.Denied)). Defined.
