(* ===== verification/MacProtocol.v ===== *)
(** * The protocol on the Mac ([src/agent/Sources/MacosAuthAgent/main.swift])

    The agent has encoders of its own, in Swift, for what the crate of
    [Protocol] encodes in Rust.  These are its bodies, [validate],
    [canonicalBytes], [verifyFreshness] and [forRequest], and the theorems
    that they agree with the crate.  A [String] is its UTF-8 bytes, an [Array]
    of [UInt8] its bytes, and an unsigned integer an [N]. *)

From Stdlib Require Import NArith ZArith Lia List Bool.
From Stdlib Require Import Strings.Byte Strings.String.
From stdpp Require Import base decidable list option strings.
From S2P Require Import Prelude RustStd Crypto Protocol Canonical Samples ProtocolProps Sys Verdict.

Open Scope N_scope.

Definition supportedProtocolVersion : N := 1.
Definition nonceLength : nat := 32.
Definition requestDomain : bytes := B "macos-auth/auth-request/v1".
Definition responseDomain : bytes := B "macos-auth/auth-response/v1".

(** [AgentError]; [coding] is an error of [JSONDecoder], [JSONEncoder] or CryptoKit.  Of a
    message that interpolates a value the constant part is kept. *)
Inductive AgentError : Type :=
| usage (message : string)
| invalidHex (message : string)
| invalidKeyLength (message : string)
| invalidPayload (message : string)
| invalidSignature
| socketError (message : string)
| ioError (message : string)
| timeout
| coding.

#[global] Instance AgentError_eq_decision : EqDecision AgentError.
Proof. solve_decision. Defined.

(** ** Encoders: [inout [UInt8]] is passed in and returned *)

(** [UInt8((value >> shift) & 0xff)] *)
Definition byte_at (value shift : N) : byte := byte_of (N.land (N.shiftr value shift) 0xff).

Definition encodeUInt16 (out : bytes) (value : N) : bytes := out ++ [byte_at value 8; byte_at value 0].
Definition encodeUInt32 (out : bytes) (value : N) : bytes :=
  out ++ [byte_at value 24; byte_at value 16; byte_at value 8; byte_at value 0].
Definition encodeUInt64 (out : bytes) (value : N) : bytes :=
  foldl (fun out shift => out ++ [byte_at value shift]) out [56; 48; 40; 32; 24; 16; 8; 0].

Definition encodeBytes (out value : bytes) : result bytes AgentError :=
  if N.of_nat (length value) <=? u32_max
  then Ok (encodeUInt32 out (N.of_nat (length value)) ++ value)
  else Err (invalidPayload "field too large").
Definition encodeString (out value : bytes) : result bytes AgentError := encodeBytes out value.
Definition encodeOptionalString (out : bytes) (value : option bytes) : result bytes AgentError :=
  match value with
  | None => Ok (out ++ [x00])
  | Some value => encodeString (out ++ [x01]) value
  end.
Definition encodeOptionalUInt32 (out : bytes) (value : option N) : bytes :=
  match value with
  | None => out ++ [x00]
  | Some value => encodeUInt32 (out ++ [x01]) value
  end.

(** [lowercased()], on the letters of ASCII; no other character has a
    lowercase form in [ed25519]. *)
Definition lowercase (b : byte) : byte := if in_range 65 90 b then byte_of (byte_val b + 32) else b.
Definition canonicalAlgorithmName (value : bytes) : option bytes :=
  if bool_decide (map lowercase value = B "ed25519") then Some (B "Ed25519") else None.

(** ** Requests *)

Module MacRequest.
Record t : Type := mk {
  protocolVersion : N;
  requestId : bytes;
  nonce : bytes;
  createdAtMs : N;
  expiresAtMs : N;
  linuxHostId : bytes;
  linuxHostname : bytes;
  pamService : bytes;
  pamUser : bytes;
  pamRuser : option bytes;
  pamRhost : option bytes;
  pamTty : option bytes;
  sudoCommand : option bytes;
  clientPid : option N;
  keyId : bytes;
  alg : bytes
}.

(** A request with its signature. *)
Record signed : Type := mk_signed { body : t; signature : bytes }.

Definition validate (self : t) : result unit AgentError :=
  guard! protocolVersion self =? supportedProtocolVersion
    else invalidPayload "unsupported protocol version" ;;
  let? _ := ok_or (canonicalAlgorithmName (alg self)) (invalidPayload "unsupported algorithm") in
  guard! (length (nonce self) =? nonceLength)%nat else invalidPayload "invalid nonce length" ;;
  guard! createdAtMs self <? expiresAtMs self else invalidPayload "invalid validity window" ;;
  Ok tt.

Definition canonicalBytes (self : t) : result bytes AgentError :=
  let? _ := validate self in
  let? out := encodeBytes [] requestDomain in
  let out := encodeUInt16 out (protocolVersion self) in
  let? out := encodeString out (requestId self) in
  let? out := encodeBytes out (nonce self) in
  let out := encodeUInt64 out (createdAtMs self) in
  let out := encodeUInt64 out (expiresAtMs self) in
  let? out := encodeString out (linuxHostId self) in
  let? out := encodeString out (linuxHostname self) in
  let? out := encodeString out (pamService self) in
  let? out := encodeString out (pamUser self) in
  let? out := encodeOptionalString out (pamRuser self) in
  let? out := encodeOptionalString out (pamRhost self) in
  let? out := encodeOptionalString out (pamTty self) in
  let? out := encodeOptionalString out (sudoCommand self) in
  let out := encodeOptionalUInt32 out (clientPid self) in
  let? out := encodeString out (keyId self) in
  encodeString out (default [] (canonicalAlgorithmName (alg self))).

Definition verifyFreshness (self : t) (nowMs allowedFutureSkewMs : N) : result unit AgentError :=
  if expiresAtMs self <=? nowMs then Err (invalidPayload "request expired")
  else if (nowMs <? createdAtMs self) && (allowedFutureSkewMs <? createdAtMs self - nowMs)
  then Err (invalidPayload "request created too far in the future")
  else Ok tt.

Definition sha256 `{Crypto} (self : t) : result bytes AgentError :=
  let? bytes := canonicalBytes self in Ok (Sha256_digest bytes).
End MacRequest.

(** ** Responses

    [Decision] and [AuthMethod] have the cases of the crate. *)

(** [Decision.rawValue] *)
Definition decisionName (d : Decision.t) : bytes :=
  match d with
  | Decision.Approved => B "approved"
  | Decision.Denied => B "denied"
  | Decision.Unavailable => B "unavailable"
  | Decision.Cancelled => B "cancelled"
  | Decision.Failed => B "failed"
  end.

(** [AuthMethod.rawValue] and [AuthMethod.canonicalName] *)
Definition methodRawValue (a : AuthMethod.t) : bytes :=
  match a with
  | AuthMethod.Watch => B "watch"
  | AuthMethod.TouchId => B "touch-id"
  | AuthMethod.BiometricOrWatch => B "biometric-or-watch"
  | AuthMethod.Unknown => B "unknown"
  | AuthMethod.None_ => B "none"
  end.
Definition methodCanonicalName (a : AuthMethod.t) : bytes :=
  if decide (a = AuthMethod.TouchId) then B "touchid" else methodRawValue a.

Module MacResponse.
Record t : Type := mk {
  protocolVersion : N;
  requestId : bytes;
  nonce : bytes;
  requestHash : bytes;
  linuxHostId : bytes;
  pamService : bytes;
  pamUser : bytes;
  decision : Decision.t;
  authMethod : AuthMethod.t;
  createdAtMs : N;
  expiresAtMs : N;
  agentKeyId : bytes;
  alg : bytes;
  errorCode : option bytes;
  errorMessage : option bytes
}.

Record signed : Type := mk_signed { body : t; signature : bytes }.

Definition validate (self : t) : result unit AgentError :=
  guard! protocolVersion self =? supportedProtocolVersion
    else invalidPayload "unsupported protocol version" ;;
  let? _ := ok_or (canonicalAlgorithmName (alg self)) (invalidPayload "unsupported algorithm") in
  guard! (length (nonce self) =? nonceLength)%nat else invalidPayload "invalid nonce length" ;;
  guard! createdAtMs self <? expiresAtMs self else invalidPayload "invalid validity window" ;;
  Ok tt.

Definition canonicalBytes (self : t) : result bytes AgentError :=
  let? _ := validate self in
  let? out := encodeBytes [] responseDomain in
  let out := encodeUInt16 out (protocolVersion self) in
  let? out := encodeString out (requestId self) in
  let? out := encodeBytes out (nonce self) in
  let? out := encodeBytes out (requestHash self) in
  let? out := encodeString out (linuxHostId self) in
  let? out := encodeString out (pamService self) in
  let? out := encodeString out (pamUser self) in
  let? out := encodeString out (decisionName (decision self)) in
  let? out := encodeString out (methodCanonicalName (authMethod self)) in
  let out := encodeUInt64 out (createdAtMs self) in
  let out := encodeUInt64 out (expiresAtMs self) in
  let? out := encodeString out (agentKeyId self) in
  let? out := encodeString out (default [] (canonicalAlgorithmName (alg self))) in
  let? out := encodeOptionalString out (errorCode self) in
  encodeOptionalString out (errorMessage self).

Definition forRequest `{Crypto} (request : MacRequest.t) (decision : Decision.t) (authMethod : AuthMethod.t)
  (nowMs : N) (agentKeyId : bytes) : result t AgentError :=
  guard! nowMs <? MacRequest.expiresAtMs request else timeout ;;
  let? hash := MacRequest.sha256 request in
  Ok {| protocolVersion := MacRequest.protocolVersion request;
        requestId := MacRequest.requestId request;
        nonce := MacRequest.nonce request;
        requestHash := hash;
        linuxHostId := MacRequest.linuxHostId request;
        pamService := MacRequest.pamService request;
        pamUser := MacRequest.pamUser request;
        decision := decision;
        authMethod := authMethod;
        createdAtMs := nowMs;
        expiresAtMs := nowMs + N.min 10000 (MacRequest.expiresAtMs request - nowMs);
        agentKeyId := agentKeyId;
        alg := B "ed25519";
        errorCode := None;
        errorMessage := None |}.
End MacResponse.

(** ** The two implementations agree *)

(** The encoders append the same bytes. *)
Lemma byte_at_of value shift : byte_at value shift = byte_of (value / 2 ^ shift).
Proof.
  unfold byte_at. rewrite N.shiftr_div_pow2. change 0xff with (N.ones 8). rewrite N.land_ones.
  change (2 ^ 8) with 256. unfold byte_of. by rewrite N.Div0.mod_mod.
Qed.

Lemma encodeUInt16_agrees out value : encodeUInt16 out value = encode_u16 out value.
Proof. unfold encodeUInt16, encode_u16. by rewrite !byte_at_of. Qed.

Lemma encodeUInt32_agrees out value : encodeUInt32 out value = encode_u32 out value.
Proof. unfold encodeUInt32, encode_u32. by rewrite !byte_at_of. Qed.

Lemma encodeUInt64_agrees out value : encodeUInt64 out value = encode_u64 out value.
Proof. unfold encodeUInt64, encode_u64. cbn [foldl]. rewrite !byte_at_of. by app_norm. Qed.

Lemma encodeOptionalUInt32_agrees out value : encodeOptionalUInt32 out value = encode_optional_u32 out value.
Proof. destruct value; cbn; [apply encodeUInt32_agrees|done]. Qed.

(** Results that agree: the same value, or an error each. *)
Definition agree {A E1 E2} (r1 : result A E1) (r2 : result A E2) : Prop :=
  forall a, r1 = Ok a <-> r2 = Ok a.

Lemma agree_bind {A B E1 E2} (r1 : result A E1) (r2 : result A E2) (k1 : A -> result B E1) (k2 : A -> result B E2) :
  agree r1 r2 -> (forall a, agree (k1 a) (k2 a)) -> agree (result_bind r1 k1) (result_bind r2 k2).
Proof.
  intros Hr Hk b. rewrite !result_bind_ok. split; intros (a & Ha & Hb); exists a;
    (split; [by apply Hr|by apply Hk]).
Qed.

Lemma agree_ok {A E1 E2} (a : A) : agree (Ok a : result A E1) (Ok a : result A E2).
Proof. intros b. naive_solver. Qed.

Lemma agree_bytes out value name : agree (encodeBytes out value) (encode_bytes out value name).
Proof.
  intros b. unfold encodeBytes, encode_bytes. destruct (_ <=? _); [|done].
  rewrite encodeUInt32_agrees. naive_solver.
Qed.

Lemma agree_optional out value name :
  agree (encodeOptionalString out value) (encode_optional_str out value name).
Proof. destruct value; [apply agree_bytes|apply agree_ok]. Qed.

#[local] Arguments encodeUInt16 : simpl never.
#[local] Arguments encodeUInt64 : simpl never.

(** The body that the Mac reads where the host wrote [q]: the fields are the
    same, and the algorithm is spelled in a way that it accepts. *)
Definition same_request (m : MacRequest.t) (q : AuthRequestBody.t) : Prop :=
  canonicalAlgorithmName (MacRequest.alg m) = Some (B "Ed25519") /\
  m = MacRequest.mk (AuthRequestBody.protocol_version q) (AuthRequestBody.request_id q)
        (AuthRequestBody.nonce q) (AuthRequestBody.created_at_ms q) (AuthRequestBody.expires_at_ms q)
        (AuthRequestBody.linux_host_id q) (AuthRequestBody.linux_hostname q)
        (AuthRequestBody.pam_service q) (AuthRequestBody.pam_user q) (AuthRequestBody.pam_ruser q)
        (AuthRequestBody.pam_rhost q) (AuthRequestBody.pam_tty q) (AuthRequestBody.sudo_command q)
        (AuthRequestBody.client_pid q) (AuthRequestBody.key_id q) (MacRequest.alg m).

Definition same_response (m : MacResponse.t) (p : AuthResponseBody.t) : Prop :=
  canonicalAlgorithmName (MacResponse.alg m) = Some (B "Ed25519") /\
  m = MacResponse.mk (AuthResponseBody.protocol_version p) (AuthResponseBody.request_id p)
        (AuthResponseBody.nonce p) (AuthResponseBody.request_hash p) (AuthResponseBody.linux_host_id p)
        (AuthResponseBody.pam_service p) (AuthResponseBody.pam_user p) (AuthResponseBody.decision p)
        (AuthResponseBody.auth_method p) (AuthResponseBody.created_at_ms p)
        (AuthResponseBody.expires_at_ms p) (AuthResponseBody.agent_key_id p) (MacResponse.alg m)
        (AuthResponseBody.error_code p) (AuthResponseBody.error_message p).

Lemma decisionName_agrees d : decisionName d = Decision.canonical_name d.
Proof. by destruct d. Qed.

Lemma methodCanonicalName_agrees a : methodCanonicalName a = AuthMethod.canonical_name a.
Proof. by destruct a. Qed.

(** Goes through two encoders that are written alike. *)
Ltac agree_step :=
  rewrite ?encodeUInt16_agrees, ?encodeUInt64_agrees, ?encodeOptionalUInt32_agrees,
    ?decisionName_agrees, ?methodCanonicalName_agrees;
  lazymatch goal with
  | |- agree (result_bind _ _) (result_bind _ _) => apply agree_bind; [|intros ?]
  | |- agree (encodeBytes _ _) _ => apply agree_bytes
  | |- agree (encodeString _ _) _ => apply agree_bytes
  | |- agree (encodeOptionalString _ _) _ => apply agree_optional
  | |- agree (Ok _) (Ok _) => apply agree_ok
  end.

Lemma result_bind_id {A E} (r : result A E) : result_bind r Ok = r.
Proof. by destruct r. Qed.

Lemma agree_request_validate m q :
  same_request m q -> agree (MacRequest.validate m) (AuthRequestBody.validate q).
Proof.
  intros [Ha ->] []. unfold MacRequest.validate, AuthRequestBody.validate. cbn in Ha |- *. rewrite Ha. cbn.
  rewrite (bool_decide_true (AuthRequestBody.alg q = Ed25519)) by (by destruct (AuthRequestBody.alg q)).
  change (supportedProtocolVersion) with PROTOCOL_VERSION. change nonceLength with NONCE_LEN.
  destruct (_ =? PROTOCOL_VERSION); [|done]. rewrite N.ltb_antisym.
  destruct (Nat.eqb_spec (length (AuthRequestBody.nonce q)) NONCE_LEN);
    [rewrite bool_decide_true by done|by rewrite bool_decide_false].
  by destruct (negb _).
Qed.

Lemma agree_response_validate m p :
  same_response m p -> agree (MacResponse.validate m) (AuthResponseBody.validate p).
Proof.
  intros [Ha ->] []. unfold MacResponse.validate, AuthResponseBody.validate. cbn in Ha |- *. rewrite Ha. cbn.
  rewrite (bool_decide_true (AuthResponseBody.alg p = Ed25519)) by (by destruct (AuthResponseBody.alg p)).
  change (supportedProtocolVersion) with PROTOCOL_VERSION. change nonceLength with NONCE_LEN.
  destruct (_ =? PROTOCOL_VERSION); [|done]. rewrite N.ltb_antisym.
  destruct (Nat.eqb_spec (length (AuthResponseBody.nonce p)) NONCE_LEN);
    [rewrite bool_decide_true by done|by rewrite bool_decide_false].
  by destruct (negb _).
Qed.

Lemma agree_request_canonical m q :
  same_request m q -> agree (MacRequest.canonicalBytes m) (AuthRequestBody.canonical_bytes q).
Proof.
  intros Hs. unfold MacRequest.canonicalBytes, AuthRequestBody.canonical_bytes.
  apply agree_bind; [by apply agree_request_validate|]. destruct Hs as [Ha ->]. cbn in Ha |- *. rewrite Ha.
  intros ?. repeat agree_step.
  rewrite result_bind_id. cbn. destruct (AuthRequestBody.alg q). apply agree_bytes.
Qed.

Lemma agree_response_canonical m p :
  same_response m p -> agree (MacResponse.canonicalBytes m) (AuthResponseBody.canonical_bytes p).
Proof.
  intros Hs. unfold MacResponse.canonicalBytes, AuthResponseBody.canonical_bytes.
  apply agree_bind; [by apply agree_response_validate|]. destruct Hs as [Ha ->]. cbn in Ha |- *. rewrite Ha.
  destruct (AuthResponseBody.alg p). intros ?. repeat agree_step. rewrite result_bind_id. apply agree_optional.
Qed.

(** ** What the Mac reads and writes, as the crate has it *)

Definition as_request (m : MacRequest.t) : AuthRequestBody.t :=
  AuthRequestBody.mk (MacRequest.protocolVersion m) (MacRequest.requestId m) (MacRequest.nonce m)
    (MacRequest.createdAtMs m) (MacRequest.expiresAtMs m) (MacRequest.linuxHostId m)
    (MacRequest.linuxHostname m) (MacRequest.pamService m) (MacRequest.pamUser m)
    (MacRequest.pamRuser m) (MacRequest.pamRhost m) (MacRequest.pamTty m) (MacRequest.sudoCommand m)
    (MacRequest.clientPid m) (MacRequest.keyId m) Ed25519.

Definition as_response (m : MacResponse.t) : AuthResponseBody.t :=
  AuthResponseBody.mk (MacResponse.protocolVersion m) (MacResponse.requestId m) (MacResponse.nonce m)
    (MacResponse.requestHash m) (MacResponse.linuxHostId m) (MacResponse.pamService m)
    (MacResponse.pamUser m) (MacResponse.decision m) (MacResponse.authMethod m)
    (MacResponse.createdAtMs m) (MacResponse.expiresAtMs m) (MacResponse.agentKeyId m) Ed25519
    (MacResponse.errorCode m) (MacResponse.errorMessage m).

Lemma canonicalAlgorithmName_some b x : canonicalAlgorithmName b = Some x -> x = B "Ed25519".
Proof. unfold canonicalAlgorithmName. by case_bool_decide; intros [= <-]. Qed.

Lemma same_request_as m q : same_request m q -> q = as_request m.
Proof. intros [_ ->]. by destruct q as [? ? ? ? ? ? ? ? ? ? ? ? ? ? ? []]. Qed.

Lemma same_response_as m p : same_response m p -> p = as_response m.
Proof. intros [_ ->]. by destruct p as [? ? ? ? ? ? ? ? ? ? ? ? [] ? ?]. Qed.

Lemma as_request_same m :
  canonicalAlgorithmName (MacRequest.alg m) = Some (B "Ed25519") -> same_request m (as_request m).
Proof. intros Ha. split; [done|]. by destruct m. Qed.

Lemma as_response_same m :
  canonicalAlgorithmName (MacResponse.alg m) = Some (B "Ed25519") -> same_response m (as_response m).
Proof. intros Ha. split; [done|]. by destruct m. Qed.

(** What was encoded spells its algorithm in a way that is accepted. *)
Lemma request_alg m b :
  MacRequest.canonicalBytes m = Ok b -> canonicalAlgorithmName (MacRequest.alg m) = Some (B "Ed25519").
Proof.
  unfold MacRequest.canonicalBytes, MacRequest.validate. destruct (_ =? supportedProtocolVersion); [|done].
  destruct (canonicalAlgorithmName _) eqn:Ha; [|done]. by apply canonicalAlgorithmName_some in Ha as ->.
Qed.

Lemma response_alg m b :
  MacResponse.canonicalBytes m = Ok b -> canonicalAlgorithmName (MacResponse.alg m) = Some (B "Ed25519").
Proof.
  unfold MacResponse.canonicalBytes, MacResponse.validate. destruct (_ =? supportedProtocolVersion); [|done].
  destruct (canonicalAlgorithmName _) eqn:Ha; [|done]. by apply canonicalAlgorithmName_some in Ha as ->.
Qed.

(** C17: the Swift and the Rust implementation encode alike: the bytes that the
    agent on the Mac gives a request, to check its signature and to hash it,
    and a response, to sign it, are those that the crate gives the message
    with the same fields, and it gives none to a message that the crate
    refuses.  The spelling of the algorithm is the only thing that the
    encoding forgets. *)
Theorem mac_encodes_as_the_crate :
  (forall (m : MacRequest.t) (b : bytes), MacRequest.canonicalBytes m = Ok b <->
     exists q, same_request m q /\ AuthRequestBody.canonical_bytes q = Ok b) /\
  (forall (m : MacResponse.t) (b : bytes), MacResponse.canonicalBytes m = Ok b <->
     exists p, same_response m p /\ AuthResponseBody.canonical_bytes p = Ok b).
Proof.
  split; intros m b.
  - split.
    + intros Hb. exists (as_request m). assert (same_request m (as_request m)) as Hs
        by (by eapply as_request_same, request_alg). split; [done|]. by apply (agree_request_canonical m _ Hs).
    + intros (q & Hs & Hb). by apply (agree_request_canonical m q Hs).
  - split.
    + intros Hb. exists (as_response m). assert (same_response m (as_response m)) as Hs
        by (by eapply as_response_same, response_alg). split; [done|]. by apply (agree_response_canonical m _ Hs).
    + intros (p & Hs & Hb). by apply (agree_response_canonical m p Hs).
Qed.


(** ** The answer to a request *)

Section Answer.
Context `{Crypto}.

(** It is bound to the request as the crate demands, it cannot overflow, and
    it ends when the request ends or before. *)
Lemma forRequest_ok m d a now key n : MacResponse.forRequest m d a now key = Ok n ->
  bound_to (as_response n) (as_request m) /\ MacResponse.decision n = d /\ MacResponse.authMethod n = a /\
  MacResponse.createdAtMs n = now /\ MacResponse.agentKeyId n = key /\
  now < MacResponse.expiresAtMs n <= MacRequest.expiresAtMs m /\ MacResponse.expiresAtMs n <= now + 10000 /\
  canonicalAlgorithmName (MacResponse.alg n) = Some (B "Ed25519").
Proof.
  unfold MacResponse.forRequest. destruct (N.ltb_spec now (MacRequest.expiresAtMs m)); [|done].
  cbn. unfold MacRequest.sha256. intros HR. apply result_bind_ok in HR as (h & Hh & [= <-]).
  apply result_bind_ok in Hh as (b & Hb & [= <-]). pose proof (request_alg m b Hb) as Ha.
  split_and!; cbn; try done; [|lia..]. split_and!; cbn; try done. exists b. split; [|done].
  by apply (agree_request_canonical m _ (as_request_same m Ha)).
Qed.
End Answer.

(** ** Samples *)

Definition mac_vector_request : MacRequest.t :=
  MacRequest.mk (AuthRequestBody.protocol_version vector_request) (AuthRequestBody.request_id vector_request)
    (AuthRequestBody.nonce vector_request) (AuthRequestBody.created_at_ms vector_request)
    (AuthRequestBody.expires_at_ms vector_request) (AuthRequestBody.linux_host_id vector_request)
    (AuthRequestBody.linux_hostname vector_request) (AuthRequestBody.pam_service vector_request)
    (AuthRequestBody.pam_user vector_request) (AuthRequestBody.pam_ruser vector_request)
    (AuthRequestBody.pam_rhost vector_request) (AuthRequestBody.pam_tty vector_request)
    (AuthRequestBody.sudo_command vector_request) (AuthRequestBody.client_pid vector_request)
    (AuthRequestBody.key_id vector_request) (B "Ed25519").

Example mac_vector_bytes : MacRequest.canonicalBytes mac_vector_request = Ok vector_request_bytes.
Proof. vm_compute. reflexivity. Qed.

Lemma mac_vector_same : same_request mac_vector_request vector_request.
Proof. split; [by vm_compute|done]. Qed.

