(* ===== verification/RateLimiter.v ===== *)
(** * The rate limiter of the agent ([RateLimiter] in
    [src/agent/Sources/MacosAuthAgent/main.swift])

    Under its lock, [allow] reads the clock, forgets the calls of the key that
    are older than the window, and admits the call if fewer than the limit are
    left.  The abstract limiter keeps every admitted call; the two decide
    alike, and no window of time, wherever it starts, has more admitted calls
    of a key than the limit. *)

From Stdlib Require Import NArith ZArith Lia List Bool Sorting.Sorted.
From Stdlib Require Import Strings.Byte Strings.String.
From stdpp Require Import base decidable list option strings gmap.
From S2P Require Import Prelude RustStd CacheSpec.

Open Scope N_scope.

(** [UInt64.saturatingMilliseconds] *)
Definition saturatingMilliseconds (seconds : N) : N :=
  if u64_max <? seconds * 1000 then u64_max else seconds * 1000.

Module RateLimiter.
(** [maxRequests] is an [Int]. *)
Record t : Type := mk { windowMs : N; maxRequests : Z }.

(** [eventsByKey]; [lookup_default] is [eventsByKey[key, default: []]]. *)
Abbreviation events := (gmap bytes (list N)).
Definition lookup_default (key : bytes) (eventsByKey : events) : list N := default [] (eventsByKey !! key).

Definition init (windowSeconds : N) (maxRequests : Z) : t :=
  {| windowMs := saturatingMilliseconds windowSeconds; maxRequests := maxRequests |}.

Definition cutoff (self : t) (now : N) : N := if windowMs self <? now then now - windowMs self else 0.

(** [allow], from the reading of the clock on. *)
Definition allow (self : t) (key : bytes) (now : N) (eventsByKey : events) : bool * events :=
  let events := List.filter (fun e => cutoff self now <=? e) (lookup_default key eventsByKey) in
  if (maxRequests self <=? Z.of_nat (length events))%Z then (false, <[key := events]> eventsByKey)
  else (true, <[key := events ++ [now]]> eventsByKey).
End RateLimiter.

(** ** The abstract limiter *)

(** A call: its key and the time it was made. *)
Definition call : Type := bytes * N.

(** The admitted calls of the key from [c] on. *)
Definition since (c : N) (key : bytes) (admitted : list call) : list N :=
  List.filter (fun e => c <=? e) (map snd (List.filter (fun a => bool_decide (a.1 = key)) admitted)).

Definition admits (l : RateLimiter.t) (admitted : list call) (a : call) : bool :=
  (Z.of_nat (length (since (RateLimiter.cutoff l a.2) a.1 admitted)) <? RateLimiter.maxRequests l)%Z.

Definition spec_step (l : RateLimiter.t) (admitted : list call) (a : call) : list call :=
  if admits l admitted a then admitted ++ [a] else admitted.

(** The decisions over a history, and what is kept at its end. *)
Fixpoint decisions (l : RateLimiter.t) (admitted : list call) (calls : list call) : list bool * list call :=
  match calls with
  | [] => ([], admitted)
  | a :: calls =>
      let (ds, final) := decisions l (spec_step l admitted a) calls in (admits l admitted a :: ds, final)
  end.

Fixpoint run_limiter (l : RateLimiter.t) (m : RateLimiter.events) (calls : list call)
  : list bool * RateLimiter.events :=
  match calls with
  | [] => ([], m)
  | a :: calls =>
      let (d, m) := RateLimiter.allow l a.1 a.2 m in
      let (ds, m) := run_limiter l m calls in (d :: ds, m)
  end.

(** The clock does not go back between the calls. *)
Definition in_order (calls : list call) : Prop := StronglySorted N.le (map snd calls).

Section Limiter.
Context (l : RateLimiter.t).

Lemma cutoff_mono t1 t2 : t1 <= t2 -> RateLimiter.cutoff l t1 <= RateLimiter.cutoff l t2.
Proof.
  unfold RateLimiter.cutoff. intros Hle.
  destruct (N.ltb_spec (RateLimiter.windowMs l) t1), (N.ltb_spec (RateLimiter.windowMs l) t2); lia.
Qed.

Lemma filter_filter_le c d (es : list N) : c <= d ->
  List.filter (fun e => d <=? e) (List.filter (fun e => c <=? e) es) = List.filter (fun e => d <=? e) es.
Proof.
  intros Hle. induction es as [|e es IH]; [done|]. cbn.
  destruct (N.leb_spec c e); cbn; destruct (N.leb_spec d e); cbn; rewrite ?IH; (done || lia).
Qed.

Lemma since_since c d key admitted : c <= d ->
  List.filter (fun e => d <=? e) (since c key admitted) = since d key admitted.
Proof. apply filter_filter_le. Qed.

Lemma since_snoc c key admitted (a : call) :
  since c key (admitted ++ [a])
  = since c key admitted ++ (if bool_decide (a.1 = key) && (c <=? a.2) then [a.2] else []).
Proof.
  unfold since. rewrite List.filter_app, map_app, List.filter_app. f_equal. cbn.
  case_bool_decide; cbn; [|done]. by destruct (c <=? a.2).
Qed.

(** The dictionary holds of each key what is left of the admitted calls. *)
Definition represents (now : N) (m : RateLimiter.events) (admitted : list call) : Prop :=
  forall key, exists c, c <= RateLimiter.cutoff l now /\ RateLimiter.lookup_default key m = since c key admitted.

Lemma allow_step now m admitted (a : call) : represents now m admitted -> now <= a.2 ->
  RateLimiter.allow l a.1 a.2 m = (admits l admitted a, (RateLimiter.allow l a.1 a.2 m).2) /\
  represents a.2 (RateLimiter.allow l a.1 a.2 m).2 (spec_step l admitted a).
Proof.
  intros Hr Hle. pose proof (cutoff_mono _ _ Hle) as Hcut.
  assert (List.filter (fun e => RateLimiter.cutoff l a.2 <=? e) (RateLimiter.lookup_default a.1 m)
    = since (RateLimiter.cutoff l a.2) a.1 admitted) as Hf.
  { destruct (Hr a.1) as (c & Hc & ->). apply since_since. lia. }
  unfold RateLimiter.allow, spec_step, admits. rewrite Hf, Z.ltb_antisym.
  destruct (RateLimiter.maxRequests l <=? _)%Z; cbn [negb fst snd]; (split; [done|]); intros key;
    unfold RateLimiter.lookup_default; (destruct (decide (a.1 = key)) as [<-|Hne];
      [rewrite lookup_insert_eq; cbn|rewrite lookup_insert_ne by done; destruct (Hr key) as (c & Hc & Hl)]).
  - by exists (RateLimiter.cutoff l a.2).
  - exists c. split; [lia|done].
  - exists (RateLimiter.cutoff l a.2). split; [done|]. rewrite since_snoc, bool_decide_true by done. cbn.
    destruct (N.leb_spec (RateLimiter.cutoff l a.2) a.2) as [|Hlt]; [done|].
    unfold RateLimiter.cutoff in Hlt. destruct (N.ltb_spec (RateLimiter.windowMs l) a.2); lia.
  - exists c. split; [lia|]. rewrite since_snoc, bool_decide_false by done. by rewrite app_nil_r.
Qed.

Lemma run_limiter_decisions now m admitted calls :
  represents now m admitted -> StronglySorted N.le (now :: map snd calls) ->
  (run_limiter l m calls).1 = (decisions l admitted calls).1.
Proof.
  revert now m admitted. induction calls as [|a calls IH]; intros now m admitted Hr Hs; [done|].
  cbn [run_limiter decisions]. cbn [map] in Hs. apply StronglySorted_inv in Hs as [Hs [Ha _]%Forall_cons].
  destruct (allow_step now m admitted a Hr Ha) as [Hd Hr'].
  destruct (RateLimiter.allow l a.1 a.2 m) as [d m'] eqn:Ed. cbn [snd] in Hd, Hr'. injection Hd as ->.
  specialize (IH _ _ _ Hr' Hs). destruct (run_limiter l m' calls) as [ds m2].
  destruct (decisions l (spec_step l admitted a) calls) as [ds' final]. cbn [fst] in *. by rewrite IH.
Qed.

(** ** No window has more than the limit *)

(** The admitted calls of the key in the window that starts at [from]. *)
Definition in_window (key : bytes) (from : N) (admitted : list call) : list N :=
  List.filter (fun e => e <=? from + RateLimiter.windowMs l) (since from key admitted).

Definition bounded (admitted : list call) : Prop :=
  forall key from, (Z.of_nat (length (in_window key from admitted)) <= Z.max 0 (RateLimiter.maxRequests l))%Z.

Lemma filter_length_mono {A} (p q : A -> bool) (es : list A) :
  (forall e, p e = true -> q e = true) -> (length (List.filter p es) <= length (List.filter q es))%nat.
Proof.
  intros Hpq. induction es as [|e es IH]; [done|]. cbn. specialize (Hpq e).
  destruct (p e), (q e); cbn; lia.
Qed.

Lemma spec_step_bounded admitted (a : call) : bounded admitted -> bounded (spec_step l admitted a).
Proof.
  intros Hb key from. specialize (Hb key from). unfold spec_step. destruct (admits l admitted a) eqn:Ha; [|done].
  unfold in_window in *. rewrite since_snoc, List.filter_app, length_app.
  case_bool_decide as Hk; cbn [andb]; [|cbn; lia]. subst key.
  destruct (N.leb_spec from a.2) as [Hf|]; cbn [List.filter length]; [|lia].
  destruct (N.leb_spec a.2 (from + RateLimiter.windowMs l)) as [Hw|]; cbn [length]; [|lia].
  apply Z.ltb_lt in Ha. pose proof (List.filter_length_le (fun e => e <=? from + RateLimiter.windowMs l)
    (since from a.1 admitted)) as L1.
  assert ((length (since from a.1 admitted) <= length (since (RateLimiter.cutoff l a.2) a.1 admitted))%nat) as L3.
  { apply filter_length_mono. intros e He%N.leb_le. apply N.leb_le. unfold RateLimiter.cutoff.
    destruct (N.ltb_spec (RateLimiter.windowMs l) a.2); lia. }
  lia.
Qed.

Lemma decisions_bounded admitted calls : bounded admitted -> bounded (decisions l admitted calls).2.
Proof.
  revert admitted. induction calls as [|a calls IH]; intros admitted Hb; [done|]. cbn.
  specialize (IH _ (spec_step_bounded _ a Hb)). by destruct (decisions l _ calls).
Qed.
End Limiter.


Definition sample_limiter : RateLimiter.t := RateLimiter.init 60 2.
Definition sample_calls : list call :=
  [(B "h|sudo|a", 1000); (B "h|sudo|a", 2000); (B "h|sudo|a", 3000); (B "h|sudo|b", 3000);
   (B "h|sudo|a", 61000); (B "h|sudo|a", 61001); (B "h|sudo|a", 62001)].

Example sample_decisions :
  (run_limiter sample_limiter ∅ sample_calls).1 = [true; true; false; true; false; true; true].
Proof. vm_compute. reflexivity. Qed.

