(* ===== verification/MacAgent.v ===== *)
(** * The agent on the Mac ([src/agent/Sources/MacosAuthAgent])

    The handler of a connection, [handleServeRequest], with what it calls in
    [main.swift], [Authentication.swift] and [Transport.swift]: the deadline
    of the connection, the frames, the lifetime of a request, the turn for the
    screen, and the block that asks the user on the main thread.

    [recv] and [send] on the socket, which does not block, are the [read] and
    [write] of [Kernel]; the other calls are the class [MacKernel].  The block
    of a session is a program of its own, which the call that schedules it is
    given; its calls to the completion are its results.  CryptoKit, the JSON
    coders and what Swift knows of Unicode are classes of parameters.  What is
    printed on standard error is left out. *)

From Stdlib Require Import NArith ZArith Lia List Bool.
From Stdlib Require Import Strings.Byte Strings.String.
From stdpp Require Import base decidable list option strings gmap.
From S2P Require Import Prelude RustStd Crypto Protocol Sys Io CacheSpec MacProtocol RateLimiter.

Open Scope N_scope.

(** ** Parameters *)

Record AuthenticationResult : Type := { decision : Decision.t }.
Definition authMethod (r : AuthenticationResult) : AuthMethod.t :=
  if decide (decision r = Decision.Approved) then AuthMethod.BiometricOrWatch else AuthMethod.None_.

(** A block on the main thread; its result is what it gives the completion. *)
Definition Block (W : Type) : Type := M W AgentError (option AuthenticationResult).

Class MacKernel (W : Type) := {
  k_wall : W -> N * W;
  k_uptime : W -> N * W;
  k_peek : fd -> W -> result bytes errno * W;
  k_flag : W -> N * W;
  k_cancelled : N -> W -> bool * W;
  k_set_cancelled : N -> W -> unit * W;
  k_slot : W -> bool * W;
  k_slot_signal : W -> unit * W;
  k_session : W -> N * W;
  k_start : N -> Block W -> W -> unit * W;
  k_result : N -> W -> option AuthenticationResult * W;
  k_ready : N -> W -> unit * W;
  k_invalidate : N -> W -> unit * W;
  k_history : W -> RateLimiter.events * W;
  k_set_history : RateLimiter.events -> W -> unit * W;
  k_alert : bytes -> W -> bool * W;
  k_can_evaluate : N -> W -> bool * W;
  k_evaluate : N -> bytes -> W -> la_reply * W;
}.

Class CryptoKit (W : Type) := {
  PublicKey : Type;
  PrivateKey : Type;
  isValidSignature : PublicKey -> bytes -> bytes -> bool;
  k_signature : PrivateKey -> bytes -> W -> option bytes * W;
}.

Class JSONCoder := {
  decode_signed_request : bytes -> option MacRequest.signed;
  encode_signed_response : MacResponse.signed -> option bytes;
}.

(** Two strings are equal when their normal forms are; [count] and the first
    characters are those of the extended grapheme clusters. *)
Class SwiftText := {
  normal_form : bytes -> bytes;
  count : bytes -> nat;
  first_characters : nat -> bytes -> bytes;
}.

Section Calls.
Context `{MacKernel W} {E : Type}.

Definition unixTimeMs : M W E N := prim k_wall (fun t => EvMac (EvWall t)).
Definition uptimeNanoseconds : M W E N := prim k_uptime (fun t => EvMac (EvUptime t)).
Definition peek (f : fd) : M W E (result bytes errno) := prim (k_peek f) (fun r => EvMac (EvPeek f r)).
Definition new_flag : M W E N := prim k_flag (fun i => EvMac (EvFlag i)).
Definition get_cancelled (flag : N) : M W E bool :=
  prim (k_cancelled flag) (fun b => EvMac (EvCancelled flag b)).
Definition set_cancelled (flag : N) : M W E unit :=
  prim (k_set_cancelled flag) (fun _ => EvMac (EvSetCancelled flag)).
Definition slot_wait : M W E bool := prim k_slot (fun b => EvMac (EvSlot b)).
Definition slot_signal : M W E unit := prim k_slot_signal (fun _ => EvMac EvSlotSignal).
Definition makeSession : M W E N := prim k_session (fun i => EvMac (EvSession i)).
Definition perform (session : N) (block : Block W) : M W E unit :=
  prim (k_start session block) (fun _ => EvMac (EvStart session)).
Definition result_value (session : N) : M W E (option AuthenticationResult) :=
  prim (k_result session) (fun r => EvMac (EvResult session (match r with Some _ => true | None => false end))).
Definition ready_wait (session : N) : M W E unit := prim (k_ready session) (fun _ => EvMac (EvReady session)).
Definition invalidate (session : N) : M W E unit :=
  prim (k_invalidate session) (fun _ => EvMac (EvSessionCancel session)).
Definition get_history : M W E RateLimiter.events := prim k_history (fun _ => EvMac EvHistory).
Definition set_history (h : RateLimiter.events) (key : bytes) (now : N) (allowed : bool) : M W E unit :=
  prim (k_set_history h) (fun _ => EvMac (EvLimiter key now allowed)).
Definition runModal (text : bytes) : M W E bool := prim (k_alert text) (fun b => EvMac (EvAlert text b)).
Definition canEvaluatePolicy (context : N) : M W E bool :=
  prim (k_can_evaluate context) (fun b => EvMac (EvCanEvaluate b)).
Definition evaluatePolicy (context : N) (reason : bytes) : M W E la_reply :=
  prim (k_evaluate context reason) (fun r => EvMac (EvEvaluate reason r)).
End Calls.

(** [defer]: [final] runs however [m] ends, and [m] ends so. *)
Definition deferred {W E A} (final : M W E unit) (m : M W E A) : M W E A :=
  let! r := attempt m in do! final ;; lift r.

(** ** [Deadline]: its end, in nanoseconds of the uptime *)

Section Deadline.
Context `{Kernel W} `{MacKernel W}.

Definition Deadline : Type := N.

Definition deadline_in {E} (milliseconds : N) : M W E Deadline :=
  let! now := uptimeNanoseconds in
  let duration := milliseconds * 1000000 in
  let end_ := now + duration in
  ret (if (u64_max <? duration) || (u64_max <? end_) then u64_max else end_).

Definition capped {E} (self : Deadline) (milliseconds : N) : M W E Deadline :=
  let! d := deadline_in milliseconds in ret (N.min self d).

Definition remainingMilliseconds {E} (self : Deadline) : M W E N :=
  let! now := uptimeNanoseconds in
  ret (if now <? self then N.min i32_max ((self - now - 1) / 1000000 + 1) else 0).

Definition check_deadline (self : Deadline) : M W AgentError unit :=
  let! remaining := remainingMilliseconds self in
  if 0 <? remaining then ret tt else throw timeout.

(** ** Frames *)

(** The loop of [waitForSocket]. *)
Definition wait_round (f : fd) (events : N) (deadline : Deadline) : M W AgentError (unit + unit) :=
  do! check_deadline deadline ;;
  let! remaining := remainingMilliseconds deadline in
  let! r := poll f events remaining in
  if (poll_result r <? 0)%Z && bool_decide (poll_errno r = EINTR) then ret (inl tt)
  else if (poll_result r <? 0)%Z then throw (ioError "poll")
  else if (poll_result r =? 0)%Z then throw timeout
  else
    do! check_deadline deadline ;;
    if negb (N.land (revents r) POLLNVAL =? 0) then throw (ioError "socket closed") else ret (inr tt).

Definition waitForSocket (fuel : nat) (f : fd) (events : N) (deadline : Deadline) : M W AgentError unit :=
  loop fuel (fun _ : unit => wait_round f events deadline) tt.

(** [errno == EINTR || errno == EAGAIN || errno == EWOULDBLOCK] *)
Definition retries (e : errno) : bool := bool_decide (e = EINTR) || bool_decide (e = EAGAIN).

(** The loops keep the bytes read, or those left to send, for [offset].  More
    bytes than [recv] was asked for would be written outside the buffer. *)
Definition read_round (fuel : nat) (count : nat) (f : fd) (deadline : Deadline) (data : bytes)
  : M W AgentError (bytes + bytes) :=
  if decide (length data < count)%nat then
    do! waitForSocket fuel f POLLIN deadline ;;
    let! r := prim (k_read f (count - length data)) (EvRead f (count - length data)) in
    match r with
    | Err e => if retries e then ret (inl data) else throw (ioError "read")
    | Ok [] => throw (ioError "unexpected EOF")
    | Ok b => if decide (length b <= count - length data)%nat then ret (inl (data ++ b)) else panic
    end
  else ret (inr data).

Definition readExactly (fuel : nat) (count : nat) (f : fd) (deadline : Deadline) : M W AgentError bytes :=
  loop fuel (read_round fuel count f deadline) [].

Definition maxFrameLength : N := 1024 * 1024.

Definition readJSONFrame `{JSONCoder} (fuel : nat) (f : fd) (deadline : Deadline)
  : M W AgentError MacRequest.signed :=
  let! lengthData := readExactly fuel 4 f deadline in
  let length := from_be_bytes lengthData in
  if maxFrameLength <? length then throw (ioError "frame too large")
  else
    let! bodyData := readExactly fuel (N.to_nat length) f deadline in
    lift (ok_or (decode_signed_request bodyData) coding).

Definition write_round (fuel : nat) (f : fd) (deadline : Deadline) (data : bytes)
  : M W AgentError (bytes + unit) :=
  if decide (data = []) then ret (inr tt)
  else
    do! waitForSocket fuel f POLLOUT deadline ;;
    let! r := prim (k_write f data) (EvWrite f data) in
    match r with
    | Err e => if retries e then ret (inl data) else throw (ioError "write")
    | Ok 0%nat => throw (ioError "write")
    | Ok n => ret (inl (drop n data))
    end.

Definition writeJSONFrame `{JSONCoder} (fuel : nat) (value : MacResponse.signed) (f : fd) (deadline : Deadline)
  : M W AgentError unit :=
  let! body := lift (ok_or (encode_signed_response value) coding) in
  if maxFrameLength <? N.of_nat (length body) then throw (ioError "frame too large")
  else loop fuel (write_round fuel f deadline) (to_be_bytes 4 (N.of_nat (length body)) ++ body).

(** ** [RequestLifetime] *)

Record RequestLifetime : Type := {
  lt_deadline : Deadline;
  lt_expiresAtMs : N;
  lt_fd : fd;
  lt_cancelled : N;
}.

Definition RequestLifetime_init {E} (f : fd) (expiresAtMs : N) (connectionDeadline : Deadline)
  : M W E RequestLifetime :=
  let! cancelled := new_flag in
  let! now := unixTimeMs in
  let! deadline := capped connectionDeadline (if now <? expiresAtMs then expiresAtMs - now else 0) in
  ret {| lt_deadline := deadline; lt_expiresAtMs := expiresAtMs; lt_fd := f; lt_cancelled := cancelled |}.

(** What [check] tries: the deadline, the expiry, and that the peer is there
    and silent. *)
Definition still_wanted (self : RequestLifetime) : M W AgentError unit :=
  do! check_deadline (lt_deadline self) ;;
  let! now := unixTimeMs in
  if lt_expiresAtMs self <=? now then throw timeout
  else
    let! r := peek (lt_fd self) in
    match r with
    | Err e => if retries e then ret tt else throw (ioError "peer disconnected or sent trailing data")
    | Ok _ => throw (ioError "peer disconnected or sent trailing data")
    end.

Definition check (self : RequestLifetime) : M W AgentError unit :=
  let! cancelled := get_cancelled (lt_cancelled self) in
  if cancelled : bool then throw (ioError "request cancelled")
  else
    let! r := attempt (still_wanted self) in
    match r with
    | Ok _ => ret tt
    | Err error => do! set_cancelled (lt_cancelled self) ;; throw error
    end.

Definition isActive {E} (self : RequestLifetime) : M W E bool :=
  let! r := attempt (check self) in ret (match r with Ok _ => true | Err _ => false end).
End Deadline.

(** ** What the user is shown *)

Section Texts.
Context `{SwiftText}.

Definition truncate (value : bytes) (maxLength : nat) : bytes :=
  if (count value <=? maxLength)%nat then value else first_characters maxLength value ++ [xe2; x80; xa6].

Fixpoint joined (parts : list bytes) : bytes :=
  match parts with
  | [] => []
  | [p] => p
  | p :: parts => p ++ [x0a] ++ joined parts
  end.

(** A part for a field that is present and not empty. *)
Definition part (label : bytes) (field : option bytes) : list bytes :=
  match field with
  | Some (b :: bs) => [label ++ b :: bs]
  | _ => []
  end.

Definition localAuthenticationReason (request : MacRequest.t) : bytes :=
  joined ([B "Approve " ++ MacRequest.pamService request ++ B " on " ++ MacRequest.linuxHostname request;
           B "User: " ++ MacRequest.pamUser request]
    ++ part (B "Requester: ") (MacRequest.pamRuser request)
    ++ part (B "TTY: ") (MacRequest.pamTty request)
    ++ match MacRequest.sudoCommand request with
       | Some (b :: bs) => [B "Command: " ++ truncate (b :: bs) 120]
       | _ => []
       end).

Definition confirmationText (request : MacRequest.t) : bytes :=
  joined ([B "Host: " ++ MacRequest.linuxHostname request;
           B "Host ID: " ++ MacRequest.linuxHostId request;
           B "Service: " ++ MacRequest.pamService request;
           B "User: " ++ MacRequest.pamUser request]
    ++ part (B "Requester: ") (MacRequest.pamRuser request)
    ++ part (B "Remote host: ") (MacRequest.pamRhost request)
    ++ part (B "TTY: ") (MacRequest.pamTty request)
    ++ match MacRequest.sudoCommand request with
       | Some (b :: bs) => [B "Command: " ++ truncate (b :: bs) 300]
       | _ => []
       end
    ++ [B "Request ID: " ++ MacRequest.requestId request]).
End Texts.

(** ** Asking the user *)

Definition decision_of_reply (r : la_reply) : Decision.t :=
  match r with
  | Recognised => Decision.Approved
  | LAError (userCancel | systemCancel | appCancel) => Decision.Cancelled
  | LAError (biometryNotAvailable | biometryNotEnrolled | biometryLockout | watchNotAvailable) =>
      Decision.Unavailable
  | LAError (otherCode _) => Decision.Failed
  | OtherError => Decision.Failed
  end.

Section Session.
Context `{Kernel W} `{MacKernel W} `{SwiftText}.

Definition showConfirmationAlert {E} (request : MacRequest.t) (lifetime : RequestLifetime) : M W E bool :=
  let! active := isActive lifetime in
  if negb active then ret false
  else
    let! first := runModal (confirmationText request) in
    let! active := isActive lifetime in
    ret (active && first).

(** From the second guard on. *)
Definition evaluate_policy (context : N) (request : MacRequest.t) (lifetime : RequestLifetime) : Block W :=
  let! active := isActive lifetime in
  if negb active then ret None
  else
    let! can := canEvaluatePolicy context in
    if negb can then ret (Some {| decision := Decision.Unavailable |})
    else
      let! active := isActive lifetime in
      if negb active then ret None
      else
        let! reply := evaluatePolicy context (localAuthenticationReason request) in
        ret (Some {| decision := decision_of_reply reply |}).

(** The block of [LocalAuthenticationSession.start]. *)
Definition session_block (context : N) (request : MacRequest.t) (requireConfirmation : bool)
  (lifetime : RequestLifetime) : Block W :=
  let! active := isActive lifetime in
  if negb active then ret None
  else if requireConfirmation then
    let! shown := showConfirmationAlert request lifetime in
    if negb shown then ret (Some {| decision := Decision.Cancelled |})
    else evaluate_policy context request lifetime
  else evaluate_policy context request lifetime.

(** The loops of [AuthenticationCoordinator.evaluate]. *)
Definition slot_round (lifetime : RequestLifetime) : M W AgentError (unit + unit) :=
  let! taken := slot_wait in
  if taken : bool then ret (inr tt) else do! check lifetime ;; ret (inl tt).

Definition result_round (session : N) (lifetime : RequestLifetime)
  : M W AgentError (unit + AuthenticationResult) :=
  let! value := result_value session in
  match value with
  | Some r => ret (inr r)
  | None => do! check lifetime ;; do! ready_wait session ;; ret (inl tt)
  end.

Definition evaluate (fuel : nat) (request : MacRequest.t) (requireConfirmation : bool)
  (lifetime : RequestLifetime) : M W AgentError AuthenticationResult :=
  do! loop fuel (fun _ : unit => slot_round lifetime) tt ;;
  deferred slot_signal (
    do! check lifetime ;;
    let! session := makeSession in
    deferred (invalidate session) (
      do! perform session (session_block session request requireConfirmation lifetime) ;;
      let! result := loop fuel (fun _ : unit => result_round session lifetime) tt in
      do! check lifetime ;;
      ret result)).
End Session.

(** ** [RateLimiter.allow], with its reading of the clock *)

Definition limiter_key (request : MacRequest.t) : bytes :=
  MacRequest.linuxHostId request ++ B "|" ++ MacRequest.pamService request ++ B "|" ++ MacRequest.pamUser request.

Definition limiter_allow `{MacKernel W} `{SwiftText} {E} (self : RateLimiter.t) (request : MacRequest.t)
  : M W E bool :=
  if (RateLimiter.maxRequests self <=? 0)%Z then ret true
  else
    let! now := unixTimeMs in
    let key := normal_form (limiter_key request) in
    let! events := get_history in
    let (allowed, events) := RateLimiter.allow self key now events in
    do! set_history events key now allowed ;;
    ret allowed.

(** ** The handler *)

Section Agent.
Context `{Kernel W} `{MacKernel W} `{CryptoKit W} `{JSONCoder} `{SwiftText} `{Crypto}.

Record HostVerifier : Type := { hostId : bytes; publicKey : PublicKey }.

(** [hostVerifiers] is keyed by the normal forms. *)
Record AgentRuntime : Type := {
  hostVerifiers : gmap bytes HostVerifier;
  agentPrivateKey : PrivateKey;
  agentKeyId : bytes;
  allowedFutureSkewMs : N;
  requireConfirmation : bool;
  rateLimiter : RateLimiter.t;
}.

Definition verifier_for (runtime : AgentRuntime) (id : bytes) : option HostVerifier :=
  match hostVerifiers runtime !! normal_form id with
  | Some v => Some v
  | None => hostVerifiers runtime !! normal_form (B "*")
  end.

Definition verifyRequest (request : MacRequest.signed) (hostPublicKey : PublicKey) (skew : N)
  : M W AgentError unit :=
  let! requestBytes := lift (MacRequest.canonicalBytes (MacRequest.body request)) in
  if negb (isValidSignature hostPublicKey (MacRequest.signature request) requestBytes)
  then throw invalidSignature
  else
    let! now := unixTimeMs in
    lift (MacRequest.verifyFreshness (MacRequest.body request) now skew).

Definition signature_for (key : PrivateKey) (message : bytes) : M W AgentError bytes :=
  let! s := prim (k_signature key message) (fun s => EvMac (EvSigned message s)) in
  lift (ok_or s coding).

(** From the answer of the user on. *)
Definition respond (fuel : nat) (f : fd) (runtime : AgentRuntime) (request : MacRequest.t)
  (lifetime : RequestLifetime) (authResult : AuthenticationResult) : M W AgentError unit :=
  do! check lifetime ;;
  let! now := unixTimeMs in
  let! responseBody := lift (MacResponse.forRequest request (decision authResult) (authMethod authResult) now
                               (agentKeyId runtime)) in
  let! message := lift (MacResponse.canonicalBytes responseBody) in
  let! signature := signature_for (agentPrivateKey runtime) message in
  do! check lifetime ;;
  writeJSONFrame fuel (MacResponse.mk_signed responseBody signature) f (lt_deadline lifetime).

Definition judge (fuel : nat) (runtime : AgentRuntime) (request : MacRequest.t) (lifetime : RequestLifetime)
  : M W AgentError AuthenticationResult :=
  let! allowed := limiter_allow (rateLimiter runtime) request in
  if allowed : bool then evaluate fuel request (requireConfirmation runtime) lifetime
  else ret {| decision := Decision.Cancelled |}.

Definition handleServeRequest (fuel : nat) (f : fd) (runtime : AgentRuntime) (deadline : Deadline)
  : M W AgentError unit :=
  let! frameDeadline := capped deadline 2000 in
  let! request := readJSONFrame fuel f frameDeadline in
  match verifier_for runtime (MacRequest.linuxHostId (MacRequest.body request)) with
  | None => throw (invalidPayload "host is not allowed")
  | Some verifier =>
      do! verifyRequest request (publicKey verifier) (allowedFutureSkewMs runtime) ;;
      let! lifetime := RequestLifetime_init f (MacRequest.expiresAtMs (MacRequest.body request)) deadline in
      deferred (set_cancelled (lt_cancelled lifetime)) (
        do! check lifetime ;;
        let! authResult := judge fuel runtime (MacRequest.body request) lifetime in
        respond fuel f runtime (MacRequest.body request) lifetime authResult)
  end.
End Agent.
