(* ===== verification/MacAgentProps.v ===== *)
(** * What the agent on the Mac promises ([MacAgent])

    The handler of a connection refines the abstract server [served]: it is
    silent until one request was read, checked and found fresh; it asks the
    user only if the rate limiter admits that request; it signs one message,
    the answer to that request with the decision that was made, and sends the
    signed answer or a part of it.  What the system promises of the block that
    asks the user, which runs in another thread, is the class [SessionLaws]. *)

From Stdlib Require Import NArith ZArith Lia List Bool.
From Stdlib Require Import Strings.Byte Strings.String.
From stdpp Require Import base decidable list option strings gmap.
From S2P Require Import Prelude RustStd Crypto Protocol Canonical ProtocolProps Sys Io Frame CacheSpec.
From S2P Require Import MacProtocol RateLimiter MacAgent.

Open Scope N_scope.

(** ** What is not done *)

(** Calls that sign nothing and send nothing. *)
Definition unsigned (e : event) : Prop :=
  match e with
  | EvWrite _ _ _ | EvMac (EvSigned _ _) => False
  | _ => True
  end.

(** Nor do they ask the user anything. *)
Definition silent (e : event) : Prop :=
  unsigned e /\ match e with EvMac (EvStart _ | EvAlert _ _ | EvEvaluate _ _) => False | _ => True end.

(** Nor do they read. *)
Definition idle (e : event) : Prop := silent e /\ match e with EvRead _ _ _ => False | _ => True end.

Section Calls.
Context `{Kernel W} `{MacKernel W} (P : event -> Prop) (HP : forall e, idle e -> P e).

#[local] Ltac quiet := intros; apply HP; repeat split; done.

Lemma mac_quiet_check_deadline d : emits P (check_deadline d).
Proof. unfold check_deadline, remainingMilliseconds, uptimeNanoseconds. respects_tac; apply emits_prim; quiet. Qed.

Lemma quiet_capped {E} d ms : emits P (capped (E := E) d ms).
Proof. unfold capped, deadline_in, uptimeNanoseconds. respects_tac; apply emits_prim; quiet. Qed.

Lemma mac_quiet_wait fuel f ev d : emits P (waitForSocket fuel f ev d).
Proof.
  pose proof mac_quiet_check_deadline. unfold waitForSocket, wait_round, remainingMilliseconds, uptimeNanoseconds, poll.
  respects_tac; apply emits_prim; quiet.
Qed.

Lemma quiet_readJSONFrame `{JSONCoder} (HR : forall g n r, P (EvRead g n r)) fuel f d :
  emits P (readJSONFrame fuel f d).
Proof.
  pose proof mac_quiet_wait. unfold readJSONFrame, readExactly, read_round. respects_tac; by apply emits_prim.
Qed.

Lemma quiet_check l : emits P (check l).
Proof.
  pose proof mac_quiet_check_deadline. unfold check, still_wanted, get_cancelled, set_cancelled, unixTimeMs, peek.
  respects_tac; apply emits_prim; quiet.
Qed.

Lemma quiet_lifetime {E} f t d : emits P (RequestLifetime_init (E := E) f t d).
Proof.
  pose proof @quiet_capped. unfold RequestLifetime_init, new_flag, unixTimeMs. respects_tac; apply emits_prim; quiet.
Qed.

Lemma quiet_set_cancelled {E} i : emits P (set_cancelled (E := E) i).
Proof. apply emits_prim. quiet. Qed.

Lemma quiet_limiter `{SwiftText} {E} l m : emits P (limiter_allow (E := E) l m).
Proof. unfold limiter_allow, unixTimeMs, get_history, set_history. respects_tac; apply emits_prim; quiet. Qed.

Lemma emits_deferred {E A} (final : M W E unit) (m : M W E A) :
  emits P final -> emits P m -> emits P (deferred final m).
Proof. intros Hf Hm. unfold deferred. respects_tac. Qed.
End Calls.

(** ** The user *)

(** What the system promises of the main thread: a session that was started
    with a block has no result but what a run of that block completed with. *)
Class SessionLaws (W : Type) `{MacKernel W} := {
  scheduled : N -> Block W -> W -> Prop;
  scheduled_start i b w : scheduled i b (k_start i b w).2;
  scheduled_result i b w : scheduled i b w ->
    scheduled i b (k_result i w).2 /\
    forall r, (k_result i w).1 = Some r -> exists s0 s1, b s0 = (Done (Ok (Some r)), s1);
  scheduled_ready i b j w : scheduled i b w -> scheduled i b (k_ready j w).2;
  scheduled_wall i b w : scheduled i b w -> scheduled i b (k_wall w).2;
  scheduled_uptime i b w : scheduled i b w -> scheduled i b (k_uptime w).2;
  scheduled_peek i b f w : scheduled i b w -> scheduled i b (k_peek f w).2;
  scheduled_cancelled i b c w : scheduled i b w -> scheduled i b (k_cancelled c w).2;
  scheduled_set_cancelled i b c w : scheduled i b w -> scheduled i b (k_set_cancelled c w).2;
}.

Section Session.
Context `{Kernel W} `{MacKernel W} `{!SessionLaws W} `{SwiftText}.

(** The calls by which the user approved [m]: shown its alert, if one is
    required, at a time when it had not expired, and recognised for the reason
    that names it. *)
Definition approved_by (confirm : bool) (m : MacRequest.t) (evs : list event) : Prop :=
  exists pre t,
    evs = pre ++ [EvMac (EvEvaluate (localAuthenticationReason m) Recognised)] /\
    In (EvMac (EvWall t)) pre /\ t < MacRequest.expiresAtMs m /\
    (confirm = true -> In (EvMac (EvAlert (confirmationText m) true)) pre).

Definition recognised (confirm : bool) (m : MacRequest.t) : Prop :=
  exists (s0 s1 : state W) evs, made s0 s1 evs /\ approved_by confirm m evs.

Definition lifetime_of (m : MacRequest.t) (l : RequestLifetime) : Prop :=
  lt_expiresAtMs l = MacRequest.expiresAtMs m.

(** A look that finds the request active read the clock before its expiry. *)
Lemma check_ok l (s s' : state W) :
  check l s = (Done (Ok tt), s') ->
  exists evs t, made s s' evs /\ In (EvMac (EvWall t)) evs /\ t < lt_expiresAtMs l.
Proof.
  unfold check. intros HR. apply bind_ok in HR as ([] & s1 & (? & [= <-] & M1 & _)%prim_done & HR); [done|].
  apply bind_ok in HR as (r & s2 & (r' & Hr & [= ->])%attempt_ok & HR).
  destruct r' as [[]|e]; [|by apply bind_ok in HR as (? & ? & _ & [=])]. injection HR as <-.
  unfold still_wanted in Hr. apply bind_ok in Hr as ([] & s3 & Hd & Hr).
  pose proof (emits_run (fun _ => True) _ _ _ _ (mac_quiet_check_deadline _ (fun _ _ => I) _) Hd) as (e3 & M3 & _).
  apply bind_ok in Hr as (t & s4 & (? & [= <-] & M4 & _)%prim_done & Hr).
  destruct (N.leb_spec (lt_expiresAtMs l) t); [done|].
  apply bind_ok in Hr as (p & s5 & (? & [= <-] & M5 & _)%prim_done & Hr).
  assert (s5 = s2) as -> by (destruct p as [b|e]; [done|]; destruct (retries e); [by injection Hr|done]).
  eexists _, t. split_and!; [exact (made_app _ _ _ [_] _ M1 (made_app _ _ _ _ _ M3 (made_app _ _ _ [_] [_] M4 M5)))| |done].
  rewrite !in_app_iff. cbn. tauto.
Qed.

Lemma isActive_true {E} l (s s' : state W) :
  isActive (E := E) l s = (Done (Ok true), s') ->
  exists evs t, made s s' evs /\ In (EvMac (EvWall t)) evs /\ t < lt_expiresAtMs l.
Proof.
  unfold isActive. intros (r & s1 & (r' & Hr & [= ->])%attempt_ok & HR)%bind_ok.
  destruct r' as [[]|e]; [|done]. injection HR as <-. by eapply check_ok.
Qed.

Lemma isActive_made {E} l (s s' : state W) r : isActive (E := E) l s = (Done r, s') -> exists evs, made s s' evs.
Proof.
  intros HR. assert (emits (fun _ => True) (isActive (W := W) (E := E) l)) as He.
  { pose proof (quiet_check (W := W) (fun _ => True) (fun _ _ => I) l). unfold isActive. respects_tac. }
  by destruct (emits_run _ _ _ _ _ He HR) as (evs & M & _); exists evs.
Qed.

Lemma evaluate_policy_approved ctx m l (s s' : state W) :
  lifetime_of m l ->
  evaluate_policy ctx m l s = (Done (Ok (Some {| decision := Decision.Approved |})), s') ->
  exists evs, made s s' evs /\ approved_by false m evs.
Proof.
  intros Hl HR. unfold evaluate_policy in HR.
  apply bind_ok in HR as (a1 & s1 & K1 & HR). destruct a1; cbn [negb] in HR; [|done].
  apply bind_ok in HR as ([] & s2 & (? & [= <-] & M2 & _)%prim_done & HR); cbn [negb] in HR; [|done].
  apply bind_ok in HR as (a3 & s3 & K3 & HR). destruct a3; cbn [negb] in HR; [|done].
  apply bind_ok in HR as (r & s4 & (? & [= <-] & M4 & _)%prim_done & HR). injection HR as Hd <-.
  assert (r = Recognised) as -> by (destruct r as [|[]|]; done).
  apply isActive_made in K1 as (e1 & M1). apply isActive_true in K3 as (e3 & t & M3 & Ht & Hlt).
  exists ((e1 ++ EvMac (EvCanEvaluate true) :: e3) ++ [EvMac (EvEvaluate (localAuthenticationReason m) Recognised)]).
  split.
  - eapply made_app, M4. exact (made_app _ _ _ _ _ M1 (made_app _ _ _ [_] _ M2 M3)).
  - eexists _, t. split_and!; [done| |by rewrite <- Hl|done]. rewrite in_app_iff. cbn. tauto.
Qed.

Lemma approved_by_after confirm m before evs :
  approved_by false m evs -> (confirm = true -> In (EvMac (EvAlert (confirmationText m) true)) before) ->
  approved_by confirm m (before ++ evs).
Proof.
  intros (pre & t & -> & Ht & Hlt & _) Hc. exists (before ++ pre), t. rewrite app_assoc, !in_app_iff.
  split_and!; [done|tauto|done|]. intros Hconf. left. by apply Hc.
Qed.

(** A block that completes with an approval was approved by the user. *)
Lemma session_approved ctx m confirm l (s s' : state W) :
  lifetime_of m l ->
  session_block ctx m confirm l s = (Done (Ok (Some {| decision := Decision.Approved |})), s') ->
  recognised confirm m.
Proof.
  intros Hl HR. unfold session_block in HR.
  apply bind_ok in HR as (a1 & s1 & K1 & HR). destruct a1; cbn [negb] in HR; [|done].
  apply isActive_made in K1 as (e1 & M1). destruct confirm.
  - apply bind_ok in HR as (shown & s2 & K2 & HR). destruct shown; cbn [negb] in HR; [|done].
    unfold showConfirmationAlert in K2. apply bind_ok in K2 as (a3 & s3 & K3 & K2).
    destruct a3; cbn [negb] in K2; [|done]. apply isActive_made in K3 as (e3 & M3).
    apply bind_ok in K2 as (first & s4 & (? & [= <-] & M4 & _)%prim_done & K2).
    apply bind_ok in K2 as (a5 & s5 & K5 & K2). injection K2 as Hf <-.
    apply andb_true_iff in Hf as [-> ->]. apply isActive_made in K5 as (e5 & M5).
    apply (evaluate_policy_approved _ _ _ _ _ Hl) in HR as (evs & M & Ha).
    eexists s, s', _. split.
    + apply (made_app _ _ _ _ _ (made_app _ _ _ _ _ M1 (made_app _ _ _ _ _ M3 (made_app _ _ _ [_] _ M4 M5))) M).
    + apply approved_by_after; [done|]. intros _. rewrite !in_app_iff. cbn. tauto.
  - apply (evaluate_policy_approved _ _ _ _ _ Hl) in HR as (evs & M & Ha).
    eexists s, s', _. split; [exact (made_app _ _ _ _ _ M1 M)|by apply approved_by_after].
Qed.

(** The session stays scheduled. *)
Definition keeps_scheduled (s s' : state W) : Prop :=
  forall i b, scheduled i b (world s) -> scheduled i b (world s').

#[local] Instance keeps_scheduled_preorder : PreOrder keeps_scheduled.
Proof. split; [by intros ? ? ?|]. intros s1 s2 s3 K1' K2' i b Hs. by apply K2', K1'. Qed.

Lemma unsigned_prim {E A} (f : W -> A * W) ev :
  (forall i b w, scheduled i b w -> scheduled i b (f w).2) -> respects keeps_scheduled (prim (E := E) f ev).
Proof. intros Hf s i b Hs. unfold prim. specialize (Hf i b (world s) Hs). by destruct (f (world s)). Qed.

Lemma keeps_check l : respects keeps_scheduled (check l).
Proof.
  unfold check, still_wanted, check_deadline, remainingMilliseconds, uptimeNanoseconds, get_cancelled,
    set_cancelled, unixTimeMs, peek.
  respects_tac; apply unsigned_prim; intros;
    eauto using scheduled_wall, scheduled_uptime, scheduled_peek, scheduled_cancelled, scheduled_set_cancelled.
Qed.

Lemma result_loop_ok fuel i b l r (s s' : state W) :
  loop fuel (fun _ : unit => result_round i l) tt s = (Done (Ok r), s') -> scheduled i b (world s) ->
  exists s0 s1, b s0 = (Done (Ok (Some r)), s1).
Proof.
  pose (P := fun (_ : unit) (s : state W) (r : AuthenticationResult) (_ : state W) =>
    scheduled i b (world s) -> exists s0 s1, b s0 = (Done (Ok (Some r)), s1)).
  intros HL. change (P tt s r s'). refine (loop_ok_ind _ P _ _ _ _ _ _ _ HL); clear; unfold P.
  - intros [] s [] s1 r s' HB IH Hs. apply IH. unfold result_round in HB.
    apply bind_ok in HB as (v & s2 & (? & [= <-] & _ & Hv)%prim_done & HB).
    destruct (scheduled_result i b _ Hs) as [Hk _]. rewrite Hv in Hk. cbn in Hk. destruct v; [done|].
    apply bind_ok in HB as ([] & s3 & Hc & HB). pose proof (keeps_check l s2) as Hkc. rewrite Hc in Hkc. cbn [snd] in Hkc.
    apply bind_ok in HB as ([] & s4 & (? & _ & _ & Hr)%prim_done & [= <-]).
    pose proof (scheduled_ready i b i _ (Hkc _ _ Hk)) as Hx. by rewrite Hr in Hx.
  - intros [] s r s' HB Hs. unfold result_round in HB.
    apply bind_ok in HB as (v & s2 & (? & [= <-] & _ & Hv)%prim_done & HB).
    destruct (scheduled_result i b _ Hs) as [_ Hk]. rewrite Hv in Hk.
    destruct v; [|by repeat (apply bind_ok in HB as (? & ? & _ & HB))]. injection HB as -> _. by apply Hk.
Qed.

Lemma deferred_ok {E A} (final : M W E unit) (m : M W E A) (s s' : state W) a :
  deferred final m s = (Done (Ok a), s') -> exists s1, m s = (Done (Ok a), s1).
Proof.
  unfold deferred. intros (r & s1 & (r' & Hr & [= ->])%attempt_ok & HR)%bind_ok.
  apply bind_ok in HR as (? & s2 & _ & [-> _]%lift_done). by exists s1.
Qed.

(** An approval of the coordinator is the user's. *)
Lemma evaluate_approved fuel m confirm l (s s' : state W) :
  lifetime_of m l ->
  evaluate fuel m confirm l s = (Done (Ok {| decision := Decision.Approved |}), s') -> recognised confirm m.
Proof.
  intros Hl HR. unfold evaluate in HR. apply bind_ok in HR as ([] & s1 & _ & HR).
  apply deferred_ok in HR as (s2 & HR). apply bind_ok in HR as ([] & s3 & _ & HR).
  apply bind_ok in HR as (i & s4 & _ & HR). apply deferred_ok in HR as (s5 & HR).
  apply bind_ok in HR as ([] & s6 & (? & _ & _ & Hp)%prim_done & HR).
  apply bind_ok in HR as (r & s7 & HL & HR). apply bind_ok in HR as ([] & s8 & _ & HR). injection HR as -> _.
  pose proof (scheduled_start i (session_block i m confirm l) (world s4)) as Hs. rewrite Hp in Hs.
  destruct (result_loop_ok _ _ _ _ _ _ _ HL Hs) as (c0 & c1 & Hc). by eapply session_approved.
Qed.

Lemma unsigned_evaluate fuel m confirm l : emits unsigned (evaluate fuel m confirm l).
Proof.
  assert (forall e, idle e -> unsigned e) as Hs by (by intros e [[? _] _]).
  pose proof (quiet_check (W := W) unsigned Hs) as Hc.
  unfold evaluate, slot_round, result_round, slot_wait, makeSession, perform, result_value, ready_wait.
  respects_tac; try apply emits_deferred; respects_tac; try apply emits_deferred; respects_tac;
    by apply emits_prim.
Qed.
End Session.

(** ** The socket *)

Section Socket.
Context `{Kernel W} `{MacKernel W} `{JSONCoder}.

Lemma idle_crosses f evs : Forall idle evs -> bytes_read f evs = [] /\ bytes_written f evs = [].
Proof.
  induction 1 as [|e evs He _ IH]; [done|]. destruct IH as [IH1 IH2]. unfold bytes_read, bytes_written in *.
  cbn [flat_map]. rewrite IH1, IH2, !app_nil_r. destruct He as [[He _] Hr]. by destruct e.
Qed.

Lemma idle_only_read f (s s' : state W) : emitted idle s s' -> only_read f [] s s'.
Proof. intros (evs & M & [? ?]%(idle_crosses f)). by exists evs. Qed.

Lemma readExactly_ok fuel count f d b (s s' : state W) :
  readExactly fuel count f d s = (Done (Ok b), s') -> length b = count /\ only_read f b s s'.
Proof.
  intros HL.
  pose (P := fun (data : bytes) (s : state W) (b : bytes) s' => (length data <= count)%nat -> exists sfx,
    b = data ++ sfx /\ length b = count /\ only_read f sfx s s').
  assert (P [] s b s') as HP.
  2: { destruct HP as (sfx & -> & ? & ?); [cbn; lia|done]. }
  refine (loop_ok_ind _ P _ _ _ _ _ _ _ HL); clear; unfold P.
  - intros data s data' s1 b s' HB IH Hl. unfold read_round in HB. case_decide as Hlt; [|discriminate].
    apply bind_ok in HB as ([] & s2 & Hw & HB).
    pose proof (idle_only_read f _ _ (emits_run idle _ _ _ _ (mac_quiet_wait _ (fun _ x => x) _ _ _ _) Hw)) as R2.
    apply bind_ok in HB as (r & s3 & (? & [= <-] & M3 & _)%prim_done & HB).
    destruct r as [[|x xs]|e]; [done| |].
    + case_decide as Hle; [|done]. injection HB as <- <-. destruct IH as (sfx & -> & Hl' & Hr).
      { rewrite length_app. lia. }
      exists ((x :: xs) ++ sfx). rewrite <- app_assoc in Hl' |- *. split_and!; [done|done|].
      apply (only_read_app _ [] _ _ s2 _ R2). apply (only_read_app _ (x :: xs) sfx _ s3); [|done].
      eexists. split; [exact M3|]. cbn. rewrite decide_True by done. by rewrite app_nil_r.
    + destruct (retries e); [|done]. injection HB as <- <-. destruct (IH Hl) as (sfx & -> & Hl' & Hr).
      exists sfx. split_and!; [done|done|]. apply (only_read_app _ [] _ _ s2 _ R2).
      apply (only_read_app _ [] _ _ s3); [|done]. eexists. by split; [exact M3|].
  - intros data s b s' HB Hl. unfold read_round in HB. case_decide as Hlt.
    + exfalso. apply bind_ok in HB as ([] & s2 & _ & HB). apply bind_ok in HB as (r & s3 & _ & HB).
      destruct r as [[|x xs]|e]; [done|case_decide; done|by destruct (retries e)].
    + injection HB as <- <-. exists []. rewrite app_nil_r. split_and!; [done|lia|apply only_read_nil].
Qed.

(** What was read was the frame of the request, whole, and no more. *)
Lemma readJSONFrame_ok fuel f d m (s s' : state W) :
  readJSONFrame fuel f d s = (Done (Ok m), s') ->
  exists wire, decode_signed_request wire = Some m /\ N.of_nat (length wire) <= maxFrameLength /\
    only_read f (frame wire) s s'.
Proof.
  unfold readJSONFrame. intros HR. apply bind_ok in HR as (len & s1 & [Hl R1]%readExactly_ok & HR).
  destruct (N.ltb_spec maxFrameLength (from_be_bytes len)); [done|].
  apply bind_ok in HR as (wire & s2 & [Hw R2]%readExactly_ok & [Hd ->]%lift_done).
  exists wire. split_and!; [by destruct (decode_signed_request wire); [injection Hd as ->|]|by rewrite Hw, N2Nat.id|].
  unfold frame. rewrite Hw, N2Nat.id.
  replace (to_be_bytes 4 (from_be_bytes len)) with len by (symmetry; rewrite <- Hl at 1; apply to_from_be_bytes).
  by eapply only_read_app.
Qed.

(** Calls that only send on [f]. *)
Definition sending (f : fd) (e : event) : Prop :=
  match e with EvWrite g _ _ => g = f | _ => idle e end.

(** The run sent a part of [b] from its front, and did nothing else. *)
Definition sends (f : fd) (b : bytes) (s s' : state W) : Prop :=
  exists evs, made s s' evs /\ Forall (sending f) evs /\ bytes_written f evs `prefix_of` b.

Lemma sends_nil f b (s s' : state W) : emitted idle s s' -> sends f b s s'.
Proof.
  intros (evs & M & F). exists evs. split_and!; [done| |].
  - eapply Forall_impl; [exact F|]. intros e He. by destruct e; try exact He; destruct He as [[[]]].
  - destruct (idle_crosses f evs F) as [_ ->]. apply prefix_nil.
Qed.

Lemma sends_app f b1 b2 (s1 s2 s3 : state W) :
  only_wrote f b1 s1 s2 -> emitted (sending f) s1 s2 -> sends f b2 s2 s3 -> sends f (b1 ++ b2) s1 s3.
Proof.
  intros (e1 & M1 & W1 & _) (e1' & M1' & F1) (e2 & M2 & F2 & [k ->]).
  rewrite (made_inj _ _ _ _ M1' M1) in F1. exists (e1 ++ e2). split_and!; [by eapply made_app|by apply Forall_app|].
  rewrite bytes_written_app, W1. exists k. by rewrite app_assoc.
Qed.

(** One round: what it sent is gone from the data. *)
Lemma write_round_sends fuel f d data o (s s' : state W) :
  write_round fuel f d data s = (o, s') ->
  exists k, only_wrote f (take k data) s s' /\ emitted (sending f) s s' /\
    match o with
    | Done (Ok (inl rest)) => rest = drop k data
    | Done (Ok (inr _)) => data = [] /\ k = 0%nat
    | _ => k = 0%nat
    end.
Proof.
  assert (forall s s' : state W, emitted idle s s' -> only_wrote f (take 0 data) s s' /\ emitted (sending f) s s')
    as Hidle.
  { intros s1 s2 (evs & M & F). split; [|exists evs; split; [done|eapply Forall_impl; [exact F|]]].
    - exists evs. by destruct (idle_crosses f evs F) as [-> ->].
    - intros e He. by destruct e; try exact He; destruct He as [[[]]]. }
  unfold write_round. case_decide as Hz.
  { intros [= <- <-]. exists 0%nat. destruct (Hidle s s) as [? ?]; [reflexivity|]. by split_and!. }
  intros HR. apply bind_run in HR as [([] & s1 & Hw & HR)|[(e & Hw & ->)|[[Hw ->]|[Hw ->]]]];
    pose proof (emits_run idle _ _ _ _ (mac_quiet_wait _ (fun _ x => x) _ _ _ _) Hw) as Q1;
    destruct (Hidle _ _ Q1) as [W1 S1]; try (exists 0%nat; by split_and!).
  apply bind_run in HR as [(r & s2 & (? & [= <-] & M2 & _)%prim_done & HR)|[(e & (? & [=] & _)%prim_done & _)|[[Hp _]|[Hp _]]]];
    try (unfold prim in Hp; by destruct (k_write _ _ _)).
  assert (emitted (sending f) s s2) as S2.
  { etransitivity; [exact S1|]. exists [EvWrite f data r]. split; [done|]. by constructor. }
  assert (only_wrote f (match r with Ok n => take n data | Err _ => [] end) s s2) as W2.
  { apply (only_wrote_app _ [] _ _ s1 _ W1). exists [EvWrite f data r]. split_and!; [done| |done].
    destruct r as [n|e]; cbn; [|done]. by rewrite decide_True, app_nil_r. }
  assert (s2 = s') as -> by (destruct r as [[|n]|e]; [..|destruct (retries e)]; by injection HR).
  destruct r as [[|n]|e].
  - injection HR as <-. by exists 0%nat.
  - injection HR as <-. by exists (S n).
  - exists 0%nat. split_and!; [done|done|]. destruct (retries e); injection HR as <-; [by rewrite drop_0|done].
Qed.

(** The loop of [writeJSONFrame] sends a part of the data; all, if it ends. *)
Lemma write_loop_sends fuel f d data o (s s' : state W) :
  loop fuel (write_round fuel f d) data s = (o, s') ->
  sends f data s s' /\ (o = Done (Ok tt) -> only_wrote f data s s').
Proof.
  intros HL.
  pose (P := fun data (s : state W) (o : outcome (result unit AgentError)) s' =>
    sends f data s s' /\ (o = Done (Ok tt) -> only_wrote f data s s')).
  assert (forall data o0 (o : outcome (result unit AgentError)) (s s' : state W),
    write_round fuel f d data s = (o0, s') -> match o0 with Done (Ok _) => False | _ => True end ->
    o <> Done (Ok tt) -> P data s o s') as Hend.
  { intros data0 o0 o1 s0 s1 (k & Hw & Hs & Hk)%write_round_sends Ho Hne. split; [|by intros ->].
    replace k with 0%nat in Hw by (destruct o0 as [[]| |]; done). destruct Hs as (evs & M & F).
    exists evs. split_and!; [done|done|]. destruct Hw as (evs' & M' & Hb & _).
    rewrite (made_inj _ _ _ _ M M'), Hb. apply prefix_nil. }
  change (P data s o s'). refine (loop_ind _ P _ _ _ _ _ _ _ _ _ _ _ HL).
  - intros data0 s0 rest s1 o1 s2 (k & Hw & Hs & ->)%write_round_sends [IH1 IH2]. unfold P.
    rewrite <- (take_drop k data0). split; [by eapply sends_app|]. intros Ho. eapply only_wrote_app; [done|auto].
  - intros data0 s0 [] s1 (k & Hw & Hs & -> & ->)%write_round_sends. split; [|done].
    destruct Hs as (evs & M & F). exists evs. split_and!; [done|done|].
    destruct Hw as (evs' & M' & Hb & _). rewrite (made_inj _ _ _ _ M M'), Hb. apply prefix_nil.
  - intros data0 s0 e s1 HB. by eapply Hend.
  - intros data0 s0 s1 HB. by eapply Hend.
  - intros data0 s0 s1 HB. by eapply Hend.
  - intros data0 s0. split; [|done]. apply sends_nil. reflexivity.
Qed.
End Socket.

(** ** The abstract server *)

Section Served.
Context `{Kernel W} `{MacKernel W} `{CryptoKit W} `{JSONCoder} `{SwiftText} `{Crypto} `{!SessionLaws W}.
Context (f : fd) (runtime : AgentRuntime).

(** From [s] to [s'] one frame was read, and its request passed every check:
    the host is known, the signature is the host's, and by the last reading of
    the clock the request is fresh. *)
Definition considered (wire : bytes) (request : MacRequest.signed) (s s' : state W) : Prop :=
  exists v b now s1,
    only_read f (frame wire) s s1 /\ emitted silent s s1 /\ N.of_nat (length wire) <= maxFrameLength /\
    decode_signed_request wire = Some request /\
    verifier_for runtime (MacRequest.linuxHostId (MacRequest.body request)) = Some v /\
    MacRequest.canonicalBytes (MacRequest.body request) = Ok b /\
    isValidSignature (publicKey v) (MacRequest.signature request) b = true /\
    made s1 s' [EvMac (EvWall now)] /\
    MacRequest.verifyFreshness (MacRequest.body request) now (allowedFutureSkewMs runtime) = Ok tt.

(** The rate limiter admitted the request. *)
Definition admitted (m : MacRequest.t) (s s' : state W) : Prop :=
  (RateLimiter.maxRequests (rateLimiter runtime) <= 0)%Z /\ s' = s \/
  exists now, made s s' [EvMac (EvWall now); EvMac EvHistory;
                         EvMac (EvLimiter (normal_form (limiter_key m)) now true)].

(** The decision: cancelled without asking, or that of a session. *)
Definition judged (m : MacRequest.t) (d : Decision.t) (s s' : state W) : Prop :=
  d = Decision.Cancelled /\ emitted idle s s' \/
  exists s1, admitted m s s1 /\ emitted unsigned s1 s' /\
    (d = Decision.Approved -> recognised (W := W) (requireConfirmation runtime) m).

(** The answer to the request, made at [now]. *)
Definition answers (m : MacRequest.t) (d : Decision.t) (now : N) (n : MacResponse.t) : Prop :=
  bound_to (as_response n) (as_request m) /\ MacResponse.decision n = d /\
  MacResponse.authMethod n = authMethod {| decision := d |} /\
  MacResponse.createdAtMs n = now /\ MacResponse.agentKeyId n = agentKeyId runtime /\
  now < MacResponse.expiresAtMs n <= MacRequest.expiresAtMs m /\ MacResponse.expiresAtMs n <= now + 10000.

(** The message was signed with the agent's key. *)
Definition signs (message : bytes) (signature : option bytes) (s s' : state W) : Prop :=
  made s s' [EvMac (EvSigned message signature)] /\
  k_signature (agentPrivateKey runtime) message (world s) = (signature, world s').

(** How far a connection can come. *)
Inductive served (s : state W) (o : outcome (result unit AgentError)) (s' : state W) : Prop :=
| served_unheard : emitted silent s s' -> o <> Done (Ok tt) -> served s o s'
| served_unasked wire request s1 :
    considered wire request s s1 -> emitted idle s1 s' -> o <> Done (Ok tt) -> served s o s'
| served_unanswered wire request s1 s2 s3 :
    considered wire request s s1 -> emitted idle s1 s2 -> admitted (MacRequest.body request) s2 s3 ->
    emitted unsigned s3 s' -> o <> Done (Ok tt) -> served s o s'
| served_signed wire request s1 s2 s3 s4 s5 d now n message signature :
    considered wire request s s1 -> emitted idle s1 s2 -> judged (MacRequest.body request) d s2 s3 ->
    emitted idle s3 s4 -> answers (MacRequest.body request) d now n ->
    MacResponse.canonicalBytes n = Ok message -> signs message signature s4 s5 ->
    emitted idle s5 s' -> o <> Done (Ok tt) -> served s o s'
| served_sent wire request s1 s2 s3 s4 s5 d now n message signature text :
    considered wire request s s1 -> emitted idle s1 s2 -> judged (MacRequest.body request) d s2 s3 ->
    emitted idle s3 s4 -> answers (MacRequest.body request) d now n ->
    MacResponse.canonicalBytes n = Ok message -> signs message (Some signature) s4 s5 ->
    encode_signed_response (MacResponse.mk_signed n signature) = Some text ->
    N.of_nat (length text) <= maxFrameLength -> sends f (frame text) s5 s' ->
    (o = Done (Ok tt) -> only_wrote f (frame text) s5 s') -> served s o s'.

Lemma idle_unsigned e : idle e -> unsigned e.
Proof. by intros [[? _] _]. Qed.
Lemma idle_silent e : idle e -> silent e.
Proof. by intros [? _]. Qed.

Lemma sends_idle b (s1 s2 s3 : state W) : sends f b s1 s2 -> emitted idle s2 s3 -> sends f b s1 s3.
Proof.
  intros (e1 & M1 & F1 & Hp) (e2 & M2 & F2). exists (e1 ++ e2).
  destruct (idle_crosses f e2 F2) as [_ Hw]. rewrite bytes_written_app, Hw, app_nil_r.
  split_and!; [by eapply made_app| |done]. apply Forall_app. split; [done|].
  eapply Forall_impl; [exact F2|]. intros e He. by destruct e; try exact He; destruct He as [[[]]].
Qed.

Lemma only_wrote_idle b (s1 s2 s3 : state W) : only_wrote f b s1 s2 -> emitted idle s2 s3 -> only_wrote f b s1 s3.
Proof.
  intros Hw (e2 & M2 & F2). rewrite <- (app_nil_r b). eapply only_wrote_app; [exact Hw|].
  destruct (idle_crosses f e2 F2) as [Hr Hw2]. by exists e2.
Qed.

(** Idle calls at the end change nothing. *)
Lemma served_extend (s : state W) o1 s1 o s' :
  served s o1 s1 -> emitted idle s1 s' -> (o = Done (Ok tt) -> o1 = Done (Ok tt)) -> served s o s'.
Proof.
  intros Hs Hi Ho. pose proof (emitted_mono _ _ _ _ idle_unsigned Hi) as Hu.
  pose proof (emitted_mono _ _ _ _ idle_silent Hi) as Hq.
  destruct Hs.
  - apply served_unheard; [by etransitivity|tauto].
  - eapply served_unasked; [done|by etransitivity|tauto].
  - eapply served_unanswered; [done..|by etransitivity|tauto].
  - eapply served_signed; [done..|by etransitivity|tauto].
  - eapply served_sent; [done..|by eapply sends_idle|]. intros ->. eapply only_wrote_idle; [|done]. by auto.
Qed.

(** ** The handler follows it *)

Lemma idle_check l : emits idle (check l).
Proof. exact (quiet_check idle (fun _ x => x) l). Qed.

Lemma prim_idle {E A} (g : W -> A * W) ev (s s' : state W) o :
  (forall a, idle (ev a)) -> prim (E := E) g ev s = (o, s') -> emitted idle s s'.
Proof. intros He HR. exact (emits_run _ _ _ _ _ (emits_prim _ _ _ He) HR). Qed.

Lemma prim_bind_run {E A B} (g : W -> A * W) ev (k : A -> M W E B) (s s' : state W) o :
  bind (prim g ev) k s = (o, s') -> exists a s1, made s s1 [ev a] /\ k a s1 = (o, s').
Proof. unfold bind, prim. destruct (g (world s)) as [a w]. intros HR. exists a, (St w (log s ++ [ev a])). by split. Qed.

Lemma lift_bind_run {E A B} (r : result A E) (k : A -> M W E B) (s s' : state W) o :
  bind (lift r) k s = (o, s') ->
  (exists a, r = Ok a /\ k a s = (o, s')) \/ exists e, r = Err e /\ o = Done (Err e) /\ s' = s.
Proof. unfold bind, lift. destruct r as [a|e]; [left; by exists a|]. intros [= <- <-]. right. by exists e. Qed.

Lemma check_bind_run {B} l (k : unit -> M W AgentError B) (s s' : state W) o :
  bind (check l) k s = (o, s') ->
  (exists s1, emitted idle s s1 /\ k tt s1 = (o, s')) \/ emitted idle s s' /\ forall b, o <> Done (Ok b).
Proof.
  intros [([] & s1 & Hk & HR)|[(e & Hk & ->)|[[Hk ->]|[Hk ->]]]]%bind_run;
    apply (emits_run _ _ _ _ _ (idle_check l)) in Hk; eauto.
Qed.

Lemma idle_sends b (s1 s2 s3 : state W) : emitted idle s1 s2 -> sends f b s2 s3 -> sends f b s1 s3.
Proof.
  intros (e1 & M1 & F1) Hs. change b with ([] ++ b). eapply sends_app; [| |exact Hs].
  - destruct (idle_crosses f e1 F1) as [Hr Hw]. by exists e1.
  - exists e1. split; [done|]. eapply Forall_impl; [exact F1|].
    intros e He. by destruct e; try exact He; destruct He as [[[]]].
Qed.

(** The answer is signed and sent. *)
Lemma send_served fuel l wire request d now n message (s s1 s2 s3 s4 : state W) o s' :
  considered wire request s s1 -> emitted idle s1 s2 -> judged (MacRequest.body request) d s2 s3 ->
  emitted idle s3 s4 -> answers (MacRequest.body request) d now n -> MacResponse.canonicalBytes n = Ok message ->
  bind (signature_for (agentPrivateKey runtime) message) (fun signature => bind (check l) (fun _ =>
    writeJSONFrame fuel (MacResponse.mk_signed n signature) f (lt_deadline l))) s4 = (o, s') ->
  served s o s'.
Proof.
  intros Hc Hi Hj Hi4 Hans Hm HR.
  assert (forall sg o s6 s7, signs message sg s4 s6 -> emitted idle s6 s7 ->
    o <> Done (Ok tt) -> served s o s7) as Hsigned by (intros; by eapply served_signed).
  assert (exists sg s6, signs message sg s4 s6 /\
    bind (lift (ok_or sg coding)) (fun signature => bind (check l) (fun _ =>
      writeJSONFrame fuel (MacResponse.mk_signed n signature) f (lt_deadline l))) s6 = (o, s'))
    as (sg & s6 & M6 & HR6).
  { revert HR. unfold signature_for, bind at 1, bind at 1, prim.
    destruct (k_signature _ _ _) as [sg w] eqn:Hk. intros HR.
    exists sg, (St w (log s4 ++ [EvMac (EvSigned message sg)])). split; [by split|]. destruct sg; exact HR. }
  apply lift_bind_run in HR6 as [(sig & Hsg & HR6)|(e & _ & -> & ->)]; [|by eapply Hsigned].
  destruct sg as [sig'|]; [|done]. injection Hsg as ->.
  apply check_bind_run in HR6 as [(s7 & I7 & HR6)|[I7 Ho]]; [|by eapply Hsigned].
  unfold writeJSONFrame in HR6. apply lift_bind_run in HR6 as [(text & Ht & HR6)|(e & _ & -> & ->)]; [|by eapply Hsigned].
  destruct (encode_signed_response _) as [text'|] eqn:Henc; [|done]. injection Ht as ->.
  destruct (N.ltb_spec maxFrameLength (N.of_nat (length text))).
  { injection HR6 as <- <-. by eapply Hsigned. }
  apply write_loop_sends in HR6 as [Hs Hw]. eapply served_sent; [done..|by eapply idle_sends|].
  intros Ho. destruct I7 as (e7 & M7 & F7). destruct (idle_crosses f e7 F7) as [Hr7 Hw7].
  change (frame text) with ([] ++ frame text). eapply only_wrote_app; [by exists e7|by apply Hw].
Qed.

(** From the answer of the user on. *)
Lemma respond_served fuel wire request l d (s s1 s2 s3 : state W) o s' :
  considered wire request s s1 -> emitted idle s1 s2 -> judged (MacRequest.body request) d s2 s3 ->
  respond fuel f runtime (MacRequest.body request) l {| decision := d |} s3 = (o, s') -> served s o s'.
Proof.
  intros Hc Hi Hj HR.
  assert (forall o s4, emitted idle s3 s4 -> o <> Done (Ok tt) -> served s o s4) as Hearly.
  { intros o0 s4 He Ho. destruct Hj as [[_ Hj]|(s5 & Ha & Hu & _)].
    - eapply served_unasked; [done| |done]. etransitivity; [exact Hi|]. by etransitivity.
    - eapply served_unanswered; [done..| |done]. etransitivity; [exact Hu|]. exact (emitted_mono _ _ _ _ idle_unsigned He). }
  unfold respond in HR. apply check_bind_run in HR as [(s4 & I4 & HR)|[I4 Ho]]; [|by apply Hearly].
  apply prim_bind_run in HR as (now & s5 & M5 & HR).
  assert (emitted idle s3 s5) as I5.
  { etransitivity; [exact I4|]. exists [EvMac (EvWall now)]. split; [done|]. by repeat constructor. }
  apply lift_bind_run in HR as [(n & Hn & HR)|(e & _ & -> & ->)]; [|by apply Hearly].
  apply lift_bind_run in HR as [(message & Hm & HR)|(e & _ & -> & ->)]; [|by apply Hearly].
  apply forRequest_ok in Hn as (Hb & Hd & Hmeth & Hcr & Hkey & Hexp & Hten & _).
  eapply send_served; [exact Hc|exact Hi|exact Hj|exact I5| |exact Hm|exact HR].
  exact (conj Hb (conj Hd (conj Hmeth (conj Hcr (conj Hkey (conj Hexp Hten)))))).
Qed.

Lemma limiter_run m (s s' : state W) o :
  limiter_allow (E := AgentError) (rateLimiter runtime) m s = (o, s') ->
  emitted idle s s' /\ exists b, o = Done (Ok b) /\ (b = true -> admitted m s s').
Proof.
  intros HR. split; [exact (emits_run _ _ _ _ _ (quiet_limiter idle (fun _ x => x) _ _) HR)|].
  unfold limiter_allow in HR. destruct (Z.leb_spec (RateLimiter.maxRequests (rateLimiter runtime)) 0).
  { injection HR as <- <-. exists true. split; [done|]. by left. }
  apply prim_bind_run in HR as (now & s1 & M1 & HR). apply prim_bind_run in HR as (h & s2 & M2 & HR).
  destruct (RateLimiter.allow _ _ _ _) as [allowed h']. apply prim_bind_run in HR as ([] & s3 & M3 & [= <- <-]).
  exists allowed. split; [done|]. intros ->. right. exists now.
  exact (made_app _ _ _ [_] [_; _] M1 (made_app _ _ _ [_] [_] M2 M3)).
Qed.

(** What precedes the answer. *)
Lemma judge_run fuel m l o (s s' : state W) :
  lifetime_of m l -> judge fuel runtime m l s = (o, s') ->
  match o with
  | Done (Ok r) => judged m (decision r) s s'
  | _ => emitted idle s s' \/ exists s1, admitted m s s1 /\ emitted unsigned s1 s'
  end.
Proof.
  intros Hl HR. unfold judge in HR.
  apply bind_run in HR as [(allowed & s1 & HA & HR)|[(e & HA & ->)|[[HA ->]|[HA ->]]]];
    apply limiter_run in HA as (Hi & b & Hb & Ha); [|by left..]. injection Hb as <-. destruct allowed.
  - pose proof (emits_run _ _ _ _ _ (unsigned_evaluate _ _ _ _) HR) as Hu. specialize (Ha eq_refl).
    destruct o as [[[d]|e]| |]; try (right; by exists s1). right. exists s1. split_and!; [done..|].
    cbn. intros ->. by eapply evaluate_approved.
  - injection HR as <- <-. by left.
Qed.

Lemma deferred_run {E A} (final : W -> unit * W) ev (m : M W E A) (s s' : state W) o :
  deferred (prim final ev) m s = (o, s') -> idle (ev tt) -> exists s1, m s = (o, s1) /\ emitted idle s1 s'.
Proof.
  unfold deferred, bind, attempt, prim, lift. intros HR Hi. destruct (m s) as [[r| |] s1]; cbn in HR.
  - destruct (final (world s1)) as [[] w]. injection HR as <- <-. exists s1. split; [done|].
    exists [ev tt]. split; [done|]. by constructor.
  - injection HR as <- <-. exists s1. by split; [|reflexivity].
  - injection HR as <- <-. exists s1. by split; [|reflexivity].
Qed.

Lemma lifetime_run {E} t d (s s' : state W) o :
  RequestLifetime_init (E := E) f t d s = (o, s') ->
  emitted idle s s' /\ exists l, o = Done (Ok l) /\ lt_expiresAtMs l = t.
Proof.
  intros HR. split; [exact (emits_run _ _ _ _ _ (quiet_lifetime idle (fun _ x => x) _ _ _) HR)|].
  unfold RequestLifetime_init in HR. apply prim_bind_run in HR as (c & s1 & _ & HR).
  apply prim_bind_run in HR as (now & s2 & _ & HR). revert HR. unfold capped, deadline_in, uptimeNanoseconds, bind, prim.
  destruct (k_uptime _) as [u w]. intros [= <- <-]. by eexists.
Qed.

(** A request that passes the checks, or an error by which nothing was done. *)
Lemma verify_run request key skew (s s' : state W) o :
  verifyRequest request key skew s = (o, s') ->
  emitted idle s s' /\
  (o = Done (Ok tt) -> exists b now, MacRequest.canonicalBytes (MacRequest.body request) = Ok b /\
     isValidSignature key (MacRequest.signature request) b = true /\ made s s' [EvMac (EvWall now)] /\
     MacRequest.verifyFreshness (MacRequest.body request) now skew = Ok tt).
Proof.
  unfold verifyRequest. intros HR.
  apply lift_bind_run in HR as [(b & Hb & HR)|(e & _ & -> & ->)]; [|by split].
  destruct (isValidSignature _ _ _) eqn:Hv; cbn [negb] in HR; [|by injection HR as <- <-].
  apply prim_bind_run in HR as (now & s1 & M1 & [= <- <-]). split.
  - exists [EvMac (EvWall now)]. split; [done|]. by repeat constructor.
  - intros [= Hf]. by exists b, now.
Qed.

Lemma handler_served fuel d (s s' : state W) o :
  handleServeRequest fuel f runtime d s = (o, s') -> served s o s'.
Proof.
  unfold handleServeRequest. intros HR.
  assert (emits idle (capped (W := W) (E := AgentError) d 2000)) as Hcap
    by exact (quiet_capped idle (fun _ x => x) d 2000).
  apply bind_run in HR as [(fd & s1 & HC & HR)|[(e & HC & ->)|[[HC ->]|[HC ->]]]];
    apply (emits_run _ _ _ _ _ Hcap) in HC;
    try (apply served_unheard; [exact (emitted_mono _ _ _ _ idle_silent HC)|done]).
  assert (emits silent (readJSONFrame fuel f fd)) as Hread
    by (apply quiet_readJSONFrame; [apply idle_silent|done]).
  apply bind_run in HR as [(request & s2 & HD & HR)|[(e & HD & ->)|[[HD ->]|[HD ->]]]];
    pose proof (emits_run _ _ _ _ _ Hread HD) as Q2;
    try (apply served_unheard; [etransitivity; [exact (emitted_mono _ _ _ _ idle_silent HC)|exact Q2]|done]).
  apply readJSONFrame_ok in HD as (wire & Hdec & Hlen & Hread2).
  pose proof (only_read_app _ [] _ _ _ _ (idle_only_read f _ _ HC) Hread2) as R2.
  assert (emitted silent s s2) as S2 by (etransitivity; [exact (emitted_mono _ _ _ _ idle_silent HC)|exact Q2]).
  destruct (verifier_for runtime _) as [v|] eqn:Hver;
    [|injection HR as <- <-; by apply served_unheard].
  apply bind_run in HR as [([] & s3 & HV & HR)|[(e & HV & ->)|[[HV ->]|[HV ->]]]];
    apply verify_run in HV as [I3 Hok];
    try (apply served_unheard; [etransitivity; [exact S2|exact (emitted_mono _ _ _ _ idle_silent I3)]|done]).
  destruct (Hok eq_refl) as (b & now & Hb & Hsig & M3 & Hfresh).
  assert (considered wire request s s3) as Hc by (exists v, b, now, s2; by split_and!).
  clear -Hc HR SessionLaws0.
  apply bind_run in HR as [(l & s4 & HL & HR)|[(e & HL & ->)|[[HL ->]|[HL ->]]]];
    apply lifetime_run in HL as (I4 & l' & E4 & Ht); try done. injection E4 as <-.
  apply deferred_run in HR as (s5 & HR & I5); [|done].
  apply (served_extend s o s5); [clear I5|exact I5|done].
  apply check_bind_run in HR as [(s6 & I6 & HR)|[I6 Ho]].
  2: { eapply served_unasked; [exact Hc| |exact (Ho tt)]. by etransitivity. }
  assert (emitted idle s3 s6) as I36 by (by etransitivity).
  apply bind_run in HR as [([d'] & s7 & HJ & HR)|[(e & HJ & ->)|[[HJ ->]|[HJ ->]]]]; apply judge_run in HJ; try done.
  { by eapply respond_served. }
  all: destruct HJ as [HJ|(s8 & Ha & Hu)];
    [eapply served_unasked; [exact Hc|by etransitivity|done]|by eapply served_unanswered].
Qed.
End Served.

