(* ===== verification/MacReturns.v ===== *)
(** * The agent on the Mac ends every connection ([MacAgent])

    Every round of every loop of the handler looks at the deadline of the
    connection.  The class [UptimeProgress] says what the uptime promises: it
    passes any deadline after finitely many readings.  Under it the handler
    returns, with any fuel above the number of readings that are left. *)

From Stdlib Require Import NArith ZArith Lia List Bool.
From Stdlib Require Import Strings.Byte Strings.String.
From stdpp Require Import base decidable list option strings gmap.
From S2P Require Import Prelude RustStd Crypto Protocol Sys Io CacheSpec.
From S2P Require Import MacProtocol RateLimiter MacAgent.

Open Scope N_scope.

(** [readings w]: how often the uptime can still be read before the deadline
    [d].  No other call makes that more, and [recv] gives no more than it was
    asked for. *)
Class UptimeProgress (W : Type) `{Kernel W} `{MacKernel W} `{CryptoKit W} (d : N) := {
  readings : W -> nat;
  readings_uptime w : (readings (k_uptime w).2 <= readings w)%nat /\
    (d <= (k_uptime w).1 \/ (readings (k_uptime w).2 < readings w)%nat);
  readings_poll f e t w : (readings (k_poll f e t w).2 <= readings w)%nat;
  readings_read f n w : (readings (k_read f n w).2 <= readings w)%nat;
  recv_bounded f n w b : (k_read f n w).1 = Ok b -> (length b <= n)%nat;
  readings_write f b w : (readings (k_write f b w).2 <= readings w)%nat;
  readings_wall w : (readings (k_wall w).2 <= readings w)%nat;
  readings_peek f w : (readings (k_peek f w).2 <= readings w)%nat;
  readings_flag w : (readings (k_flag w).2 <= readings w)%nat;
  readings_cancelled i w : (readings (k_cancelled i w).2 <= readings w)%nat;
  readings_set_cancelled i w : (readings (k_set_cancelled i w).2 <= readings w)%nat;
  readings_slot w : (readings (k_slot w).2 <= readings w)%nat;
  readings_slot_signal w : (readings (k_slot_signal w).2 <= readings w)%nat;
  readings_session w : (readings (k_session w).2 <= readings w)%nat;
  readings_start i b w : (readings (k_start i b w).2 <= readings w)%nat;
  readings_result i w : (readings (k_result i w).2 <= readings w)%nat;
  readings_ready i w : (readings (k_ready i w).2 <= readings w)%nat;
  readings_invalidate i w : (readings (k_invalidate i w).2 <= readings w)%nat;
  readings_history w : (readings (k_history w).2 <= readings w)%nat;
  readings_set_history h w : (readings (k_set_history h w).2 <= readings w)%nat;
  readings_signature k m w : (readings (k_signature k m w).2 <= readings w)%nat;
}.

Create HintDb readings discriminated.
#[export] Hint Resolve readings_poll readings_read readings_write readings_wall readings_peek readings_flag
  readings_cancelled readings_set_cancelled readings_slot readings_slot_signal readings_session readings_start
  readings_result readings_ready readings_invalidate readings_history readings_set_history
  readings_signature : readings.

Section Returns.
Context `{Kernel W} `{MacKernel W} `{CryptoKit W} `{JSONCoder} `{SwiftText} `{Crypto} (d : N).
Context `{!UptimeProgress W d} (fuel : nat).

#[local] Abbreviation rank s := (readings (world s)).

(** With fuel for the readings that are left, [m] ends in a result and leaves
    no more of them; [Q] holds of a result that is not an error. *)
Definition returns {E A} (m : M W E A) (Q : nat -> nat -> A -> Prop) : Prop :=
  forall s, (rank s < fuel)%nat -> exists r s', m s = (Done r, s') /\ (rank s' <= rank s)%nat /\
    match r with Ok a => Q (rank s) (rank s') a | Err _ => True end.

Definition always {A} : nat -> nat -> A -> Prop := fun _ _ _ => True.
(** Time has passed. *)
Definition progress {A} : nat -> nat -> A -> Prop := fun before after _ => (after < before)%nat.

Lemma returns_lift {E A} (r : result A E) (Q : nat -> nat -> A -> Prop) :
  (forall a n, r = Ok a -> Q n n a) -> returns (lift r) Q.
Proof. intros HQ s _. exists r, s. split_and!; [done|done|]. destruct r; auto. Qed.

Lemma mac_returns_ret {E A} (a : A) (Q : nat -> nat -> A -> Prop) : (forall n, Q n n a) -> returns (ret (E := E) a) Q.
Proof. intros HQ. apply returns_lift. by intros ? n [= <-]. Qed.

Lemma returns_throw {E A} (e : E) (Q : nat -> nat -> A -> Prop) : returns (throw (A := A) e) Q.
Proof. by apply returns_lift. Qed.

Lemma mac_returns_mono {E A} (m : M W E A) (P Q : nat -> nat -> A -> Prop) :
  returns m P -> (forall n k a, P n k a -> Q n k a) -> returns m Q.
Proof.
  intros Hm HPQ s Hs. destruct (Hm s Hs) as (r & s' & HR & Hle & HP). exists r, s'. split_and!; [done..|].
  destruct r; auto.
Qed.

Lemma mac_returns_bind {E A B} (m : M W E A) (k : A -> M W E B) (P : nat -> nat -> A -> Prop)
  (Q : nat -> nat -> B -> Prop) :
  returns m P -> (forall a, returns (k a) (fun n2 n3 b => forall n1, (n2 <= n1)%nat -> P n1 n2 a -> Q n1 n3 b)) ->
  returns (bind m k) Q.
Proof.
  intros Hm Hk s Hs. destruct (Hm s Hs) as (r & s1 & HR & Hle & HP). unfold bind. rewrite HR.
  destruct r as [a|e]; [|by exists (Err e), s1].
  destruct (Hk a s1 ltac:(lia)) as (r & s2 & HR2 & Hle2 & HQ). exists r, s2. split_and!; [done|lia|].
  destruct r; [by apply HQ|done].
Qed.

(** A sequence of which nothing but the end is asked. *)
Lemma returns_then {E A B} (m : M W E A) (k : A -> M W E B) :
  returns m always -> (forall a, returns (k a) always) -> returns (bind m k) always.
Proof. intros Hm Hk. eapply mac_returns_bind; [exact Hm|]. intros a. eapply mac_returns_mono; [apply Hk|done]. Qed.

(** What the first step returns is known to the second. *)
Lemma returns_given {E A B} (m : M W E A) (k : A -> M W E B) (R : A -> Prop) :
  returns m (fun _ _ a => R a) -> (forall a, R a -> returns (k a) always) -> returns (bind m k) always.
Proof.
  intros Hm Hk s Hs. destruct (Hm s Hs) as (r & s1 & HR & Hle & HP). unfold bind. rewrite HR.
  destruct r as [a|e]; [|by exists (Err e), s1].
  destruct (Hk a HP s1 ltac:(lia)) as (r & s2 & HR2 & Hle2 & _). exists r, s2. split_and!; [done|lia|by destruct r].
Qed.

(** If the first step takes time, so does the sequence; so if the second does. *)
Lemma returns_then_progress {E A B} (m : M W E A) (k : A -> M W E B) (Q : nat -> nat -> B -> Prop) :
  returns m progress -> (forall a, returns (k a) always) -> (forall n k b, (k < n)%nat -> Q n k b) ->
  returns (bind m k) Q.
Proof.
  intros Hm Hk HQ s Hs. destruct (Hm s Hs) as (r & s1 & HR & Hle & HP). unfold bind. rewrite HR.
  destruct r as [a|e]; [|by exists (Err e), s1]. unfold progress in HP.
  destruct (Hk a s1 ltac:(lia)) as (r & s2 & HR2 & Hle2 & _). exists r, s2. split_and!; [done|lia|].
  destruct r; [|done]. apply HQ. lia.
Qed.

Lemma returns_attempt {E F A} (m : M W E A) (Q : nat -> nat -> A -> Prop) : returns m Q ->
  returns (attempt (F := F) m) (fun n k r => match r with Ok a => Q n k a | Err _ => True end).
Proof.
  intros Hm s Hs. destruct (Hm s Hs) as (r & s' & HR & Hle & HQ). exists (Ok r), s'. unfold attempt. by rewrite HR.
Qed.

Lemma mac_returns_prim {E A} (f : W -> A * W) ev :
  (forall w, (readings (f w).2 <= readings w)%nat) -> returns (prim (E := E) f ev) always.
Proof.
  intros Hf s _. unfold prim. specialize (Hf (world s)). destruct (f (world s)) as [a w].
  by exists (Ok a), (St w (log s ++ [ev a])).
Qed.

Lemma returns_deferred {E A} (final : M W E unit) (m : M W E A) :
  returns m always -> returns final always -> returns (deferred final m) always.
Proof.
  intros Hm Hf. unfold deferred. apply returns_then; [by eapply mac_returns_mono; [apply returns_attempt|]|]. intros r.
  apply returns_then; [done|]. intros []. by apply returns_lift.
Qed.

(** A loop whose rounds, if they go on, take time. *)
Lemma mac_returns_loop {E S A} (body : S -> M W E (S + A)) (Q : nat -> nat -> A -> Prop) :
  (forall n1 n2 k a, (n2 <= n1)%nat -> Q n2 k a -> Q n1 k a) ->
  (forall st, returns (body st) (fun n k x => match x with inl _ => (k < n)%nat | inr a => Q n k a end)) ->
  forall st, returns (loop fuel body st) Q.
Proof.
  intros HQ Hb st s Hs. enough (forall f st s, (rank s < f)%nat -> (rank s < fuel)%nat ->
    exists r s', loop f body st s = (Done r, s') /\ (rank s' <= rank s)%nat /\
      match r with Ok a => Q (rank s) (rank s') a | Err _ => True end) as HL by by apply HL.
  clear st s Hs. induction f as [|f IH]; intros st s Hf Hs; [lia|]. cbn. unfold bind.
  destruct (Hb st s Hs) as (r & s1 & HR & Hle & Hq). rewrite HR.
  destruct r as [[st'|a]|e]; [|by exists (Ok a), s1|by exists (Err e), s1].
  destruct (IH st' s1 ltac:(lia) ltac:(lia)) as (r & s2 & HR2 & Hle2 & Hq2). exists r, s2. split_and!; [done|lia|].
  destruct r; [|done]. eapply HQ; [|done]. lia.
Qed.

Lemma progress_later {A} n1 n2 k (a : A) : (n2 <= n1)%nat -> progress n2 k a -> progress n1 k a.
Proof. unfold progress. lia. Qed.

(** ** The deadline *)

Lemma returns_uptime {E} :
  returns (uptimeNanoseconds (E := E)) (fun n k now => d <= now \/ (k < n)%nat).
Proof.
  intros s _. unfold uptimeNanoseconds, prim. destruct (readings_uptime (world s)) as [Hle Hp].
  destruct (k_uptime (world s)) as [now w]. by exists (Ok now), (St w (log s ++ [EvMac (EvUptime now)])).
Qed.

Lemma returns_uptime_always {E} : returns (uptimeNanoseconds (E := E)) always.
Proof. by eapply mac_returns_mono; [apply returns_uptime|]. Qed.

Lemma returns_remaining {E} dl : returns (remainingMilliseconds (E := E) dl) always.
Proof.
  unfold remainingMilliseconds. apply returns_then; [apply returns_uptime_always|]. intros. by apply mac_returns_ret.
Qed.

(** A deadline that has not passed took a reading from what is left. *)
Lemma returns_check_deadline dl : dl <= d -> returns (check_deadline dl) progress.
Proof.
  intros Hd. unfold check_deadline, remainingMilliseconds.
  eapply mac_returns_bind with (P := fun n k r => r = 0 \/ (k < n)%nat).
  - eapply mac_returns_bind; [apply returns_uptime|]. intros now. apply mac_returns_ret. intros n n1 Hn Hp.
    destruct (N.ltb_spec now dl); [right; destruct Hp; lia|by left].
  - intros r. destruct (N.ltb_spec 0 r); [|apply returns_throw]. apply mac_returns_ret.
    intros n n1 Hn [->|Hp]; [done|exact Hp].
Qed.

Lemma returns_capped {E} dl ms : dl <= d ->
  returns (capped (E := E) dl ms) (fun _ _ dl' => dl' <= d).
Proof.
  intros Hd. unfold capped, deadline_in.
  eapply mac_returns_bind with (P := always).
  - apply returns_then; [apply returns_uptime_always|]. intros. by apply mac_returns_ret.
  - intros a. apply mac_returns_ret. intros. lia.
Qed.

(** ** The socket *)

Lemma returns_wait f ev dl : dl <= d -> returns (waitForSocket fuel f ev dl) progress.
Proof.
  intros Hd. unfold waitForSocket. apply mac_returns_loop; [intros; by eapply progress_later|]. intros [].
  unfold wait_round. apply returns_then_progress; [by apply returns_check_deadline| |by intros ? ? []].
  intros []. apply returns_then; [apply returns_remaining|]. intros t. apply returns_then.
  { apply mac_returns_prim. auto with readings. }
  intros r. destruct (_ && _); [by apply mac_returns_ret|]. destruct (_ <? _)%Z; [apply returns_throw|].
  destruct (_ =? _)%Z; [apply returns_throw|]. apply returns_then.
  { eapply mac_returns_mono; [by apply returns_check_deadline|done]. }
  intros []. destruct (negb _); [apply returns_throw|by apply mac_returns_ret].
Qed.

Lemma returns_readExactly count f dl : dl <= d -> returns (readExactly fuel count f dl) always.
Proof.
  intros Hd. unfold readExactly. apply mac_returns_loop; [done|]. intros data. unfold read_round.
  case_decide; [|by apply mac_returns_ret]. apply returns_then_progress; [by apply returns_wait| |by intros ? ? []].
  intros [] s Hs. unfold bind, prim. pose proof (readings_read f (count - length data) (world s)) as Hle.
  pose proof (recv_bounded f (count - length data) (world s)) as Hb.
  destruct (k_read f (count - length data) (world s)) as [r w]. cbn in *.
  destruct r as [[|x xs]|e]; [by eexists (Err _), _| |].
  - rewrite decide_True by by apply Hb. by eexists (Ok _), _.
  - destruct (retries e); [by eexists (Ok _), _|by eexists (Err _), _].
Qed.

Lemma returns_readJSONFrame f dl : dl <= d -> returns (readJSONFrame fuel f dl) always.
Proof.
  intros Hd. unfold readJSONFrame. apply returns_then; [by apply returns_readExactly|]. intros len.
  destruct (_ <? _); [apply returns_throw|]. apply returns_then; [by apply returns_readExactly|]. intros body.
  by apply returns_lift.
Qed.

Lemma returns_writeJSONFrame v f dl : dl <= d -> returns (writeJSONFrame fuel v f dl) always.
Proof.
  intros Hd. unfold writeJSONFrame. apply returns_then; [by apply returns_lift|]. intros body.
  destruct (_ <? _); [apply returns_throw|]. apply mac_returns_loop; [done|]. intros data. unfold write_round.
  case_decide; [by apply mac_returns_ret|]. apply returns_then_progress; [by apply returns_wait| |by intros ? ? []].
  intros []. apply returns_then; [apply mac_returns_prim; auto with readings|]. intros [[|n]|e].
  - apply returns_throw.
  - by apply mac_returns_ret.
  - destruct (retries e); [by apply mac_returns_ret|apply returns_throw].
Qed.

(** ** The request and the user *)

Lemma returns_check l : lt_deadline l <= d -> returns (check l) progress.
Proof.
  intros Hd. unfold check. eapply mac_returns_bind with (P := always); [apply mac_returns_prim; auto with readings|].
  intros cancelled. destruct cancelled; [apply returns_throw|].
  eapply mac_returns_bind with (P := fun n k r => match r with Ok _ => (k < n)%nat | Err _ => True end).
  - apply (returns_attempt _ progress). unfold still_wanted.
    apply returns_then_progress; [by apply returns_check_deadline| |done].
    intros []. apply returns_then; [apply mac_returns_prim; auto with readings|]. intros now.
    destruct (_ <=? now); [apply returns_throw|]. apply returns_then; [apply mac_returns_prim; auto with readings|].
    intros [b|e]; [apply returns_throw|]. destruct (retries e); [by apply mac_returns_ret|apply returns_throw].
  - intros [[]|e].
    + apply mac_returns_ret. unfold progress. intros. lia.
    + eapply mac_returns_bind with (P := always); [apply mac_returns_prim; auto with readings|]. intros. apply returns_throw.
Qed.

Lemma returns_check_always l : lt_deadline l <= d -> returns (check l) always.
Proof. intros. by eapply mac_returns_mono; [apply returns_check|]. Qed.

Lemma returns_evaluate m confirm l : lt_deadline l <= d -> returns (evaluate fuel m confirm l) always.
Proof.
  intros Hd. unfold evaluate. apply returns_then.
  { apply mac_returns_loop; [done|]. intros []. unfold slot_round.
    eapply mac_returns_bind with (P := always); [apply mac_returns_prim; auto with readings|].
    intros [|]; [by apply mac_returns_ret|]. apply returns_then_progress; [by apply returns_check| |].
    - intros []. by apply mac_returns_ret.
    - intros n k [[]|[]] Hk; intros; [lia|done]. }
  intros []. apply returns_deferred; [|apply mac_returns_prim; auto with readings].
  apply returns_then; [by apply returns_check_always|]. intros [].
  apply returns_then; [apply mac_returns_prim; auto with readings|]. intros i.
  apply returns_deferred; [|apply mac_returns_prim; auto with readings].
  apply returns_then; [apply mac_returns_prim; auto with readings|]. intros [].
  apply returns_then; [|intros r; apply returns_then; [by apply returns_check_always|intros []; by apply mac_returns_ret]].
  apply mac_returns_loop; [done|]. intros []. unfold result_round.
  eapply mac_returns_bind with (P := always); [apply mac_returns_prim; auto with readings|].
  intros [r|]; [by apply mac_returns_ret|]. apply returns_then_progress; [by apply returns_check| |].
  - intros []. apply returns_then; [apply mac_returns_prim; auto with readings|]. intros []. by apply mac_returns_ret.
  - intros n k [[]|r] Hk; intros; [lia|done].
Qed.

Lemma returns_limiter l m : returns (limiter_allow (E := AgentError) l m) always.
Proof.
  unfold limiter_allow. destruct (_ <=? 0)%Z; [by apply mac_returns_ret|].
  apply returns_then; [apply mac_returns_prim; auto with readings|]. intros now.
  apply returns_then; [apply mac_returns_prim; auto with readings|]. intros h.
  destruct (RateLimiter.allow _ _ _ _) as [b h']. apply returns_then; [apply mac_returns_prim; auto with readings|].
  intros []. by apply mac_returns_ret.
Qed.

Lemma returns_lifetime f t dl : dl <= d ->
  returns (RequestLifetime_init (E := AgentError) f t dl) (fun _ _ l => lt_deadline l <= d).
Proof.
  intros Hd. unfold RequestLifetime_init.
  eapply mac_returns_bind with (P := always); [apply mac_returns_prim; auto with readings|]. intros c.
  eapply mac_returns_bind with (P := always); [apply mac_returns_prim; auto with readings|]. intros now.
  eapply mac_returns_bind; [by apply returns_capped|]. intros dl'. by apply mac_returns_ret.
Qed.

Lemma returns_respond f rt m l r : lt_deadline l <= d -> returns (respond fuel f rt m l r) always.
Proof.
  intros Hd. unfold respond, signature_for.
  apply returns_then; [by apply returns_check_always|]. intros [].
  apply returns_then; [apply mac_returns_prim; auto with readings|]. intros now.
  apply returns_then; [by apply returns_lift|]. intros n.
  apply returns_then; [by apply returns_lift|]. intros message.
  apply returns_then.
  { apply returns_then; [apply mac_returns_prim; auto with readings|]. intros sg. by apply returns_lift. }
  intros sg. apply returns_then; [by apply returns_check_always|]. intros []. by apply returns_writeJSONFrame.
Qed.

Lemma returns_verify q key skew : returns (verifyRequest q key skew) always.
Proof.
  unfold verifyRequest. apply returns_then; [by apply returns_lift|]. intros b.
  destruct (negb _); [apply returns_throw|]. apply returns_then; [apply mac_returns_prim; auto with readings|].
  intros now. by apply returns_lift.
Qed.

Lemma returns_handler f rt dl : dl <= d -> returns (handleServeRequest fuel f rt dl) always.
Proof.
  intros Hd. unfold handleServeRequest. eapply returns_given; [by apply returns_capped|]. intros fd Hfd.
  apply returns_then; [by apply returns_readJSONFrame|]. intros q.
  destruct (verifier_for _ _) as [v|]; [|apply returns_throw].
  apply returns_then; [apply returns_verify|]. intros [].
  eapply returns_given; [by apply returns_lifetime|]. intros l Hl.
  apply returns_deferred; [|apply mac_returns_prim; auto with readings].
  apply returns_then; [by apply returns_check_always|]. intros []. apply returns_then.
  - unfold judge. apply returns_then; [apply returns_limiter|]. intros [|]; [by apply returns_evaluate|by apply mac_returns_ret].
  - intros r. by apply returns_respond.
Qed.
End Returns.

(** C30: no connection keeps the agent on the Mac busy for ever: with the
    uptime passing the deadline of the connection after finitely many
    readings, the handler returns, with any fuel above that number, whatever
    the peer, the user and the other threads do: a request that nobody
    answers, a screen that another request holds and a peer that stalls all
    end in an error. *)
Theorem mac_handler_returns `{Kernel W} `{MacKernel W} `{CryptoKit W} `{JSONCoder} `{SwiftText} `{Crypto}
  (d : Deadline) `{!UptimeProgress W d} (fuel : nat) (f : fd) (runtime : AgentRuntime (W := W)) (s : state W) :
  (readings (world s) < fuel)%nat ->
  exists r s', handleServeRequest fuel f runtime d s = (Done r, s').
Proof.
  intros Hs. destruct (returns_handler d fuel f runtime d ltac:(done) s Hs) as (r & s' & HR & _).
  by exists r, s'.
Qed.
