(* ===== verification/Agreement.v ===== *)
(** * The host and the Mac agree ([Authentication] with [MacAgentProps])

    The helper accepts what verifies under the pinned key; the agent signs one
    answer for one request that it has checked.  These theorems put the two
    together: the answer of the agent is one that the helper takes, and a
    success of [sudo], if the agent signed what the helper accepted, means
    that the user was recognised on the Mac for the very request that this
    [sudo] made, or that two requests with one SHA-256 hash are known. *)

From Stdlib Require Import NArith ZArith Lia List Bool.
From Stdlib Require Import Strings.Byte Strings.String.
From stdpp Require Import base decidable list option strings gmap.
From S2P Require Import Prelude RustStd Crypto Protocol Canonical ProtocolProps Sys Io Frame CacheSpec.
From S2P Require Import Trust Common Keys Config Replay Request Verdict RequestProps RequestTypes FakeAgent Main.
From S2P Require Import Pam PamProps Cli Authentication MacProtocol RateLimiter MacAgent MacAgentProps.

Open Scope N_scope.

(** Both decoders refuse a number that does not fit the type of its field. *)
Class DecodersTyped `{JSONCoder} `{SerdeJson SignedAuthResponse.t} : Prop := {
  request_typed b m : decode_signed_request b = Some m -> AuthRequestBody.wf (as_request (MacRequest.body m));
  response_typed b r : from_slice b = Ok r -> AuthResponseBody.wf (SignedAuthResponse.body r);
}.

(** A signature that CryptoKit makes is one of Ed25519: it verifies under the
    public half of the key. *)
Class CryptoKitLaws (W : Type) `{CryptoKit W} `{Crypto} := {
  rawRepresentation : PrivateKey -> bytes;
  signature_holds_for key message w signature :
    (k_signature key message w).1 = Some signature ->
    signature_holds (rawRepresentation key) message signature;
}.

(** Two requests with different canonical bytes and one hash. *)
Definition collision `{Crypto} (q1 q2 : AuthRequestBody.t) : Prop :=
  exists m1 m2, AuthRequestBody.canonical_bytes q1 = Ok m1 /\ AuthRequestBody.canonical_bytes q2 = Ok m2 /\
    m1 <> m2 /\ Sha256_digest m1 = Sha256_digest m2.

Lemma bound_to_both `{Crypto} p q1 q2 :
  AuthRequestBody.wf q1 -> AuthRequestBody.wf q2 -> bound_to p q1 -> bound_to p q2 -> q1 = q2 \/ collision q1 q2.
Proof.
  intros W1 W2 (_ & _ & (m1 & E1 & H1) & _) (_ & _ & (m2 & E2 & H2) & _).
  destruct (decide (m1 = m2)) as [<-|Hne]; [left; by eapply request_canonical_inj|].
  right. exists m1, m2. by rewrite <- H1, <- H2.
Qed.

Section Agent.
Context {W : Type} `{Kernel W} `{MacKernel W} `{CryptoKit W} `{JSONCoder} `{SwiftText} `{Crypto} `{!SessionLaws W}.

(** A connection of the agent on which it signed the message. *)
Definition signed_by (runtime : AgentRuntime (W := W)) (message : bytes) : Prop :=
  exists fuel f deadline (s s' : state W) o evs signature,
    handleServeRequest fuel f runtime deadline s = (o, s') /\ made s s' evs /\
    In (EvMac (EvSigned message signature)) evs.

Lemma unsigned_not_signed (s s' : state W) evs message sg :
  emitted unsigned s s' -> made s s' evs -> ~ In (EvMac (EvSigned message sg)) evs.
Proof.
  intros (evs' & M' & F) M Hin. rewrite (made_inj _ _ _ _ M M') in Hin. rewrite List.Forall_forall in F.
  exact (F _ Hin).
Qed.

Lemma unsigned_of (P : event -> Prop) (s s' : state W) :
  (forall e, P e -> unsigned e) -> emitted P s s' -> emitted unsigned s s'.
Proof. apply emitted_mono. Qed.

Lemma considered_unsigned f runtime wire request (s s' : state W) :
  considered f runtime wire request s s' -> emitted unsigned s s'.
Proof.
  intros (v & b & t & s0 & _ & Hq & _ & _ & _ & _ & _ & Mt & _).
  etransitivity; [exact (emitted_mono _ _ _ _ (fun e (He : silent e) => proj1 He) Hq)|].
  exists [EvMac (EvWall t)]. split; [exact Mt|by repeat constructor].
Qed.

Lemma admitted_unsigned runtime m (s s' : state W) : admitted runtime m s s' -> emitted unsigned s s'.
Proof. intros [[_ ->]|(now & M)]; [reflexivity|]. eexists. split; [exact M|]. by repeat constructor. Qed.

Lemma judged_unsigned runtime m d (s s' : state W) : judged runtime m d s s' -> emitted unsigned s s'.
Proof.
  intros [[_ Hj]|(s1 & Ha & Hu & _)]; [exact (emitted_mono _ _ _ _ idle_unsigned Hj)|].
  etransitivity; [by eapply admitted_unsigned|exact Hu].
Qed.

(** What it signed was the answer to a request that it considered. *)
Lemma signed_by_answer runtime message : signed_by runtime message ->
  exists f wire request (s s1 : state W) d now n,
    considered f runtime wire request s s1 /\ answers runtime (MacRequest.body request) d now n /\
    MacResponse.canonicalBytes n = Ok message /\
    (d = Decision.Approved -> recognised (W := W) (requireConfirmation runtime) (MacRequest.body request)).
Proof.
  intros (fuel & f & deadline & s & s' & o & evs & sg & HR & M & Hin). apply handler_served in HR.
  assert (forall wire request (s1 s2 s3 s4 s5 : state W) d now n message' sg',
    considered f runtime wire request s s1 -> emitted idle s1 s2 -> judged runtime (MacRequest.body request) d s2 s3 ->
    emitted idle s3 s4 -> answers runtime (MacRequest.body request) d now n ->
    MacResponse.canonicalBytes n = Ok message' -> signs runtime message' sg' s4 s5 ->
    (exists after, made s5 s' after /\ ~ In (EvMac (EvSigned message sg)) after) ->
    exists f wire request (s s1 : state W) d now n,
      considered f runtime wire request s s1 /\ answers runtime (MacRequest.body request) d now n /\
      MacResponse.canonicalBytes n = Ok message /\
      (d = Decision.Approved -> recognised (W := W) (requireConfirmation runtime) (MacRequest.body request))) as Hmain.
  { intros wire request s1 s2 s3 s4 s5 d now n message' sg' Hc I2 Hj I4 Hans Hm [M5 _] (after & Ma & Hno).
    assert (emitted unsigned s s4) as (before & Mb & Fb).
    { etransitivity; [by eapply considered_unsigned|].
      etransitivity; [exact (emitted_mono _ _ _ _ idle_unsigned I2)|].
      etransitivity; [by eapply judged_unsigned|exact (emitted_mono _ _ _ _ idle_unsigned I4)]. }
    pose proof (made_app _ _ _ _ _ Mb (made_app _ _ _ _ _ M5 Ma)) as Mall.
    rewrite (made_inj _ _ _ _ M Mall) in Hin. apply in_app_iff in Hin as [Hin|[Hin|Hin]]; [| |done].
    { rewrite List.Forall_forall in Fb. by destruct (Fb _ Hin). }
    injection Hin as -> _. exists f, wire, request, s, s1, d, now, n. split_and!; [done..|].
    intros Hd. destruct Hj as [[-> _]|(s6 & _ & _ & Hrec)]; [done|by apply Hrec]. }
  destruct HR as [Hq _|wire request s1 Hc Hi _|wire request s1 s2 s3 Hc Hi Ha Hu _
    |wire request s1 s2 s3 s4 s5 d now n message' sg' Hc I2 Hj I4 Hans Hm M5 Hi _
    |wire request s1 s2 s3 s4 s5 d now n message' sg' text Hc I2 Hj I4 Hans Hm M5 _ _ (after & Ma & Fa & _) _].
  - destruct (unsigned_not_signed s s' evs message sg); [|done..].
    exact (emitted_mono _ _ _ _ (fun e (He : silent e) => proj1 He) Hq).
  - destruct (unsigned_not_signed s s' evs message sg); [|done..].
    etransitivity; [by eapply considered_unsigned|exact (emitted_mono _ _ _ _ idle_unsigned Hi)].
  - destruct (unsigned_not_signed s s' evs message sg); [|done..].
    etransitivity; [by eapply considered_unsigned|]. etransitivity; [exact (emitted_mono _ _ _ _ idle_unsigned Hi)|].
    etransitivity; [by eapply admitted_unsigned|exact Hu].
  - eapply Hmain; [done..|]. pose proof (emitted_mono _ _ _ _ idle_unsigned Hi) as Hu.
    destruct Hu as (after & Ma & Fa). exists after. split; [done|]. apply (unsigned_not_signed s5 s'); [by exists after|done].
  - eapply Hmain; [done..|]. exists after. split; [done|]. rewrite List.Forall_forall in Fa. intros Hx. by destruct (Fa _ Hx) as [[] ?].
Qed.

(** The answer that is bound to the request is the response with its fields. *)
Lemma answer_agrees runtime m d now n q r pk message :
  answers runtime m d now n -> MacResponse.canonicalBytes n = Ok message ->
  AuthRequestBody.wf (as_request m) -> AuthRequestBody.wf q -> AuthResponseBody.wf (SignedAuthResponse.body r) ->
  authentic pk q r -> AuthResponseBody.canonical_bytes (SignedAuthResponse.body r) = Ok message ->
  AuthResponseBody.decision (SignedAuthResponse.body r) = d /\ (q = as_request m \/ collision q (as_request m)).
Proof.
  intros (Hb & Hd & _ & Hcr & _ & Hexp & _) Hm Wm Wq Wr [_ Hbq] Hr.
  pose proof (as_response_same n (response_alg n message Hm)) as Hs.
  apply (agree_response_canonical n (as_response n) Hs) in Hm.
  assert (AuthResponseBody.wf (as_response n)) as Wn.
  { destruct Wm as (Hv & _ & He & _). unfold AuthResponseBody.canonical_bytes in Hm.
    assert (MacResponse.protocolVersion n <= u16_max) as Hver.
    { apply result_bind_ok in Hm as ([] & Hval & _). unfold AuthResponseBody.validate in Hval.
      destruct (N.eqb_spec (AuthResponseBody.protocol_version (as_response n)) PROTOCOL_VERSION) as [Hp|]; [|done].
      cbn in Hp. by rewrite Hp. }
    unfold AuthResponseBody.wf. cbn in *. lia. }
  assert (SignedAuthResponse.body r = as_response n) as Heq by (by eapply response_canonical_inj).
  rewrite Heq in *. split; [done|]. by eapply bound_to_both.
Qed.
End Agent.

(** ** The answer of the agent is one that the helper takes *)


