(* ===== verification/MacFiles.v ===== *)
(** * Files of the agent ([src/agent/Sources/MacosAuthAgent/SecureFiles.swift])

    What the agent reads and writes: [openSafeFile] and [readSafeFile] for the
    configuration and the keys, [writeNewFile] (of [main.swift]) for new keys,
    and [replaceConfigFile], which writes a configuration aside and renames it
    into place.  [label] is only a part of messages and is left out.

    [open], [openat], [write], [unlinkat] and [close] are those of [Kernel];
    the other calls are the class [MacFiles].  What Foundation does to paths is
    the class [FileURL]; the lookup of the directory of a path, which reads
    symbolic links, is a call. *)

From Stdlib Require Import NArith ZArith Lia List Bool.
From Stdlib Require Import Strings.Byte Strings.String.
From stdpp Require Import base decidable list option strings gmap.
From S2P Require Import Prelude RustStd Crypto Protocol Sys Ownership Io CacheSpec Automaton.
From S2P Require Import MacProtocol RateLimiter MacAgent.

Open Scope N_scope.

(** ** Parameters *)

Class MacFiles (W : Type) := {
  k_geteuid : W -> N * W;
  k_stat : fd -> W -> result Stat errno * W;
  k_statat : fd -> bytes -> W -> result Stat errno * W;
  k_lstat : bytes -> W -> result Stat errno * W;
  k_read_to_end : fd -> W -> result bytes errno * W;
  k_contents : bytes -> W -> result bytes errno * W;
  k_resolve : bytes -> W -> bytes * W;
  k_uuid : W -> bytes * W;
  k_fchown : fd -> N -> N -> W -> result unit errno * W;
  k_fchmod : fd -> N -> W -> result unit errno * W;
  k_fsync : fd -> W -> result unit errno * W;
  k_close_checked : fd -> W -> result unit errno * W;
  k_renameat : fd -> bytes -> fd -> bytes -> W -> result unit errno * W;
}.

Class FileURL := {
  lastPathComponent : bytes -> bytes;
  appendingPathComponent : bytes -> bytes -> bytes;
}.

Section Calls.
Context `{MacFiles W} {E : Type}.

Definition file_prim {A} (f : W -> A * W) (ev : A -> mac_file_event) : M W E A :=
  prim f (fun a => EvMac (EvFile (ev a))).

Definition geteuid : M W E N := file_prim k_geteuid EvGeteuid.
(** [url.deletingLastPathComponent().resolvingSymlinksInPath().path] *)
Definition resolved_parent (path : bytes) : M W E bytes := file_prim (k_resolve path) (EvResolve path).
Definition uuidString : M W E bytes := file_prim k_uuid EvUuid.
End Calls.

(** A call that is guarded: [guard call == 0 else { throw error }]. *)
Definition guarded {W A} (error : AgentError) (call : M W AgentError (result A errno)) : M W AgentError A :=
  let! r := call in lift (map_err (fun _ => error) r).

Section Guarded.
Context `{Kernel W} `{MacFiles W}.
Context (error : AgentError).

Definition open_file (path : bytes) (flags : list open_flag) (m : N) : M W AgentError fd :=
  guarded error (prim (k_open path flags m) (EvOpen path flags m)).
Definition openat_file (dir : fd) (name : bytes) (flags : list open_flag) (m : N) : M W AgentError fd :=
  guarded error (prim (k_openat dir name flags m) (EvOpenat dir name flags m)).
Definition stat_file (f : fd) : M W AgentError Stat := guarded error (file_prim (k_stat f) (EvStat f)).
Definition stat_at (dir : fd) (name : bytes) : M W AgentError Stat :=
  guarded error (file_prim (k_statat dir name) (EvStatat dir name)).
Definition fchown (f : fd) (owner group : N) : M W AgentError unit :=
  guarded error (file_prim (k_fchown f owner group) (EvFchown f owner group)).
Definition fchmod (f : fd) (m : N) : M W AgentError unit :=
  guarded error (file_prim (k_fchmod f m) (EvFchmod f m)).
Definition fsync (f : fd) : M W AgentError unit := guarded error (file_prim (k_fsync f) (EvFsync f)).
Definition close_checked (f : fd) : M W AgentError unit :=
  guarded error (prim (k_close_checked f) (fun _ => EvClose f)).
Definition renameat (dir : fd) (from : bytes) (dir' : fd) (to : bytes) : M W AgentError unit :=
  guarded error (file_prim (k_renameat dir from dir' to) (EvRenameat dir from dir' to)).
End Guarded.

(** ** Reading *)

Definition S_IFREG : N := 0x8000.

(** [privateMaterial ? 0o077 : 0o022] *)
Definition forbidden_mode (privateMaterial : bool) : N := if privateMaterial then 0x3f else 0x12.

Definition check_file_metadata (st : Stat) (privateMaterial : bool) (effectiveUID : N) : result unit AgentError :=
  guard! N.land (st_mode st) S_IFMT =? S_IFREG else invalidPayload "is not a regular file" ;;
  guard! (st_uid st =? effectiveUID) || (st_uid st =? 0)
    else invalidPayload "must be owned by the effective user or root" ;;
  guard! N.land (st_mode st) (forbidden_mode privateMaterial) =? 0 else invalidPayload "has unsafe permissions" ;;
  Ok tt.

(** [sameFile] *)
Definition sameFile (lhs rhs : Stat) : bool :=
  (st_dev lhs =? st_dev rhs) && (st_ino lhs =? st_ino rhs)
  && (N.land (st_mode lhs) S_IFMT =? N.land (st_mode rhs) S_IFMT).

Definition safe_flags : list open_flag := [O_RDONLY; O_NOFOLLOW; O_NONBLOCK; O_CLOEXEC].
Definition directory_flags : list open_flag := [O_RDONLY; O_DIRECTORY; O_NOFOLLOW; O_CLOEXEC].
Definition new_file_flags : list open_flag := [O_WRONLY; O_CREAT; O_EXCL; O_NOFOLLOW; O_CLOEXEC].

Section Files.
Context `{Kernel W} `{MacFiles W} `{FileURL}.

Definition validateFileMetadata (st : Stat) (privateMaterial : bool) : M W AgentError unit :=
  let! effectiveUID := geteuid in lift (check_file_metadata st privateMaterial effectiveUID).

Definition openSafeFile (path : bytes) (privateMaterial : bool) : M W AgentError fd :=
  let! f := open_file (ioError "open") path safe_flags 0 in
  do! owned f (
    let! st := stat_file (ioError "fstat") f in
    validateFileMetadata st privateMaterial) ;;
  ret f.

Definition readSafeFile (path : bytes) (privateMaterial : bool) : M W AgentError (bytes * Stat) :=
  let! f := openSafeFile path privateMaterial in
  scoped f (
    let! st := stat_file (ioError "fstat") f in
    let! data := guarded coding (file_prim (k_read_to_end f) (EvReadToEnd f)) in
    ret (data, st)).

Definition validateFilePermissions (path : bytes) (privateMaterial : bool) : M W AgentError unit :=
  let! f := openSafeFile path privateMaterial in close f.

(** ** Writing *)

(** The loop of [writeAll]; the state is what is left of the data. *)
Definition writeAll_round (f : fd) (data : bytes) : M W AgentError (bytes + unit) :=
  if decide (data = []) then ret (inr tt)
  else
    let! r := prim (k_write f data) (EvWrite f data) in
    match r with
    | Err EINTR => ret (inl data)
    | Err _ | Ok 0%nat => throw (ioError "write")
    | Ok n => ret (inl (drop n data))
    end.

Definition writeAll (fuel : nat) (data : bytes) (f : fd) : M W AgentError unit :=
  loop fuel (writeAll_round f) data.

Definition writeNewFile (fuel : nat) (path contents : bytes) (m : N) : M W AgentError unit :=
  let! f := open_file (ioError "failed to create") path new_file_flags m in
  scoped f (
    do! writeAll fuel contents f ;;
    fsync (ioError "failed to sync") f).

(** The guard on the directory. *)
Definition directory_error : AgentError :=
  ioError "config directory must be owned by the effective user or root and not group/world writable".

Definition check_directory (parent : fd) : M W AgentError unit :=
  let! directory := stat_file directory_error parent in
  let! effectiveUID := geteuid in
  if ((st_uid directory =? effectiveUID) || (st_uid directory =? 0)) && (N.land (st_mode directory) 0x12 =? 0)
  then ret tt else throw directory_error.

Definition secure_error : AgentError := ioError "secure config replacement".

(** What happens to the replacement while it is open: [isOpen]. *)
Definition fill_replacement (fuel : nat) (f : fd) (data : bytes) (metadata : Stat) (privateMaterial : bool)
  : M W AgentError unit :=
  do! writeAll fuel data f ;;
  do! fchown secure_error f (st_uid metadata) (st_gid metadata) ;;
  do! fchmod secure_error f (N.land (st_mode metadata) (if privateMaterial then 0x180 else 0x1ff)) ;;
  fsync secure_error f.

Definition replacement_name (name uuid : bytes) : bytes := B "." ++ name ++ B ".replacement." ++ uuid.
#[global] Arguments replacement_name : simpl never.

(** From the creation of the replacement on; the two [defer]s are nested. *)
Definition install_replacement (fuel : nat) (parent : fd) (name : bytes) (metadata : Stat) (data : bytes)
  (privateMaterial : bool) : M W AgentError unit :=
  let! uuid := uuidString in
  let replacement := replacement_name name uuid in
  let! f := openat_file (ioError "create config replacement") parent replacement new_file_flags 0x180 in
  deferred (let! _ := unlinkat parent replacement in ret tt) (
    do! owned f (fill_replacement fuel f data metadata privateMaterial) ;;
    do! close_checked (ioError "close config replacement") f ;;
    let! current := stat_at (ioError "config changed during replacement") parent name in
    if negb (sameFile metadata current) then throw (ioError "config changed during replacement")
    else
      do! renameat (ioError "replace config") parent replacement parent name ;;
      fsync (ioError "sync config directory") parent).

Definition replaceConfigFile (fuel : nat) (path data : bytes) (privateMaterial : bool) : M W AgentError unit :=
  let! directory := resolved_parent path in
  let! parent := open_file (ioError "open config directory") directory directory_flags 0 in
  scoped parent (
    do! check_directory parent ;;
    let name := lastPathComponent path in
    let! original := openat_file (ioError "open config") parent name safe_flags 0 in
    scoped original (
      let! metadata := stat_file (ioError "stat config") original in
      do! validateFileMetadata metadata false ;;
      install_replacement fuel parent name metadata data privateMaterial)).
End Files.
