(* ===== verification/MacFilesProps.v ===== *)
(** * What the files of the agent are worth ([MacFiles])

    A file is read only after its descriptor was found to be a regular file of
    the user or of root that others cannot write, or, for private material,
    not read either.  A configuration is replaced whole or not at all: under
    the laws of a directory, its name leads at every moment to the old text or
    to all of the new text, which is then on the disk. *)

From Stdlib Require Import NArith ZArith Lia List Bool.
From Stdlib Require Import Strings.Byte Strings.String.
From stdpp Require Import base decidable list option strings gmap.
From S2P Require Import Prelude RustStd Crypto Protocol Sys Ownership Io CacheSpec Automaton.
From S2P Require Import MacProtocol RateLimiter MacAgent MacAgentProps MacFiles.

Open Scope N_scope.

(** ** What is read *)

(** A regular file of the user [u] or of root that others cannot write, nor
    read if it is private. *)
Definition safe_metadata (privateMaterial : bool) (u : N) (st : Stat) : Prop :=
  N.land (st_mode st) S_IFMT = S_IFREG /\ (st_uid st = u \/ st_uid st = 0) /\
  N.land (st_mode st) 0x12 = 0 /\ (privateMaterial = true -> N.land (st_mode st) 0x3f = 0).

Lemma check_file_metadata_ok st privateMaterial u :
  check_file_metadata st privateMaterial u = Ok tt -> safe_metadata privateMaterial u st.
Proof.
  unfold check_file_metadata, safe_metadata, forbidden_mode.
  destruct (N.eqb_spec (N.land (st_mode st) S_IFMT) S_IFREG) as [Hr|]; [|done].
  destruct ((st_uid st =? u) || (st_uid st =? 0)) eqn:Hu; [|done].
  destruct (N.eqb_spec (N.land (st_mode st) (if privateMaterial then 0x3f else 0x12)) 0) as [Hm|]; [|done]. intros _.
  apply orb_true_iff in Hu. rewrite !N.eqb_eq in Hu. split_and!; [done|done| |]; destruct privateMaterial; try done.
  replace 0x12 with (N.land 0x3f 0x12) by done. by rewrite N.land_assoc, Hm.
Qed.

(** The calls of a successful read. *)
Definition read_safely (path : bytes) (privateMaterial : bool) (data : bytes) (st : Stat) (evs : list event) : Prop :=
  exists f m u,
    evs = [EvOpen path safe_flags 0 (Ok f); EvMac (EvFile (EvStat f (Ok m))); EvMac (EvFile (EvGeteuid u));
           EvMac (EvFile (EvStat f (Ok st))); EvMac (EvFile (EvReadToEnd f (Ok data))); EvClose f] /\
    safe_metadata privateMaterial u m.

Section Reading.
Context `{Kernel W} `{MacFiles W} `{FileURL}.

Lemma guarded_ok {A} error (f : W -> result A errno * W) ev (s s' : state W) a :
  guarded error (prim f ev) s = (Done (Ok a), s') -> made s s' [ev (Ok a)].
Proof.
  unfold guarded. intros (r & s1 & (? & [= <-] & M & _)%prim_done & [E ->]%lift_done)%bind_ok.
  destruct r as [b|]; [|done]. by injection E as <-.
Qed.

Lemma openSafeFile_ok path privateMaterial f (s s' : state W) :
  openSafeFile path privateMaterial s = (Done (Ok f), s') -> exists m u,
    made s s' [EvOpen path safe_flags 0 (Ok f); EvMac (EvFile (EvStat f (Ok m))); EvMac (EvFile (EvGeteuid u))] /\
    safe_metadata privateMaterial u m.
Proof.
  intros (g & s1 & M1%guarded_ok & ([] & s2 & HV%owned_ok & [= -> ->])%bind_ok)%bind_ok.
  apply bind_ok in HV as (m & s3 & M2%guarded_ok & (u & s4 & (? & [= <-] & M3 & _)%prim_done & [E ->]%lift_done)%bind_ok).
  exists m, u. split; [exact (made_app _ _ _ [_] _ M1 (made_app _ _ _ [_] [_] M2 M3))|by apply check_file_metadata_ok].
Qed.

Lemma readSafeFile_ok path privateMaterial data st (s s' : state W) :
  readSafeFile path privateMaterial s = (Done (Ok (data, st)), s') -> exists evs,
    made s s' evs /\ read_safely path privateMaterial data st evs.
Proof.
  intros (f & s1 & (m & u & M1 & Hm)%openSafeFile_ok & (s5 & HR & (? & _ & M5 & _)%prim_done)%scoped_ok)%bind_ok.
  apply bind_ok in HR as (st' & s2 & M2%guarded_ok & HR). apply bind_ok in HR as (d & s3 & M3%guarded_ok & [= -> -> ->]).
  eexists. split.
  - exact (made_app _ _ _ _ _ M1 (made_app _ _ _ [_] _ M2 (made_app _ _ _ [_] [_] M3 M5))).
  - by exists f, m, u.
Qed.

(** ** Descriptors *)

Lemma neutral_guarded {A} error (m : M W AgentError (result A errno)) : neutral m -> neutral (guarded error m).
Proof. intros Hm. unfold guarded. apply neutral_bind; [done|]. intros r. apply owns_lift. Qed.

Lemma owns_guarded_open error (f : W -> result fd errno * W) ev :
  (forall r g, change (ev r) g = opened r g) -> owns [] (fun f => [f]) (guarded error (prim f ev)).
Proof.
  intros He s r s' HR. unfold guarded in HR.
  apply bind_run in HR as [(a & s1 & (? & [= <-] & M & _)%prim_done & [-> ->]%lift_done)|[(e & Hp & _)|[[_ [=]]|[_ [=]]]]].
  2: by apply prim_done in Hp as (? & ? & _).
  exists [ev a]. split; [done|]. intros g. cbn. rewrite He. destruct a; cbn; lia.
Qed.

#[local] Hint Resolve neutral_guarded : owns.
#[local] Hint Extern 1 (owns [] _ (prim _ _)) => (apply neutral_prim; done) : owns.
#[local] Hint Extern 1 (owns [] _ (file_prim _ _)) => (apply neutral_prim; done) : owns.

Lemma neutral_validate st p : neutral (validateFileMetadata (W := W) st p).
Proof. unfold validateFileMetadata, geteuid. neutral_tac. Qed.
#[local] Hint Resolve neutral_validate : owns.

Lemma owns_kept {A} f (m : M W AgentError A) :
  neutral m -> owns [f] (fun _ => [f]) (owned f m).
Proof. intros Hm. by apply (owns_owned f [] (fun _ => [])). Qed.

Lemma owns_openSafeFile path p : owns (W := W) [] (fun f => [f]) (openSafeFile path p).
Proof.
  eapply owns_bind; [by apply owns_guarded_open|]. intros f.
  eapply owns_bind; [apply owns_kept; unfold stat_file; neutral_tac|].
  intros []. apply (owns_ret (fun f => [f])).
Qed.

Lemma neutral_readSafeFile path p : neutral (readSafeFile (W := W) path p).
Proof.
  eapply neutral_acquire; [apply owns_openSafeFile|]. intros f. apply neutral_scoped. unfold stat_file. neutral_tac.
Qed.

Lemma neutral_writeAll fuel data f : neutral (writeAll (W := W) fuel data f).
Proof. unfold writeAll, writeAll_round. neutral_tac. Qed.
#[local] Hint Resolve neutral_writeAll : owns.

Lemma neutral_writeNewFile fuel path b m : neutral (writeNewFile (W := W) fuel path b m).
Proof.
  eapply neutral_acquire; [by apply owns_guarded_open|]. intros f. apply neutral_scoped. unfold fsync. neutral_tac.
Qed.

Lemma neutral_deferred {A} h (final : M W AgentError unit) (m : M W AgentError A) :
  neutral final -> owns h (fun _ => []) m -> owns h (fun _ => []) (deferred final m).
Proof.
  intros Hf Hm. unfold deferred. eapply owns_bind; [by apply (owns_attempt h (fun _ => []))|]. intros r.
  assert (neutral (do! final ;; lift r)) as Hn by (apply neutral_bind; [done|intros; apply owns_lift]). by destruct r.
Qed.

Lemma neutral_replaceConfigFile fuel path data p : neutral (replaceConfigFile (W := W) fuel path data p).
Proof.
  apply neutral_bind; [unfold resolved_parent; neutral_tac|]. intros d.
  eapply neutral_acquire; [by apply owns_guarded_open|]. intros parent. apply neutral_scoped.
  apply neutral_bind; [unfold check_directory, stat_file, geteuid; neutral_tac|]. intros _.
  eapply neutral_acquire; [by apply owns_guarded_open|]. intros original. apply neutral_scoped.
  apply neutral_bind; [unfold stat_file; neutral_tac|]. intros m. apply neutral_bind; [neutral_tac|]. intros _.
  apply neutral_bind; [unfold uuidString; neutral_tac|]. intros u.
  eapply neutral_acquire; [by apply owns_guarded_open|]. intros f.
  apply neutral_deferred; [unfold unlinkat; neutral_tac|].
  eapply owns_bind; [apply owns_kept; unfold fill_replacement, fchown, fchmod, fsync; neutral_tac|]. intros u1.
  apply (owns_bind [f] (fun _ => [])); [|intros u2; unfold stat_at, renameat, fsync; neutral_tac].
  intros s r s' HR. unfold close_checked, guarded in HR.
  apply bind_run in HR as [(c & s1 & (? & [= <-] & M & _)%prim_done & [-> ->]%lift_done)|[(e & Hp & _)|[[_ [=]]|[_ [=]]]]].
  2: by apply prim_done in Hp as (? & ? & _).
  eexists. split; [exact M|]. intros g. cbn. destruct c; cbn; lia.
Qed.
End Reading.

(** ** Replacing a configuration

    A directory and its files, as the calls of one process show them: the
    descriptor the directory is open at, where its names lead, what the files
    hold, which of them are on the disk, which descriptors are files of it, and
    whether its names are on the disk. *)

Record folder : Type := Folder {
  root : option fd;
  entries : gmap bytes N;
  texts : gmap N bytes;
  synced : gset N;
  handles : gmap fd N;
  settled : bool;
}.

(** The laws of a directory that only this process changes: a step is [None]
    when no such directory gives this answer. *)
Definition folder_step (st : folder) (e : event) : option folder :=
  match e with
  | EvOpen _ flags _ (Ok d) =>
      if decide (O_DIRECTORY ∈ flags) then
        Some (Folder (Some d) (entries st) (texts st) (synced st) (handles st) (settled st))
      else Some st
  | EvOpenat d n flags _ (Ok f) =>
      if decide (root st = Some d) then
        if decide (handles st !! f = None /\ root st <> Some f) then
          match entries st !! n with
          | Some i =>
              if decide (O_EXCL ∈ flags) then None
              else Some (Folder (root st) (entries st) (texts st) (synced st) (<[f := i]> (handles st)) (settled st))
          | None =>
              if decide (O_EXCL ∈ flags) then
                let i := fresh (dom (texts st)) in
                Some (Folder (root st) (<[n := i]> (entries st)) (<[i := []]> (texts st)) (synced st)
                        (<[f := i]> (handles st)) false)
              else None
          end
        else None
      else Some st
  | EvWrite f b (Ok k) =>
      match handles st !! f with
      | Some i =>
          Some (Folder (root st) (entries st) (<[i := default [] (texts st !! i) ++ take k b]> (texts st))
                  (synced st ∖ {[i]}) (handles st) (settled st))
      | None => Some st
      end
  | EvMac (EvFile (EvFsync f (Ok _))) =>
      match handles st !! f with
      | Some i =>
          Some (Folder (root st) (entries st) (texts st) ({[i]} ∪ synced st) (handles st) (settled st))
      | None =>
          if decide (root st = Some f) then
            Some (Folder (root st) (entries st) (texts st) (synced st) (handles st) true)
          else Some st
      end
  | EvClose f =>
      Some (Folder (root st) (entries st) (texts st) (synced st) (delete f (handles st)) (settled st))
  | EvMac (EvFile (EvRenameat d n d' n' (Ok _))) =>
      if decide (root st = Some d /\ root st = Some d') then
        match entries st !! n with
        | Some i => Some (Folder (root st) (<[n' := i]> (delete n (entries st))) (texts st) (synced st) (handles st) false)
        | None => None
        end
      else Some st
  | EvUnlinkat d n (Ok _) =>
      if decide (root st = Some d) then
        match entries st !! n with
        | Some _ => Some (Folder (root st) (delete n (entries st)) (texts st) (synced st) (handles st) false)
        | None => None
        end
      else Some st
  | _ => Some st
  end.

Fixpoint folder_run (st : folder) (evs : list event) : option folder :=
  match evs with
  | [] => Some st
  | e :: evs => match folder_step st e with Some st => folder_run st evs | None => None end
  end.

(** [name] leads to [old], or to [data] in full and on the disk. *)
Definition whole (name old data : bytes) (st : folder) : Prop :=
  exists i, entries st !! name = Some i /\
    (texts st !! i = Some old \/ (texts st !! i = Some data /\ i ∈ synced st)).

Create HintDb stages discriminated.

(** What follows is relative to the folder that a run starts in. *)
Section Replace.
Context `{Kernel W} `{MacFiles W} `{FileURL}.
Context (name old data : bytes) (E0 : gmap bytes N) (T0 : gmap N bytes) (i0 : N).
Context (Hname : E0 !! name = Some i0) (Hold : T0 !! i0 = Some old).

#[local] Instance whole_decision st : Decision (whole name old data st).
Proof.
  destruct (entries st !! name) as [i|] eqn:E.
  - destruct (decide (texts st !! i = Some old \/ (texts st !! i = Some data /\ i ∈ synced st))) as [Hw|Hw].
    + left. by exists i.
    + right. intros (j & Ej & Hj). by simplify_eq.
  - right. intros (j & Ej & _). by simplify_eq.
Defined.

(** The folder as an automaton that stops where [whole] fails; [None] is a
    run that the laws exclude. *)
Definition watch (c : option folder) (e : event) : option (option folder) :=
  match c with
  | None => Some None
  | Some st =>
      match folder_step st e with
      | None => Some None
      | Some st' => if decide (whole name old data st') then Some (Some st') else None
      end
  end.

Lemma watched evs st c : run_steps watch (Some st) evs = Some c -> whole name old data st ->
  c = folder_run st evs /\
  forall pre post st', evs = pre ++ post -> folder_run st pre = Some st' -> whole name old data st'.
Proof.
  revert st. induction evs as [|e evs IH]; intros st HR Hw.
  - injection HR as <-. split; [done|]. intros [|? ?] post st' Hp; [|done]. by intros [= <-].
  - cbn in HR |- *. destruct (folder_step st e) as [st1|] eqn:E1.
    + case_decide as Hw1; [|done]. destruct (IH _ HR Hw1) as [-> Hpre]. split; [done|].
      intros [|e' pre] post st' Hp; [by intros [= <-]|]. injection Hp as <- Hp. cbn. rewrite E1. by eapply Hpre.
    + assert (c = None) as ->.
      { clear -HR. induction evs as [|e' evs IH]; [by injection HR|by apply IH]. }
      split; [done|]. intros [|e' pre] post st' Hp; [by intros [= <-]|]. injection Hp as <- Hp. cbn. by rewrite E1.
Qed.

(** [P] holds of the folder, if the laws were kept. *)
Definition on (P : folder -> Prop) (c : option folder) : Prop := match c with Some st => P st | None => True end.

Definition safe (P : folder -> Prop) : Prop := forall st, P st -> whole name old data st.

Lemma watch_on (P Q : folder -> Prop) e c : on P c -> safe Q ->
  (forall st st', P st -> folder_step st e = Some st' -> Q st') -> exists c', watch c e = Some c' /\ on Q c'.
Proof.
  intros Hc HQ Hs. destruct c as [st|]; [|by exists None]. cbn. destruct (folder_step st e) as [st'|] eqn:E; [|by exists None].
  exists (Some st'). specialize (Hs _ _ Hc E). by rewrite decide_True by auto.
Qed.

(** A run of [m] from a folder with [P] ends with [Q] or, in an error, with [Z]. *)
Definition leads {A} (P : folder -> Prop) (m : M W AgentError A) (Q : A -> folder -> Prop) (Z : folder -> Prop) : Prop :=
  forall c, on P c -> follows watch c m (fun r c' => match r with Ok a => on (Q a) c' | Err _ => on Z c' end).

Lemma leads_bind {A B} P (m : M W AgentError A) (k : A -> M W AgentError B) Q R Z :
  leads P m Q Z -> (forall a, leads (Q a) (k a) R Z) -> leads P (bind m k) R Z.
Proof.
  intros Hm Hk c Hc. apply follows_bind. eapply follows_mono; [by apply Hm|].
  intros [a|e] c' Hq; [by apply Hk|done].
Qed.

Lemma leads_ret {A} (P : folder -> Prop) (a : A) (Q : A -> folder -> Prop) Z :
  (forall st, P st -> Q a st) -> leads P (ret a) Q Z.
Proof. intros HP c Hc. apply follows_ret. destruct c; [by apply HP|done]. Qed.

Lemma leads_throw {A} (P : folder -> Prop) e (Q : A -> folder -> Prop) Z :
  (forall st, P st -> Z st) -> leads P (throw e) Q Z.
Proof. intros HP c Hc. apply follows_throw. destruct c; [by apply HP|done]. Qed.

Lemma leads_prim {A} (P : folder -> Prop) (f : W -> A * W) ev (Q : A -> folder -> Prop) Z :
  (forall a, safe (Q a)) -> (forall a st st', P st -> folder_step st (ev a) = Some st' -> Q a st') ->
  leads P (prim f ev) Q Z.
Proof. intros HQ Hs c Hc. apply follows_prim. intros a. exact (watch_on P (Q a) (ev a) c Hc (HQ a) (Hs a)). Qed.

Lemma leads_guarded {A} (P : folder -> Prop) error (f : W -> result A errno * W) ev (Q : A -> folder -> Prop) Z :
  (forall a, safe (Q a)) -> safe Z ->
  (forall a st st', P st -> folder_step st (ev (Ok a)) = Some st' -> Q a st') ->
  (forall e st st', P st -> folder_step st (ev (Err e)) = Some st' -> Z st') ->
  leads P (guarded error (prim f ev)) Q Z.
Proof.
  intros HQ HZ Ho He c Hc. unfold guarded. apply follows_bind, follows_prim. intros [a|e].
  - destruct (watch_on P (Q a) (ev (Ok a)) c Hc (HQ a) (Ho a)) as (c' & ? & ?). exists c'. split; [done|]. by apply follows_done.
  - destruct (watch_on P Z (ev (Err e)) c Hc HZ (He e)) as (c' & ? & ?). exists c'. split; [done|]. by apply follows_done.
Qed.

(** A call that leaves the folder as it is. *)
Lemma leads_look {A} (P : folder -> Prop) error (f : W -> result A errno * W) ev (Z : folder -> Prop) :
  safe P -> (forall st, P st -> Z st) -> safe Z -> (forall r st, folder_step st (ev r) = Some st) ->
  leads P (guarded error (prim f ev)) (fun _ => P) Z.
Proof. intros HP HZ HZ' Hs. apply leads_guarded; try done; intros a st st'; rewrite Hs; naive_solver. Qed.

Lemma leads_loop {S A} fuel (body : S -> M W AgentError (S + A)) (I : S -> folder -> Prop) Q Z :
  (forall x, leads (I x) (body x) (fun r => match r with inl x' => I x' | inr a => Q a end) Z) ->
  forall x, leads (I x) (loop fuel body x) Q Z.
Proof.
  intros Hb x c Hc. apply (follows_loop watch fuel body (fun x c => on (I x) c)); [|done].
  intros y c' Hy. eapply follows_mono; [by apply Hb|]. by intros [[y'|a]|e] c''.
Qed.

Lemma leads_deferred {A} P (final : M W AgentError unit) (m : M W AgentError A) Q Z Q' Z' :
  leads P m Q Z -> (forall a, leads (Q a) final (fun _ => Q' a) Z') -> leads Z final (fun _ => Z') Z' ->
  leads P (deferred final m) Q' Z'.
Proof.
  intros Hm Hq Hz c Hc. unfold deferred. apply follows_bind, follows_attempt. eapply follows_mono; [by apply Hm|].
  intros [a|e] c' Hc'; apply follows_bind.
  - eapply follows_mono; [exact (Hq a c' Hc')|]. intros [[]|e'] c'' Hc''; [by apply follows_done|done].
  - eapply follows_mono; [exact (Hz c' Hc')|]. intros [[]|e'] c'' Hc''; [by apply follows_done|done].
Qed.

Lemma leads_scoped {A} P f (m : M W AgentError A) Q Z Q' Z' :
  leads P m Q Z -> (forall a, leads (Q a) (close f) (fun _ => Q' a) Z') -> leads Z (close f) (fun _ => Z') Z' ->
  leads P (scoped f m) Q' Z'.
Proof. exact (leads_deferred P (close f) m Q Z Q' Z'). Qed.
(** The stages of a replacement; [u] is the name's last part. *)
Section Stages.
Context (u : bytes).
#[local] Abbreviation aside := (replacement_name name u).

Definition started (st : folder) : Prop := entries st = E0 /\ texts st = T0 /\ handles st = ∅.

Definition looking (d : fd) (st : folder) : Prop :=
  entries st = E0 /\ texts st = T0 /\ root st = Some d /\ handles st !! d = None.

Definition filling (d f : fd) (written : bytes) (st : folder) : Prop := exists i,
  T0 !! i = None /\ E0 !! aside = None /\ entries st = <[aside := i]> E0 /\ texts st = <[i := written]> T0 /\
  root st = Some d /\ handles st !! f = Some i /\ handles st !! d = None.

(** The replacement is written in full and on the disk. *)
Definition filled (d : fd) (st : folder) : Prop := exists i,
  T0 !! i = None /\ E0 !! aside = None /\ entries st = <[aside := i]> E0 /\ texts st = <[i := data]> T0 /\
  root st = Some d /\ handles st !! d = None /\ i ∈ synced st.

Definition renamed (d : fd) (st : folder) : Prop := exists i,
  E0 !! aside = None /\ entries st = <[name := i]> E0 /\ texts st !! i = Some data /\ i ∈ synced st /\
  root st = Some d /\ handles st !! d = None.

Definition others (st : folder) : Prop :=
  forall n, n <> name -> n <> aside -> entries st !! n = E0 !! n.

(** However the replacement failed. *)
Definition unharmed (st : folder) : Prop := whole name old data st /\ others st.

Lemma aside_other : aside <> name.
Proof.
  unfold replacement_name. intros Hl%(f_equal length). rewrite !length_app in Hl. cbn in Hl. lia.
Qed.

Lemma safe_start st : entries st = E0 -> texts st = T0 -> unharmed st.
Proof. intros He Ht. split; [|by intros n _ _; rewrite He]. exists i0. rewrite He, Ht. auto. Qed.

Lemma looking_unharmed d st : looking d st -> unharmed st.
Proof. intros (He & Ht & _). by apply safe_start. Qed.

Lemma aside_unharmed i t st :
  T0 !! i = None -> entries st = <[aside := i]> E0 -> texts st = <[i := t]> T0 -> unharmed st.
Proof.
  intros Hi He Ht. pose proof aside_other. split.
  - exists i0. rewrite He, Ht, !lookup_insert_ne by naive_solver. auto.
  - intros n Hn Ha. by rewrite He, lookup_insert_ne.
Qed.

Lemma filling_unharmed d f t st : filling d f t st -> unharmed st.
Proof. intros (i & ? & _ & ? & ? & _). by eapply aside_unharmed. Qed.

Lemma filled_unharmed d st : filled d st -> unharmed st.
Proof. intros (i & ? & _ & ? & ? & _). by eapply aside_unharmed. Qed.

Lemma renamed_unharmed d st : renamed d st -> unharmed st.
Proof.
  intros (i & _ & He & Ht & Hs & _). split.
  - exists i. rewrite He, lookup_insert_eq. auto.
  - intros n Hn _. by rewrite He, lookup_insert_ne.
Qed.

Lemma unharmed_safe : safe unharmed.
Proof. by intros st [? _]. Qed.

#[local] Hint Resolve looking_unharmed filling_unharmed filled_unharmed renamed_unharmed unharmed_safe : stages.
#[local] Hint Extern 1 (safe _) => (intros ? ?; apply unharmed_safe; eauto with stages) : stages.
#[local] Hint Extern 1 (forall _ _, folder_step _ _ = Some _) => (by intros []) : stages.

(** Calls on files that are not the folder's. *)
Lemma unharmed_step st st' e : unharmed st -> folder_step st e = Some st' -> entries st' = entries st ->
  texts st' = texts st -> synced st ⊆ synced st' -> unharmed st'.
Proof.
  intros [(i & Ei & Hi) Ho] _ He Ht Hs. split; [|by intros n; rewrite He; apply Ho].
  exists i. rewrite He, Ht. split; [done|]. set_solver.
Qed.

Lemma unharmed_close f : leads unharmed (close f) (fun _ => unharmed) unharmed.
Proof.
  apply leads_prim; [eauto with stages|]. intros _ st st' Hu [= <-]. by eapply (unharmed_step st _ (EvClose f)).
Qed.

Lemma unharmed_unlink d :
  leads unharmed (let! _ := unlinkat d aside in ret tt) (fun _ => unharmed) unharmed.
Proof.
  eapply (leads_bind _ _ _ (fun _ => unharmed)); [|intros a; apply leads_ret; auto].
  apply leads_prim; [eauto with stages|]. intros [[]|e] st st' Hu; [|by intros [= <-]]. cbn.
  case_decide; [|by intros [= <-]]. destruct (entries st !! aside) as [j|]; [|done]. intros [= <-].
  destruct Hu as [(i & Ei & Hi) Ho]. pose proof aside_other. split.
  - exists i. cbn. by rewrite lookup_delete_ne.
  - intros n Hn Ha. cbn. rewrite lookup_delete_ne by done. by apply Ho.
Qed.

Lemma writeAll_leads fuel d f rest t : t ++ rest = data ->
  leads (filling d f t) (writeAll fuel rest f) (fun _ => filling d f data) unharmed.
Proof.
  intros Hd c Hc.
  assert (leads (fun st => exists t, t ++ rest = data /\ filling d f t st) (writeAll fuel rest f)
    (fun _ => filling d f data) unharmed) as HL; [|apply HL; destruct c; [by exists t|done]].
  apply (leads_loop fuel (writeAll_round f) (fun rest st => exists t, t ++ rest = data /\ filling d f t st)
    (fun _ => filling d f data)).
  clear -Hname Hold. intros rest. unfold writeAll_round. case_decide as Hr.
  { apply leads_ret. subst. intros st (t & <- & Hf). by rewrite app_nil_r. }
  eapply (leads_bind _ _ _ (fun r st => match r with
    | Ok n => exists t, t ++ drop n rest = data /\ filling d f t st
    | Err _ => exists t, t ++ rest = data /\ filling d f t st end)).
  - apply leads_prim.
    + intros [n|e] st (t & _ & Hf); apply unharmed_safe; eauto with stages.
    + intros [n|e] st st' (t & Hd & Hf) Hs; [|injection Hs as <-; by exists t]. exists (t ++ take n rest).
      rewrite <- app_assoc, take_drop. split; [done|]. destruct Hf as (i & Hi & Ha & He & Ht & Hr' & Hh & Hh').
      cbn in Hs. rewrite Hh in Hs. injection Hs as <-. exists i. cbn.
      by rewrite Ht, lookup_insert_eq, insert_insert_eq.
  - intros [[|n]|[]]; try (apply leads_ret; done); apply leads_throw; intros st (t & _ & Hf); eauto with stages.
Qed.

Lemma fill_leads fuel d f m p :
  leads (filling d f []) (fill_replacement fuel f data m p)
    (fun _ st => filled d st /\ filling d f data st) unharmed.
Proof.
  eapply leads_bind; [by apply writeAll_leads|]. intros [].
  eapply leads_bind; [apply leads_look; eauto with stages|]. intros [].
  eapply leads_bind; [apply leads_look; eauto with stages|]. intros [].
  apply leads_guarded.
  - intros _ st [Hf _]. apply unharmed_safe. eauto with stages.
  - eauto with stages.
  - intros [] st st' (i & Hi & Ha & He & Ht & Hr & Hh & Hd) Hs. cbn in Hs. rewrite Hh in Hs. injection Hs as <-.
    split; exists i; cbn; split_and!; try done; set_solver.
  - intros e st st' Hf [= <-]. eauto with stages.
Qed.

Lemma owned_leads fuel d f m p :
  leads (filling d f []) (owned f (fill_replacement fuel f data m p))
    (fun _ st => filled d st /\ filling d f data st) unharmed.
Proof.
  intros c Hc. apply follows_owned. eapply follows_mono; [exact (fill_leads fuel d f m p c Hc)|].
  intros [[]|e] c' Hc'; [done|]. apply (watch_on unharmed unharmed); [done|apply unharmed_safe|].
  intros st st' Hu [= <-]. by eapply (unharmed_step st _ (EvClose f)).
Qed.

Lemma close_leads d f :
  leads (fun st => filled d st /\ filling d f data st) (close_checked (ioError "close config replacement") f)
    (fun _ => filled d) unharmed.
Proof.
  apply leads_guarded; [eauto with stages..| |].
  - intros [] st st' [(i & Hi & Ha & He & Ht & Hr & Hd & Hs) _] [= <-]. exists i. split_and!; try done.
    cbn. rewrite lookup_delete_None. by right.
  - intros e st st' [_ Hf] [= <-]. apply filling_unharmed in Hf. by eapply (unharmed_step st _ (EvClose f)).
Qed.

Lemma renamed_leads d :
  leads (filled d) (renameat (ioError "replace config") d aside d name) (fun _ => renamed d) unharmed.
Proof.
  apply leads_guarded; [eauto with stages..| |].
  - intros [] st st' (i & Hi & Ha & He & Ht & Hr & Hd & Hs) Hst. cbn in Hst. rewrite decide_True in Hst by done.
    rewrite He, lookup_insert_eq in Hst. injection Hst as <-. exists i. cbn.
    rewrite Ht, lookup_insert_eq, delete_insert_id by done. done.
  - intros e st st' Hf [= <-]. eauto with stages.
Qed.

Lemma settled_leads d :
  leads (renamed d) (fsync (ioError "sync config directory") d)
    (fun _ st => renamed d st /\ settled st = true) unharmed.
Proof.
  apply leads_guarded; [|eauto with stages| |].
  - intros _ st [Hr _]. apply unharmed_safe. eauto with stages.
  - intros [] st st' Hf Hst. pose proof Hf as (i & Ha & He & Ht & Hs & Hr & Hd). cbn in Hst.
    rewrite Hd, decide_True in Hst by done. injection Hst as <-. split; [|done]. by exists i.
  - intros e st st' Hf [= <-]. eauto with stages.
Qed.
End Stages.

(** What a replacement that succeeded leaves. *)
Definition replaced (st : folder) : Prop :=
  (exists i, entries st = <[name := i]> E0 /\ texts st !! i = Some data /\ i ∈ synced st) /\ settled st = true.

(** What one that failed leaves: a stray replacement at most. *)
Definition kept (st : folder) : Prop := exists u, unharmed u st.

Lemma kept_safe : safe kept.
Proof. intros st (u & Hu). by eapply unharmed_safe. Qed.

Lemma replaced_safe : safe replaced.
Proof. intros st ((i & He & Ht & Hs) & _). exists i. rewrite He, lookup_insert_eq. auto. Qed.

Lemma looking_kept d st : looking d st -> kept st.
Proof. intros Hl. exists []. by eapply looking_unharmed. Qed.

Lemma looking_safe d : safe (looking d).
Proof. intros st Hl. eapply kept_safe, looking_kept, Hl. Qed.

#[local] Hint Resolve kept_safe replaced_safe looking_kept looking_safe : stages.
#[local] Hint Extern 1 (forall _ _, folder_step _ _ = Some _) => (by intros []) : stages.

Lemma leads_mono {A} P (m : M W AgentError A) Q Z Q' Z' :
  leads P m Q Z -> (forall a st, Q a st -> Q' a st) -> (forall st, Z st -> Z' st) -> leads P m Q' Z'.
Proof.
  intros Hm HQ HZ c Hc. eapply follows_mono; [by apply Hm|]. intros [a|e] [st|]; cbn; auto.
Qed.

(** A call that the folder does not take part in. *)
Lemma leads_aside {A} P (f : W -> A * W) ev Z :
  safe P -> (forall a st, folder_step st (ev a) = Some st) -> leads P (prim f ev) (fun _ => P) Z.
Proof. intros HP Hs. apply leads_prim; [done|]. intros a st st'. rewrite Hs. by intros Hp [= <-]. Qed.

Lemma replaced_close f Z : leads replaced (close f) (fun _ => replaced) Z.
Proof. apply leads_prim; [eauto with stages|]. by intros _ st st' Hr [= <-]. Qed.

Lemma kept_close f : leads kept (close f) (fun _ => kept) kept.
Proof.
  apply leads_prim; [eauto with stages|]. intros _ st st' (u & Hu) [= <-]. exists u.
  by eapply (unharmed_step _ st _ (EvClose f)).
Qed.

Lemma install_leads fuel d m p :
  leads (looking d) (install_replacement fuel d name m data p) (fun _ => replaced) kept.
Proof.
  eapply leads_bind; [apply leads_aside; eauto with stages|]. intros u. cbv beta.
  apply (leads_mono _ _ (fun _ => replaced) (unharmed u)); [|done|by exists u].
  apply (leads_bind _ _ _ (fun f => filling u d f [])).
  - apply leads_guarded; [|apply unharmed_safe| |].
    + intros f st Hf. eapply unharmed_safe, filling_unharmed, Hf.
    + intros f st st' (He & Ht & Hr & Hd) Hs. cbn in Hs. rewrite decide_True in Hs by done.
      case_decide as Hf; [|done]. rewrite He in Hs. destruct (E0 !! replacement_name name u) as [j|] eqn:Ea; [done|].
      injection Hs as <-. eexists. cbn. rewrite Ht. split_and!; try done.
      * apply not_elem_of_dom, is_fresh.
      * by rewrite lookup_insert_eq.
      * rewrite lookup_insert_ne; [done|]. intros ->. by destruct Hf.
    + intros e st st' Hl [= <-]. by eapply looking_unharmed.
  - intros f. eapply (leads_deferred _ _ _ (fun _ st => renamed u d st /\ settled st = true)); [| |apply unharmed_unlink].
    + eapply leads_bind; [apply owned_leads|]. intros []. eapply leads_bind; [apply close_leads|]. intros [].
      eapply leads_bind; [apply leads_look; eauto using filled_unharmed, unharmed_safe with stages|].
      { intros st Hf. eapply unharmed_safe, filled_unharmed, Hf. }
      intros current. destruct (negb _); [apply leads_throw; intros st Hf; by eapply filled_unharmed|].
      eapply leads_bind; [apply renamed_leads|]. intros []. apply settled_leads.
    + intros []. apply (leads_bind _ _ _ (fun _ => replaced)); [|intros r; apply leads_ret; auto].
      apply leads_prim; [eauto with stages|]. intros r st st' [(i & Ha & He & Ht & Hs & Hr & Hd) Hset] Hst.
      assert (entries st !! replacement_name name u = None) as Hn.
      { by rewrite He, lookup_insert_ne by (apply not_eq_sym, aside_other). }
      cbn in Hst. destruct r as [[]|e]; [rewrite decide_True, Hn in Hst by done; done|]. injection Hst as <-.
      split; [by exists i|done].
Qed.

Lemma replace_leads fuel path p : lastPathComponent path = name ->
  leads started (replaceConfigFile fuel path data p) (fun _ => replaced) kept.
Proof.
  intros Hp. assert (forall st, started st -> kept st) as Hk.
  { intros st (He & Ht & _). exists []. by apply safe_start. }
  assert (safe started) as Hs by (intros st Hst; by apply kept_safe, Hk).
  unfold replaceConfigFile. rewrite Hp.
  eapply leads_bind; [apply leads_aside; eauto with stages|]. intros d0. cbv beta.
  apply (leads_bind _ _ _ looking).
  { apply leads_guarded; [eauto with stages..| |].
    - intros d st st' (He & Ht & Hh) Hst. cbn in Hst. injection Hst as <-. repeat split; try done. cbn. by rewrite Hh.
    - intros e st st' Hst [= <-]. auto. }
  intros d. eapply (leads_scoped _ _ _ (fun _ => replaced)); [|intros []; apply replaced_close|apply kept_close].
  eapply leads_bind.
  { eapply leads_bind; [apply leads_look; eauto with stages|]. intros m.
    eapply leads_bind; [apply leads_aside; eauto with stages|]. intros uid. cbv beta.
    instantiate (1 := fun _ => looking d). destruct (_ && _); [by apply leads_ret|apply leads_throw; eauto with stages]. }
  intros []. apply (leads_bind _ _ _ (fun _ => looking d)).
  { apply leads_guarded; [eauto with stages..| |].
    - intros f st st' Hl Hst. pose proof Hl as (He & Ht & Hr & Hd). cbn in Hst. rewrite decide_True in Hst by done.
      case_decide as Hf; [|done]. rewrite He, Hname in Hst. injection Hst as <-. repeat split; try done. cbn.
      rewrite lookup_insert_ne; [done|]. intros ->. by destruct Hf.
    - intros e st st' Hl [= <-]. eauto with stages. }
  intros g. eapply (leads_scoped _ _ _ (fun _ => replaced)); [|intros []; apply replaced_close|apply kept_close].
  eapply leads_bind; [apply leads_look; eauto with stages|]. intros m.
  eapply leads_bind.
  { eapply leads_bind; [apply leads_aside; eauto with stages|]. intros uid. cbv beta.
    instantiate (1 := fun _ => looking d). intros c Hc. apply follows_done. destruct c as [st|]; [|by case_match].
    case_match; [done|]. eapply looking_kept, Hc. }
  intros []. apply install_leads.
Qed.
End Replace.

Lemma folder_run_app st e1 e2 :
  folder_run st (e1 ++ e2) = match folder_run st e1 with Some st1 => folder_run st1 e2 | None => None end.
Proof. revert st. induction e1 as [|e e1 IH]; intros st; [done|]. cbn. by destruct (folder_step st e). Qed.

(** What a success installs. *)
Lemma replaceConfigFile_installs `{Kernel W} `{MacFiles W} `{FileURL} fuel path data p (s s' : state W) :
  replaceConfigFile fuel path data p s = (Done (Ok tt), s') -> exists evs, made s s' evs /\
    forall st st' i old, handles st = ∅ -> entries st !! lastPathComponent path = Some i ->
      texts st !! i = Some old -> folder_run st evs = Some st' ->
      exists j, entries st' = <[lastPathComponent path := j]> (entries st) /\
        texts st' !! j = Some data /\ j ∈ synced st' /\ settled st' = true.
Proof.
  intros HR. assert (exists evs, made s s' evs) as (evs & M).
  { apply neutral_replaceConfigFile in HR as (evs & ? & _). by exists evs. }
  exists evs. split; [done|]. intros st st' i old Hh Hi Hold Hst.
  destruct (replace_leads _ old data _ _ i Hi Hold fuel path p eq_refl (Some st) (conj eq_refl (conj eq_refl Hh)) s)
    as (evs' & c & M' & Hrun & Hend).
  rewrite HR in M', Hend. cbn in M', Hend. pose proof (made_inj _ _ _ _ M' M) as ->.
  apply (watched _ old data) in Hrun as [-> _]; [|by exists i; auto].
  rewrite Hst in Hend. destruct Hend as ((j & ? & ? & ?) & ?). by exists j.
Qed.

(** No moment at which others can read private material: a file is created
    for its owner, and private material stays so. *)
Definition discreet (privateMaterial : bool) (e : event) : Prop :=
  match e with
  | EvOpen _ flags m _ | EvOpenat _ _ flags m _ => O_CREAT ∈ flags -> N.land m 0x3f = 0
  | EvMac (EvFile (EvFchmod _ m _)) => privateMaterial = true -> N.land m 0x3f = 0
  | _ => True
  end.

Section Discreet.
Context `{Kernel W} `{MacFiles W} `{FileURL}.

Lemma emits_guarded {A} (P : event -> Prop) error (f : W -> result A errno * W) ev :
  (forall r, P (ev r)) -> emits P (guarded error (prim f ev)).
Proof. intros HP. unfold guarded. apply respects_bind; [apply _|by apply emits_prim|]. intros r. apply respects_lift, _. Qed.

Lemma discreet_replace fuel path data p : emits (discreet p) (replaceConfigFile (W := W) fuel path data p).
Proof.
  unfold replaceConfigFile, check_directory, install_replacement, fill_replacement, writeAll, writeAll_round,
    validateFileMetadata, geteuid, uuidString, resolved_parent, unlinkat.
  repeat first [progress respects_tac | apply emits_scoped | apply emits_deferred | apply emits_owned
    | apply emits_guarded; intros r | by apply emits_prim]; try done; cbn.
  intros ->. by rewrite <- N.land_assoc, N.land_0_r.
Qed.
End Discreet.

(** C11: a configuration is replaced whole or not at all.  Under the laws of a
    directory, whatever else the kernel answers and wherever the run of
    [replaceConfigFile] is cut short, its name leads to the old text or to all
    of the new text, which is then on the disk; a success leaves the new text
    and changes no other name, a failure leaves at most the replacement behind.
    Every descriptor is closed, and private material is at no moment readable
    by others. *)
Theorem config_replaced_whole `{Kernel W} `{MacFiles W} `{FileURL} fuel path data privateMaterial
  (s s' : state W) o evs st old i :
  replaceConfigFile fuel path data privateMaterial s = (o, s') -> made s s' evs ->
  handles st = ∅ -> entries st !! lastPathComponent path = Some i -> texts st !! i = Some old ->
  (forall pre post st', evs = pre ++ post -> folder_run st pre = Some st' ->
     whole (lastPathComponent path) old data st') /\
  (forall st', folder_run st evs = Some st' ->
     match o with
     | Done (Ok _) => exists j, entries st' = <[lastPathComponent path := j]> (entries st) /\
         texts st' !! j = Some data /\ j ∈ synced st' /\ settled st' = true
     | Done (Err _) => exists u, forall n, n <> lastPathComponent path ->
         n <> replacement_name (lastPathComponent path) u -> entries st' !! n = entries st !! n
     | _ => True
     end) /\
  (forall g, match o with Done _ => balance evs g = 0%Z | _ => True end) /\
  Forall (discreet privateMaterial) evs.
Proof.
  intros HR M Hh Hi Hold.
  destruct (replace_leads _ old data _ _ i Hi Hold fuel path privateMaterial eq_refl (Some st) (conj eq_refl (conj eq_refl Hh)) s)
    as (evs' & c & M' & Hrun & Hend).
  rewrite HR in M', Hend. cbn in M', Hend. pose proof (made_inj _ _ _ _ M' M) as ->.
  apply (watched _ old data) in Hrun as [-> Hpre]; [|by exists i; auto].
  split_and!; [done| | |].
  - intros st' Hst. rewrite Hst in Hend. destruct o as [[[]|e]| |]; [|destruct Hend as (u & _ & Ho); by exists u|done..].
    destruct Hend as ((j & ? & ? & ?) & ?). by exists j.
  - intros g. destruct o as [r| |]; [|done..]. apply neutral_replaceConfigFile in HR as (e & Me & Hb).
    pose proof (made_inj _ _ _ _ Me M) as ->. rewrite Hb. by destruct r.
  - destruct (emits_run _ _ _ _ _ (discreet_replace fuel path data privateMaterial) HR) as (e & Me & HF).
    by pose proof (made_inj _ _ _ _ Me M) as ->.
Qed.
