(* ===== verification/MacKeys.v ===== *)
(** * Keys of the agent ([src/agent/Sources/MacosAuthAgent/main.swift])

    Hexadecimal text, key files ([readKeyMaterial]), the keychain, and the
    commands that make and show keys.

    A [String] is its UTF-8 bytes; its [Character]s, what Foundation trims, and
    whether data is text are the class [SwiftString].  The raw forms of keys are
    CryptoKit's ([KitKeys]), the items of the keychain are the class
    [Keychain].  Names of options and of commands are compared byte by byte:
    no other text is canonically equivalent to one of them. *)

From Stdlib Require Import NArith ZArith Lia List Bool.
From Stdlib Require Import Strings.Byte Strings.String.
From stdpp Require Import base decidable list option strings gmap.
From S2P Require Import Prelude RustStd Crypto Protocol Sys Ownership Io CacheSpec.
From S2P Require Import MacProtocol RateLimiter MacAgent MacFiles.

Open Scope N_scope.

(** ** Parameters *)

Class SwiftString := {
  characters : bytes -> list bytes;
  trimmed : bytes -> bytes;
  string_of_data : bytes -> option bytes;
}.

Class KitKeys (W : Type) `{CryptoKit W} := {
  private_of_raw : bytes -> option PrivateKey;
  raw_of_private : PrivateKey -> bytes;
  public_of_private : PrivateKey -> PublicKey;
  public_of_raw : bytes -> option PublicKey;
  raw_of_public : PublicKey -> bytes;
  k_generate : W -> PrivateKey * W;
}.

(** The item of a service and an account; a status is an [OSStatus], and an
    item that was found may hold no data. *)
Class Keychain (W : Type) := {
  k_item_update : bytes -> bytes -> bytes -> W -> Z * W;
  k_item_add : bytes -> bytes -> bytes -> W -> Z * W;
  k_item_copy : bytes -> bytes -> W -> (Z * option bytes) * W;
}.

Definition errSecSuccess : Z := 0.
Definition errSecItemNotFound : Z := -25300.

(** ** Hexadecimal *)

Definition hex_digit_of (n : N) : byte := byte_of (if n <? 10 then 48 + n else 87 + n).

(** [String(format: "%02x", $0)] of each byte, joined *)
Definition hexEncode (data : bytes) : bytes :=
  flat_map (fun b => [hex_digit_of (byte_val b / 16); hex_digit_of (byte_val b mod 16)]) data.

Definition hex_digit (b : byte) : option N :=
  if in_range 48 57 b then Some (byte_val b - 48)
  else if in_range 97 102 b then Some (byte_val b - 87)
  else if in_range 65 70 b then Some (byte_val b - 55)
  else None.

Fixpoint add_digits (value : N) (digits : bytes) : option N :=
  match digits with
  | [] => Some value
  | d :: digits =>
      match hex_digit d with
      | Some n => if 255 <? value * 16 + n then None else add_digits (value * 16 + n) digits
      | None => None
      end
  end.

(** Digits after a minus sign are subtracted: only zeros do not overflow. *)
Fixpoint subtract_digits (digits : bytes) : option N :=
  match digits with
  | [] => Some 0
  | d :: digits => if bool_decide (hex_digit d = Some 0) then subtract_digits digits else None
  end.

(** [UInt8(_, radix: 16)] *)
Definition uint8_radix16 (text : bytes) : option N :=
  match text with
  | [] => None
  | b :: digits =>
      if bool_decide (b = x2b) then match digits with [] => None | _ => add_digits 0 digits end
      else if bool_decide (b = x2d) then match digits with [] => None | _ => subtract_digits digits end
      else add_digits 0 (b :: digits)
  end.

(** The loop of [hexDecode]; [index(_, offsetBy: 2)] past the end would trap,
    but there is an even number of characters. *)
Fixpoint decode_pairs (characters : list bytes) : result bytes AgentError :=
  match characters with
  | a :: b :: characters =>
      match uint8_radix16 (a ++ b) with
      | Some n => let? bytes := decode_pairs characters in Ok (byte_of n :: bytes)
      | None => Err (invalidHex "pair")
      end
  | _ => Ok []
  end.

Definition hexDecode `{SwiftString} (string : bytes) : result bytes AgentError :=
  let pairs := characters (trimmed string) in
  guard! (length pairs mod 2 =? 0)%nat else invalidHex "odd length" ;; decode_pairs pairs.

(** ** Key files *)

(** [split(separator: "\n", omittingEmptySubsequences: false)] *)
Fixpoint split_newlines (characters : list bytes) : list (list bytes) :=
  match characters with
  | [] => [[]]
  | c :: characters =>
      let lines := split_newlines characters in
      if bool_decide (c = [x0a]) then [] :: lines
      else match lines with line :: lines => (c :: line) :: lines | [] => [[c]] end
  end.

(** From the character after the first [=]; [None] if there is none. *)
Fixpoint after_equals (characters : list bytes) : option (list bytes) :=
  match characters with
  | [] => None
  | c :: characters => if bool_decide (c = [x3d]) then Some characters else after_equals characters
  end.

Section KeyText.
Context `{SwiftString}.

(** The loop of [readKeyMaterial] over the lines. *)
Fixpoint key_of_lines (lines : list (list bytes)) : option bytes :=
  match lines with
  | [] => None
  | rawLine :: lines =>
      let line := trimmed (concat rawLine) in
      if bool_decide (line = []) || bool_decide (head (characters line) = Some [x23]) then key_of_lines lines
      else match after_equals (characters line) with
           | Some value => Some (trimmed (concat value))
           | None => Some line
           end
  end.

Definition key_text (contents : bytes) : option bytes := key_of_lines (split_newlines (characters contents)).
End KeyText.

Section Keys.
Context `{Kernel W} `{MacFiles W} `{FileURL} `{SwiftString} `{CryptoKit W} `{!KitKeys W} `{Keychain W}.

Definition readKeyMaterial (hex file : option bytes) (privateMaterial : bool) : M W AgentError bytes :=
  match hex, file with
  | Some _, Some _ => throw (usage "provide only one source")
  | Some hex, None => ret (trimmed hex)
  | None, None => throw (usage "missing")
  | None, Some file =>
      let! (data, _) := readSafeFile file privateMaterial in
      match string_of_data data with
      | None => throw (invalidPayload "is not UTF-8")
      | Some contents => lift (ok_or (key_text contents) (invalidPayload "file is empty"))
      end
  end.

(** [Curve25519.Signing.PrivateKey(rawRepresentation: Data(hexDecode(hex)))] *)
Definition private_key_of_hex (hex : bytes) : result PrivateKey AgentError :=
  let? raw := hexDecode hex in ok_or (private_of_raw raw) coding.
Definition public_key_of_hex (hex : bytes) : result PublicKey AgentError :=
  let? raw := hexDecode hex in ok_or (public_of_raw raw) coding.

Definition newPrivateKey : M W AgentError PrivateKey :=
  prim k_generate (fun _ => EvMac (EvFile EvGenerate)).

(** ** The keychain *)

Definition secItemUpdate (service account data : bytes) : M W AgentError Z :=
  file_prim (k_item_update service account data) (EvKeychainUpdate service account).
Definition secItemAdd (service account data : bytes) : M W AgentError Z :=
  file_prim (k_item_add service account data) (EvKeychainAdd service account).
Definition secItemCopyMatching (service account : bytes) : M W AgentError (Z * option bytes) :=
  file_prim (k_item_copy service account) (fun r => EvKeychainRead service account r.1).

(** From [SecItemAdd] on. *)
Definition add_keychain_item (service account data : bytes) : M W AgentError unit :=
  let! status := secItemAdd service account data in
  if decide (status = errSecSuccess) then ret tt else throw (ioError "failed to add keychain item").

Definition storePrivateKeyInKeychain (privateKey : PrivateKey) (service account : bytes) (overwrite : bool)
  : M W AgentError unit :=
  let data := raw_of_private privateKey in
  if overwrite then
    let! status := secItemUpdate service account data in
    if decide (status = errSecSuccess) then ret tt
    else if decide (status = errSecItemNotFound) then add_keychain_item service account data
    else throw (ioError "failed to update keychain item")
  else add_keychain_item service account data.

Definition loadPrivateKeyFromKeychain (service account : bytes) : M W AgentError PrivateKey :=
  let! (status, item) := secItemCopyMatching service account in
  if decide (status = errSecSuccess) then
    match item with
    | Some data => lift (ok_or (private_of_raw data) coding)
    | None => throw (ioError "keychain item did not contain data")
    end
  else throw (ioError "failed to read keychain item").

(** ** The commands for keys *)

Record InitKeyOptions : Type := { privateKeyFile : bytes; publicKeyFile : option bytes }.
Record PrintPublicKeyOptions : Type := {
  pp_agentKeyHex : option bytes;
  pp_agentKeyFile : option bytes;
  pp_keychainService : option bytes;
  pp_keychainAccount : option bytes;
}.
Record KeychainInitOptions : Type := { ki_service : bytes; ki_account : bytes; overwrite : bool }.
Record KeychainPublicKeyOptions : Type := { kp_service : bytes; kp_account : bytes }.

(** [print]: the text and a newline. *)
Definition print {E} (text : bytes) : M W E unit := stdout (text ++ [x0a]).

Definition print_public_key {E} (privateKey : PrivateKey) : M W E unit :=
  print (B "public_key_hex=" ++ hexEncode (raw_of_public (public_of_private privateKey))).

Definition runInitKey (fuel : nat) (options : InitKeyOptions) : M W AgentError unit :=
  let! privateKey := newPrivateKey in
  let privateKeyHex := hexEncode (raw_of_private privateKey) in
  let publicKeyHex := hexEncode (raw_of_public (public_of_private privateKey)) in
  do! writeNewFile fuel (privateKeyFile options) (B "private_key_hex=" ++ privateKeyHex ++ [x0a]) 0x180 ;;
  do! match publicKeyFile options with
      | Some file => writeNewFile fuel file (B "public_key_hex=" ++ publicKeyHex ++ [x0a]) 0x1a4
      | None => ret tt
      end ;;
  print_public_key privateKey.

Definition runPrintPublicKey (options : PrintPublicKeyOptions) : M W AgentError unit :=
  let! privateKey :=
    match pp_keychainService options, pp_keychainAccount options with
    | Some service, Some account => loadPrivateKeyFromKeychain service account
    | _, _ =>
        let! agentKeyHex := readKeyMaterial (pp_agentKeyHex options) (pp_agentKeyFile options) true in
        lift (private_key_of_hex agentKeyHex)
    end in
  print_public_key privateKey.

Definition runKeychainInit (options : KeychainInitOptions) : M W AgentError unit :=
  let! privateKey := newPrivateKey in
  do! storePrivateKeyInKeychain privateKey (ki_service options) (ki_account options) (overwrite options) ;;
  print_public_key privateKey.

Definition runKeychainPublicKey (options : KeychainPublicKeyOptions) : M W AgentError unit :=
  let! privateKey := loadPrivateKeyFromKeychain (kp_service options) (kp_account options) in
  print_public_key privateKey.
End Keys.
