(* ===== verification/MacConfig.v ===== *)
(** * The configuration of the agent ([src/agent/Sources/MacosAuthAgent/main.swift])

    [AgentConfig] with the hosts it allows; how it is read and written, edited
    by [hosts], and turned into the [AgentRuntime] that the handler of a
    connection is given.  The JSON of the configuration and of the test vector
    is the class [ConfigCoder]. *)

From Stdlib Require Import NArith ZArith Lia List Bool.
From Stdlib Require Import Strings.Byte Strings.String.
From stdpp Require Import base decidable list option strings gmap.
From S2P Require Import Prelude RustStd Crypto Protocol Sys Ownership Io CacheSpec.
From S2P Require Import MacProtocol RateLimiter MacAgent MacFiles MacKeys.

Open Scope N_scope.

Record AllowedHost : Type := {
  ah_hostId : bytes;
  ah_publicKeyHex : option bytes;
  ah_publicKeyFile : option bytes;
}.

Module AgentConfig.
Record t : Type := mk {
  socketPath : bytes;
  hosts : option (list AllowedHost);
  hostPublicKeyHex : option bytes;
  hostPublicKeyFile : option bytes;
  agentKeyHex : option bytes;
  agentKeyFile : option bytes;
  agentKeychainService : option bytes;
  agentKeychainAccount : option bytes;
  agentKeyId : option bytes;
  allowedFutureSkewMs : option N;
  requireConfirmation : option bool;
  rateLimitWindowSeconds : option N;
  rateLimitMaxRequests : option Z;
}.

(** [config.hosts = hosts] *)
Definition with_hosts (hosts : list AllowedHost) (config : t) : t :=
  mk (socketPath config) (Some hosts) (hostPublicKeyHex config) (hostPublicKeyFile config)
    (agentKeyHex config) (agentKeyFile config) (agentKeychainService config) (agentKeychainAccount config)
    (agentKeyId config) (allowedFutureSkewMs config) (requireConfirmation config)
    (rateLimitWindowSeconds config) (rateLimitMaxRequests config).

(** [config.hosts ?? []] *)
Definition host_list (config : t) : list AllowedHost := default [] (hosts config).

(** [config.agentKeyHex != nil] *)
Definition inline_key (config : t) : bool := match agentKeyHex config with Some _ => true | None => false end.
End AgentConfig.

Record ProtocolTestVector : Type := {
  hostPublicKeyHex : bytes;
  agentPublicKeyHex : bytes;
  requestHashHex : bytes;
  vector_request : MacRequest.signed;
  vector_response : MacResponse.signed;
}.

Class ConfigCoder := {
  decode_config : bytes -> option AgentConfig.t;
  encode_config : AgentConfig.t -> option bytes;
  decode_vector : bytes -> option ProtocolTestVector;
}.

Record HostsOptions : Type := {
  ho_command : bytes;
  ho_configPath : bytes;
  ho_hostId : option bytes;
  ho_publicKeyHex : option bytes;
  ho_publicKeyFile : option bytes;
}.

Section Config.
Context `{Kernel W} `{MacFiles W} `{FileURL} `{SwiftString} `{SwiftText} `{CryptoKit W} `{!KitKeys W} `{Keychain W}.
Context `{ConfigCoder} `{Crypto}.

(** [==] on [String] *)
Definition same_string (a b : bytes) : bool := bool_decide (normal_form a = normal_form b).

(** ** Reading and writing *)

Definition loadAgentConfig (path : bytes) : M W AgentError AgentConfig.t :=
  let! (data, metadata) := readSafeFile path false in
  let! config := lift (ok_or (decode_config data) coding) in
  if AgentConfig.inline_key config then do! validateFileMetadata metadata true ;; ret config
  else ret config.

Definition writeAgentConfig (fuel : nat) (config : AgentConfig.t) (path : bytes) : M W AgentError unit :=
  let! data := lift (ok_or (encode_config config) coding) in
  replaceConfigFile fuel path data (AgentConfig.inline_key config).

(** ** The runtime *)

(** The loop of [hostVerifiers]. *)
Fixpoint add_verifiers (hosts : list AllowedHost) (verifiers : gmap bytes (HostVerifier (W := W)))
  : M W AgentError (gmap bytes (HostVerifier (W := W))) :=
  match hosts with
  | [] => ret verifiers
  | host :: hosts =>
      let! publicKeyHex := readKeyMaterial (ah_publicKeyHex host) (ah_publicKeyFile host) false in
      match verifiers !! normal_form (ah_hostId host) with
      | Some _ => throw (invalidPayload "duplicate host_id")
      | None =>
          let! publicKey := lift (public_key_of_hex publicKeyHex) in
          add_verifiers hosts
            (<[normal_form (ah_hostId host) := {| hostId := ah_hostId host; publicKey := publicKey |}]> verifiers)
      end
  end.

Definition hostVerifiers_from (config : AgentConfig.t) : M W AgentError (gmap bytes (HostVerifier (W := W))) :=
  match AgentConfig.hosts config with
  | Some (host :: hosts) => add_verifiers (host :: hosts) ∅
  | _ =>
      let! publicKeyHex :=
        readKeyMaterial (AgentConfig.hostPublicKeyHex config) (AgentConfig.hostPublicKeyFile config) false in
      let! publicKey := lift (public_key_of_hex publicKeyHex) in
      ret {[normal_form (B "*") := {| hostId := B "*"; publicKey := publicKey |}]}
  end.

Definition agent_private_key (config : AgentConfig.t) : M W AgentError PrivateKey :=
  match AgentConfig.agentKeychainService config, AgentConfig.agentKeychainAccount config with
  | Some service, Some account =>
      match AgentConfig.agentKeyHex config, AgentConfig.agentKeyFile config with
      | None, None => loadPrivateKeyFromKeychain service account
      | _, _ => throw (usage "provide either agent key file/hex or keychain source, not both")
      end
  | _, _ =>
      let! agentKeyHex :=
        readKeyMaterial (AgentConfig.agentKeyHex config) (AgentConfig.agentKeyFile config) true in
      lift (private_key_of_hex agentKeyHex)
  end.

(** [runtime(from:)] *)
Definition runtime_from (config : AgentConfig.t) : M W AgentError (AgentRuntime (W := W)) :=
  let! hostVerifiers := hostVerifiers_from config in
  let! agentPrivateKey := agent_private_key config in
  ret {|
    hostVerifiers := hostVerifiers;
    agentPrivateKey := agentPrivateKey;
    agentKeyId := default (B "agent-key-1") (AgentConfig.agentKeyId config);
    allowedFutureSkewMs := default 30000 (AgentConfig.allowedFutureSkewMs config);
    requireConfirmation := default false (AgentConfig.requireConfirmation config);
    rateLimiter := RateLimiter.init (default 60 (AgentConfig.rateLimitWindowSeconds config))
                     (default 5%Z (AgentConfig.rateLimitMaxRequests config));
  |}.

(** ** [hosts] *)

Definition add_host (host : AllowedHost) (config : AgentConfig.t) : result AgentConfig.t AgentError :=
  let hosts := AgentConfig.host_list config in
  if existsb (fun h => same_string (ah_hostId h) (ah_hostId host)) hosts
  then Err (invalidPayload "host already exists")
  else Ok (AgentConfig.with_hosts (hosts ++ [host]) config).

Definition remove_host (hostId : bytes) (config : AgentConfig.t) : result AgentConfig.t AgentError :=
  let oldHosts := AgentConfig.host_list config in
  let newHosts := List.filter (fun h => negb (same_string (ah_hostId h) hostId)) oldHosts in
  if decide (length newHosts = length oldHosts) then Err (invalidPayload "host not found")
  else Ok (AgentConfig.with_hosts newHosts config).

Definition host_line (host : AllowedHost) : bytes :=
  let source := match ah_publicKeyFile host, ah_publicKeyHex host with
                | Some file, _ => file
                | None, Some _ => B "<inline>"
                | None, None => B "<missing>"
                end in
  ah_hostId host ++ B " " ++ source.

Fixpoint print_hosts (hosts : list AllowedHost) : M W AgentError unit :=
  match hosts with
  | [] => ret tt
  | host :: hosts => do! print (host_line host) ;; print_hosts hosts
  end.

(** [options.hostId!] traps on [nil]. *)
Definition runHosts (fuel : nat) (options : HostsOptions) : M W AgentError unit :=
  let! config := loadAgentConfig (ho_configPath options) in
  if decide (ho_command options = B "list") then print_hosts (AgentConfig.host_list config)
  else if decide (ho_command options = B "add") then
    match ho_hostId options with
    | None => panic
    | Some hostId =>
        let host := {| ah_hostId := hostId; ah_publicKeyHex := ho_publicKeyHex options;
                       ah_publicKeyFile := ho_publicKeyFile options |} in
        let! config := lift (add_host host config) in
        writeAgentConfig fuel config (ho_configPath options)
    end
  else if decide (ho_command options = B "remove") then
    match ho_hostId options with
    | None => panic
    | Some hostId =>
        let! config := lift (remove_host hostId config) in
        writeAgentConfig fuel config (ho_configPath options)
    end
  else throw (usage "unknown hosts subcommand").

(** ** [verify-vector] *)

(** What [runVerifyVector] checks of a vector. *)
Definition check_vector (vector : ProtocolTestVector) : result unit AgentError :=
  let? hostPublicKey := public_key_of_hex (hostPublicKeyHex vector) in
  let? agentPublicKey := public_key_of_hex (agentPublicKeyHex vector) in
  let request := vector_request vector in
  let response := vector_response vector in
  let? requestBytes := MacRequest.canonicalBytes (MacRequest.body request) in
  guard! isValidSignature hostPublicKey (MacRequest.signature request) requestBytes else invalidSignature ;;
  let? requestHash := MacRequest.sha256 (MacRequest.body request) in
  guard! same_string (hexEncode requestHash) (requestHashHex vector)
    else invalidPayload "request hash mismatch" ;;
  guard! same_string (MacResponse.requestId (MacResponse.body response)) (MacRequest.requestId (MacRequest.body request))
    && bool_decide (MacResponse.nonce (MacResponse.body response) = MacRequest.nonce (MacRequest.body request))
    && bool_decide (MacResponse.requestHash (MacResponse.body response) = requestHash)
    && same_string (MacResponse.linuxHostId (MacResponse.body response)) (MacRequest.linuxHostId (MacRequest.body request))
    && same_string (MacResponse.pamService (MacResponse.body response)) (MacRequest.pamService (MacRequest.body request))
    && same_string (MacResponse.pamUser (MacResponse.body response)) (MacRequest.pamUser (MacRequest.body request))
    else invalidPayload "response binding mismatch" ;;
  let? responseBytes := MacResponse.canonicalBytes (MacResponse.body response) in
  guard! isValidSignature agentPublicKey (MacResponse.signature response) responseBytes else invalidSignature ;;
  Ok tt.

Definition runVerifyVector (path : bytes) : M W AgentError unit :=
  let! data := guarded coding (file_prim (k_contents path) (EvContents path)) in
  let! vector := lift (ok_or (decode_vector data) coding) in
  do! lift (check_vector vector) ;;
  print (B "ok").
End Config.
