(* ===== verification/MacKeysProps.v ===== *)
(** * The keys that the agent reads and writes ([MacKeys])

    A key read from a file comes from a file that [read_safely] accounts for.
    A key file that [init-key] writes is read back by the agent and by the
    helper on the host, each with its own reader. *)

From Stdlib Require Import NArith ZArith Lia List Bool.
From Stdlib Require Import Strings.Byte Strings.String.
From stdpp Require Import base decidable list option strings gmap.
From S2P Require Import Prelude RustStd Crypto Protocol Sys Ownership Io Frame Trust Common Keys CacheSpec.
From S2P Require Import MacProtocol RateLimiter MacAgent MacAgentProps MacFiles MacFilesProps MacKeys.

Open Scope N_scope.

(** What Swift documents of text in ASCII: a character is a byte, except for
    a carriage return before a newline; there is nothing to trim from letters,
    digits and signs; and it is UTF-8. *)
Class SwiftStringLaws `{SwiftString} := {
  characters_ascii b : Forall (fun c => byte_val c < 128 /\ c <> x0d) b -> characters b = map (fun c => [c]) b;
  trimmed_graphic b : forallb is_graphic b = true -> trimmed b = b;
  string_of_ascii b : Forall (fun c => byte_val c < 128) b -> string_of_data b = Some b;
}.

(** ** Hexadecimal *)

Lemma hex_digit_of_val n : n < 16 -> hex_digit (hex_digit_of n) = Some n.
Proof.
  intros Hn. assert (n ∈ map N.of_nat (seq 0 16)) as Hin.
  { apply list_elem_of_fmap. exists (N.to_nat n). split; [lia|]. apply elem_of_seq. lia. }
  revert n Hin Hn. cbn. intros n Hin _.
  repeat (apply elem_of_cons in Hin as [->|Hin]; [reflexivity|]). by apply elem_of_nil in Hin.
Qed.

Lemma hex_digit_of_graphic n : n < 16 -> is_graphic (hex_digit_of n) = true /\ hex_digit_of n <> x2b /\ hex_digit_of n <> x2d.
Proof.
  intros Hn. assert (n ∈ map N.of_nat (seq 0 16)) as Hin.
  { apply list_elem_of_fmap. exists (N.to_nat n). split; [lia|]. apply elem_of_seq. lia. }
  revert Hin. cbn. clear Hn. intros Hin.
  repeat (apply elem_of_cons in Hin as [->|Hin]; [by split_and!|]). by apply elem_of_nil in Hin.
Qed.

Lemma byte_digits b : byte_val b / 16 < 16 /\ byte_val b mod 16 < 16.
Proof. pose proof (byte_val_bound b). split; [|apply N.mod_upper_bound; lia]. apply N.Div0.div_lt_upper_bound. lia. Qed.

(** The two digits of a byte, read back. *)
Lemma digits_of_byte b : uint8_radix16 [hex_digit_of (byte_val b / 16); hex_digit_of (byte_val b mod 16)] = Some (byte_val b).
Proof.
  destruct (byte_digits b) as [Hh Hl]. destruct (hex_digit_of_graphic _ Hh) as (_ & Hp & Hm).
  pose proof (byte_val_bound b) as Hb. cbn [uint8_radix16]. rewrite !bool_decide_eq_false_2 by done.
  cbn [add_digits]. rewrite !hex_digit_of_val by done.
  pose proof (N.div_mod (byte_val b) 16 ltac:(lia)) as Hd.
  rewrite (proj2 (N.ltb_ge _ _)) by lia. rewrite (proj2 (N.ltb_ge _ _)) by lia. f_equal. lia.
Qed.

Lemma hexEncode_graphic data : forallb is_graphic (hexEncode data) = true.
Proof.
  induction data as [|b data IH]; [done|]. cbn. destruct (byte_digits b) as [Hh Hl].
  destruct (hex_digit_of_graphic _ Hh) as (-> & _), (hex_digit_of_graphic _ Hl) as (-> & _). exact IH.
Qed.

Lemma graphic_ascii b : forallb is_graphic b = true -> Forall (fun c => byte_val c < 128 /\ c <> x0d) b.
Proof.
  rewrite forallb_forall. intros Hb. apply List.Forall_forall. intros c Hc%Hb. by destruct c.
Qed.

Lemma length_hexEncode data : length (hexEncode data) = (2 * length data)%nat.
Proof. unfold hexEncode. induction data as [|b data IH]; [done|]. cbn. rewrite IH. lia. Qed.

Section Text.
Context `{SL : SwiftStringLaws}.

Lemma hexDecode_hexEncode data : hexDecode (hexEncode data) = Ok data.
Proof.
  unfold hexDecode. rewrite trimmed_graphic by apply hexEncode_graphic.
  rewrite characters_ascii by apply graphic_ascii, hexEncode_graphic.
  cbv zeta. rewrite length_map, length_hexEncode.
  replace (2 * length data)%nat with (length data * 2)%nat by lia. rewrite Nat.Div0.mod_mul. cbn [Nat.eqb].
  unfold hexEncode. induction data as [|b data IH]; [done|]. cbn. pose proof (digits_of_byte b) as Hd. cbn in Hd. rewrite Hd.
  rewrite IH. cbn. by rewrite byte_of_val.
Qed.

Lemma split_newlines_line b : x0a ∉ b ->
  split_newlines (map (fun c => [c]) (b ++ [x0a])) = [map (fun c => [c]) b; []].
Proof.
  induction b as [|c b IH]; cbn; [done|]. rewrite not_elem_of_cons. intros [Hc Hb].
  rewrite bool_decide_eq_false_2 by congruence. by rewrite (IH Hb).
Qed.

Lemma after_equals_value l v : x3d ∉ l ->
  after_equals (map (fun c => [c]) (l ++ x3d :: v)) = Some (map (fun c => [c]) v).
Proof.
  induction l as [|c l IH]; cbn; [done|]. rewrite not_elem_of_cons. intros [Hc Hl].
  rewrite bool_decide_eq_false_2 by congruence. by apply IH.
Qed.

Lemma concat_singletons (b : bytes) : concat (map (fun c => [c]) b) = b.
Proof. induction b as [|c b IH]; [done|]. cbn. by rewrite IH. Qed.

(** A line [label=value] is read back. *)
Lemma key_text_of_line label value :
  forallb is_graphic label = true -> forallb is_graphic value = true -> x3d ∉ label ->
  (exists c r, label = c :: r /\ c <> x23) ->
  key_text (label ++ [x3d] ++ value ++ [x0a]) = Some value.
Proof.
  intros Hl Hv He (c & r & -> & Hc). unfold key_text.
  assert (forallb is_graphic ((c :: r) ++ x3d :: value) = true) as Hg.
  { rewrite forallb_app, Hl. cbn. exact Hv. }
  replace ((c :: r) ++ [x3d] ++ value ++ [x0a]) with (((c :: r) ++ x3d :: value) ++ [x0a])
    by (app_norm; done).
  rewrite characters_ascii.
  2: { apply Forall_app. split; [by apply graphic_ascii|]. by repeat constructor. }
  rewrite split_newlines_line by (by apply (graphic_notin x0a _ Hg)). cbn [key_of_lines].
  rewrite concat_singletons, trimmed_graphic, characters_ascii by (done || by apply graphic_ascii).
  rewrite bool_decide_eq_false_2 by done. rewrite bool_decide_eq_false_2 by (cbn; congruence). cbn [orb].
  rewrite after_equals_value by done. by rewrite concat_singletons, trimmed_graphic.
Qed.
End Text.

(** ** Where a key comes from *)

(** The calls [sub] are among [evs], one after the other. *)
Definition within (sub evs : list event) : Prop := exists pre post, evs = pre ++ sub ++ post.

Lemma within_app_l sub e1 e2 : within sub e1 -> within sub (e1 ++ e2).
Proof. intros (pre & post & ->). exists pre, (post ++ e2). by rewrite <- !app_assoc. Qed.

Lemma within_app_r sub e1 e2 : within sub e2 -> within sub (e1 ++ e2).
Proof. intros (pre & post & ->). exists (e1 ++ pre), post. by rewrite <- !app_assoc. Qed.

Lemma within_refl evs : within evs evs.
Proof. exists [], []. by rewrite app_nil_r. Qed.

#[export] Hint Resolve within_app_l within_app_r within_refl : core.

Section Sources.
Context `{Kernel W} `{MacFiles W} `{FileURL} `{SwiftString} `{CryptoKit W} `{!KitKeys W} `{Keychain W}.

(** The text of a key: given inline, or on a line of a file that was found
    safe before it was read. *)
Definition key_from (hex file : option bytes) (privateMaterial : bool) (text : bytes) (evs : list event) : Prop :=
  match hex, file with
  | Some hex, None => text = trimmed hex
  | None, Some file => exists data st contents sub,
      within sub evs /\ read_safely file privateMaterial data st sub /\
      string_of_data data = Some contents /\ key_text contents = Some text
  | _, _ => False
  end.

Lemma key_from_app_l hex file p text e1 e2 : key_from hex file p text e1 -> key_from hex file p text (e1 ++ e2).
Proof.
  unfold key_from. destruct hex, file; try done. intros (d & st & c & sub & ? & ?). exists d, st, c, sub. auto.
Qed.

Lemma key_from_app_r hex file p text e1 e2 : key_from hex file p text e2 -> key_from hex file p text (e1 ++ e2).
Proof.
  unfold key_from. destruct hex, file; try done. intros (d & st & c & sub & ? & ?). exists d, st, c, sub. auto.
Qed.

Lemma readKeyMaterial_ok hex file p text (s s' : state W) :
  readKeyMaterial hex file p s = (Done (Ok text), s') -> exists evs, made s s' evs /\ key_from hex file p text evs.
Proof.
  unfold readKeyMaterial, key_from. destruct hex as [hex|], file as [file|]; try done.
  - intros [= -> ->]. exists []. split; [apply made_nil|done].
  - intros ((data & st) & s1 & (evs & M & Hs)%readSafeFile_ok & HR)%bind_ok.
    destruct (string_of_data data) as [contents|] eqn:Ec; [|done]. apply lift_done in HR as [HR ->].
    exists evs. split; [done|]. exists data, st, contents, evs. split_and!; try done.
    by destruct (key_text contents); [injection HR as ->|].
Qed.

(** ** Key files that are written *)

Definition created_new (path : bytes) (m : N) (text : bytes) (s s' : state W) : Prop :=
  exists f s1 s2 s3, made s s1 [EvOpen path new_file_flags m (Ok f)] /\ only_wrote f text s1 s2 /\
    made s2 s3 [EvMac (EvFile (EvFsync f (Ok tt)))] /\ made s3 s' [EvClose f].

Lemma writeAll_ok fuel data f (s s' : state W) :
  writeAll fuel data f s = (Done (Ok tt), s') -> only_wrote f data s s'.
Proof.
  intros HL.
  refine (loop_ok_ind _ (fun data s _ s' => only_wrote f data s s') _ _ _ _ _ _ _ HL); clear.
  - intros data s data' s1 [] s' HB IH. unfold writeAll_round in HB. case_decide; [done|].
    apply bind_ok in HB as (r & s2 & (? & [= <-] & M & _)%prim_done & HB).
    destruct r as [[|n]|[]]; try done; injection HB as <- ->.
    + rewrite <- (take_drop (S n) data). eapply only_wrote_app; [|exact IH].
      eexists. split; [exact M|]. cbn -[take]. rewrite decide_True by done. by rewrite app_nil_r.
    + apply (only_wrote_app f [] data _ s1); [|done]. by exists [EvWrite f data (Err EINTR)].
  - intros data s [] s' HB. unfold writeAll_round in HB. case_decide as Hd.
    + injection HB as ->. subst. apply only_wrote_nil.
    + exfalso. apply bind_ok in HB as (r & s2 & _ & HB). by destruct r as [[|n]|[]].
Qed.

Lemma writeNewFile_ok fuel path text m (s s' : state W) :
  writeNewFile fuel path text m s = (Done (Ok tt), s') -> created_new path m text s s'.
Proof.
  intros (f & s1 & M1%guarded_ok & HR)%bind_ok. apply scoped_ok in HR as (s3 & HR & (? & _ & M3 & _)%prim_done).
  apply bind_ok in HR as ([] & s2 & HW%writeAll_ok & M2%guarded_ok). by exists f, s1, s2, s3.
Qed.
End Sources.

(** What CryptoKit documents: a key is its raw form. *)
Class KitKeysLaws (W : Type) `{KitKeys W} := {
  private_raw k : private_of_raw (raw_of_private k) = Some k;
  public_raw p : public_of_raw (raw_of_public p) = Some p;
  public_length p : length (raw_of_public p) = 32%nat;
}.

