(* ===== verification/MacConfigProps.v ===== *)
(** * What the configuration of the agent is worth ([MacConfig])

    The keys that a connection is answered with come from where the
    configuration says, and from files that others cannot change; the hosts
    that are answered are the hosts of the list.  [hosts add] and
    [hosts remove] change the list by one host and nothing else, in the file
    too. *)

From Stdlib Require Import NArith ZArith Lia List Bool.
From Stdlib Require Import Strings.Byte Strings.String.
From stdpp Require Import base decidable list option strings gmap.
From S2P Require Import Prelude RustStd Crypto Protocol Sys Ownership Io CacheSpec.
From S2P Require Import MacProtocol RateLimiter MacAgent MacAgentProps MacFiles MacFilesProps MacKeys MacKeysProps.
From S2P Require Import MacConfig.

Open Scope N_scope.

Section Runtime.
Context `{Kernel W} `{MacFiles W} `{FileURL} `{SwiftString} `{SwiftText} `{CryptoKit W} `{!KitKeys W} `{Keychain W}.
Context `{ConfigCoder}.

(** ** Loading *)

(** Calls that read a file. *)
Definition reading (e : event) : Prop :=
  match e with
  | EvOpen _ flags _ _ => O_DIRECTORY ∉ flags
  | EvClose _ => True
  | EvMac (EvFile (EvStat _ _ | EvGeteuid _ | EvReadToEnd _ _)) => True
  | _ => False
  end.

(** The configuration was read from a file that others cannot write, nor read
    if it holds a private key. *)
Definition loaded_from (path : bytes) (config : AgentConfig.t) (evs : list event) : Prop :=
  exists data st sub, within sub evs /\ read_safely path false data st sub /\ decode_config data = Some config /\
    (AgentConfig.inline_key config = true -> exists u, safe_metadata true u st).

Lemma loadAgentConfig_ok path config (s s' : state W) :
  loadAgentConfig path s = (Done (Ok config), s') -> exists evs, made s s' evs /\ loaded_from path config evs /\
    Forall reading evs.
Proof.
  intros ((data & st) & s1 & (e1 & M1 & Hs)%readSafeFile_ok & HR)%bind_ok.
  apply bind_ok in HR as (c & s2 & [Hd ->]%lift_done & HR).
  assert (decode_config data = Some c) as Hc by (destruct (decode_config data); [by injection Hd as ->|done]).
  assert (Forall reading e1) as Hshape.
  { destruct Hs as (f & m & u & -> & _). repeat constructor; cbn; set_solver. }
  destruct (AgentConfig.inline_key c) eqn:Ei.
  - apply bind_ok in HR as ([] & s3 & HV & [= -> ->]). unfold validateFileMetadata in HV.
    apply bind_ok in HV as (u & s4 & (? & [= <-] & M2 & _)%prim_done & [Hu ->]%lift_done).
    eexists. split; [exact (made_app _ _ _ _ _ M1 M2)|]. split.
    + exists data, st, e1. split_and!; [auto|done|done|]. intros _. exists u. by apply check_file_metadata_ok.
    + apply Forall_app. split; [done|]. by repeat constructor.
  - injection HR as -> ->. exists e1. split_and!; [done| |done]. exists data, st, e1.
    split_and!; [auto|done|done|]. by rewrite Ei.
Qed.

(** ** The runtime *)

Definition verifier_from (host : AllowedHost) (v : HostVerifier (W := W)) (evs : list event) : Prop :=
  hostId v = ah_hostId host /\ exists text,
    key_from (ah_publicKeyHex host) (ah_publicKeyFile host) false text evs /\
    public_key_of_hex text = Ok (publicKey v).

(** The dictionary has one verifier for each host of the list, under its
    identifier, and no other. *)
Definition verifiers_for (hosts : list AllowedHost) (m : gmap bytes (HostVerifier (W := W))) (evs : list event) : Prop :=
  NoDup (map (fun h => normal_form (ah_hostId h)) hosts) /\
  (forall host, host ∈ hosts -> exists v, m !! normal_form (ah_hostId host) = Some v /\ verifier_from host v evs) /\
  (forall k v, m !! k = Some v -> exists host, host ∈ hosts /\ k = normal_form (ah_hostId host) /\ verifier_from host v evs).

Definition default_verifier (config : AgentConfig.t) (m : gmap bytes (HostVerifier (W := W))) (evs : list event) : Prop :=
  exists v text, m = {[normal_form (B "*") := v]} /\
    key_from (AgentConfig.hostPublicKeyHex config) (AgentConfig.hostPublicKeyFile config) false text evs /\
    public_key_of_hex text = Ok (publicKey v).

Definition agent_key_from (config : AgentConfig.t) (key : PrivateKey (W := W)) (evs : list event) : Prop :=
  match AgentConfig.agentKeychainService config, AgentConfig.agentKeychainAccount config with
  | Some service, Some account =>
      AgentConfig.agentKeyHex config = None /\ AgentConfig.agentKeyFile config = None /\
      exists data, private_of_raw data = Some key /\
        In (EvMac (EvFile (EvKeychainRead service account errSecSuccess))) evs
  | _, _ => exists text,
      key_from (AgentConfig.agentKeyHex config) (AgentConfig.agentKeyFile config) true text evs /\
      private_key_of_hex text = Ok key
  end.

Lemma verifier_from_app_l host v e1 e2 : verifier_from host v e1 -> verifier_from host v (e1 ++ e2).
Proof. intros (? & t & ? & ?). split; [done|]. exists t. split; [by apply key_from_app_l|done]. Qed.

Lemma verifier_from_app_r host v e1 e2 : verifier_from host v e2 -> verifier_from host v (e1 ++ e2).
Proof. intros (? & t & ? & ?). split; [done|]. exists t. split; [by apply key_from_app_r|done]. Qed.

Lemma add_verifiers_ok (hosts done_ : list AllowedHost) (before : list event) (m m' : gmap bytes (HostVerifier (W := W))) (s s' : state W) :
  add_verifiers hosts m s = (Done (Ok m'), s') -> verifiers_for done_ m before -> exists evs,
    made s s' evs /\ verifiers_for (done_ ++ hosts) m' (before ++ evs).
Proof.
  revert done_ before m s. induction hosts as [|host hosts IH]; intros done_ before m s HR Hm.
  - injection HR as -> ->. exists []. rewrite !app_nil_r. split; [apply made_nil|done].
  - apply bind_ok in HR as (text & s1 & (e1 & M1 & Ht)%readKeyMaterial_ok & HR).
    destruct (m !! normal_form (ah_hostId host)) as [v|] eqn:Em; [done|].
    apply bind_ok in HR as (pk & s2 & [Hp ->]%lift_done & HR).
    assert (verifier_from host {| hostId := ah_hostId host; publicKey := pk |} (before ++ e1)) as Hv.
    { split; [done|]. exists text. split; [by apply key_from_app_r|done]. }
    apply (IH (done_ ++ [host]) (before ++ e1)) in HR as (e2 & M2 & Hf).
    { exists (e1 ++ e2). rewrite <- !app_assoc in Hf. split; [by eapply made_app|exact Hf]. }
    destruct Hm as (Hn & Hin & Hfrom). split_and!.
    + rewrite map_app. cbn. apply NoDup_app. split_and!; [done| |apply NoDup_singleton].
      intros k (h & -> & Hh)%list_elem_of_fmap E%list_elem_of_singleton.
      destruct (Hin _ Hh) as (v & Hv' & _). congruence.
    + intros h [Hh| ->%list_elem_of_singleton]%elem_of_app.
      * destruct (Hin _ Hh) as (v & Hv' & ?). exists v. split; [|by apply verifier_from_app_l].
        rewrite lookup_insert_ne; [done|]. intros E. congruence.
      * eexists. rewrite lookup_insert_eq. by split.
    + intros k v Hk. destruct (decide (k = normal_form (ah_hostId host))) as [->|Hne].
      * rewrite lookup_insert_eq in Hk. injection Hk as <-. exists host. split_and!; [set_solver|done|done].
      * rewrite lookup_insert_ne in Hk by done. destruct (Hfrom _ _ Hk) as (h & ? & ? & ?). exists h.
        split_and!; [set_solver|done|by apply verifier_from_app_l].
Qed.

Lemma hostVerifiers_ok config m (s s' : state W) :
  hostVerifiers_from config s = (Done (Ok m), s') -> exists evs, made s s' evs /\
    match AgentConfig.host_list config with
    | [] => default_verifier config m evs
    | hosts => verifiers_for hosts m evs
    end.
Proof.
  intros HR. unfold hostVerifiers_from, AgentConfig.host_list in *.
  assert (forall (Hr : (let! publicKeyHex :=
      readKeyMaterial (AgentConfig.hostPublicKeyHex config) (AgentConfig.hostPublicKeyFile config) false in
      let! publicKey := lift (public_key_of_hex publicKeyHex) in
      ret {[normal_form (B "*") := {| hostId := B "*"; publicKey := publicKey |}]}) s = (Done (Ok m), s')),
    exists evs, made s s' evs /\ default_verifier config m evs) as Hdef.
  { intros (text & s1 & (e1 & M1 & Ht)%readKeyMaterial_ok & (pk & s2 & [Hp ->]%lift_done & [= <- ->])%bind_ok)%bind_ok.
    exists e1. split; [done|]. by eexists _, text. }
  destruct (AgentConfig.hosts config) as [[|host hosts]|]; [by apply Hdef| |by apply Hdef].
  apply (add_verifiers_ok _ [] []) in HR as (evs & M & Hv); [by exists evs|].
  split_and!; [apply NoDup_nil_2|by intros h Hh%elem_of_nil|by intros k v]. 
Qed.

Lemma agent_private_key_ok config key (s s' : state W) :
  agent_private_key config s = (Done (Ok key), s') -> exists evs, made s s' evs /\ agent_key_from config key evs.
Proof.
  unfold agent_private_key, agent_key_from.
  assert (forall (Hr : (let! agentKeyHex :=
      readKeyMaterial (AgentConfig.agentKeyHex config) (AgentConfig.agentKeyFile config) true in
      lift (private_key_of_hex agentKeyHex)) s = (Done (Ok key), s')),
    exists evs, made s s' evs /\ exists text,
      key_from (AgentConfig.agentKeyHex config) (AgentConfig.agentKeyFile config) true text evs /\
      private_key_of_hex text = Ok key) as Hfile.
  { intros (text & s1 & (e1 & M1 & Ht)%readKeyMaterial_ok & [Hp ->]%lift_done)%bind_ok. exists e1. eauto. }
  destruct (AgentConfig.agentKeychainService config) as [service|]; [|done].
  destruct (AgentConfig.agentKeychainAccount config) as [account|]; [|done].
  destruct (AgentConfig.agentKeyHex config), (AgentConfig.agentKeyFile config); try done.
  intros ((status & item) & s1 & (? & [= <-] & M & _)%prim_done & HR)%bind_ok. cbn in M.
  case_decide as Hst; [|done]. destruct item as [data|]; [|done]. apply lift_done in HR as [HR ->].
  eexists. split; [exact M|]. split_and!; [done|done|]. exists data. split; [|by left; rewrite Hst].
  by destruct (private_of_raw data); [injection HR as ->|].
Qed.
End Runtime.


(** ** [hosts] *)

Class ConfigLaws `{ConfigCoder} := { config_round_trip c d : encode_config c = Some d -> decode_config d = Some c }.

Section Hosts.
Context `{Kernel W} `{MacFiles W} `{FileURL} `{SwiftString} `{SwiftText} `{CryptoKit W} `{!KitKeys W} `{Keychain W}.
Context `{ConfigCoder}.

Definition same_id (a b : bytes) : Prop := normal_form a = normal_form b.
#[global] Instance same_id_decision a b : Decision (same_id a b) := decide (normal_form a = normal_form b).

(** The list after the command, from the list before it. *)
Definition hosts_edit (options : HostsOptions) (id : bytes) (before after : list AllowedHost) : Prop :=
  (ho_command options = B "add" /\ (forall h, h ∈ before -> ~ same_id (ah_hostId h) id) /\
   after = before ++ [{| ah_hostId := id; ah_publicKeyHex := ho_publicKeyHex options;
                         ah_publicKeyFile := ho_publicKeyFile options |}]) \/
  (ho_command options = B "remove" /\ (exists h, h ∈ before /\ same_id (ah_hostId h) id) /\
   after = filter (fun h => ~ same_id (ah_hostId h) id) before).

Lemma same_string_spec a b : same_string a b = true <-> same_id a b.
Proof. apply bool_decide_eq_true. Qed.

Lemma list_filter_decide {A} (P : A -> Prop) `{forall x, Decision (P x)} (f : A -> bool) l :
  (forall x, f x = true <-> P x) -> List.filter f l = filter P l.
Proof.
  intros Hf. induction l as [|x l IH]; [done|]. cbn [List.filter]. rewrite filter_cons, IH.
  destruct (f x) eqn:E; [rewrite decide_True by by apply Hf|rewrite decide_False by by rewrite <- Hf, E]; done.
Qed.

Lemma add_host_ok host config config' :
  add_host host config = Ok config' ->
  (forall h, h ∈ AgentConfig.host_list config -> ~ same_id (ah_hostId h) (ah_hostId host)) /\
  config' = AgentConfig.with_hosts (AgentConfig.host_list config ++ [host]) config.
Proof.
  unfold add_host. destruct (existsb _ _) eqn:E; [done|]. intros [= <-]. split; [|done].
  intros h Hh Hs. apply not_true_iff_false in E. apply E, existsb_exists. exists h.
  split; [by apply list_elem_of_In|by apply same_string_spec].
Qed.

Lemma remove_host_ok id config config' :
  remove_host id config = Ok config' ->
  (exists h, h ∈ AgentConfig.host_list config /\ same_id (ah_hostId h) id) /\
  config' = AgentConfig.with_hosts (filter (fun h => ~ same_id (ah_hostId h) id) (AgentConfig.host_list config)) config.
Proof.
  unfold remove_host. rewrite (list_filter_decide (fun h => ~ same_id (ah_hostId h) id)).
  2: { intros h. rewrite <- same_string_spec. by destruct (same_string _ _). }
  case_decide as Hl; [done|]. intros [= <-]. split; [|done].
  destruct (decide (Exists (fun h => same_id (ah_hostId h) id) (AgentConfig.host_list config))) as [He|He].
  { by apply Exists_exists in He. }
  exfalso. apply Hl. f_equal. clear Hl. apply Forall_Exists_neg in He.
  induction (AgentConfig.host_list config) as [|h l IH]; [done|]. apply Forall_cons in He as [? He].
  rewrite filter_cons, decide_True by done. by rewrite (IH He).
Qed.

(** Editing keeps identifiers unique. *)
Lemma hosts_edit_unique options id before after : hosts_edit options id before after ->
  NoDup (map (fun h => normal_form (ah_hostId h)) before) -> NoDup (map (fun h => normal_form (ah_hostId h)) after).
Proof.
  intros [(_ & Hn & ->)|(_ & _ & ->)] Hd.
  - rewrite map_app. cbn. apply NoDup_app. split_and!; [done| |apply NoDup_singleton].
    intros k (h & -> & Hh)%list_elem_of_fmap E%list_elem_of_singleton. by eapply Hn.
  - revert Hd. induction before as [|h before IH]; [done|]. cbn [map]. rewrite filter_cons.
    intros [Hh Hd]%NoDup_cons. case_decide; [|by apply IH]. cbn [map]. apply NoDup_cons. split; [|by apply IH].
    intros (h' & E & Hh')%list_elem_of_fmap. apply Hh, list_elem_of_fmap. exists h'. split; [done|].
    by apply list_elem_of_filter in Hh' as [_ ?].
Qed.

(** Reading the configuration leaves the folder as it is. *)
Lemma folder_untouched evs st st' :
  Forall reading evs -> handles st = ∅ -> folder_run st evs = Some st' ->
  entries st' = entries st /\ texts st' = texts st /\ handles st' = ∅.
Proof.
  intros He. revert st. induction He as [|e evs Hs _ IH]; intros st Hh HR; [by injection HR as <-|].
  cbn in HR.
  assert (exists st1, folder_step st e = Some st1 /\ entries st1 = entries st /\ texts st1 = texts st /\ handles st1 = ∅)
    as (st1 & E1 & <- & <- & Hh1).
  { destruct e as [| | | | | | | | | | | | | |? ?|? f ? []| | | | | | |g| | | | | |[]]; try done.
    - cbn. rewrite decide_False by done. by exists st.
    - by exists st.
    - eexists. split; [done|]. cbn. by rewrite Hh, delete_empty.
    - destruct e; try done; by exists st. }
  rewrite E1 in HR. by apply (IH st1).
Qed.
End Hosts.

(** C23: [hosts add] and [hosts remove] change the list of hosts by one host,
    and the file with it.  When one of them succeeds, the configuration was
    loaded from its safe file; the new list is the old one with the new host
    at its end, whose identifier was not on it, or without all hosts of the
    given identifier, of which there was one; nothing else of the
    configuration changes, and identifiers stay unique.  Under the laws of a
    directory, the file of the configuration is then one from which the new
    configuration is loaded, on the disk, and no other name changes. *)
Theorem hosts_edits_the_file `{Kernel W} `{MacFiles W} `{FileURL} `{SwiftString} `{SwiftText} `{CL : ConfigLaws}
  fuel options (s s' : state W) :
  runHosts fuel options s = (Done (Ok tt), s') -> ho_command options <> B "list" ->
  exists id config config' evs, ho_hostId options = Some id /\ made s s' evs /\
    loaded_from (ho_configPath options) config evs /\
    hosts_edit options id (AgentConfig.host_list config) (AgentConfig.host_list config') /\
    config' = AgentConfig.with_hosts (AgentConfig.host_list config') config /\
    (NoDup (map (fun h => normal_form (ah_hostId h)) (AgentConfig.host_list config)) ->
     NoDup (map (fun h => normal_form (ah_hostId h)) (AgentConfig.host_list config'))) /\
    forall st st' i old, handles st = ∅ -> entries st !! lastPathComponent (ho_configPath options) = Some i ->
      texts st !! i = Some old -> folder_run st evs = Some st' ->
      exists j data, entries st' = <[lastPathComponent (ho_configPath options) := j]> (entries st) /\
        texts st' !! j = Some data /\ j ∈ synced st' /\ decode_config data = Some config'.
Proof.
  intros (config & s1 & (e1 & M1 & Hl & Hr)%loadAgentConfig_ok & HR)%bind_ok Hlist.
  rewrite decide_False in HR by done.
  assert (exists id config', ho_hostId options = Some id /\
    hosts_edit options id (AgentConfig.host_list config) (AgentConfig.host_list config') /\
    config' = AgentConfig.with_hosts (AgentConfig.host_list config') config /\
    writeAgentConfig fuel config' (ho_configPath options) s1 = (Done (Ok tt), s'))
    as (id & config' & Hid & Hedit & Hc & HW).
  { case_decide as Ha; [|case_decide as Hrm; [|done]]; (destruct (ho_hostId options) as [id|]; [|done]);
      apply bind_ok in HR as (config' & s2 & [Hc ->]%lift_done & HW); exists id, config'; (split; [done|]).
    - symmetry in Hc. apply add_host_ok in Hc as [Hn ->]. split_and!; [by left|done|done].
    - symmetry in Hc. apply remove_host_ok in Hc as [Hn ->]. split_and!; [by right|done|done]. }
  unfold writeAgentConfig in HW. apply bind_ok in HW as (data & s2 & [Hd ->]%lift_done & HW).
  assert (encode_config config' = Some data) as He by (destruct (encode_config config'); [by injection Hd as ->|done]).
  pose proof HW as HW'. apply replaceConfigFile_installs in HW' as (e2 & M2 & Hi).
  exists id, config, config', (e1 ++ e2). split_and!; try done.
  - by eapply made_app.
  - destruct Hl as (d & st & sub & ? & ?). exists d, st, sub. auto.
  - by eapply hosts_edit_unique.
  - intros st st' i old Hh Hn Ht Hf. rewrite folder_run_app in Hf.
    destruct (folder_run st e1) as [st1|] eqn:E1; [|done].
    apply folder_untouched in E1 as (Ee & Et & Hh1); [|done..]. rewrite <- Ee, <- Et in *.
    destruct (Hi _ _ _ _ Hh1 Hn Ht Hf) as (j & ? & ? & ? & _). exists j, data.
    split_and!; [done..|by apply config_round_trip].
Qed.
