(* ===== verification/MacListener.v ===== *)
(** * The agent's socket ([src/agent/Sources/MacosAuthAgent/Transport.swift])

    [UnixSocketListener]: the socket is bound in a directory that others
    cannot write, in the place of a stale socket of the same user and of
    nothing else; it is removed at the end if it is still the one that was
    bound.  The lock around [umask] and [bind] is within one process and left
    out. *)

From Stdlib Require Import NArith ZArith Lia List Bool.
From Stdlib Require Import Strings.Byte Strings.String.
From stdpp Require Import base decidable list option strings gmap.
From S2P Require Import Prelude RustStd Crypto Protocol Sys Ownership Io CacheSpec.
From S2P Require Import MacProtocol RateLimiter MacAgent MacFiles.

Open Scope N_scope.

Class MacSockets (W : Type) := {
  k_no_sigpipe : fd -> W -> result unit errno * W;
  k_bind_socket : fd -> bytes -> W -> result unit errno * W;
  k_listen : fd -> N -> W -> result unit errno * W;
  k_chmod : bytes -> N -> W -> result unit errno * W;
  k_umask : N -> W -> N * W;
}.

Definition S_IFSOCK : N := 0xC000.
Definition S_IFDIR : N := 0x4000.
Definition S_ISVTX : N := 0x200.

(** The value of Darwin. *)
Definition ECONNREFUSED : errno := Eother 61.

(** [sun_path] of [sockaddr_un] *)
Definition sun_path_size : nat := 104.

(** [address(path:)]: the address stands for its path. *)
Definition address (path : bytes) : result bytes AgentError :=
  guard! negb (bool_decide (x00 ∈ path)) && (length (path ++ [x00]) <=? sun_path_size)%nat
    else socketError "invalid or overlong socket path" ;;
  Ok path.

(** The fields of [UnixSocketListener]; [-1] and [nil] are [None]. *)
Record Listener : Type := { l_fd : option fd; l_path : bytes; l_identity : option Stat }.

Section Listener.
Context `{Kernel W} `{MacFiles W} `{FileURL} `{MacSockets W}.

Definition errno_error : AgentError := socketError "errno".

Definition lstat {E} (path : bytes) : M W E (result Stat errno) := file_prim (k_lstat path) (EvLstat path).
Definition no_sigpipe (f : fd) : M W AgentError unit :=
  guarded errno_error (file_prim (k_no_sigpipe f) (EvNoSigPipe f)).
Definition mac_socket : M W AgentError fd := guarded errno_error (prim k_socket EvSocket).
Definition mac_nonblock (f : fd) : M W AgentError unit :=
  guarded errno_error (prim (k_set_nonblocking f) (EvSetNonblocking f)).
Definition mac_cloexec (f : fd) : M W AgentError unit :=
  guarded errno_error (prim (k_set_cloexec f) (EvSetCloexec f)).
Definition umask {E} (mask : N) : M W E N := file_prim (k_umask mask) (EvUmask mask).
Definition mac_unlink {E} (path : bytes) : M W E (result unit errno) := prim (k_unlink path) (EvUnlink path).

Definition configureConnectedSocket (f : fd) : M W AgentError unit :=
  do! no_sigpipe f ;; do! mac_nonblock f ;; mac_cloexec f.

(** ** [removeStaleSocket] *)

Definition active_error : AgentError := socketError "socket already active or cannot safely establish staleness".
Definition changed_error : AgentError := socketError "socket changed while checking staleness".

(** From the probe on. *)
Definition probe_and_remove (path : bytes) (st : Stat) : M W AgentError unit :=
  let! probe := mac_socket in
  scoped probe (
    do! configureConnectedSocket probe ;;
    let! r := prim (k_connect probe path) (EvConnect probe path) in
    match r with
    | Err e =>
        if decide (e = ECONNREFUSED) then
          let! current := guarded changed_error (lstat path) in
          if negb (sameFile st current) then throw changed_error
          else guarded changed_error (mac_unlink path)
        else throw active_error
    | Ok _ => throw active_error
    end).

Definition removeStaleSocket (path : bytes) : M W AgentError unit :=
  let! r := lstat path in
  match r with
  | Err ENOENT => ret tt
  | Err _ => throw errno_error
  | Ok st =>
      let refuse := throw (socketError "refusing to replace non-socket or foreign socket") in
      if negb (N.land (st_mode st) S_IFMT =? S_IFSOCK) then refuse
      else
        let! uid := geteuid in
        if negb (st_uid st =? uid) then refuse else probe_and_remove path st
  end.

(** ** [closeAndUnlink] *)

Definition remove_own (path : bytes) (identity : option Stat) : M W AgentError unit :=
  match identity with
  | None => ret tt
  | Some identity =>
      let! r := lstat path in
      match r with
      | Ok current =>
          if sameFile identity current then let! _ := mac_unlink path in ret tt else ret tt
      | Err _ => ret tt
      end
  end.

Definition closeAndUnlink (self : Listener) : M W AgentError Listener :=
  do! match l_fd self with Some f => close f | None => ret tt end ;;
  do! remove_own (l_path self) (l_identity self) ;;
  ret {| l_fd := None; l_path := l_path self; l_identity := None |}.

(** ** [init] *)

Definition parent_error : AgentError := socketError "socket parent must be a trusted directory".
Definition identify_error : AgentError := socketError "cannot identify bound socket".

(** The guard on the directory of the socket. *)
Definition check_parent (parent : bytes) : M W AgentError unit :=
  let! directory := guarded parent_error (lstat parent) in
  if negb (N.land (st_mode directory) S_IFMT =? S_IFDIR) then throw parent_error
  else
    let! uid := geteuid in
    if ((st_uid directory =? uid) || (st_uid directory =? 0)) &&
       ((N.land (st_mode directory) 0x12 =? 0)
        || ((st_uid directory =? 0) && negb (N.land (st_mode directory) S_ISVTX =? 0)))
    then ret tt else throw parent_error.

(** [bind] with a mask that leaves nothing to others; the mask is put back
    whatever [bind] says. *)
Definition bind_privately (f : fd) (address : bytes) : M W AgentError unit :=
  let! previousMask := umask 0x3f in
  let! r := file_prim (k_bind_socket f address) (EvBindSocket f address) in
  let! _ := umask previousMask in
  lift (map_err (fun _ => errno_error) r).

(** The body of [do]: what it had recorded when it threw is cleaned up by the
    caller, so an error carries the identity. *)
Definition set_up (f : fd) (path address : bytes) : M W (AgentError * option Stat) Stat :=
  do! into (fun e => (e, None)) (mac_cloexec f) ;;
  do! into (fun e => (e, None)) (bind_privately f address) ;;
  let! r := lstat path in
  match r with
  | Err _ => throw (identify_error, None)
  | Ok st =>
      if negb (N.land (st_mode st) S_IFMT =? S_IFSOCK) then throw (identify_error, None)
      else
        let! uid := geteuid in
        if negb (st_uid st =? uid) then throw (identify_error, None)
        else
          do! into (fun e => (e, Some st)) (
            do! guarded errno_error (file_prim (k_chmod path 0x180) (EvChmod path 0x180)) ;;
            guarded errno_error (file_prim (k_listen f 16) (EvListen f 16))) ;;
          ret st
  end.

Definition UnixSocketListener_init (path : bytes) : M W AgentError Listener :=
  if bool_decide (x00 ∈ path) then throw (socketError "invalid socket path")
  else
    let! parent := resolved_parent path in
    let path := appendingPathComponent parent (lastPathComponent path) in
    let! addr := lift (address path) in
    do! check_parent parent ;;
    do! removeStaleSocket path ;;
    let! f := mac_socket in
    let! r := attempt (set_up f path addr) in
    match r with
    | Ok st => ret {| l_fd := Some f; l_path := path; l_identity := Some st |}
    | Err (error, identity) =>
        let! _ := closeAndUnlink {| l_fd := Some f; l_path := path; l_identity := identity |} in
        throw error
    end.

(** ** [acceptFileHandle] *)

Definition accept_round (f : fd) : M W AgentError (unit + fd) :=
  let! r := prim (k_accept f) (EvAccept f) in
  match r with
  | Ok client => ret (inr client)
  | Err EINTR => ret (inl tt)
  | Err _ => throw errno_error
  end.

Definition acceptFileHandle (fuel : nat) (f : fd) : M W AgentError fd :=
  let! client := loop fuel (fun _ : unit => accept_round f) tt in
  do! owned client (configureConnectedSocket client) ;;
  ret client.
End Listener.
