(* ===== verification/MacListenerProps.v ===== *)
(** * What the agent's socket is worth ([MacListener])

    A file is removed only if it is a socket of the user that refused a
    connection, or the one that was bound, and was just seen to be still the
    same; the socket is bound in a trusted directory, with a mask that leaves
    nothing to others; and no descriptor is left over. *)

From Stdlib Require Import NArith ZArith Lia List Bool.
From Stdlib Require Import Strings.Byte Strings.String.
From stdpp Require Import base decidable list option strings gmap.
From S2P Require Import Prelude RustStd Crypto Protocol Sys Ownership Io CacheSpec Automaton.
From S2P Require Import MacProtocol RateLimiter MacAgent MacAgentProps MacFiles MacFilesProps MacListener.

Open Scope N_scope.

(** ** What justifies a call, from the calls before it *)

Definition made_call (P : event -> bool) (h : list event) : bool := existsb P h.

Definition is_socket (st : Stat) : bool := N.land (st_mode st) S_IFMT =? S_IFSOCK.

(** [current], seen at [p] just now, is a socket of the user that was seen at
    [p] before, and it refused a connection or was bound by the agent. *)
Definition removable (h : list event) (p : bytes) : bool :=
  match last h with
  | Some (EvMac (EvFile (EvLstat p' (Ok current)))) =>
      bool_decide (p' = p) &&
      made_call (fun e => match e with
        | EvMac (EvFile (EvLstat p'' (Ok st))) =>
            bool_decide (p'' = p) && sameFile st current && is_socket st &&
            made_call (fun e => match e with
              | EvMac (EvFile (EvGeteuid u)) => st_uid st =? u | _ => false end) h
        | _ => false end) h &&
      made_call (fun e => match e with
        | EvConnect _ p'' (Err e) => bool_decide (p'' = p) && bool_decide (e = ECONNREFUSED)
        | EvMac (EvFile (EvBindSocket _ p'' (Ok _))) => bool_decide (p'' = p)
        | _ => false end) h
  | _ => false
  end.

Definition trusted_directory (st : Stat) (u : N) : bool :=
  (N.land (st_mode st) S_IFMT =? S_IFDIR) && ((st_uid st =? u) || (st_uid st =? 0)) &&
  ((N.land (st_mode st) 0x12 =? 0) || ((st_uid st =? 0) && negb (N.land (st_mode st) S_ISVTX =? 0))).

(** The mask was set just now, and a directory [d] with [p] in it was found
    to be trusted. *)
Definition bindable `{FileURL} (name : bytes) (h : list event) (p : bytes) : bool :=
  match last h with
  | Some (EvMac (EvFile (EvUmask 0x3f _))) => true
  | _ => false
  end &&
  made_call (fun e => match e with
    | EvMac (EvFile (EvLstat d (Ok st))) =>
        bool_decide (appendingPathComponent d name = p) &&
        made_call (fun e => match e with
          | EvMac (EvFile (EvGeteuid u)) => trusted_directory st u | _ => false end) h
    | _ => false end) h.

(** The history of calls, which stops at one that is not justified. *)
Definition history_step `{FileURL} (name : bytes) (h : list event) (e : event) : option (list event) :=
  match e with
  | EvUnlink p _ => if removable h p then Some (h ++ [e]) else None
  | EvMac (EvFile (EvBindSocket _ p _)) => if bindable name h p then Some (h ++ [e]) else None
  | _ => Some (h ++ [e])
  end.

Definition justified_call `{FileURL} (name : bytes) (h : list event) (e : event) : Prop :=
  match e with
  | EvUnlink p _ => removable h p = true
  | EvMac (EvFile (EvBindSocket _ p _)) => bindable name h p = true
  | _ => True
  end.

Section Listener.
Context `{Kernel W} `{MacFiles W} `{FileURL} `{MacSockets W}.

Lemma history_run name h evs h' : run_steps (history_step name) h evs = Some h' ->
  h' = h ++ evs /\ forall pre e post, evs = pre ++ e :: post -> justified_call name (h ++ pre) e.
Proof.
  revert h. induction evs as [|e evs IH]; intros h HR.
  - injection HR as <-. rewrite app_nil_r. split; [done|]. by intros [] ? ?.
  - cbn in HR. destruct (history_step name h e) as [h1|] eqn:E1; [|done].
    assert (h1 = h ++ [e] /\ justified_call name h e) as [-> Hj].
    { unfold history_step, justified_call in *. repeat case_match; simplify_eq; done. }
    apply IH in HR as [-> Hp]. rewrite <- app_assoc. split; [done|]. intros [|e' pre] e0 post [= -> Hev].
    + by rewrite app_nil_r.
    + rewrite Hev in Hp. specialize (Hp pre e0 post eq_refl). by rewrite <- app_assoc in Hp.
Qed.

Lemma made_call_in P h e : In e h -> P e = true -> made_call P h = true.
Proof. intros. apply existsb_exists. by exists e. Qed.

Lemma removable_intro h p st current :
  last h = Some (EvMac (EvFile (EvLstat p (Ok current)))) ->
  In (EvMac (EvFile (EvLstat p (Ok st)))) h -> sameFile st current = true -> is_socket st = true ->
  In (EvMac (EvFile (EvGeteuid (st_uid st)))) h ->
  (exists f, In (EvConnect f p (Err ECONNREFUSED)) h \/ In (EvMac (EvFile (EvBindSocket f p (Ok tt)))) h) ->
  removable h p = true.
Proof.
  intros Hl Hst Hs Hk Hu (f & Hf). unfold removable. rewrite Hl, bool_decide_eq_true_2 by done. cbn [andb].
  apply andb_true_iff. split.
  - eapply made_call_in; [exact Hst|]. cbn. rewrite bool_decide_eq_true_2, Hs, Hk by done. cbn.
    eapply made_call_in; [exact Hu|]. cbn. apply N.eqb_refl.
  - destruct Hf as [Hf|Hf]; (eapply made_call_in; [exact Hf|]); cbn; by rewrite !bool_decide_eq_true_2.
Qed.

(** Calls that need no justification extend the history. *)
Definition plain (e : event) : Prop :=
  match e with EvUnlink _ _ | EvMac (EvFile (EvBindSocket _ _ _)) => False | _ => True end.

Lemma follows_plain {E A} name h (f : W -> A * W) ev (Q : result A E -> list event -> Prop) :
  (forall a, plain (ev a)) -> (forall a, Q (Ok a) (h ++ [ev a])) -> follows (history_step name) h (prim f ev) Q.
Proof.
  intros Hp HQ. apply follows_prim. intros a. exists (h ++ [ev a]). split; [|done].
  specialize (Hp a). unfold history_step, plain in *. by repeat case_match.
Qed.

Lemma follows_guarded_plain {A} name h error (f : W -> result A errno * W) ev (Q : result A AgentError -> list event -> Prop) :
  (forall r, plain (ev r)) ->
  (forall a, Q (Ok a) (h ++ [ev (Ok a)])) -> (forall e, Q (Err error) (h ++ [ev (Err e)])) ->
  follows (history_step name) h (guarded error (prim f ev)) Q.
Proof.
  intros Hp Ho He. apply follows_bind, follows_plain; [done|]. intros [a|e]; apply follows_done; [apply Ho|apply He].
Qed.

(** What was seen stays seen. *)
Lemma follows_prefix {E A} name h (m : M W E A) Q :
  follows (history_step name) h m Q ->
  follows (history_step name) h m (fun x h' => Q x h' /\ forall e, In e h -> In e h').
Proof.
  intros Hm s. destruct (Hm s) as (evs & h' & M & HR & HQ). exists evs, h'. split_and!; [done|done|].
  apply history_run in HR as [-> _]. destruct (m s).1; [|done..]. split; [done|]. intros e He. apply in_app_iff. by left.
Qed.

#[local] Ltac seen := rewrite ?in_app_iff; cbn; tauto.

(** *** A stale socket *)

Lemma probe_follows name h path st :
  In (EvMac (EvFile (EvLstat path (Ok st)))) h -> is_socket st = true -> In (EvMac (EvFile (EvGeteuid (st_uid st)))) h ->
  follows (history_step name) h (probe_and_remove path st) (fun _ _ => True).
Proof.
  intros Hst Hk Hu. apply follows_bind, follows_guarded_plain; [done| |done]. intros probe.
  apply follows_scoped. eapply (follows_mono _ _ _ (fun _ _ => True)).
  2: { intros x h' _. exists (h' ++ [EvClose probe]). done. }
  apply follows_bind. eapply follows_mono.
  { apply (follows_prefix _ _ _ (fun _ _ => True)). unfold configureConnectedSocket.
    repeat (apply follows_bind, follows_guarded_plain; [done| |done]; intros []). by apply follows_guarded_plain. }
  intros [[]|e] h1 [_ Hin]; [|done]. apply follows_bind, follows_plain; [done|].
  intros [[]|e]; [by apply follows_throw|]. case_decide as He; [subst e|by apply follows_throw].
  apply follows_bind, follows_guarded_plain; [done| |done]. intros current.
  destruct (sameFile st current) eqn:Es; cbn [negb]; [|by apply follows_throw].
  apply follows_bind, follows_prim. intros r. eexists. split; [|by apply follows_done].
  unfold history_step. rewrite (removable_intro _ _ st current); [done|by rewrite last_snoc| | | | |].
  - rewrite !in_app_iff. left. left. by apply Hin, in_app_iff; left.
  - done.
  - done.
  - rewrite !in_app_iff. left. left. by apply Hin, in_app_iff; left.
  - exists probe. left. rewrite !in_app_iff. cbn. tauto.
Qed.

Lemma stale_follows name h path : follows (history_step name) h (removeStaleSocket path) (fun _ _ => True).
Proof.
  apply follows_bind, follows_plain; [done|]. intros [st|[]]; try by apply follows_throw; try by apply follows_ret.
  2: by apply follows_ret.
  cbv zeta. destruct (N.land (st_mode st) S_IFMT =? S_IFSOCK) eqn:Ek; cbn [negb]; [|by apply follows_throw].
  apply follows_bind, follows_plain; [done|]. intros u.
  destruct (N.eqb_spec (st_uid st) u) as [<-|]; cbn [negb]; [|by apply follows_throw].
  apply probe_follows; [seen|done|seen].
Qed.

(** *** The directory *)

Definition parent_trusted (parent : bytes) (h : list event) : Prop :=
  exists st u, In (EvMac (EvFile (EvLstat parent (Ok st)))) h /\ In (EvMac (EvFile (EvGeteuid u))) h /\
    trusted_directory st u = true.

Lemma parent_follows name h parent :
  follows (history_step name) h (check_parent parent)
    (fun x h' => match x with Ok _ => parent_trusted parent h' | Err _ => True end).
Proof.
  apply follows_bind, follows_guarded_plain; [done| |done]. intros st.
  destruct (N.land (st_mode st) S_IFMT =? S_IFDIR) eqn:Ed; cbn [negb]; [|by apply follows_throw].
  apply follows_bind, follows_plain; [done|]. intros u.
  destruct (_ && _) eqn:Et; [|by apply follows_throw]. apply follows_ret. exists st, u.
  split_and!; [seen..|]. unfold trusted_directory. by rewrite Ed.
Qed.

(** *** The socket that is bound *)

(** [identity] is the socket that the agent bound at [path]. *)
Definition identified (path : bytes) (identity : option Stat) (h : list event) : Prop :=
  match identity with
  | None => True
  | Some st =>
      In (EvMac (EvFile (EvLstat path (Ok st)))) h /\ is_socket st = true /\
      In (EvMac (EvFile (EvGeteuid (st_uid st)))) h /\
      exists f, In (EvMac (EvFile (EvBindSocket f path (Ok tt)))) h
  end.

Lemma bind_follows name h parent path f :
  parent_trusted parent h -> appendingPathComponent parent name = path ->
  follows (history_step name) h (bind_privately f path)
    (fun x h' => match x with Ok _ => In (EvMac (EvFile (EvBindSocket f path (Ok tt)))) h' | Err _ => True end).
Proof.
  intros (st & u & Hst & Hu & Ht) Hp. apply follows_bind, follows_plain; [done|]. intros previous.
  apply follows_bind, follows_prim. intros r. eexists. split.
  { unfold history_step. replace (bindable _ _ _) with true; [done|]. symmetry. unfold bindable. rewrite last_snoc.
    cbn [andb]. eapply made_call_in; [rewrite in_app_iff; left; exact Hst|]. cbn.
    rewrite bool_decide_eq_true_2 by done. eapply made_call_in; [rewrite in_app_iff; left; exact Hu|]. done. }
  apply follows_bind, follows_plain; [done|]. intros mask. apply follows_done. destruct r as [[]|]; [cbn; seen|done].
Qed.

Lemma set_up_follows name h parent path f :
  parent_trusted parent h -> appendingPathComponent parent name = path ->
  follows (history_step name) h (set_up f path path)
    (fun x h' => identified path (match x with Ok st => Some st | Err (_, identity) => identity end) h').
Proof.
  intros Hparent Hp. apply follows_bind, follows_into, follows_guarded_plain; [done| |done]. intros [].
  apply follows_bind, follows_into. eapply follows_mono; [eapply bind_follows; [|exact Hp]|].
  { destruct Hparent as (st & u & ? & ? & ?). exists st, u. split_and!; [seen..|done]. }
  intros [[]|e] h1 Hb; cbn [map_err]; [|done]. apply follows_bind, follows_plain; [done|].
  intros [st|e]; [|by apply follows_throw].
  destruct (N.land (st_mode st) S_IFMT =? S_IFSOCK) eqn:Ek; cbn [negb]; [|by apply follows_throw].
  apply follows_bind, follows_plain; [done|]. intros u.
  destruct (N.eqb_spec (st_uid st) u) as [<-|]; cbn [negb]; [|by apply follows_throw].
  set (h2 := (h1 ++ _) ++ _). assert (identified path (Some st) h2) as Hi.
  { subst h2. cbn. split_and!; [seen|done|seen|]. exists f. seen. }
  assert (forall h', (forall e, In e h2 -> In e h') -> identified path (Some st) h') as Hmono.
  { intros h' Hin. destruct Hi as (? & ? & ? & g & ?). cbn. split_and!; [by auto|done|by auto|]. exists g. auto. }
  apply follows_bind, follows_into. eapply follows_mono.
  { apply (follows_prefix _ _ _ (fun _ _ => True)). apply follows_bind, follows_guarded_plain; [done| |done].
    intros []. by apply follows_guarded_plain. }
  intros [[]|e] h3 [_ Hin]; cbn [map_err]; [apply follows_ret|]; by apply Hmono.
Qed.

(** *** [closeAndUnlink] *)

Lemma close_follows name h self : identified (l_path self) (l_identity self) h ->
  follows (history_step name) h (closeAndUnlink self) (fun _ _ => True).
Proof.
  intros Hi. apply follows_bind. eapply (follows_mono _ _ _ (fun _ h' => identified (l_path self) (l_identity self) h')).
  { destruct (l_fd self) as [f|]; [|by apply follows_ret]. apply follows_plain; [done|]. intros _.
    destruct (l_identity self) as [st|]; [|done]. destruct Hi as (? & ? & ? & g & ?).
    split_and!; [seen|done|seen|]. exists g. seen. }
  clear h Hi. intros [[]|e] h Hi; [|done]. apply follows_bind.
  eapply (follows_mono _ _ _ (fun _ _ => True)); [|intros [[]|] ? _; [by apply follows_ret|done]].
  unfold remove_own. destruct (l_identity self) as [st|]; [|by apply follows_ret].
  apply follows_bind, follows_plain; [done|]. intros [current|e]; [|by apply follows_ret].
  destruct (sameFile st current) eqn:Es; [|by apply follows_ret].
  apply follows_bind, follows_prim. intros r. eexists. split; [|by apply follows_ret].
  destruct Hi as (Hst & Hk & Hu & g & Hb). unfold history_step.
  rewrite (removable_intro _ _ st current); [done|by rewrite last_snoc|seen|done|done|seen|].
  exists g. right. seen.
Qed.

Lemma init_follows path :
  follows (history_step (lastPathComponent path)) [] (UnixSocketListener_init path)
    (fun x h' => match x with Ok l => identified (l_path l) (l_identity l) h' | Err _ => True end).
Proof.
  unfold UnixSocketListener_init. case_bool_decide; [by apply follows_throw|].
  apply follows_bind, follows_plain; [done|]. intros parent. cbv zeta.
  apply follows_bind, follows_done. destruct (address _) as [addr|e] eqn:Ea; [|done].
  assert (addr = appendingPathComponent parent (lastPathComponent path)) as ->.
  { unfold address in Ea. by case_match; simplify_eq. }
  apply follows_bind. eapply follows_mono; [apply parent_follows|]. intros [[]|e] h1 Hp; [|done].
  apply follows_bind. eapply follows_mono; [apply follows_prefix, stale_follows|]. intros [[]|e] h2 [_ Hin]; [|done].
  apply follows_bind, follows_guarded_plain; [done| |done]. intros f.
  apply follows_bind, follows_attempt. eapply follows_mono.
  { apply (set_up_follows _ _ parent); [|done]. destruct Hp as (st & u & ? & ? & ?). exists st, u.
    split_and!; [rewrite in_app_iff; auto..|done]. }
  intros [st|[e identity]] h3 Hi; [by apply follows_ret|]. apply follows_bind.
  eapply follows_mono; [by apply close_follows|]. intros [l|e'] h4 _; [by apply follows_throw|done].
Qed.

Lemma closeAndUnlink_done self s : exists l' s', closeAndUnlink self s = (Done (Ok l'), s') /\ l_fd l' = None.
Proof.
  unfold closeAndUnlink, remove_own, close, lstat, mac_unlink, file_prim, bind, prim, ret.
  destruct (l_fd self) as [f|]; [destruct (k_close f (world s)) as [[] w]|]; cbn;
    (destruct (l_identity self) as [st|]; [|by eexists _, _]);
    (destruct (k_lstat _ _) as [[current|e] w1]; cbn; [|by eexists _, _]);
    (destruct (sameFile st current); [|by eexists _, _]);
    destruct (k_unlink _ _) as [r w2]; by eexists _, _.
Qed.

(** *** Descriptors *)

#[local] Hint Resolve neutral_guarded : owns.
#[local] Hint Extern 1 (owns [] _ (prim _ _)) => (apply neutral_prim; done) : owns.
#[local] Hint Extern 1 (owns [] _ (file_prim _ _)) => (apply neutral_prim; done) : owns.

Lemma neutral_configure f : neutral (configureConnectedSocket (W := W) f).
Proof. unfold configureConnectedSocket, no_sigpipe, mac_nonblock, mac_cloexec. neutral_tac. Qed.
#[local] Hint Resolve neutral_configure : owns.

Lemma neutral_stale path : neutral (removeStaleSocket (W := W) path).
Proof.
  unfold removeStaleSocket, lstat, geteuid. neutral_tac.
  unfold probe_and_remove. eapply neutral_acquire; [by apply owns_guarded_open|]. intros probe.
  apply neutral_scoped. unfold lstat, mac_unlink. neutral_tac.
Qed.

Lemma owns_closeAndUnlink self :
  owns (W := W) (match l_fd self with Some f => [f] | None => [] end) (fun _ => []) (closeAndUnlink self).
Proof.
  apply (owns_bind _ (fun _ => [])).
  - destruct (l_fd self) as [f|]; [apply (owns_close f [])|apply neutral_ret].
  - intros _. unfold remove_own, lstat, mac_unlink. neutral_tac.
Qed.

Definition listening (l : Listener) : list fd := match l_fd l with Some f => [f] | None => [] end.

Lemma neutral_set_up f path addr : neutral (set_up (W := W) f path addr).
Proof. unfold set_up, mac_cloexec, bind_privately, lstat, geteuid, umask. neutral_tac. Qed.

Lemma owns_init path : owns (W := W) [] listening (UnixSocketListener_init path).
Proof.
  unfold UnixSocketListener_init. case_bool_decide; [apply owns_throw|].
  apply (owns_bind _ (fun _ => [])); [unfold resolved_parent; neutral_tac|]. intros parent. cbv zeta.
  apply (owns_bind _ (fun _ => [])); [apply owns_lift|]. intros addr.
  apply (owns_bind _ (fun _ => [])); [unfold check_parent, lstat, geteuid; neutral_tac|]. intros _.
  apply (owns_bind _ (fun _ => [])); [apply neutral_stale|]. intros _.
  apply (owns_bind _ (fun f => [f])); [by apply owns_guarded_open|]. intros f.
  apply (owns_bind _ (fun _ => [f])).
  - intros s r s' (r' & HR & ->)%attempt_ok. apply neutral_set_up in HR as (evs & M & Hb). exists evs.
    split; [done|]. intros g. rewrite Hb. cbn. destruct r'; lia.
  - intros [st|[e identity]]; [apply (owns_ret listening {| l_fd := Some f; l_path := _; l_identity := _ |})|].
    apply (owns_bind _ (fun _ => [])); [apply (owns_closeAndUnlink {| l_fd := Some f; l_path := _; l_identity := _ |})|].
    intros _. apply owns_throw.
Qed.

Lemma owns_acceptFileHandle fuel f : owns (W := W) [] (fun client => [client]) (acceptFileHandle fuel f).
Proof.
  apply (owns_bind _ (fun client => [client])).
  - apply (owns_loop fuel _ (fun _ => []) (fun client => [client])). intros [].
    apply (owns_bind _ (fun r => match r with Ok client => [client] | Err _ => [] end)).
    + apply owns_prim. intros [client|e] g; cbn; lia.
    + intros [client|[]]; try apply owns_throw; by apply (owns_ret (fun r => match r with inl _ => [] | inr c => [c] end)).
  - intros client. eapply owns_bind; [apply owns_kept; auto with owns|]. intros u.
    apply (owns_ret (fun client => [client])).
Qed.
End Listener.

(** C14: the listener touches no file but its own socket.  Whatever the kernel
    answers and wherever its setting up ends, a file is removed only if it was
    just seen to be still the socket of the user that had refused a
    connection, or that the agent itself had bound; the socket is bound only
    while the mask keeps others out, in a directory that was found to be the
    user's or root's and not writable by others, or sticky.  A failure leaves no
    descriptor open; after a success, closing the listener at any later time
    removes its socket under the same condition, and leaves none. *)
Theorem listener_touches_only_its_socket `{Kernel W} `{MacFiles W} `{FileURL} `{MacSockets W}
  path (s s' : state W) o evs :
  UnixSocketListener_init path s = (o, s') -> made s s' evs ->
  (forall pre e post, evs = pre ++ e :: post -> justified_call (lastPathComponent path) pre e) /\
  match o with
  | Done (Err _) => forall g, balance evs g = 0%Z
  | Done (Ok l) => forall between s1 o1 s2 evs1, closeAndUnlink l s1 = (o1, s2) -> made s1 s2 evs1 ->
      (forall pre e post, evs1 = pre ++ e :: post ->
         justified_call (lastPathComponent path) (evs ++ between ++ pre) e) /\
      exists l', o1 = Done (Ok l') /\ l_fd l' = None /\ forall g, balance (evs ++ evs1) g = 0%Z
  | _ => True
  end.
Proof.
  intros HR M. destruct (init_follows path s) as (evs' & h & M' & Hrun & Hend). rewrite HR in M', Hend. cbn in M', Hend.
  pose proof (made_inj _ _ _ _ M' M) as ->. apply history_run in Hrun as [-> Hj]. split; [exact Hj|].
  destruct o as [[l|e]| |]; [| |done..].
  2: { apply owns_init in HR as (e' & Me & Hb). pose proof (made_inj _ _ _ _ Me M) as ->. intros g. by rewrite Hb. }
  intros between s1 o1 s2 evs1 HC M1.
  assert (identified (l_path l) (l_identity l) (evs ++ between)) as Hi.
  { destruct (l_identity l); [|done]. destruct Hend as (? & ? & ? & f & ?). cbn. rewrite !in_app_iff.
    split_and!; [by left|done|by left|]. exists f. rewrite in_app_iff. by left. }
  destruct (close_follows (lastPathComponent path) _ l Hi s1) as (evs1' & h1 & M1' & Hrun1 & _). rewrite HC in M1'.
  cbn in M1'. pose proof (made_inj _ _ _ _ M1' M1) as ->. apply history_run in Hrun1 as [_ Hj1]. split.
  { intros pre e post He. rewrite app_assoc. by eapply Hj1. }
  destruct (closeAndUnlink_done l s1) as (l' & s2' & HC' & Hl'). rewrite HC in HC'. injection HC' as -> <-.
  exists l'. split_and!; [done|done|]. intros g. rewrite balance_app.
  apply owns_init in HR as (e' & Me & Hb). pose proof (made_inj _ _ _ _ Me M) as ->.
  apply owns_closeAndUnlink in HC as (e1' & Me1 & Hb1). pose proof (made_inj _ _ _ _ Me1 M1) as ->.
  rewrite Hb, Hb1. unfold listening. cbn. lia.
Qed.
