(* ===== verification/MacThreads.v ===== *)
(** * Connections at the same time

    The agent serves its connections in threads of their own, whose calls are
    interleaved.  What they share is a turn for the screen, a semaphore with
    the value one ([slot] of [AuthenticationCoordinator] in
    [Authentication.swift]): of all connections, however many and however
    interleaved, one at most has a session with the user. *)

From Stdlib Require Import NArith ZArith Lia List Bool.
From Stdlib Require Import Strings.Byte Strings.String.
From stdpp Require Import base decidable list option strings gmap.
From S2P Require Import Prelude RustStd Crypto Protocol Sys Io CacheSpec Automaton.
From S2P Require Import ReplaySystem MacProtocol RateLimiter MacAgent.

Open Scope N_scope.

(** ** One connection *)

(** Where a connection is: not at its turn, at its turn, or with a session;
    the session is over when it was invalidated. *)
Inductive turn : Type :=
| Waiting
| Holding
| Asking (session : N).

#[global] Instance turn_eq_decision : EqDecision turn.
Proof. solve_decision. Defined.

Definition turn_step (c : turn) (e : event) : option turn :=
  match e with
  | EvMac (EvSlot taken) =>
      match c with Waiting => Some (if taken then Holding else Waiting) | _ => None end
  | EvMac EvSlotSignal => match c with Holding => Some Waiting | _ => None end
  | EvMac (EvSession i) => match c with Holding => Some (Asking i) | _ => None end
  | EvMac (EvStart i) | EvMac (EvResult i _) | EvMac (EvReady i) =>
      match c with Asking j => if decide (i = j) then Some c else None | _ => None end
  | EvMac (EvSessionCancel i) =>
      match c with Asking j => if decide (i = j) then Some Holding else None | _ => None end
  | _ => Some c
  end.

(** Calls that have nothing to do with the turn. *)
Definition apart (e : event) : Prop :=
  match e with
  | EvMac (EvSlot _ | EvSlotSignal | EvSession _ | EvStart _ | EvResult _ _ | EvReady _ | EvSessionCancel _) => False
  | _ => True
  end.

Section Connection.
Context `{Kernel W} `{MacKernel W} `{CryptoKit W} `{JSONCoder} `{SwiftText} `{Crypto}.

Lemma apart_step c e : apart e -> turn_step c e = Some c.
Proof. intros Ha. destruct e; try reflexivity. cbn in *. by destruct e. Qed.

Lemma follows_apart {E A} c (m : M W E A) : emits apart m -> follows turn_step c m (fun _ c' => c' = c).
Proof.
  intros Hm s. destruct (Hm s) as (evs & M & HF). exists evs, c. split_and!; [done| |by case_match].
  clear M. induction HF as [|e evs He _ IH]; [done|]. cbn. by rewrite apart_step.
Qed.

Lemma emits_apart_check_deadline d : emits apart (check_deadline (W := W) d).
Proof. unfold check_deadline, remainingMilliseconds, uptimeNanoseconds. respects_tac; by apply emits_prim. Qed.

Lemma emits_apart_check l : emits apart (check (W := W) l).
Proof.
  pose proof emits_apart_check_deadline. unfold check, still_wanted, get_cancelled, set_cancelled, unixTimeMs, peek.
  respects_tac; by apply emits_prim.
Qed.

Lemma emits_apart_wait fuel f ev d : emits apart (waitForSocket (W := W) fuel f ev d).
Proof.
  pose proof emits_apart_check_deadline. unfold waitForSocket, wait_round, remainingMilliseconds, uptimeNanoseconds, poll.
  respects_tac; by apply emits_prim.
Qed.

Lemma emits_apart_read fuel f d : emits apart (readJSONFrame (W := W) fuel f d).
Proof.
  pose proof emits_apart_wait. unfold readJSONFrame, readExactly, read_round. respects_tac; by apply emits_prim.
Qed.

Lemma emits_apart_capped {E} d ms : emits apart (capped (W := W) (E := E) d ms).
Proof. unfold capped, deadline_in, uptimeNanoseconds. respects_tac; by apply emits_prim. Qed.

Lemma emits_apart_lifetime {E} f t d : emits apart (RequestLifetime_init (W := W) (E := E) f t d).
Proof.
  pose proof @emits_apart_capped. unfold RequestLifetime_init, new_flag, unixTimeMs. respects_tac; by apply emits_prim.
Qed.

Lemma emits_apart_verify r k skew : emits apart (verifyRequest (W := W) r k skew).
Proof. unfold verifyRequest, unixTimeMs. respects_tac; by apply emits_prim. Qed.

Lemma emits_apart_limiter {E} l m : emits apart (limiter_allow (W := W) (E := E) l m).
Proof. unfold limiter_allow, unixTimeMs, get_history, set_history. respects_tac; by apply emits_prim. Qed.

Lemma emits_apart_respond fuel f runtime m l a : emits apart (respond (W := W) fuel f runtime m l a).
Proof.
  pose proof emits_apart_check. pose proof emits_apart_wait.
  unfold respond, unixTimeMs, signature_for, writeJSONFrame, write_round. respects_tac; by apply emits_prim.
Qed.

Lemma follows_deferred {C E A} (step : C -> event -> option C) c (final : M W E unit) (m : M W E A) (P Q : C -> Prop) :
  follows step c m (fun _ c' => P c') -> (forall c', P c' -> follows step c' final (fun _ c'' => Q c'')) ->
  follows step c (deferred final m) (fun _ c'' => Q c'').
Proof.
  intros Hm Hf. apply follows_bind, follows_attempt. eapply follows_mono; [exact Hm|]. intros x c' Hc'.
  apply follows_bind. eapply follows_mono; [by apply Hf|]. intros [[]|e] c'' Hc''; [by apply follows_done|done].
Qed.

Lemma follows_then {E A B} c (m : M W E A) (k : A -> M W E B) (Q : result B E -> turn -> Prop) :
  emits apart m -> (forall a, follows turn_step c (k a) Q) -> (forall e, Q (Err e) c) ->
  follows turn_step c (bind m k) Q.
Proof.
  intros Hm Hk He. apply follows_bind. eapply follows_mono; [by apply follows_apart|].
  intros [a|e] c' ->; [apply Hk|apply He].
Qed.

(** A session is between the turn and its end. *)
Lemma evaluate_follows fuel m confirm l :
  follows turn_step Waiting (evaluate (W := W) fuel m confirm l) (fun _ c => c = Waiting).
Proof.
  unfold evaluate. apply follows_bind. eapply (follows_mono _ _ _ (fun x c => c = if is_ok x then Holding else Waiting)).
  { apply (follows_loop _ _ _ (fun _ c => c = Waiting)); [|done]. intros [] c ->. unfold slot_round.
    apply follows_bind, follows_prim. intros [|]; (eexists; split; [done|]); [by apply follows_ret|].
    apply follows_then; [apply emits_apart_check| |done]. intros _. by apply follows_ret. }
  intros [[]|e] c ->; [|done]. cbn [is_ok]. apply (follows_deferred _ _ _ _ (eq Holding)).
  2: { intros c' <-. apply follows_prim. intros _. by eexists. }
  apply follows_then; [apply emits_apart_check| |done]. intros _.
  apply follows_bind, follows_prim. intros i. eexists. split; [done|].
  apply (follows_deferred _ _ _ _ (eq (Asking i))).
  2: { intros c' <-. apply follows_prim. intros _. eexists. cbn. by rewrite decide_True. }
  apply follows_bind, follows_prim. intros _. eexists. split; [cbn; by rewrite decide_True|].
  apply follows_bind. eapply (follows_mono _ _ _ (fun _ c => c = Asking i)).
  { apply (follows_loop _ _ _ (fun _ c => c = Asking i)); [|done]. intros [] c' ->. unfold result_round.
    apply follows_bind, follows_prim. intros r. eexists. split; [cbn; by rewrite decide_True|].
    destruct r as [r|]; [by apply follows_ret|]. apply follows_then; [apply emits_apart_check| |done]. intros _.
    apply follows_bind, follows_prim. intros _. eexists. split; [cbn; by rewrite decide_True|]. by apply follows_ret. }
  intros [r|e] c' ->; [|done]. apply follows_then; [apply emits_apart_check| |done]. intros _. by apply follows_ret.
Qed.

Lemma handler_follows fuel f (runtime : AgentRuntime (W := W)) d :
  follows turn_step Waiting (handleServeRequest fuel f runtime d) (fun _ c => c = Waiting).
Proof.
  unfold handleServeRequest. apply follows_then; [apply emits_apart_capped| |done]. intros fd_.
  apply follows_then; [apply emits_apart_read| |done]. intros request.
  destruct (verifier_for _ _) as [v|]; [|by apply follows_throw].
  apply follows_then; [apply emits_apart_verify| |done]. intros _.
  apply follows_then; [apply emits_apart_lifetime| |done]. intros l.
  apply (follows_deferred _ _ _ _ (eq Waiting)).
  2: { intros c <-. apply follows_prim. intros _. by eexists. }
  apply follows_then; [apply emits_apart_check| |done]. intros _.
  apply follows_bind. eapply (follows_mono _ _ _ (fun _ c => c = Waiting)).
  - apply follows_then; [apply emits_apart_limiter| |done]. intros [|]; [apply evaluate_follows|by apply follows_ret].
  - intros [a|e] c ->; [|done]. eapply follows_mono; [apply follows_apart, emits_apart_respond|]. by intros x c ->.
Qed.
End Connection.

(** ** All connections *)

(** The turn of connection [p] after its calls, [calls_of p evs]. *)
Definition turn_of (p : N) (evs : list (N * event)) : option turn := run_steps turn_step Waiting (calls_of p evs).

(** The semaphore: a wait succeeds only while its value is positive, and a
    signal adds one. *)
Definition slot_value (value : nat) (e : event) : option nat :=
  match e with
  | EvMac (EvSlot true) => match value with O => None | S n => Some n end
  | EvMac EvSlotSignal => Some (S value)
  | _ => Some value
  end.

Fixpoint slot_run (value : nat) (evs : list (N * event)) : option nat :=
  match evs with
  | [] => Some value
  | (_, e) :: evs => match slot_value value e with Some v => slot_run v evs | None => None end
  end.

(** Calls on a session. *)
Definition on_session (e : event) : Prop :=
  match e with
  | EvMac (EvSession _ | EvStart _ | EvResult _ _ | EvReady _ | EvSessionCancel _) => True
  | _ => False
  end.

Lemma calls_of_app p e1 e2 : calls_of p (e1 ++ e2) = calls_of p e1 ++ calls_of p e2.
Proof. unfold calls_of. by rewrite List.filter_app, map_app. Qed.

Lemma slot_run_app v e1 e2 :
  slot_run v (e1 ++ e2) = match slot_run v e1 with Some v1 => slot_run v1 e2 | None => None end.
Proof. revert v. induction e1 as [|[p e] e1 IH]; intros v; [done|]. cbn. by destruct (slot_value v e). Qed.

Lemma turn_of_snoc p q e evs c : turn_of p evs = Some c ->
  turn_of p (evs ++ [(q, e)]) = if decide (q = p) then turn_step c e else Some c.
Proof.
  unfold turn_of. intros Hc. rewrite calls_of_app, run_steps_app, Hc. unfold calls_of. cbn.
  case_decide as Hq; [subst; rewrite N.eqb_refl; cbn; by destruct (turn_step c e)|].
  by rewrite (proj2 (N.eqb_neq _ _)).
Qed.

(** Who has not given its turn back. *)
Definition away (evs : list (N * event)) (p : N) : Prop := turn_of p evs <> Some Waiting.

(** The value and the turns: all connections wait, or one is away. *)
Definition accounted (evs : list (N * event)) (value : nat) : Prop :=
  (value = 1%nat /\ forall p, ~ away evs p) \/
  (value = 0%nat /\ exists p, away evs p /\ forall q, away evs q -> q = p).

(** The semaphore counts the turns that are taken and given back. *)
Lemma slot_turn c c' e v v' : turn_step c e = Some c' -> slot_value v e = Some v' ->
  ((c = Waiting <-> c' = Waiting) /\ v' = v) \/
  (c = Waiting /\ c' = Holding /\ v = S v') \/ (c = Holding /\ c' = Waiting /\ v' = S v).
Proof.
  destruct e; cbn; try (intros [= <-] [= <-]; by left).
  match goal with e : mac_event |- _ => destruct e end; cbn; try (intros [= <-] [= <-]; by left).
  - destruct c; [|done..]. destruct taken; [|intros [= <-] [= <-]; by left].
    destruct v; [done|]. intros [= <-] [= <-]. by right; left.
  - destruct c; [done| |done]. intros [= <-] [= <-]. by right; right.
  - destruct c; [done| |done]. intros [= <-] [= <-]. by left.
  - destruct c; [done..|]. case_decide; [|done]. intros [= <-] [= <-]. by left.
  - destruct c; [done..|]. case_decide; [|done]. intros [= <-] [= <-]. by left.
  - destruct c; [done..|]. case_decide; [|done]. intros [= <-] [= <-]. by left.
  - destruct c; [done..|]. case_decide; [|done]. intros [= <-] [= <-]. by left.
Qed.

Lemma accounted_step evs p e v v' :
  (forall q, exists c, turn_of q (evs ++ [(p, e)]) = Some c) -> (forall q, exists c, turn_of q evs = Some c) ->
  accounted evs v -> slot_value v e = Some v' -> accounted (evs ++ [(p, e)]) v'.
Proof.
  intros Hall' Hall Ha Hv. destruct (Hall p) as (c & Hc), (Hall' p) as (c' & Hc').
  pose proof (turn_of_snoc p p e evs c Hc) as Hs. rewrite Hc', decide_True in Hs by done. symmetry in Hs.
  assert (forall q, q <> p -> away (evs ++ [(p, e)]) q <-> away evs q) as Hother.
  { intros q Hq. destruct (Hall q) as (d & Hd). unfold away.
    rewrite (turn_of_snoc q p e evs d Hd), decide_False, Hd by done. done. }
  assert (away (evs ++ [(p, e)]) p <-> c' <> Waiting) as Hp' by (unfold away; rewrite Hc'; naive_solver).
  assert (away evs p <-> c <> Waiting) as Hp by (unfold away; rewrite Hc; naive_solver).
  assert ((c = Waiting <-> c' = Waiting) -> v' = v -> accounted (evs ++ [(p, e)]) v') as Hsame.
  { intros Hiff ->. assert (forall q, away (evs ++ [(p, e)]) q <-> away evs q) as Hq.
    { intros q. destruct (decide (q = p)) as [->|Hne]; [|by apply Hother]. rewrite Hp', Hp. by rewrite Hiff. }
    destruct Ha as [[-> Hn]|(-> & r & Hr & Hu)]; [left|right].
    - split; [done|]. intros q. by rewrite Hq.
    - split; [done|]. exists r. rewrite Hq. split; [done|]. intros q. rewrite Hq. apply Hu. }
  destruct (slot_turn c c' e v v' Hs Hv) as [[Hiff ->]|[(-> & -> & ->)|(-> & -> & ->)]]; [by apply Hsame| |].
  - destruct Ha as [[[= ->] Hn]|[[=] _]]. right. split; [done|]. exists p. split; [by apply Hp'|].
    intros q Hq. destruct (decide (q = p)) as [|Hne]; [done|]. apply Hother in Hq; [|done]. by apply Hn in Hq.
  - destruct Ha as [[-> Hn]|(-> & r & Hr & Hu)]; [by destruct (Hn p); apply Hp|].
    left. split; [done|]. intros q Hq. destruct (decide (q = p)) as [->|Hne]; [by apply Hp' in Hq|].
    apply Hother in Hq; [|done]. apply Hne. rewrite (Hu q Hq). symmetry. by apply Hu, Hp.
Qed.

Lemma turn_of_prefix p pre post c : turn_of p (pre ++ post) = Some c -> exists c', turn_of p pre = Some c'.
Proof.
  unfold turn_of. rewrite calls_of_app, run_steps_app. destruct (run_steps _ _ _) as [c'|]; [by exists c'|done].
Qed.

Lemma accounted_run evs v :
  (forall q, exists c, turn_of q evs = Some c) -> slot_run 1 evs = Some v -> accounted evs v.
Proof.
  revert v. induction evs as [|[p e] evs IH] using rev_ind; intros v Hall HR.
  - injection HR as <-. left. split; [done|]. intros p Hp. by apply Hp.
  - rewrite slot_run_app in HR. destruct (slot_run 1 evs) as [v0|] eqn:E0; [|done]. cbn in HR.
    destruct (slot_value v0 e) as [v1|] eqn:Ev; [|done]. injection HR as ->.
    assert (forall q, exists c, turn_of q evs = Some c) as Hall0.
    { intros q. destruct (Hall q) as (c & Hc). by eapply turn_of_prefix. }
    by apply (accounted_step evs p e v0); [..|apply IH|].
Qed.

(** C12: one session at a time.  However many connections the agent serves,
    however their calls are interleaved and wherever each of them is cut
    short, if the semaphore that they share keeps to what a semaphore is, then
    whenever a connection makes a call on its session with the user, no other
    connection has taken its turn without giving it back: the user is never
    asked for two requests at once. *)
Theorem one_session_at_a_time `{Kernel W} `{MacKernel W} `{CryptoKit W} `{JSONCoder} `{SwiftText} `{Crypto}
  (evs : list (N * event)) value :
  (forall p, exists fuel f (runtime : AgentRuntime (W := W)) d (s s' : state W) o later,
     handleServeRequest fuel f runtime d s = (o, s') /\ made s s' (calls_of p evs ++ later)) ->
  slot_run 1 evs = Some value ->
  forall pre p e post, evs = pre ++ (p, e) :: post -> on_session e ->
    forall q, q <> p -> turn_of q pre = Some Waiting.
Proof.
  intros Hruns HR pre p e post -> He q Hq.
  assert (forall r, exists c, turn_of r (pre ++ (p, e) :: post) = Some c) as Hall.
  { intros r. destruct (Hruns r) as (fuel & f & runtime & d & s & s' & o & later & Hrun & M).
    destruct (handler_follows fuel f runtime d s) as (evs & c & M' & HS & _). rewrite Hrun in M'.
    pose proof (made_inj _ _ _ _ M' M) as ->. rewrite run_steps_app in HS. unfold turn_of.
    destruct (run_steps turn_step Waiting (calls_of r _)) as [c'|]; [by exists c'|done]. }
  assert (forall r, exists c, turn_of r pre = Some c) as Hpre.
  { intros r. destruct (Hall r) as (c & Hc). by eapply turn_of_prefix. }
  rewrite slot_run_app in HR. destruct (slot_run 1 pre) as [v|] eqn:Ev; [|done].
  pose proof (accounted_run pre v Hpre Ev) as Ha. destruct (Hpre p) as (c & Hc).
  assert (away pre p) as Hp.
  { unfold away. rewrite Hc. intros [= ->]. destruct (Hall p) as (c' & Hc').
    replace (pre ++ (p, e) :: post) with ((pre ++ [(p, e)]) ++ post) in Hc' by by rewrite <- app_assoc.
    apply turn_of_prefix in Hc' as (c1 & Hc1). rewrite (turn_of_snoc p p e pre Waiting Hc), decide_True in Hc1 by done.
    by destruct e as [| | | | | | | | | | | | | | | | | | | | | | | | | | | |[]]. }
  destruct Ha as [[_ Hn]|(_ & r & Hr & Hu)]; [by apply Hn in Hp|].
  destruct (decide (turn_of q pre = Some Waiting)) as [|Hw]; [done|]. exfalso. apply Hq.
  rewrite (Hu q Hw). symmetry. by apply Hu.
Qed.
