(* ===== verification/MacServer.v ===== *)
(** * Serving ([runSocketServer] and [ConnectionPool] of
    [src/agent/Sources/MacosAuthAgent/Transport.swift], [runServe] of
    [main.swift])

    One thread accepts connections and hands each to a pool of eight slots; a
    connection that finds no slot is closed; a worker runs the handler, closes
    the connection and gives the slot back.  The main thread waits for the
    completion, which comes from the acceptor when it fails, or, with [--once],
    from the worker.  The threads are a step relation: each step is a call of
    one of them that another can see. *)

From Stdlib Require Import NArith ZArith Lia List Bool.
From Stdlib Require Import Strings.Byte Strings.String.
From stdpp Require Import base decidable list option strings gmap.
From S2P Require Import Prelude RustStd Crypto Protocol Sys Ownership Io CacheSpec.
From S2P Require Import MacProtocol RateLimiter MacAgent MacFiles MacKeys MacConfig MacListener.

Open Scope N_scope.

(** ** The threads *)

(** [init(limit: Int = 8)] *)
Definition pool_limit : nat := 8.

(** The acceptor: in [accept], with a connection in hand, or done. *)
Inductive acceptor : Type :=
| Accepting
| Submitting (handle : fd)
| Finished.

(** A worker: in the queue, in the handler, at [if once], at the [close] of
    its [defer], at the [signal] of the pool's [defer]. *)
Inductive phase : Type :=
| Queued
| Handling
| Completing
| Closing
| Signalling.

(** [completion] holds the first result that it is given. *)
Record server : Type := Server {
  accepting : acceptor;
  slots : nat;
  workers : list (fd * phase);
  completion : option (result unit AgentError);
  returned : option (result unit AgentError);
}.

Definition complete (r : result unit AgentError) (c : option (result unit AgentError)) : option (result unit AgentError) :=
  match c with Some _ => c | None => Some r end.

(** [repeat .. while !once] *)
Definition next_accept (once : bool) : acceptor := if once then Finished else Accepting.

Definition serve_start : server := Server Accepting pool_limit [] None None.

(** What a step shows: a connection accepted or closed, or another call. *)
Inductive server_label : Type :=
| Accepted (handle : fd)
| Closed (handle : fd)
| Internal.

Section Server.
Context (once : bool) (handles : fd -> result unit AgentError -> Prop).

Inductive server_step : server -> server_label -> server -> Prop :=
| accept_handle f n ws c r :
    server_step (Server Accepting n ws c r) (Accepted f) (Server (Submitting f) n ws c r)
| accept_fails e n ws c r :
    server_step (Server Accepting n ws c r) Internal (Server Finished n ws (complete (Err e) c) r)
| submit_admitted f n ws c r :
    server_step (Server (Submitting f) (S n) ws c r) Internal
      (Server (next_accept once) n (ws ++ [(f, Queued)]) c r)
| submit_refused f ws c r :
    server_step (Server (Submitting f) 0 ws c r) (Closed f) (Server (next_accept once) 0 ws c r)
| worker_starts a n l f k c r :
    server_step (Server a n (l ++ (f, Queued) :: k) c r) Internal (Server a n (l ++ (f, Handling) :: k) c r)
| worker_handled a n l f k c r x : handles f x ->
    server_step (Server a n (l ++ (f, Handling) :: k) c r) Internal (Server a n (l ++ (f, Completing) :: k) c r)
| worker_completes a n l f k c r :
    server_step (Server a n (l ++ (f, Completing) :: k) c r) Internal
      (Server a n (l ++ (f, Closing) :: k) (if once then complete (Ok tt) c else c) r)
| worker_closes a n l f k c r :
    server_step (Server a n (l ++ (f, Closing) :: k) c r) (Closed f) (Server a n (l ++ (f, Signalling) :: k) c r)
| worker_signals a n l f k c r :
    server_step (Server a n (l ++ (f, Signalling) :: k) c r) Internal (Server a (S n) (l ++ k) c r)
| main_returns a n ws x :
    server_step (Server a n ws (Some x) None) Internal (Server a n ws (Some x) (Some x)).

Inductive server_run : server -> list server_label -> server -> Prop :=
| run_nil s : server_run s [] s
| run_snoc s1 ls s2 l s3 : server_run s1 ls s2 -> server_step s2 l s3 -> server_run s1 (ls ++ [l]) s3.
End Server.

(** ** The commands that serve

    [runSocketServer] is given the listening descriptor, [once] and the
    handler; its threads are those above. *)

Record ServeOptions : Type := { so_configPath : bytes; so_once : bool }.

Record FakeAgentOptions : Type := {
  fa_socketPath : bytes;
  fa_hostPublicKeyHex : option bytes;
  fa_hostPublicKeyFile : option bytes;
  fa_agentKeyHex : option bytes;
  fa_agentKeyFile : option bytes;
  fa_agentKeyId : bytes;
  fa_decision : Decision.t;
  fa_once : bool;
}.

Section Commands.
Context `{Kernel W} `{MacKernel W} `{MacFiles W} `{FileURL} `{MacSockets W}.
Context `{SwiftString} `{SwiftText} `{CryptoKit W} `{!KitKeys W} `{Keychain W} `{JSONCoder} `{ConfigCoder} `{Crypto}.

Definition Handler : Type := fd -> Deadline -> M W AgentError unit.

Section WithServer.
Context (runSocketServer : Listener -> bool -> Handler -> M W AgentError unit).

(** The listener is closed however the server ends. *)
Definition with_listener (path : bytes) (once : bool) (handler : Handler) : M W AgentError unit :=
  let! listener := UnixSocketListener_init path in
  deferred (let! _ := closeAndUnlink listener in ret tt) (runSocketServer listener once handler).

Definition runServe (fuel : nat) (options : ServeOptions) : M W AgentError unit :=
  let! config := loadAgentConfig (so_configPath options) in
  let! runtime := runtime_from config in
  with_listener (AgentConfig.socketPath config) (so_once options)
    (fun handle deadline => handleServeRequest fuel handle runtime deadline).

(** ** The agent's own fake agent *)

Definition verifiedRequest (fuel : nat) (handle : fd) (hostPublicKey : PublicKey (W := W)) (skew : N) (deadline : Deadline)
  : M W AgentError MacRequest.signed :=
  let! request := readJSONFrame fuel handle deadline in
  do! verifyRequest request hostPublicKey skew ;;
  ret request.

Definition handleRequest (fuel : nat) (handle : fd) (hostPublicKey : PublicKey (W := W)) (agentPrivateKey : PrivateKey (W := W))
  (options : FakeAgentOptions) (deadline : Deadline) : M W AgentError unit :=
  let! frameDeadline := capped deadline 2000 in
  let! request := verifiedRequest fuel handle hostPublicKey 30000 frameDeadline in
  let! lifetime := RequestLifetime_init handle (MacRequest.expiresAtMs (MacRequest.body request)) deadline in
  deferred (set_cancelled (lt_cancelled lifetime)) (
    do! check lifetime ;;
    let method := if decide (fa_decision options = Decision.Approved) then AuthMethod.BiometricOrWatch
                  else AuthMethod.None_ in
    let! now := unixTimeMs in
    let! responseBody := lift (MacResponse.forRequest (MacRequest.body request) (fa_decision options) method now
                                 (fa_agentKeyId options)) in
    let! message := lift (MacResponse.canonicalBytes responseBody) in
    let! signature := signature_for agentPrivateKey message in
    do! check lifetime ;;
    writeJSONFrame fuel (MacResponse.mk_signed responseBody signature) handle (lt_deadline lifetime)).

Definition runFakeAgent (fuel : nat) (options : FakeAgentOptions) : M W AgentError unit :=
  let! hostPublicKeyHex := readKeyMaterial (fa_hostPublicKeyHex options) (fa_hostPublicKeyFile options) false in
  let! agentKeyHex := readKeyMaterial (fa_agentKeyHex options) (fa_agentKeyFile options) true in
  let! hostPublicKey := lift (public_key_of_hex hostPublicKeyHex) in
  let! agentPrivateKey := lift (private_key_of_hex agentKeyHex) in
  with_listener (fa_socketPath options) (fa_once options)
    (fun handle deadline => handleRequest fuel handle hostPublicKey agentPrivateKey options deadline).
End WithServer.
End Commands.
