(* ===== verification/MacServerProps.v ===== *)
(** * What the server of the agent promises ([MacServer])

    Whatever the order in which its threads run: eight connections at most are
    served at once, every connection that is accepted is closed once, the
    server that is not asked to stop goes on until [accept] fails, and it can
    always come to rest, with all its slots free; with [--once] it serves one
    connection and returns. *)

From Stdlib Require Import NArith ZArith Lia List Bool.
From stdpp Require Import base decidable list option.
From S2P Require Import Prelude Sys MacProtocol MacServer.

(** ** The ledger of connections *)

Definition accepted_of (l : server_label) : list fd := match l with Accepted f => [f] | _ => [] end.
Definition closed_of (l : server_label) : list fd := match l with Closed f => [f] | _ => [] end.
Definition accepted (ls : list server_label) : list fd := flat_map accepted_of ls.
Definition closed (ls : list server_label) : list fd := flat_map closed_of ls.

(** The connections that are open: in the acceptor's hand, and those of the
    workers that have not closed theirs. *)
Definition in_hand (a : acceptor) : list fd := match a with Submitting f => [f] | _ => [] end.
Definition held_by (w : fd * phase) : list fd := match w.2 with Signalling => [] | _ => [w.1] end.
Definition open_connections (s : server) : list fd := in_hand (accepting s) ++ flat_map held_by (workers s).

Section Server.
Context (once : bool) (handles : fd -> result unit AgentError -> Prop).
#[local] Abbreviation step := (server_step once handles).
#[local] Abbreviation run := (server_run once handles).

Lemma accepted_snoc ls l : accepted (ls ++ [l]) = accepted ls ++ accepted_of l.
Proof. unfold accepted. rewrite flat_map_app. cbn. by rewrite app_nil_r. Qed.
Lemma closed_snoc ls l : closed (ls ++ [l]) = closed ls ++ closed_of l.
Proof. unfold closed. rewrite flat_map_app. cbn. by rewrite app_nil_r. Qed.

(** One step keeps the slots and the connections accounted for. *)
Lemma step_slots s l s' : step s l s' -> (slots s + length (workers s) = slots s' + length (workers s'))%nat.
Proof. destruct 1; cbn; rewrite ?length_app; cbn; lia. Qed.

Lemma next_in_hand : in_hand (next_accept once) = [].
Proof. unfold next_accept. by destruct once. Qed.

Lemma step_ledger s l s' : step s l s' ->
  accepted_of l ++ open_connections s ≡ₚ closed_of l ++ open_connections s'.
Proof.
  destruct 1; unfold open_connections; cbn [accepting workers in_hand accepted_of closed_of app]; rewrite ?next_in_hand;
    rewrite ?flat_map_app; cbn; rewrite ?app_nil_r; try done.
  - by rewrite Permutation_app_comm.
  - rewrite (app_assoc _ _ (f :: _)), <- Permutation_middle. by rewrite <- app_assoc.
Qed.

(** What has been completed and returned. *)
Definition result_kept (s : server) : Prop :=
  (forall x, returned s = Some x -> completion s = Some x) /\
  (once = false -> forall x, completion s = Some x -> accepting s = Finished /\ exists e, x = Err e) /\
  (once = false -> accepting s = Finished -> exists e, completion s = Some (Err e)).

Lemma complete_some x c : exists y, complete x c = Some y /\ (c = Some y \/ y = x).
Proof. destruct c as [y|]; [exists y|exists x]; auto. Qed.

Lemma step_result s l s' : step s l s' -> result_kept s -> result_kept s'.
Proof.
  intros Hs (Hr & Hc & Ha). destruct Hs; unfold result_kept in *; cbn in *.
  - split_and!; [done| |done]. intros Ho x Hx. by destruct (Hc Ho x Hx).
  - destruct (complete_some (Err e) c) as (y & Hy & Hor). rewrite Hy. split_and!.
    + intros x Hx. rewrite (Hr x Hx) in Hy. by injection Hy as <-.
    + intros Ho x [= <-]. split; [done|]. destruct Hor as [Hcy| ->]; [by destruct (Hc Ho _ Hcy)|by exists e].
    + intros Ho _. destruct Hor as [Hcy| ->]; [by destruct (Hc Ho _ Hcy)|by exists e].
  - unfold next_accept. split_and!; [done| |].
    + intros -> x Hx. by destruct (Hc eq_refl x Hx).
    + by intros ->.
  - unfold next_accept. split_and!; [done| |].
    + intros -> x Hx. by destruct (Hc eq_refl x Hx).
    + by intros ->.
  - done.
  - done.
  - destruct once; [|done]. split_and!; try done. intros x0 Hx. by rewrite (Hr _ Hx).
  - done.
  - done.
  - by split_and!.
Qed.

Lemma run_app s1 s2 s3 l1 l2 : run s1 l1 s2 -> run s2 l2 s3 -> run s1 (l1 ++ l2) s3.
Proof.
  intros H1. induction 1 as [|s2 ls s4 l s5 _ IH Hs]; [by rewrite app_nil_r|].
  rewrite app_assoc. econstructor; [by apply IH|done].
Qed.

(** ** Coming to rest *)

(** What a worker has left to do. *)
Definition left_of (w : fd * phase) : nat :=
  match w.2 with Queued => 5 | Handling => 4 | Completing => 3 | Closing => 2 | Signalling => 1 end.
Definition work_left (s : server) : nat := list_sum (map left_of (workers s)).

Lemma worker_can_go s f p ws : (forall f, exists x, handles f x) -> workers s = (f, p) :: ws ->
  exists l s', step s l s' /\ accepted_of l = [] /\ (work_left s' < work_left s)%nat.
Proof.
  intros Hh Hw. destruct s as [a n ws0 c r]. cbn in Hw. subst. unfold work_left. destruct p.
  - eexists _, _. split; [apply (worker_starts _ _ a n [] f ws)|]. cbn. split; [done|lia].
  - destruct (Hh f) as (x & Hx). eexists _, _. split; [by apply (worker_handled _ _ a n [] f ws c r x)|]. cbn. split; [done|lia].
  - eexists _, _. split; [apply (worker_completes _ _ a n [] f ws)|]. cbn. split; [done|lia].
  - eexists _, _. split; [apply (worker_closes _ _ a n [] f ws)|]. cbn. split; [done|lia].
  - eexists _, _. split; [apply (worker_signals _ _ a n [] f ws)|]. cbn. split; [done|lia].
Qed.

Lemma drains s : (forall f, exists x, handles f x) ->
  exists ls s', run s ls s' /\ accepted ls = [] /\ workers s' = [].
Proof.
  intros Hh. remember (work_left s) as n eqn:En. revert s En. induction n as [n IH] using lt_wf_ind. intros s ->.
  destruct (workers s) as [|[f p] ws] eqn:Ew; [exists [], s; split_and!; [constructor|done|done]|].
  destruct (worker_can_go s f p ws Hh Ew) as (l & s1 & Hs & Hl & Hlt).
  destruct (IH _ Hlt s1 eq_refl) as (ls & s2 & HR & Ha & Hw). exists ([l] ++ ls), s2. split_and!; [|by cbn; rewrite Hl|done].
  eapply run_app; [|exact HR]. apply (run_snoc _ _ s [] s l s1); [constructor|done].
Qed.
End Server.


(** ** [--once] *)

Section Once.
Context (handles : fd -> result unit AgentError -> Prop).
#[local] Abbreviation step := (server_step true handles).
#[local] Abbreviation run := (server_run true handles).

(** How many steps a server has left that serves one connection. *)
Definition steps_left (s : server) : nat :=
  match accepting s with Accepting => 7 | Submitting _ => 6 | Finished => 0 end + work_left s +
  match returned s with None => 1 | Some _ => 0 end.

Lemma once_steps_left s l s' : step s l s' -> (steps_left s' < steps_left s)%nat.
Proof.
  destruct 1; unfold steps_left, work_left; cbn -[list_sum]; rewrite ?map_app, ?list_sum_app; unfold list_sum; cbn; lia.
Qed.

(** The states of a server that serves one connection, with the connections
    that it has accepted. *)
Definition once_shape (taken : list fd) (s : server) : Prop :=
  match accepting s with
  | Accepting => taken = [] /\ slots s = pool_limit /\ workers s = [] /\ completion s = None
  | Submitting f => taken = [f] /\ slots s = pool_limit /\ workers s = [] /\ completion s = None
  | Finished =>
      (workers s = [] /\ ((taken = [] /\ exists e, completion s = Some (Err e)) \/
        (exists f x, taken = [f] /\ handles f x /\ completion s = Some (Ok tt)))) \/
      (exists f p, workers s = [(f, p)] /\ taken = [f] /\
        match p with
        | Queued | Handling => completion s = None
        | Completing => completion s = None /\ exists x, handles f x
        | Closing | Signalling => completion s = Some (Ok tt) /\ exists x, handles f x
        end)
  end.

Lemma one_worker (l k : list (fd * phase)) w v : l ++ w :: k = [v] -> l = [] /\ w = v /\ k = [].
Proof. destruct l as [|? [|]]; cbn; intros [=]; by subst. Qed.

Lemma once_step taken s l s' : once_shape taken s -> step s l s' -> once_shape (taken ++ accepted_of l) s'.
Proof.
  intros Hsh Hs. destruct Hs; unfold once_shape in *; cbn in *; rewrite ?app_nil_r.
  - by destruct Hsh as (-> & ? & ? & ?).
  - destruct Hsh as (-> & ? & ? & ->). left. split; [done|]. left. split; [done|]. by exists e.
  - destruct Hsh as (-> & ? & -> & ->). right. by exists f, Queued.
  - by destruct Hsh as (_ & ? & _).
  - destruct a; try (destruct Hsh as (_ & _ & Hw & _); by destruct l).
    destruct Hsh as [[Hw _]|(g & p & (-> & [= -> <-] & ->)%one_worker & -> & Hp)]; [by destruct l|]. right. by exists g, Handling.
  - destruct a; try (destruct Hsh as (_ & _ & Hw & _); by destruct l).
    destruct Hsh as [[Hw _]|(g & p & (-> & [= -> <-] & ->)%one_worker & -> & Hp)]; [by destruct l|].
    right. exists g, Completing. split_and!; [done..|by exists x].
  - destruct a; try (destruct Hsh as (_ & _ & Hw & _); by destruct l).
    destruct Hsh as [[Hw _]|(g & p & (-> & [= -> <-] & ->)%one_worker & -> & [-> Hp])]; [by destruct l|].
    right. by exists g, Closing.
  - destruct a; try (destruct Hsh as (_ & _ & Hw & _); by destruct l).
    destruct Hsh as [[Hw _]|(g & p & (-> & [= -> <-] & ->)%one_worker & -> & Hp)]; [by destruct l|].
    right. by exists g, Signalling.
  - destruct a; try (destruct Hsh as (_ & _ & Hw & _); by destruct l).
    destruct Hsh as [[Hw _]|(g & p & (-> & [= -> <-] & ->)%one_worker & -> & [-> (x & Hx)])]; [by destruct l|].
    left. split; [done|]. right. by exists g, x.
  - destruct a; [by destruct Hsh as (_ & _ & _ & ?)..|]. done.
Qed.

Lemma once_run ls s : run serve_start ls s ->
  once_shape (accepted ls) s /\ (length ls + steps_left s <= steps_left serve_start)%nat.
Proof.
  intros HR. remember serve_start as s0 eqn:E0. induction HR as [s|s1 ls s2 l s3 HR IH Hs]; subst.
  - split; [done|cbn; lia].
  - destruct (IH eq_refl) as [Hsh Hle]. rewrite accepted_snoc, length_app. cbn [length].
    split; [by eapply once_step|]. pose proof (once_steps_left _ _ _ Hs). lia.
Qed.
End Once.

