(* ===== verification/MacCli.v ===== *)
(** * The command line of the agent ([MacosAuthAgent] in
    [src/agent/Sources/MacosAuthAgent/main.swift])

    Each command has a loop over its arguments that sets a variable of its own
    for every option; [vars] are these variables, by the name of the option, and
    a table says which options a command knows.  [run] parses and calls the
    command, [agent_main] turns an error into the exit status.

    A command line is a sequence of known options, the last of a name counting;
    one that is not understood makes no call; and no command traps. *)

From Stdlib Require Import NArith ZArith Lia List Bool.
From Stdlib Require Import Strings.Byte Strings.String.
From stdpp Require Import base decidable list option strings gmap.
From S2P Require Import Prelude RustStd Crypto Protocol Sys Ownership Io CacheSpec Termination.
From S2P Require Import MacProtocol RateLimiter MacAgent MacFiles MacKeys MacConfig MacListener MacServer.

Open Scope N_scope.

(** ** Options *)

(** The option is followed by its value, or it sets a flag. *)
Inductive option_kind : Type := Takes | Sets.

#[global] Instance option_kind_eq_decision : EqDecision option_kind.
Proof. solve_decision. Defined.

Definition table : Type := list (bytes * option_kind).

(** What was assigned; a flag that is set has the value [[]]. *)
Definition vars : Type := gmap bytes bytes.

(** [switch arg] *)
Definition kind_of (known : table) (arg : bytes) : option option_kind :=
  snd <$> List.find (fun o => bool_decide (o.1 = arg)) known.

(** The loop over [args], with [value(after:in:index:)] for the next one. *)
Fixpoint parse_options (known : table) (args : list bytes) (v : vars) : result vars AgentError :=
  match args with
  | [] => Ok v
  | arg :: args =>
      match kind_of known arg with
      | None => Err (usage "unknown option")
      | Some Sets => parse_options known args (<[arg := []]> v)
      | Some Takes =>
          match args with
          | [] => Err (usage "missing value")
          | value :: args => parse_options known args (<[arg := value]> v)
          end
      end
  end.

Definition is_set (v : vars) (option : bytes) : bool := match v !! option with Some _ => true | None => false end.

Definition required (v : vars) (option : bytes) : result bytes AgentError :=
  ok_or (v !! option) (usage "missing option").

(** ** The commands *)

Definition hosts_table : table :=
  [(B "--config", Takes); (B "--host-id", Takes); (B "--public-key-hex", Takes); (B "--public-key-file", Takes)].

(** What [hosts] asks of its subcommand. *)
Definition check_subcommand (subcommand : bytes) (v : vars) : result unit AgentError :=
  if decide (subcommand = B "list") then Ok tt
  else if decide (subcommand = B "add") then
    guard! is_set v (B "--host-id") else usage "hosts add requires --host-id" ;;
    guard! is_set v (B "--public-key-hex") || is_set v (B "--public-key-file")
      else usage "hosts add requires --public-key-hex or --public-key-file" ;;
    guard! negb (is_set v (B "--public-key-hex") && is_set v (B "--public-key-file"))
      else usage "provide only one public key source" ;;
    Ok tt
  else if decide (subcommand = B "remove") then
    guard! is_set v (B "--host-id") else usage "hosts remove requires --host-id" ;; Ok tt
  else Err (usage "unknown hosts subcommand").

Definition parseHostsOptions (args : list bytes) : result HostsOptions AgentError :=
  match args with
  | [] => Err (usage "missing hosts subcommand")
  | subcommand :: args =>
      let? v := parse_options hosts_table args ∅ in
      let? configPath := required v (B "--config") in
      let? _ := check_subcommand subcommand v in
      Ok {| ho_command := subcommand; ho_configPath := configPath; ho_hostId := v !! B "--host-id";
            ho_publicKeyHex := v !! B "--public-key-hex"; ho_publicKeyFile := v !! B "--public-key-file" |}
  end.

(** [Decision(rawValue:)]: the names of the cases. *)
Definition decision_of_raw (raw : bytes) : option Decision.t :=
  List.find (fun d => bool_decide (decisionName d = raw))
    [Decision.Approved; Decision.Denied; Decision.Unavailable; Decision.Cancelled; Decision.Failed].

Definition fake_agent_table : table :=
  [(B "--socket", Takes); (B "--host-pubkey-hex", Takes); (B "--host-pubkey-file", Takes);
   (B "--agent-key-hex", Takes); (B "--agent-key-file", Takes); (B "--agent-key-id", Takes);
   (B "--decision", Takes); (B "--once", Sets)].

(** One of two options, and not both. *)
Definition either (v : vars) (a b : bytes) : result unit AgentError :=
  guard! is_set v a || is_set v b else usage "missing option" ;;
  guard! negb (is_set v a && is_set v b) else usage "provide only one of two options" ;;
  Ok tt.

Definition parseFakeAgentOptions (args : list bytes) : result FakeAgentOptions AgentError :=
  let? v := parse_options fake_agent_table args ∅ in
  let? decision := ok_or (decision_of_raw (default (B "approved") (v !! B "--decision"))) (usage "invalid decision") in
  let? socketPath := required v (B "--socket") in
  let? _ := either v (B "--host-pubkey-hex") (B "--host-pubkey-file") in
  let? _ := either v (B "--agent-key-hex") (B "--agent-key-file") in
  Ok {| fa_socketPath := socketPath;
        fa_hostPublicKeyHex := v !! B "--host-pubkey-hex"; fa_hostPublicKeyFile := v !! B "--host-pubkey-file";
        fa_agentKeyHex := v !! B "--agent-key-hex"; fa_agentKeyFile := v !! B "--agent-key-file";
        fa_agentKeyId := default (B "agent-key-1") (v !! B "--agent-key-id");
        fa_decision := decision; fa_once := is_set v (B "--once") |}.

Definition serve_table : table := [(B "--config", Takes); (B "--once", Sets)].

Definition parseServeOptions (args : list bytes) : result ServeOptions AgentError :=
  let? v := parse_options serve_table args ∅ in
  let? configPath := required v (B "--config") in
  Ok {| so_configPath := configPath; so_once := is_set v (B "--once") |}.

Definition init_key_table : table := [(B "--private-key-file", Takes); (B "--public-key-file", Takes)].

Definition parseInitKeyOptions (args : list bytes) : result InitKeyOptions AgentError :=
  let? v := parse_options init_key_table args ∅ in
  let? privateKeyFile := required v (B "--private-key-file") in
  Ok {| privateKeyFile := privateKeyFile; publicKeyFile := v !! B "--public-key-file" |}.

Definition print_public_key_table : table :=
  [(B "--agent-key-hex", Takes); (B "--agent-key-file", Takes);
   (B "--keychain-service", Takes); (B "--keychain-account", Takes)].

Definition parsePrintPublicKeyOptions (args : list bytes) : result PrintPublicKeyOptions AgentError :=
  let? v := parse_options print_public_key_table args ∅ in
  let fileOrHexCount := length (List.filter (is_set v) [B "--agent-key-hex"; B "--agent-key-file"]) in
  let hasKeychain := is_set v (B "--keychain-service") || is_set v (B "--keychain-account") in
  guard! negb ((fileOrHexCount =? 0)%nat && negb hasKeychain) else usage "missing private key source" ;;
  guard! negb ((0 <? fileOrHexCount)%nat && hasKeychain)
    else usage "provide either file/hex key or keychain key, not both" ;;
  guard! negb (hasKeychain && (negb (is_set v (B "--keychain-service")) || negb (is_set v (B "--keychain-account"))))
    else usage "keychain source requires --keychain-service and --keychain-account" ;;
  guard! negb (1 <? fileOrHexCount)%nat else usage "provide only one of --agent-key-file or --agent-key-hex" ;;
  Ok {| pp_agentKeyHex := v !! B "--agent-key-hex"; pp_agentKeyFile := v !! B "--agent-key-file";
        pp_keychainService := v !! B "--keychain-service"; pp_keychainAccount := v !! B "--keychain-account" |}.

Definition keychain_init_table : table := [(B "--service", Takes); (B "--account", Takes); (B "--overwrite", Sets)].

Definition parseKeychainInitOptions (args : list bytes) : result KeychainInitOptions AgentError :=
  let? v := parse_options keychain_init_table args ∅ in
  let? service := required v (B "--service") in
  let? account := required v (B "--account") in
  Ok {| ki_service := service; ki_account := account; overwrite := is_set v (B "--overwrite") |}.

Definition verify_vector_table : table := [(B "--path", Takes)].

(** [VerifyVectorOptions] is its one field. *)
Definition parseVerifyVectorOptions (args : list bytes) : result bytes AgentError :=
  let? v := parse_options verify_vector_table args ∅ in required v (B "--path").

Definition keychain_public_key_table : table := [(B "--service", Takes); (B "--account", Takes)].

Definition parseKeychainPublicKeyOptions (args : list bytes) : result KeychainPublicKeyOptions AgentError :=
  let? v := parse_options keychain_public_key_table args ∅ in
  let? service := required v (B "--service") in
  let? account := required v (B "--account") in
  Ok {| kp_service := service; kp_account := account |}.

Definition usage_text : bytes := concat [
  B "Usage:"; [x0a];
  B "  macos-auth-agent fake-agent --socket PATH (--host-pubkey-hex HEX | --host-pubkey-file PATH) (--agent-key-hex HEX | --agent-key-file PATH) [--agent-key-id ID] [--decision approved|denied|unavailable|cancelled|failed] [--once]"; [x0a];
  B "  macos-auth-agent serve --config PATH [--once]"; [x0a];
  B "  macos-auth-agent init-key --private-key-file PATH [--public-key-file PATH]"; [x0a];
  B "  macos-auth-agent print-public-key (--agent-key-file PATH | --agent-key-hex HEX | --keychain-service SERVICE --keychain-account ACCOUNT)"; [x0a];
  B "  macos-auth-agent keychain-init --service SERVICE --account ACCOUNT [--overwrite]"; [x0a];
  B "  macos-auth-agent keychain-public-key --service SERVICE --account ACCOUNT"; [x0a];
  B "  macos-auth-agent verify-vector --path PATH"; [x0a];
  B "  macos-auth-agent hosts list --config PATH"; [x0a];
  B "  macos-auth-agent hosts add --config PATH --host-id ID (--public-key-file PATH | --public-key-hex HEX)"; [x0a];
  B "  macos-auth-agent hosts remove --config PATH --host-id ID"].

Section Run.
Context `{Kernel W} `{MacKernel W} `{MacFiles W} `{FileURL} `{MacSockets W}.
Context `{SwiftString} `{SwiftText} `{CryptoKit W} `{!KitKeys W} `{Keychain W} `{JSONCoder} `{ConfigCoder} `{Crypto}.
Context (runSocketServer : Listener -> bool -> Handler (W := W) -> M W AgentError unit).

(** [arguments] are those after the name of the program. *)
Definition run (fuel : nat) (arguments : list bytes) : M W AgentError unit :=
  match arguments with
  | [] => throw (usage "usage")
  | command :: args =>
      if decide (command = B "fake-agent") then
        let! options := lift (parseFakeAgentOptions args) in runFakeAgent runSocketServer fuel options
      else if decide (command = B "serve") then
        let! options := lift (parseServeOptions args) in runServe runSocketServer fuel options
      else if decide (command = B "init-key") then
        let! options := lift (parseInitKeyOptions args) in runInitKey fuel options
      else if decide (command = B "print-public-key") then
        let! options := lift (parsePrintPublicKeyOptions args) in runPrintPublicKey options
      else if decide (command = B "keychain-init") then
        let! options := lift (parseKeychainInitOptions args) in runKeychainInit options
      else if decide (command = B "keychain-public-key") then
        let! options := lift (parseKeychainPublicKeyOptions args) in runKeychainPublicKey options
      else if decide (command = B "verify-vector") then
        let! path := lift (parseVerifyVectorOptions args) in runVerifyVector path
      else if decide (command = B "hosts") then
        let! options := lift (parseHostsOptions args) in runHosts fuel options
      else if decide (command ∈ [B "help"; B "--help"; B "-h"]) then print usage_text
      else throw (usage "unknown command")
  end.

(** The exit status of the process. *)
Definition agent_main (fuel : nat) (arguments : list bytes) : M W AgentError N :=
  let! r := attempt (run fuel arguments) in
  ret (match r with Ok _ => 0 | Err _ => 1 end).
End Run.

(** ** What is understood *)

(** An option on the line, with its value if it takes one. *)
Definition option_words (o : bytes * option bytes) : list bytes :=
  o.1 :: match o.2 with Some v => [v] | None => [] end.

Definition known_option (known : table) (o : bytes * option bytes) : Prop :=
  exists k, kind_of known o.1 = Some k /\ (o.2 = None <-> k = Sets).

Definition assigned (occs : list (bytes * option bytes)) (v : vars) : vars :=
  fold_left (fun v o => <[o.1 := default [] o.2]> v) occs v.

Lemma parse_options_exact known args : forall v v',
  parse_options known args v = Ok v' <->
  exists occs, Forall (known_option known) occs /\ args = flat_map option_words occs /\ v' = assigned occs v.
Proof.
  induction args as [args IH] using (induction_ltof1 _ (@length bytes)). unfold ltof in IH. intros v v'. split.
  - destruct args as [|arg args]; cbn.
    + intros [= <-]. by exists [].
    + destruct (kind_of known arg) as [[|]|] eqn:Ek; [| |done].
      * destruct args as [|value args]; [done|].
        intros (occs & Hf & -> & ->)%IH; [|cbn; lia]. exists ((arg, Some value) :: occs).
        split_and!; [|done|done]. constructor; [|done]. by exists Takes.
      * intros (occs & Hf & -> & ->)%IH; [|cbn; lia]. exists ((arg, None) :: occs).
        split_and!; [|done|done]. constructor; [|done]. by exists Sets.
  - intros (occs & Hf & -> & ->). destruct Hf as [|[arg o] occs (k & Hk & Ho) Hf]; [done|]. cbn in *. rewrite Hk.
    destruct k, o as [value|]; cbn; try (exfalso; naive_solver); (apply IH; [cbn; lia|]); by exists occs.
Qed.

Definition one_of (a b : option bytes) : Prop :=
  match a, b with Some _, None | None, Some _ => True | _, _ => False end.

Lemma either_ok v a b : either v a b = Ok tt -> one_of (v !! a) (v !! b).
Proof. unfold either, is_set, one_of. by destruct (v !! a), (v !! b). Qed.

Lemma parsed_print_public_key args o : parsePrintPublicKeyOptions args = Ok o ->
  (one_of (pp_agentKeyHex o) (pp_agentKeyFile o) /\ pp_keychainService o = None /\ pp_keychainAccount o = None) \/
  (pp_agentKeyHex o = None /\ pp_agentKeyFile o = None /\
   is_Some (pp_keychainService o) /\ is_Some (pp_keychainAccount o)).
Proof.
  unfold parsePrintPublicKeyOptions. destruct (parse_options _ args ∅) as [v|]; [cbn [result_bind]|done].
  unfold is_set. cbn [List.filter].
  destruct (v !! B "--agent-key-hex") eqn:E1, (v !! B "--agent-key-file") eqn:E2,
    (v !! B "--keychain-service") eqn:E3, (v !! B "--keychain-account") eqn:E4; cbn; try done; intros [= <-]; cbn; eauto.
Qed.

Lemma parsed_fake_agent args o : parseFakeAgentOptions args = Ok o ->
  one_of (fa_hostPublicKeyHex o) (fa_hostPublicKeyFile o) /\ one_of (fa_agentKeyHex o) (fa_agentKeyFile o).
Proof.
  unfold parseFakeAgentOptions. intros (v & _ & (d & _ & (p & _ & ([] & Hh%either_ok & ([] & Ha%either_ok & [= <-]
    )%result_bind_ok)%result_bind_ok)%result_bind_ok)%result_bind_ok)%result_bind_ok.
  done.
Qed.

Lemma parsed_hosts args o : parseHostsOptions args = Ok o ->
  ho_command o = B "list" \/
  exists id, ho_hostId o = Some id /\
    (ho_command o = B "remove" \/ ho_command o = B "add" /\ one_of (ho_publicKeyHex o) (ho_publicKeyFile o)).
Proof.
  destruct args as [|subcommand args]; [done|].
  intros (v & _ & (p & _ & ([] & Hc & [= <-])%result_bind_ok)%result_bind_ok)%result_bind_ok.
  unfold check_subcommand, is_set in Hc. cbn [ho_command ho_hostId ho_publicKeyHex ho_publicKeyFile].
  case_decide as Hl; [by left|]. right. revert Hc. case_decide as Ha.
  - destruct (v !! B "--host-id") as [id|]; [|done].
    destruct (v !! B "--public-key-hex"), (v !! B "--public-key-file"); try done; intros _; exists id; (split; [done|by right]).
  - case_decide as Hr; [|done]. destruct (v !! B "--host-id") as [id|]; [|done]. intros _. exists id. auto.
Qed.



(** ** What the commands do with it *)

Definition understood (arguments : list bytes) : bool :=
  match arguments with
  | [] => false
  | command :: args =>
      if decide (command = B "fake-agent") then is_ok (parseFakeAgentOptions args)
      else if decide (command = B "serve") then is_ok (parseServeOptions args)
      else if decide (command = B "init-key") then is_ok (parseInitKeyOptions args)
      else if decide (command = B "print-public-key") then is_ok (parsePrintPublicKeyOptions args)
      else if decide (command = B "keychain-init") then is_ok (parseKeychainInitOptions args)
      else if decide (command = B "keychain-public-key") then is_ok (parseKeychainPublicKeyOptions args)
      else if decide (command = B "verify-vector") then is_ok (parseVerifyVectorOptions args)
      else if decide (command = B "hosts") then is_ok (parseHostsOptions args)
      else bool_decide (command ∈ [B "help"; B "--help"; B "-h"])
  end.

Section Calm.
Context `{Kernel W} `{MacKernel W} `{MacFiles W} `{FileURL} `{MacSockets W}.
Context `{SwiftString} `{SwiftText} `{CryptoKit W} `{!KitKeys W} `{Keychain W} `{JSONCoder} `{ConfigCoder} `{Crypto}.
Context (runSocketServer : Listener -> bool -> Handler (W := W) -> M W AgentError unit).
Context (Hserver : forall l once handler, calm (runSocketServer l once handler)).

Lemma calm_guarded {A} error (m : M W AgentError (result A errno)) : calm m -> calm (guarded error m).
Proof. intros Hm. unfold guarded. calm_tac. Qed.

Lemma calm_scoped {E A} f (m : M W E A) : calm m -> calm (scoped f m).
Proof. intros Hm. unfold scoped, close. calm_tac. Qed.

Lemma calm_deferred {E A} (final : M W E unit) (m : M W E A) : calm final -> calm m -> calm (deferred final m).
Proof. intros Hf Hm. unfold deferred. calm_tac. Qed.

Lemma calm_file_prim {E A} (f : W -> A * W) ev : calm (file_prim (E := E) f ev).
Proof. apply calm_prim. Qed.

#[local] Hint Resolve calm_file_prim : calm.

#[local] Ltac calm_files :=
  repeat first [calm_step | apply calm_guarded | apply calm_scoped | apply calm_deferred]; auto with calm.

Lemma calm_validate st p : calm (validateFileMetadata (W := W) st p).
Proof. unfold validateFileMetadata, geteuid. calm_files. Qed.
#[local] Hint Resolve calm_validate : calm.

Lemma calm_readSafeFile path p : calm (readSafeFile (W := W) path p).
Proof. unfold readSafeFile, openSafeFile, open_file, stat_file. calm_files. Qed.

Lemma calm_writeAll fuel data f : calm (writeAll (W := W) fuel data f).
Proof. unfold writeAll, writeAll_round. calm_files. Qed.
#[local] Hint Resolve calm_readSafeFile calm_writeAll : calm.

Lemma calm_writeNewFile fuel path b m : calm (writeNewFile (W := W) fuel path b m).
Proof. unfold writeNewFile, open_file, fsync. calm_files. Qed.

Lemma calm_replaceConfigFile fuel path data p : calm (replaceConfigFile (W := W) fuel path data p).
Proof.
  unfold replaceConfigFile, check_directory, install_replacement, fill_replacement, resolved_parent, geteuid,
    uuidString, open_file, openat_file, stat_file, stat_at, fchown, fchmod, fsync, close_checked, renameat, unlinkat.
  calm_files.
Qed.

Lemma calm_readKeyMaterial hex file p : calm (readKeyMaterial (W := W) hex file p).
Proof. unfold readKeyMaterial. calm_files. Qed.
#[local] Hint Resolve calm_writeNewFile calm_replaceConfigFile calm_readKeyMaterial : calm.

Lemma calm_keychain service account : calm (loadPrivateKeyFromKeychain (W := W) service account).
Proof. unfold loadPrivateKeyFromKeychain, secItemCopyMatching. calm_files. Qed.

Lemma calm_print {E} text : calm (print (W := W) (E := E) text).
Proof. apply calm_prim. Qed.

Lemma calm_loadAgentConfig path : calm (loadAgentConfig (W := W) path).
Proof. unfold loadAgentConfig. calm_files. Qed.

Lemma calm_writeAgentConfig fuel c path : calm (writeAgentConfig (W := W) fuel c path).
Proof. unfold writeAgentConfig. calm_files. Qed.

Lemma calm_add_verifiers hosts : forall v, calm (add_verifiers (W := W) hosts v).
Proof. induction hosts as [|host hosts IH]; intros v; cbn [add_verifiers]; calm_files. Qed.

Lemma calm_print_hosts hosts : calm (print_hosts (W := W) hosts).
Proof. induction hosts as [|host hosts IH]; cbn [print_hosts]; calm_files. apply calm_print. Qed.
#[local] Hint Resolve calm_keychain calm_print calm_loadAgentConfig calm_writeAgentConfig calm_add_verifiers
  calm_print_hosts : calm.

Lemma calm_runtime config : calm (runtime_from (W := W) config).
Proof. unfold runtime_from, hostVerifiers_from, agent_private_key. calm_files. Qed.

Lemma calm_closeAndUnlink self : calm (closeAndUnlink (W := W) self).
Proof. unfold closeAndUnlink, remove_own, lstat, mac_unlink, close. calm_files. Qed.

Lemma calm_removeStaleSocket path : calm (removeStaleSocket (W := W) path).
Proof.
  unfold removeStaleSocket, probe_and_remove, configureConnectedSocket, lstat, mac_unlink, geteuid, mac_socket,
    no_sigpipe, mac_nonblock, mac_cloexec. calm_files.
Qed.
#[local] Hint Resolve calm_runtime calm_closeAndUnlink calm_removeStaleSocket : calm.

Lemma calm_listener path : calm (UnixSocketListener_init (W := W) path).
Proof.
  unfold UnixSocketListener_init, check_parent, set_up, bind_privately, mac_socket, mac_cloexec, umask, lstat, geteuid,
    resolved_parent. calm_files.
Qed.

Lemma calm_with_listener path once handler : calm (with_listener runSocketServer path once handler).
Proof.
  unfold with_listener. apply calm_bind; [apply calm_listener|]. intros l. apply calm_deferred; [|apply Hserver].
  apply calm_bind; [apply calm_closeAndUnlink|]. intros ?. apply calm_ret.
Qed.
#[local] Hint Resolve calm_with_listener : calm.

(** [options.hostId!] does not trap: the parser has asked for the option. *)
Lemma calm_runHosts fuel args o : parseHostsOptions args = Ok o -> calm (runHosts (W := W) fuel o).
Proof.
  intros Ho%parsed_hosts. unfold runHosts. apply calm_bind; [apply calm_loadAgentConfig|]. intros config.
  destruct (decide (ho_command o = B "list")) as [Hl|Hl]; [apply calm_print_hosts|].
  destruct Ho as [?|(id & -> & _)]; [done|]. calm_files.
Qed.

Lemma calm_parsed {A B} (parse : result A AgentError) (k : A -> M W AgentError B) :
  (forall a, parse = Ok a -> calm (k a)) -> calm (bind (lift parse) k).
Proof. intros Hk. apply calm_bind_post; [apply calm_lift|]. intros s a s' [Ha _]%lift_done. by apply Hk. Qed.

Lemma calm_run fuel arguments : calm (run runSocketServer fuel arguments).
Proof.
  destruct arguments as [|command args]; [apply calm_throw|]. unfold run.
  repeat match goal with |- calm (if ?b then _ else _) => destruct b end;
    [apply calm_parsed; intros o Ho..|apply calm_print|apply calm_throw].
  - unfold runFakeAgent. calm_files.
  - unfold runServe. calm_files.
  - unfold runInitKey, newPrivateKey, print_public_key. calm_files.
  - unfold runPrintPublicKey, print_public_key. calm_files.
  - unfold runKeychainInit, newPrivateKey, storePrivateKeyInKeychain, add_keychain_item, secItemUpdate, secItemAdd,
      print_public_key. calm_files.
  - unfold runKeychainPublicKey, print_public_key. calm_files.
  - unfold runVerifyVector. calm_files.
  - by eapply calm_runHosts.
Qed.

Lemma lift_err {A B} (parse : result A AgentError) (k : A -> M W AgentError B) s :
  is_ok parse = false -> exists e, bind (lift parse) k s = (Done (Err e), s).
Proof. destruct parse as [|e]; [done|]. by exists e. Qed.

Lemma not_understood fuel arguments s :
  understood arguments = false -> exists e, run runSocketServer fuel arguments s = (Done (Err e), s).
Proof.
  destruct arguments as [|command args]; [by eexists|]. unfold understood, run.
  repeat match goal with |- context [if decide ?P then _ else _] => destruct (decide P) end; try apply lift_err.
  - by rewrite bool_decide_eq_true_2.
  - intros _. by eexists.
Qed.
End Calm.

