(* ===== verification/MacSim.v ===== *)
(** * A computing Mac, for the witnesses of the agent

    One connection at a time: the bytes that arrive, a clock, a screen whose
    user approves everything, and the plain signature scheme of [Samples].
    The block of a session runs to its end when it is scheduled.  Nothing
    about the program is proved from it. *)

From Stdlib Require Import NArith ZArith Lia List Bool.
From Stdlib Require Import Strings.Byte Strings.String.
From stdpp Require Import base decidable list option strings gmap.
From S2P Require Import Prelude RustStd Crypto Protocol Canonical Samples ProtocolProps Sys Io Sim Frame CacheSpec.
From S2P Require Import Trust Common Keys Config Replay Request Verdict RequestProps FakeAgent Main.
From S2P Require Import Pam PamProps Cli Authentication PamSim.
From S2P Require Import MacProtocol RateLimiter MacAgent MacAgentProps MacReturns Agreement.

Open Scope N_scope.

(** ** The machine *)

Record mac : Type := Mac {
  inbox : bytes;
  outbox : bytes;
  uptime : N;
  flagged : bool;
  verdict_of_user : option AuthenticationResult;
  admitted_calls : RateLimiter.events;
}.

Definition advance (w : mac) : mac :=
  Mac (inbox w) (outbox w) (uptime w + 1000) (flagged w) (verdict_of_user w) (admitted_calls w).
Definition set_inbox (b : bytes) (w : mac) : mac :=
  Mac b (outbox w) (uptime w) (flagged w) (verdict_of_user w) (admitted_calls w).
Definition set_outbox (b : bytes) (w : mac) : mac :=
  Mac (inbox w) b (uptime w) (flagged w) (verdict_of_user w) (admitted_calls w).
Definition set_flagged (b : bool) (w : mac) : mac :=
  Mac (inbox w) (outbox w) (uptime w) b (verdict_of_user w) (admitted_calls w).
Definition set_verdict (v : option AuthenticationResult) (w : mac) : mac :=
  Mac (inbox w) (outbox w) (uptime w) (flagged w) v (admitted_calls w).
Definition set_calls (h : RateLimiter.events) (w : mac) : mac :=
  Mac (inbox w) (outbox w) (uptime w) (flagged w) (verdict_of_user w) h.

(** The socket gives and takes at most 300 bytes at a time. *)
#[global] Instance mac_kernel : Kernel mac := {|
  k_instant_now w := (uptime w, w);
  k_system_now w := (None, w);
  k_process_id w := (1, w);
  k_random n w := (replicate n x00, w);
  k_sleep _ w := (tt, w);
  k_sun_path_len := 104;
  k_socket w := (Err EACCES, w);
  k_set_cloexec _ w := (Err EACCES, w);
  k_set_nonblocking _ w := (Err EACCES, w);
  k_connect _ _ w := (Err EACCES, w);
  k_take_error _ w := (Err EACCES, w);
  k_poll _ ev _ w := ({| poll_result := 1; revents := ev; poll_errno := EINTR |}, w);
  k_bind _ w := (Err EACCES, w);
  k_accept _ w := (Err EACCES, w);
  k_read _ n w := let k := Nat.min n 300 in (Ok (take k (inbox w)), set_inbox (drop k (inbox w)) w);
  k_write _ b w := let k := Nat.min (length b) 300 in (Ok k, set_outbox (outbox w ++ take k b) w);
  k_open _ _ _ w := (Err EACCES, w);
  k_openat _ _ _ _ w := (Err EACCES, w);
  k_fstat _ w := (Err EACCES, w);
  k_getcwd w := (Err EACCES, w);
  k_unlink _ w := (Err EACCES, w);
  k_unlinkat _ _ w := (Err EACCES, w);
  k_dup_cloexec _ w := (Err EACCES, w);
  k_close _ w := (tt, w);
  k_fdopendir _ w := (Err EACCES, w);
  k_readdir _ w := (None, w);
  k_closedir _ w := (tt, w);
  k_stdout _ w := (tt, w);
|}.

#[global] Instance mac_calls : MacKernel mac := {|
  k_wall w := (1700000000500, w);
  k_uptime w := (uptime w, advance w);
  k_peek _ w := (if bool_decide (inbox w = []) then Err EAGAIN else Ok (take 1 (inbox w)), w);
  k_flag w := (0, set_flagged false w);
  k_cancelled _ w := (flagged w, w);
  k_set_cancelled _ w := (tt, set_flagged true w);
  k_slot w := (true, w);
  k_slot_signal w := (tt, w);
  k_session w := (0, w);
  k_start _ block w :=
    (tt, set_verdict (match (block (St w [])).1 with Done (Ok (Some r)) => Some r | _ => None end) w);
  k_result _ w := (verdict_of_user w, w);
  k_ready _ w := (tt, w);
  k_invalidate _ w := (tt, w);
  k_history w := (admitted_calls w, w);
  k_set_history h w := (tt, set_calls h w);
  k_alert _ w := (true, w);
  k_can_evaluate _ w := (true, w);
  k_evaluate _ _ w := (Recognised, w);
|}.

#[global] Instance mac_sessions : SessionLaws mac.
Proof.
  refine {| scheduled := fun _ b w => forall r, verdict_of_user w = Some r ->
    exists s0 s1, b s0 = (Done (Ok (Some r)), s1) |}; try done.
  intros i b w r. cbn. destruct (b (St w [])) as [[[[v|]|e]| |] s1] eqn:Hb; try done.
  intros [= ->]. by exists (St w []), s1.
Defined.

#[global] Instance plain_kit : CryptoKit mac := {|
  PublicKey := sized 32;
  PrivateKey := sized 32;
  isValidSignature pk s m := bool_decide (s = of_sized (sign_of (pad_to 32) pk m));
  k_signature sk m w := (Some (of_sized (sign_of (pad_to 32) sk m)), w);
|}.

#[local] Existing Instance plain_crypto.

#[global] Instance plain_kit_laws : CryptoKitLaws mac.
Proof.
  refine {| rawRepresentation := (of_sized : sized 32 -> bytes) : PrivateKey (W := mac) -> bytes |}.
  intros key m w s [= <-]. exact (sign_holds (L := plain_crypto_laws) key m).
Defined.

#[global] Instance plain_text : SwiftText := {|
  normal_form b := b; count b := length b; first_characters n b := take n b |}.

(** Every reading of the uptime takes a microsecond. *)
#[global] Instance mac_uptime d : UptimeProgress mac d.
Proof.
  refine {| readings := fun w : mac => N.to_nat ((d + 999 - uptime w) / 1000) |}; try (intros; cbn; lia).
  - intros w. cbn -[N.div N.add N.sub]. zify. Z.to_euclidean_division_equations. lia.
  - intros f n w b. cbn. intros [= <-]. rewrite length_take. lia.
Defined.

(** ** JSON: the canonical bytes, then the signature, as for the helper *)

Definition as_mac (q : AuthRequestBody.t) : MacRequest.t :=
  MacRequest.mk (AuthRequestBody.protocol_version q) (AuthRequestBody.request_id q) (AuthRequestBody.nonce q)
    (AuthRequestBody.created_at_ms q) (AuthRequestBody.expires_at_ms q) (AuthRequestBody.linux_host_id q)
    (AuthRequestBody.linux_hostname q) (AuthRequestBody.pam_service q) (AuthRequestBody.pam_user q)
    (AuthRequestBody.pam_ruser q) (AuthRequestBody.pam_rhost q) (AuthRequestBody.pam_tty q)
    (AuthRequestBody.sudo_command q) (AuthRequestBody.client_pid q) (AuthRequestBody.key_id q) (B "ed25519").

#[global] Instance plain_json : JSONCoder := {|
  decode_signed_request b :=
    match decode_request b with
    | Some (q, s) => Some (MacRequest.mk_signed (as_mac q) s)
    | None => None
    end;
  encode_signed_response r :=
    match MacResponse.canonicalBytes (MacResponse.body r) with
    | Ok m => Some (m ++ MacResponse.signature r)
    | Err _ => None
    end |}.

(** What is decoded is well typed. *)
Lemma seq_dec {A B} (c1 : codec A) (c2 : codec B) s p rest : dec (c1 ⊗ c2) s = Some (p, rest) ->
  exists r, dec c1 s = Some (p.1, r) /\ dec c2 r = Some (p.2, rest).
Proof.
  cbn. destruct (dec c1 s) as [[a r]|]; [|done]. destruct (dec c2 r) as [[b r']|] eqn:E; [|done].
  intros [= <- <-]. by exists r.
Qed.

Lemma uint_dec n s v rest : dec (uint_codec n) s = Some (v, rest) -> v < 256 ^ N.of_nat n.
Proof.
  cbn. unfold take_n. case_bool_decide; [|done]. intros [= <- _].
  pose proof (from_be_bytes_bound (take n s)) as Hb. by rewrite length_take_le in Hb by lia.
Qed.

Lemma option_dec s v rest : dec (option_codec u32_codec) s = Some (v, rest) ->
  match v with Some p => p <= u32_max | None => True end.
Proof.
  cbn [option_codec dec]. destruct s as [|b s]; [done|]. case_decide; [|case_decide; [by intros [= <- _]|done]].
  destruct (dec u32_codec s) as [[p r]|] eqn:E; [|done]. intros [= <- _].
  apply uint_dec in E. unfold u32_max. cbn in E. lia.
Qed.

Lemma request_decoded_wf b q s : decode_request b = Some (q, s) -> AuthRequestBody.wf q.
Proof.
  unfold decode_request. destruct (dec request_codec b) as [[p rest]|] eqn:Hd; [|done]. intros [= <- <-].
  unfold request_codec in Hd.
  repeat match type of Hd with
  | dec (_ ⊗ _) _ = Some _ => let H := fresh "D" in apply seq_dec in Hd as (? & H & Hd)
  end.
  destruct p as (?&v&?&?&c&e&?&?&?&?&?&?&?&?&p&?&?). cbn [fst snd] in *.
  repeat match goal with
  | H : dec u16_codec _ = _ |- _ => apply uint_dec in H
  | H : dec u64_codec _ = _ |- _ => apply uint_dec in H
  | H : dec (option_codec u32_codec) _ = _ |- _ => apply option_dec in H
  end.
  unfold AuthRequestBody.wf, u16_max, u64_max. cbn in *. split_and!; try lia. done.
Qed.

Lemma response_decoded_wf b p s : decode_response b = Some (p, s) -> AuthResponseBody.wf p.
Proof.
  unfold decode_response. destruct (dec response_codec b) as [[t rest]|] eqn:Hd; [|done]. intros [= <- <-].
  unfold response_codec in Hd.
  repeat match type of Hd with
  | dec (_ ⊗ _) _ = Some _ => let H := fresh "D" in apply seq_dec in Hd as (? & H & Hd)
  end.
  destruct t as (?&v&?&?&?&?&?&?&?&?&c&e&?&?&?&?). cbn [fst snd] in *.
  repeat match goal with
  | H : dec u16_codec _ = _ |- _ => apply uint_dec in H
  | H : dec u64_codec _ = _ |- _ => apply uint_dec in H
  end.
  unfold AuthResponseBody.wf, u16_max, u64_max. cbn in *. split_and!; lia.
Qed.

#[global] Instance plain_typed : DecodersTyped.
Proof.
  split.
  - intros b m. cbn. destruct (decode_request b) as [[q s]|] eqn:E; [|done]. intros [= <-].
    apply request_decoded_wf in E. exact E.
  - intros b r. cbn. destruct (decode_response b) as [[p s]|] eqn:E; [|done].
    destruct (_ <=? u64_max); [|done]. intros [= <-]. by apply response_decoded_wf in E.
Qed.

(** ** A connection: the request of [alice]'s login in [PamSim] *)

Definition kit_runtime : AgentRuntime (W := mac) := {|
  hostVerifiers := {[ B "*" := {| hostId := B "*"; publicKey := (sample_sk x07 : PublicKey (W := mac)) |} ]};
  agentPrivateKey := (sample_sk x09 : PrivateKey (W := mac));
  agentKeyId := B "agent-key-1";
  allowedFutureSkewMs := 30000;
  requireConfirmation := true;
  rateLimiter := RateLimiter.init 60 5;
|}.

(** What the helper of the login sent. *)
Definition login_frame : bytes := sent (world (login_end Decision.Approved)).1.

Definition desk_start : state mac := St (Mac login_frame [] 0 false None ∅) [].
Definition desk_end : state mac := (handleServeRequest 100 9 kit_runtime 15000000000 desk_start).2.

Lemma desk_run : handleServeRequest 100 9 kit_runtime 15000000000 desk_start = (Done (Ok tt), desk_end).
Proof. run_here. Qed.

(** The agent on the Mac sends what the helper of the login read. *)
Example desk_answer : outbox (world desk_end) = plain_agent Decision.Approved login_frame.
Proof. vm_compute. reflexivity. Qed.

Definition signed_in (message : bytes) (evs : list event) : bool :=
  existsb (fun e => match e with EvMac (EvSigned m _) => bool_decide (m = message) | _ => false end) evs.

Lemma signed_in_In message evs : signed_in message evs = true -> exists s, In (EvMac (EvSigned message s)) evs.
Proof.
  unfold signed_in. intros (e & Hin & He)%existsb_exists. destruct e as [| | | | | | | | | | | | | | | | | | | | | | | | | | | |[]];
    try done. apply bool_decide_eq_true in He as ->. by eexists.
Qed.

Lemma made_from_nothing {W} (s s' : state W) : log s = [] -> made s s' (log s').
Proof. unfold made. by intros ->. Qed.

(** The message of the response that the login accepted. *)
Definition login_message : bytes :=
  match from_slice (drop 4 (plain_agent Decision.Approved login_frame)) with
  | Ok r => match AuthResponseBody.canonical_bytes (SignedAuthResponse.body r) with Ok m => m | Err _ => [] end
  | Err _ => []
  end.

(** The agent signed it: the last premise of [sudo_means_recognised] can hold. *)
Lemma login_signed : login_message <> [] /\ signed_by kit_runtime login_message.
Proof.
  split; [by vm_compute|]. assert (signed_in login_message (log desk_end) = true) as (s & Hin)%signed_in_In
    by (vm_compute; reflexivity).
  exists 100%nat, 9, 15000000000, desk_start, desk_end, (Done (Ok tt)), (log desk_end), s.
  exact (conj desk_run (conj (made_from_nothing desk_start desk_end eq_refl) Hin)).
Qed.


Lemma mac_handler_returns_witness :
  exists r s', handleServeRequest 200 9 kit_runtime 100000 desk_start = (Done r, s').
Proof. apply (mac_handler_returns 100000 200 9 kit_runtime desk_start). vm_compute. lia. Defined.


#[local] Existing Instance sample_hex.
#[local] Existing Instance sample_toml.

