(* ===== verification/MacHost.v ===== *)
(** * A computing Mac with files, for the witnesses of the agent's commands

    A file system in memory, a keychain and sockets that nobody listens at;
    the configuration of a user [alice] with two hosts.  Writes take sixteen
    bytes at most.  Nothing about the program is proved from it. *)

From Stdlib Require Import NArith ZArith Lia List Bool.
From Stdlib Require Import Strings.Byte Strings.String.
From stdpp Require Import base decidable list option strings gmap.
From S2P Require Import Prelude RustStd Crypto Protocol Canonical Samples Sys Ownership Io Sim Frame CacheSpec.
From S2P Require Import Trust Common Keys Automaton ReplaySystem.
From S2P Require Import MacProtocol RateLimiter MacAgent MacAgentProps MacFiles MacFilesProps MacKeys MacConfig.
From S2P Require Import MacKeysProps MacConfigProps MacListener MacListenerProps MacThreads MacServer MacServerProps MacCli.
From S2P Require Import PamSim MacSim.

Open Scope N_scope.

(** ** The machine *)

Record workstation : Type := Workstation {
  nodes : gmap N (bytes * Stat);
  names : gmap bytes N;
  opened_at : gmap fd (bytes * N);
  next : N;
  mask : N;
  keychain : gmap bytes bytes;
  printed : bytes;
}.

Definition set_nodes (x : gmap N (bytes * Stat)) (w : workstation) : workstation :=
  Workstation x (names w) (opened_at w) (next w) (mask w) (keychain w) (printed w).
Definition set_names (x : gmap bytes N) (w : workstation) : workstation :=
  Workstation (nodes w) x (opened_at w) (next w) (mask w) (keychain w) (printed w).
Definition set_opened (x : gmap fd (bytes * N)) (w : workstation) : workstation :=
  Workstation (nodes w) (names w) x (next w) (mask w) (keychain w) (printed w).
Definition count_up (w : workstation) : workstation :=
  Workstation (nodes w) (names w) (opened_at w) (next w + 1) (mask w) (keychain w) (printed w).
Definition set_mask (x : N) (w : workstation) : workstation :=
  Workstation (nodes w) (names w) (opened_at w) (next w) x (keychain w) (printed w).
Definition set_keychain (x : gmap bytes bytes) (w : workstation) : workstation :=
  Workstation (nodes w) (names w) (opened_at w) (next w) (mask w) x (printed w).
Definition set_printed (x : bytes) (w : workstation) : workstation :=
  Workstation (nodes w) (names w) (opened_at w) (next w) (mask w) (keychain w) x.

Definition user_id : N := 501.

Definition hand_out (path : bytes) (i : N) (w : workstation) : result fd errno * workstation :=
  (Ok (next w), count_up (set_opened (<[next w := (path, i)]> (opened_at w)) w)).

Definition make_node (path : bytes) (m : N) (w : workstation) : workstation :=
  let i := next w in
  count_up (set_names (<[path := i]> (names w)) (set_nodes (<[i := ([],
    {| st_dev := 1; st_ino := i; st_mode := m; st_uid := user_id; st_gid := 20 |})]> (nodes w)) w)).

Definition open_path (path : bytes) (flags : list open_flag) (m : N) (w : workstation) : result fd errno * workstation :=
  match names w !! path with
  | Some i => if decide (O_EXCL ∈ flags) then (Err EEXIST, w) else hand_out path i w
  | None =>
      if decide (O_CREAT ∈ flags) then hand_out path (next w) (make_node path (0x8000 + m) w) else (Err ENOENT, w)
  end.

Definition in_directory (w : workstation) (d : fd) (name : bytes) : bytes :=
  match opened_at w !! d with Some (path, _) => path ++ B "/" ++ name | None => name end.

Definition remove_path (path : bytes) (w : workstation) : result unit errno * workstation :=
  match names w !! path with
  | Some _ => (Ok tt, set_names (delete path (names w)) w)
  | None => (Err ENOENT, w)
  end.

Definition node_of (w : workstation) (f : fd) : option (bytes * Stat) :=
  match opened_at w !! f with Some (_, i) => nodes w !! i | None => None end.

Definition change_node (f : fd) (g : bytes * Stat -> bytes * Stat) (w : workstation) : result unit errno * workstation :=
  match opened_at w !! f with
  | Some (_, i) => (Ok tt, set_nodes (alter g i (nodes w)) w)
  | None => (Err EBADF, w)
  end.

Definition close_at (f : fd) (w : workstation) : workstation := set_opened (delete f (opened_at w)) w.

#[global] Instance workstation_kernel : Kernel workstation := {|
  k_instant_now w := (0, w);
  k_system_now w := (None, w);
  k_process_id w := (1, w);
  k_random n w := (replicate n x00, w);
  k_sleep _ w := (tt, w);
  k_sun_path_len := 104;
  k_socket w := hand_out [] 0 w;
  k_set_cloexec _ w := (Ok tt, w);
  k_set_nonblocking _ w := (Ok tt, w);
  k_connect _ _ w := (Err ECONNREFUSED, w);
  k_take_error _ w := (Err EACCES, w);
  k_poll _ ev _ w := ({| poll_result := 1; revents := ev; poll_errno := EINTR |}, w);
  k_bind _ w := (Err EACCES, w);
  k_accept _ w := (Err EACCES, w);
  k_read _ _ w := (Err EACCES, w);
  k_write f b w :=
    let n := Nat.min (length b) 16 in
    match change_node f (fun x => (x.1 ++ take n b, x.2)) w with
    | (Ok _, w) => (Ok n, w)
    | (Err e, w) => (Err e, w)
    end;
  k_open path flags m w := open_path path flags m w;
  k_openat d name flags m w := open_path (in_directory w d name) flags m w;
  k_fstat _ w := (Err EACCES, w);
  k_getcwd w := (Err EACCES, w);
  k_unlink path w := remove_path path w;
  k_unlinkat d name w := remove_path (in_directory w d name) w;
  k_dup_cloexec _ w := (Err EACCES, w);
  k_close f w := (tt, close_at f w);
  k_fdopendir _ w := (Err EACCES, w);
  k_readdir _ w := (None, w);
  k_closedir _ w := (tt, w);
  k_stdout b w := (tt, set_printed (printed w ++ b) w);
|}.

Definition look_up (path : bytes) (w : workstation) : result Stat errno :=
  match names w !! path with
  | Some i => match nodes w !! i with Some (_, st) => Ok st | None => Err ENOENT end
  | None => Err ENOENT
  end.

(** A path is cut at its last slash. *)
Fixpoint after_slash (reversed name : bytes) : bytes * bytes :=
  match reversed with
  | [] => ([], name)
  | c :: reversed => if decide (c = x2f) then (rev reversed, name) else after_slash reversed (c :: name)
  end.

Definition with_mode (st : Stat) (m : N) : Stat :=
  {| st_dev := st_dev st; st_ino := st_ino st; st_mode := N.land (st_mode st) S_IFMT + m;
     st_uid := st_uid st; st_gid := st_gid st |}.

#[global] Instance workstation_files : MacFiles workstation := {|
  k_geteuid w := (user_id, w);
  k_stat f w := (match node_of w f with Some (_, st) => Ok st | None => Err EBADF end, w);
  k_statat d name w := (look_up (in_directory w d name) w, w);
  k_lstat path w := (look_up path w, w);
  k_read_to_end f w := (match node_of w f with Some (text, _) => Ok text | None => Err EBADF end, w);
  k_contents path w :=
    (match names w !! path with
     | Some i => match nodes w !! i with Some (text, _) => Ok text | None => Err ENOENT end
     | None => Err ENOENT end, w);
  k_resolve path w := ((after_slash (rev path) []).1, w);
  k_uuid w := (B "5C0C9B1E", w);
  k_fchown f _ _ w := (match node_of w f with Some _ => Ok tt | None => Err EBADF end, w);
  k_fchmod f m w := change_node f (fun x => (x.1, with_mode x.2 m)) w;
  k_fsync f w := (match opened_at w !! f with Some _ => Ok tt | None => Err EBADF end, w);
  k_close_checked f w := (Ok tt, close_at f w);
  k_renameat d from d' to w :=
    let source := in_directory w d from in
    match names w !! source with
    | Some i => (Ok tt, set_names (<[in_directory w d' to := i]> (delete source (names w))) w)
    | None => (Err ENOENT, w)
    end;
|}.

#[global] Instance workstation_url : FileURL := {|
  lastPathComponent path := (after_slash (rev path) []).2;
  appendingPathComponent directory name := directory ++ B "/" ++ name;
|}.

#[global] Instance workstation_sockets : MacSockets workstation := {|
  k_no_sigpipe _ w := (Ok tt, w);
  k_bind_socket _ path w :=
    match names w !! path with
    | Some _ => (Err (Eother 48), w)
    | None => (Ok tt, make_node path (0xC000 + N.ldiff 0x1ff (mask w)) w)
    end;
  k_listen _ _ w := (Ok tt, w);
  k_chmod path m w :=
    match names w !! path with
    | Some i => (Ok tt, set_nodes (alter (fun x => (x.1, with_mode x.2 m)) i (nodes w)) w)
    | None => (Err ENOENT, w)
    end;
  k_umask m w := (mask w, set_mask m w);
|}.

(** Nobody connects. *)
#[global] Instance workstation_calls : MacKernel workstation := {|
  k_wall w := (1700000000500, w);
  k_uptime w := (0, w);
  k_peek _ w := (Err EBADF, w);
  k_flag w := (0, w);
  k_cancelled _ w := (true, w);
  k_set_cancelled _ w := (tt, w);
  k_slot w := (false, w);
  k_slot_signal w := (tt, w);
  k_session w := (0, w);
  k_start _ _ w := (tt, w);
  k_result _ w := (None, w);
  k_ready _ w := (tt, w);
  k_invalidate _ w := (tt, w);
  k_history w := (∅, w);
  k_set_history _ w := (tt, w);
  k_alert _ w := (false, w);
  k_can_evaluate _ w := (false, w);
  k_evaluate _ _ w := (OtherError, w);
|}.

(** ** Text and keys *)

(** Text in ASCII. *)
#[global] Instance ascii_string : SwiftString := {|
  characters b := map (fun c => [c]) b;
  trimmed b := trim b;
  string_of_data b := if forallb (fun c => byte_val c <? 128) b then Some b else None;
|}.

#[global] Instance ascii_string_laws : SwiftStringLaws.
Proof.
  split.
  - done.
  - exact trim_graphic.
  - intros b Hb. cbn. replace (forallb _ b) with true; [done|]. symmetry. apply forallb_forall. intros c Hc.
    apply N.ltb_lt. rewrite List.Forall_forall in Hb. by apply Hb.
Defined.

#[global] Instance workstation_kit : CryptoKit workstation := {|
  PublicKey := sized 32;
  PrivateKey := sized 32;
  isValidSignature pk s m := bool_decide (s = of_sized (sign_of (pad_to 32) pk m));
  k_signature sk m w := (Some (of_sized (sign_of (pad_to 32) sk m)), w);
|}.

Definition of_raw (b : bytes) : option (sized 32) := if decide (length b = 32%nat) then Some (to_sized 32 b) else None.

Lemma of_raw_of_sized (k : sized 32) : of_raw (of_sized k) = Some k.
Proof. unfold of_raw. rewrite decide_True by apply of_sized_length. by rewrite to_of_sized. Qed.

#[global] Instance workstation_keys : KitKeys workstation := {|
  private_of_raw := of_raw : bytes -> option (PrivateKey (W := workstation));
  raw_of_private := (of_sized : sized 32 -> bytes) : PrivateKey (W := workstation) -> bytes;
  public_of_private k := k;
  public_of_raw := of_raw : bytes -> option (PublicKey (W := workstation));
  raw_of_public := (of_sized : sized 32 -> bytes) : PublicKey (W := workstation) -> bytes;
  k_generate w := (sample_sk x21, w);
|}.

#[global] Instance workstation_keys_laws : KitKeysLaws workstation.
Proof. split; [exact of_raw_of_sized|exact of_raw_of_sized|exact of_sized_length]. Defined.

Definition item_name (service account : bytes) : bytes := service ++ B "/" ++ account.

#[global] Instance workstation_keychain : Keychain workstation := {|
  k_item_update service account data w :=
    match keychain w !! item_name service account with
    | Some _ => (errSecSuccess, set_keychain (<[item_name service account := data]> (keychain w)) w)
    | None => (errSecItemNotFound, w)
    end;
  k_item_add service account data w :=
    (errSecSuccess, set_keychain (<[item_name service account := data]> (keychain w)) w);
  k_item_copy service account w :=
    (match keychain w !! item_name service account with
     | Some data => (errSecSuccess, Some data) | None => (errSecItemNotFound, None) end, w);
|}.

(** ** A text for configurations: the fields one after the other *)

Definition field : Type := option bytes.

Definition host_fields (host : AllowedHost) : list field :=
  [Some (ah_hostId host); ah_publicKeyHex host; ah_publicKeyFile host].
Definition number_field (o : option N) : field := option_map (to_be_bytes 8) o.

Definition config_fields (c : AgentConfig.t) : list field :=
  [Some (AgentConfig.socketPath c); AgentConfig.hostPublicKeyHex c; AgentConfig.hostPublicKeyFile c;
   AgentConfig.agentKeyHex c; AgentConfig.agentKeyFile c; AgentConfig.agentKeychainService c;
   AgentConfig.agentKeychainAccount c; AgentConfig.agentKeyId c;
   number_field (AgentConfig.allowedFutureSkewMs c);
   option_map (fun b : bool => if b then [x01] else [x00]) (AgentConfig.requireConfirmation c);
   number_field (AgentConfig.rateLimitWindowSeconds c);
   number_field (option_map Z.to_N (AgentConfig.rateLimitMaxRequests c));
   option_map (fun _ => []) (AgentConfig.hosts c)] ++ flat_map host_fields (AgentConfig.host_list c).

Fixpoint hosts_of (fields : list field) : list AllowedHost :=
  match fields with
  | Some id :: hex :: file :: fields =>
      {| ah_hostId := id; ah_publicKeyHex := hex; ah_publicKeyFile := file |} :: hosts_of fields
  | _ => []
  end.

Definition config_of (fields : list field) : option AgentConfig.t :=
  match fields with
  | Some socket :: hex :: file :: akey :: afile :: service :: account :: id :: skew :: confirm :: window :: most :: listed :: fields =>
      Some (AgentConfig.mk socket (option_map (fun _ => hosts_of fields) listed) hex file akey afile service account id
        (option_map from_be_bytes skew) (option_map (fun b => bool_decide (b = [x01])) confirm)
        (option_map from_be_bytes window) (option_map (fun b => Z.of_N (from_be_bytes b)) most))
  | _ => None
  end.

Fixpoint read_fields (fuel : nat) (text : bytes) : list field :=
  match fuel with
  | O => []
  | S fuel => match dec (option_codec bytes_codec) text with Some (o, text) => o :: read_fields fuel text | None => [] end
  end.

#[local] Instance allowed_host_eq : EqDecision AllowedHost.
Proof. solve_decision. Defined.
#[local] Instance config_eq : EqDecision AgentConfig.t.
Proof. solve_decision. Defined.

(** Only what can be read back is written. *)
#[global] Instance plain_config : ConfigCoder := {|
  decode_config text := config_of (read_fields (length text) text);
  encode_config c :=
    let text := flat_map (enc (option_codec bytes_codec)) (config_fields c) in
    if decide (config_of (read_fields (length text) text) = Some c) then Some text else None;
  decode_vector _ := None;
|}.

#[global] Instance plain_config_laws : ConfigLaws.
Proof. split. intros c d. cbn. case_decide; [|done]. by intros [= <-]. Defined.

(** ** The files of [alice] *)

Definition home : bytes := B "/Users/alice/.macos-auth".
Definition config_path : bytes := home ++ B "/agent.json".
Definition socket_path : bytes := home ++ B "/agent.sock".

Definition host_abc : AllowedHost :=
  {| ah_hostId := B "host-abc"; ah_publicKeyHex := Some (hexEncode (sample_key x07)); ah_publicKeyFile := None |}.
Definition host_xyz : AllowedHost :=
  {| ah_hostId := B "host-xyz"; ah_publicKeyHex := None; ah_publicKeyFile := Some (home ++ B "/xyz.pub") |}.

Definition desk_config : AgentConfig.t :=
  AgentConfig.mk socket_path (Some [host_abc; host_xyz]) None None None (Some (home ++ B "/agent.key")) None None
    None None (Some true) None (Some 5%Z).

Definition stat_of (i m : N) : Stat := {| st_dev := 1; st_ino := i; st_mode := m; st_uid := user_id; st_gid := 20 |}.

Definition config_text : bytes := default [] (encode_config desk_config).

(** The last node is a socket that an earlier agent left behind. *)
Definition desk0 : workstation := {|
  nodes := list_to_map [
    (1, ([], stat_of 1 0x41c0));
    (2, (config_text, stat_of 2 0x8180));
    (3, (B "# agent" ++ [x0a] ++ B "private_key_hex=" ++ hexEncode (sample_key x09) ++ [x0a], stat_of 3 0x8180));
    (4, (B "public_key_hex = " ++ hexEncode (sample_key x0b) ++ [x0a], stat_of 4 0x81a4));
    (5, ([], stat_of 5 0xC180))];
  names := list_to_map [
    (home, 1); (config_path, 2); (home ++ B "/agent.key", 3); (home ++ B "/xyz.pub", 4); (socket_path, 5)];
  opened_at := ∅;
  next := 10;
  mask := 0x12;
  keychain := ∅;
  printed := [];
|}.

Definition at_desk : state workstation := St desk0 [].

(** ** A configuration is replaced *)

Definition new_text : bytes := B "not a configuration, but longer than one write".

Definition replaced : state workstation := (replaceConfigFile 100 config_path new_text true at_desk).2.

Lemma replace_run : replaceConfigFile 100 config_path new_text true at_desk = (Done (Ok tt), replaced).
Proof. run_here. Qed.

(** The folder that the run starts in, and what its calls make of it. *)
Definition home_folder (text : bytes) : folder :=
  Folder None {[B "agent.json" := 2]} {[2 := text]} ∅ ∅ true.

Definition replaced_folder : folder := default (home_folder []) (folder_run (home_folder config_text) (log replaced)).

Lemma replaced_folder_run : folder_run (home_folder config_text) (log replaced) = Some replaced_folder.
Proof. vm_compute. reflexivity. Qed.

Lemma config_replaced_whole_witness :
  (forall pre post st', log replaced = pre ++ post -> folder_run (home_folder config_text) pre = Some st' ->
     whole (B "agent.json") config_text new_text st') /\
  (exists j, entries replaced_folder !! B "agent.json" = Some j /\ texts replaced_folder !! j = Some new_text /\
     j ∈ synced replaced_folder /\ settled replaced_folder = true).
Proof.
  destruct (config_replaced_whole 100 config_path new_text true at_desk replaced (Done (Ok tt)) (log replaced)
    (home_folder config_text) config_text 2 replace_run (made_from_nothing at_desk replaced eq_refl)
    eq_refl eq_refl eq_refl) as (Hw & Hs & _).
  split; [exact Hw|]. destruct (Hs _ replaced_folder_run) as (j & He & Ht & Hy & Hd).
  exists j. split; [|exact (conj Ht (conj Hy Hd))]. rewrite He. apply lookup_insert_eq.
Defined.

(** ** A new key *)

Definition new_key_options : InitKeyOptions :=
  {| privateKeyFile := home ++ B "/new.key"; publicKeyFile := Some (home ++ B "/new.pub") |}.

Definition key_made : state workstation := (runInitKey 100 new_key_options at_desk).2.

Lemma key_made_run : runInitKey 100 new_key_options at_desk = (Done (Ok tt), key_made).
Proof. run_here. Qed.

#[local] Existing Instance sample_hex.

Lemma sample_hex_reads b : hex_decode (hexEncode b) = Ok b.
Proof.
  induction b as [|c b IH]; [done|].
  change (hexEncode (c :: b)) with ([hex_digit_of (byte_val c / 16); hex_digit_of (byte_val c mod 16)] ++ hexEncode b).
  replace [hex_digit_of (byte_val c / 16); hex_digit_of (byte_val c mod 16)] with (hex_byte c) by by destruct c.
  cbn [hex_decode sample_hex] in *. by rewrite unhex_byte, IH.
Qed.

(** A pair of digits may be a sign and a digit for [UInt8(_, radix: 16)], so a
    key of the agent need not be hexadecimal; the helper refuses such a text. *)
Example signed_pairs_are_read : hexDecode (B "+1-0") = Ok [x01; x00].
Proof. vm_compute. reflexivity. Qed.


(** ** The runtime of the configuration *)

#[local] Existing Instance plain_crypto.

Definition load_runtime : M workstation AgentError (AgentConfig.t * AgentRuntime (W := workstation)) :=
  let! config := loadAgentConfig config_path in
  let! runtime := runtime_from config in
  ret (config, runtime).

Definition desk_loaded : AgentConfig.t * AgentRuntime (W := workstation) :=
  match (load_runtime at_desk).1 with
  | Done (Ok r) => r
  | _ => (desk_config, {| hostVerifiers := ∅; agentPrivateKey := (sample_sk x00 : PrivateKey (W := workstation));
            agentKeyId := []; allowedFutureSkewMs := 0; requireConfirmation := true; rateLimiter := RateLimiter.init 0 0 |})
  end.

Definition loaded_end : state workstation := (load_runtime at_desk).2.

(** Both hosts, and the key of the file. *)
Example desk_hosts : fst <$> map_to_list (hostVerifiers desk_loaded.2) = [B "host-xyz"; B "host-abc"].
Proof. vm_compute. reflexivity. Qed.

Lemma loaded_run : load_runtime at_desk = (Done (Ok (desk_loaded.1, desk_loaded.2)), loaded_end).
Proof. unfold loaded_end. apply run_to. vm_compute. reflexivity. Qed.


(** ** A host is added *)

Definition add_options : HostsOptions :=
  {| ho_command := B "add"; ho_configPath := config_path; ho_hostId := Some (B "host-new");
     ho_publicKeyHex := None; ho_publicKeyFile := Some (home ++ B "/new.pub") |}.

Definition host_added : state workstation := (runHosts 100 add_options at_desk).2.

Lemma host_added_run : runHosts 100 add_options at_desk = (Done (Ok tt), host_added).
Proof. run_here. Qed.

Definition added_folder : folder := default (home_folder []) (folder_run (home_folder config_text) (log host_added)).

Lemma added_folder_run : folder_run (home_folder config_text) (log host_added) = Some added_folder.
Proof. vm_compute. reflexivity. Qed.

Lemma hosts_edits_the_file_witness : exists config config',
  loaded_from config_path config (log host_added) /\
  hosts_edit add_options (B "host-new") (AgentConfig.host_list config) (AgentConfig.host_list config') /\
  exists j data, entries added_folder !! B "agent.json" = Some j /\ texts added_folder !! j = Some data /\
    j ∈ synced added_folder /\ decode_config data = Some config'.
Proof.
  destruct (hosts_edits_the_file 100 add_options at_desk host_added host_added_run ltac:(by intros [=]))
    as (id & config & config' & evs & Hid & M & Hl & He & _ & _ & Hf).
  injection Hid as <-. pose proof (made_inj _ _ _ _ M (made_from_nothing at_desk host_added eq_refl)) as ->.
  exists config, config'. split; [exact Hl|]. split; [exact He|].
  destruct (Hf (home_folder config_text) added_folder 2 config_text eq_refl eq_refl eq_refl added_folder_run)
    as (j & data & Hj & Ht & Hy & Hd).
  exists j, data. split; [|exact (conj Ht (conj Hy Hd))]. rewrite Hj. apply lookup_insert_eq.
Defined.

(** ** The socket takes the place of a stale one *)

Definition listening : outcome (result Listener AgentError) * state workstation :=
  UnixSocketListener_init socket_path at_desk.

Definition desk_listener : Listener :=
  match listening.1 with Done (Ok l) => l | _ => {| l_fd := None; l_path := []; l_identity := None |} end.

Lemma listening_run : UnixSocketListener_init socket_path at_desk = (Done (Ok desk_listener), listening.2).
Proof. apply run_to. vm_compute. reflexivity. Qed.

Definition unlinked (evs : list event) : nat :=
  length (List.filter (fun e => match e with EvUnlink _ (Ok _) => true | _ => false end) evs).

(** The stale socket goes, and at the end the new one. *)
Example one_stale_socket : unlinked (log listening.2) = 1%nat.
Proof. vm_compute. reflexivity. Qed.
Example then_its_own : unlinked (log (closeAndUnlink desk_listener listening.2).2) = 2%nat.
Proof. vm_compute. reflexivity. Qed.

(** Its first removal, and the calls before it. *)
Lemma listener_touches_only_its_socket_witness :
  match drop 11 (log listening.2) with
  | EvUnlink p r :: _ => r = Ok tt /\ removable (take 11 (log listening.2)) p = true
  | _ => False
  end.
Proof.
  assert (log listening.2 = take 11 (log listening.2) ++ drop 11 (log listening.2)) as Hs by by rewrite take_drop.
  assert (exists p post, drop 11 (log listening.2) = EvUnlink p (Ok tt) :: post) as (p & post & Hd).
  { vm_compute. by eexists _, _. }
  rewrite Hd in Hs |- *. split; [done|].
  exact (proj1 (listener_touches_only_its_socket socket_path at_desk listening.2 (Done (Ok desk_listener))
    (log listening.2) listening_run (made_from_nothing at_desk listening.2 eq_refl)) _ _ _ Hs).
Defined.

(** ** Two connections at the same time *)

(** The calls of a connection before it takes its turn. *)
Fixpoint before_turn (evs : list event) : list event :=
  match evs with
  | [] => []
  | EvMac (EvSlot _) :: _ => []
  | e :: evs => e :: before_turn evs
  end.

(** The second connection is read while the first one is served, and takes its
    turn after it. *)
Definition two_connections : list (N * event) :=
  let calls := log desk_end in
  map (pair 2) (before_turn calls) ++ map (pair 1) calls ++ map (pair 2) (drop (length (before_turn calls)) calls).

(** The calls up to where the first one asks the user. *)
Definition before_question : list (N * event) := take 50 two_connections.

Lemma one_session_at_a_time_witness :
  match drop 50 two_connections with
  | (p, e) :: _ => p = 1 /\ on_session e /\ turn_of 2 before_question = Some Waiting
  | [] => False
  end.
Proof.
  destruct (drop 50 two_connections) as [|[p e] post] eqn:Hd; [vm_compute in Hd; discriminate|].
  assert (p = 1 /\ on_session e) as [-> He] by (vm_compute in Hd; injection Hd as <- <- <-; vm_compute; tauto).
  split_and!; [done|exact He|].
  refine (one_session_at_a_time (W := mac) two_connections 1 _ _ before_question 1 e post _ He 2 ltac:(done));
    [|vm_compute; reflexivity|unfold before_question; by rewrite <- Hd, take_drop].
  intros p. exists 100%nat, 9, kit_runtime, 15000000000, desk_start, desk_end, (Done (Ok tt)).
  destruct (decide (p = 1 \/ p = 2)) as [Hp|Hp].
  - exists []. split; [exact desk_run|].
    replace (calls_of p two_connections ++ []) with (log desk_end); [exact (made_from_nothing desk_start desk_end eq_refl)|].
    destruct Hp as [-> | ->]; vm_compute; reflexivity.
  - exists (log desk_end). split; [exact desk_run|].
    replace (calls_of p two_connections) with (@nil event); [exact (made_from_nothing desk_start desk_end eq_refl)|].
    unfold two_connections. rewrite !calls_of_app.
    assert (forall r (evs : list event), r <> p -> calls_of p (map (pair r) evs) = []) as Hno.
    { intros r evs Hr. induction evs as [|e' evs IH]; [done|]. unfold calls_of in *. cbn.
      by rewrite (proj2 (N.eqb_neq _ _)) by done. }
    by rewrite !Hno by (intros <-; tauto).
Defined.

(** ** A server with one connection *)

Definition always (f : fd) (r : result unit AgentError) : Prop := r = Ok tt.

Definition served_one : server := Server (Submitting 9) 8 [] None None.

Lemma one_accepted once : server_run once always serve_start [Accepted 9] served_one.
Proof. apply (run_snoc once always serve_start [] serve_start (Accepted 9)); constructor. Qed.


Definition once_labels : list server_label :=
  [Accepted 9; Internal; Internal; Internal; Internal; Closed 9; Internal; Internal].
Definition once_end : server := Server Finished 8 [] (Some (Ok tt)) (Some (Ok tt)).

Lemma once_end_run : server_run true always serve_start once_labels once_end.
Proof.
  unfold once_labels, once_end.
  apply (run_snoc true always serve_start (take 7 once_labels) (Server Finished 8 [] (Some (Ok tt)) None)); [|constructor].
  apply (run_snoc true always serve_start (take 6 once_labels) (Server Finished 7 ([] ++ (9, Signalling) :: []) (Some (Ok tt)) None));
    [|apply (worker_signals true always Finished 7 [] 9 [])].
  apply (run_snoc true always serve_start (take 5 once_labels) (Server Finished 7 ([] ++ (9, Closing) :: []) (Some (Ok tt)) None));
    [|constructor].
  apply (run_snoc true always serve_start (take 4 once_labels) (Server Finished 7 ([] ++ (9, Completing) :: []) None None));
    [|apply (worker_completes true always Finished 7 [] 9 [] None None)].
  apply (run_snoc true always serve_start (take 3 once_labels) (Server Finished 7 ([] ++ (9, Handling) :: []) None None));
    [|by apply (worker_handled true always Finished 7 [] 9 [] None None (Ok tt))].
  apply (run_snoc true always serve_start (take 2 once_labels) (Server Finished 7 ([] ++ (9, Queued) :: []) None None));
    [|constructor].
  apply (run_snoc true always serve_start [Accepted 9] served_one); [exact (one_accepted true)|].
  apply (submit_admitted true always 9 7 []).
Qed.


(** ** A command line *)

(** [hosts add] without a key. *)
Definition incomplete_line : list bytes := [B "hosts"; B "add"; B "--config"; config_path; B "--host-id"; B "host-new"].

Definition no_server : Listener -> bool -> Handler (W := workstation) -> M workstation AgentError unit :=
  fun _ _ _ => ret tt.


(** With a key it edits the configuration, and [serve] opens the socket and closes it. *)
Example complete_line :
  (agent_main no_server 100 (incomplete_line ++ [B "--public-key-file"; home ++ B "/new.pub"]) at_desk).1 = Done (Ok 0).
Proof. vm_compute. reflexivity. Qed.
Example serve_line :
  unlinked (log (agent_main no_server 100 [B "serve"; B "--once"; B "--config"; config_path] at_desk).2) = 2%nat.
Proof. vm_compute. reflexivity. Qed.
